(** * Resource cache, descriptor machinery and record/replay of the
      Vulkan framework: a shallow embedding and its verified properties.

    The development follows the C++ sources:
    - [framework/core/DescriptorSetLayout.cpp]
    - [framework/core/DescriptorPool.cpp]
    - [framework/core/DescriptorSet.cpp]
    - [framework/ResourceRecord.cpp]
    - [framework/ResourceCache.cpp]

    Unsigned 32-bit counters are integers in [Z] with their wrap-around
    written out, vectors are lists, [std::unordered_map] and [std::map] are
    finite maps or association lists in iteration order, driver calls are
    answers handed to the function together with the list of calls issued. *)

From Stdlib Require Import ZArith List Lia Bool.
From stdpp Require Import base option list gmap strings sorting.
From Equations Require Import Equations.

Local Open Scope Z_scope.

(** ** Common vocabulary *)

(** A C++ call either returns or throws. *)
Inductive result (E A : Type) : Type :=
| Ok (a : A)
| Throw (e : E).
Arguments Ok {E A} a.
Arguments Throw {E A} e.

Definition bind_result {E A B} (r : result E A) (k : A -> result E B) : result E B :=
  match r with
  | Ok a => k a
  | Throw e => Throw e
  end.

Notation "'try!' x ':=' r 'in' k" := (bind_result r (fun x => k))
  (at level 10, x name, r at level 100, k at level 200).

(** Driver result codes, as far as the sources distinguish them. *)
Inductive VkResult : Type :=
| VK_SUCCESS
| VK_INCOMPLETE
| VK_ERROR (code : Z).

#[global] Instance VkResult_eq_dec : EqDecision VkResult.
Proof. solve_decision. Defined.

(** Driver handles are opaque 64-bit values; the null handle is zero. *)
Abbreviation VkHandle := Z (only parsing).
Definition VK_NULL_HANDLE : VkHandle := 0.

(** [uint32_t] arithmetic wraps. *)
Definition u32 (x : Z) : Z := x mod 2 ^ 32.

Inductive VkDescriptorType : Type :=
| VK_DESCRIPTOR_TYPE_SAMPLER
| VK_DESCRIPTOR_TYPE_COMBINED_IMAGE_SAMPLER
| VK_DESCRIPTOR_TYPE_SAMPLED_IMAGE
| VK_DESCRIPTOR_TYPE_STORAGE_IMAGE
| VK_DESCRIPTOR_TYPE_UNIFORM_TEXEL_BUFFER
| VK_DESCRIPTOR_TYPE_STORAGE_TEXEL_BUFFER
| VK_DESCRIPTOR_TYPE_UNIFORM_BUFFER
| VK_DESCRIPTOR_TYPE_STORAGE_BUFFER
| VK_DESCRIPTOR_TYPE_UNIFORM_BUFFER_DYNAMIC
| VK_DESCRIPTOR_TYPE_STORAGE_BUFFER_DYNAMIC
| VK_DESCRIPTOR_TYPE_INPUT_ATTACHMENT.

#[global] Instance VkDescriptorType_eq_dec : EqDecision VkDescriptorType.
Proof. solve_decision. Defined.

(** The numeric value of the enumerator, which orders a
    [std::map<VkDescriptorType, _>]. *)
Definition descriptor_type_code (t : VkDescriptorType) : Z :=
  match t with
  | VK_DESCRIPTOR_TYPE_SAMPLER => 0
  | VK_DESCRIPTOR_TYPE_COMBINED_IMAGE_SAMPLER => 1
  | VK_DESCRIPTOR_TYPE_SAMPLED_IMAGE => 2
  | VK_DESCRIPTOR_TYPE_STORAGE_IMAGE => 3
  | VK_DESCRIPTOR_TYPE_UNIFORM_TEXEL_BUFFER => 4
  | VK_DESCRIPTOR_TYPE_STORAGE_TEXEL_BUFFER => 5
  | VK_DESCRIPTOR_TYPE_UNIFORM_BUFFER => 6
  | VK_DESCRIPTOR_TYPE_STORAGE_BUFFER => 7
  | VK_DESCRIPTOR_TYPE_UNIFORM_BUFFER_DYNAMIC => 8
  | VK_DESCRIPTOR_TYPE_STORAGE_BUFFER_DYNAMIC => 9
  | VK_DESCRIPTOR_TYPE_INPUT_ATTACHMENT => 10
  end.

Definition VK_DESCRIPTOR_BINDING_UPDATE_AFTER_BIND_BIT_EXT : Z := 1.
Definition VK_DESCRIPTOR_SET_LAYOUT_CREATE_UPDATE_AFTER_BIND_POOL_BIT_EXT : Z := 2.
Definition VK_DESCRIPTOR_POOL_CREATE_UPDATE_AFTER_BIND_BIT_EXT : Z := 2.

(** [emplace] of the standard maps: inserts only when the key is absent. *)
Definition emplace `{Countable K} {V} (k : K) (v : V) (m : gmap K V) : gmap K V :=
  match m !! k with
  | Some _ => m
  | None => <[k:=v]> m
  end.

(** ** Descriptor set layout ([DescriptorSetLayout.cpp]) *)

Inductive ShaderResourceType : Type :=
| Input
| InputAttachment
| Output
| Image
| ImageSampler
| ImageStorage
| Sampler
| BufferUniform
| BufferStorage
| PushConstant
| SpecializationConstant
| All.

Inductive ShaderResourceMode : Type :=
| Static
| Dynamic
| UpdateAfterBind.

#[global] Instance ShaderResourceMode_eq_dec : EqDecision ShaderResourceMode.
Proof. solve_decision. Defined.

Record ShaderResource : Type := {
  res_stages : Z;
  res_type : ShaderResourceType;
  res_mode : ShaderResourceMode;
  res_binding : Z;
  res_array_size : Z;
  res_name : string
}.

Record VkDescriptorSetLayoutBinding : Type := {
  binding : Z;
  descriptorType : VkDescriptorType;
  descriptorCount : Z;
  stageFlags : Z
}.

Record VkDescriptorSetLayoutCreateInfo : Type := {
  ci_flags : Z;
  ci_pBindings : list VkDescriptorSetLayoutBinding;
  (* the chained VkDescriptorSetLayoutBindingFlagsCreateInfoEXT, if any *)
  ci_pNext : option (list Z)
}.

Inductive LayoutError : Type :=
| NoConversionPossible
| DynamicWithUpdateAfterBind
| InvalidBinding
| VulkanException (r : VkResult).

Record DescriptorSetLayout : Type := {
  m_handle : VkHandle;
  m_setIndex : Z;
  m_bindings : list VkDescriptorSetLayoutBinding;
  m_bindingFlags : list Z;
  m_bindingsLookup : gmap Z VkDescriptorSetLayoutBinding;
  m_bindingFlagsLookup : gmap Z Z;
  m_resourcesLookup : gmap string Z;
  m_shaderModules : list VkHandle
}.

Definition FindDescriptorType (resourceType : ShaderResourceType) (isDynamic : bool)
  : result LayoutError VkDescriptorType :=
  match resourceType with
  | InputAttachment => Ok VK_DESCRIPTOR_TYPE_INPUT_ATTACHMENT
  | Image => Ok VK_DESCRIPTOR_TYPE_SAMPLED_IMAGE
  | ImageSampler => Ok VK_DESCRIPTOR_TYPE_COMBINED_IMAGE_SAMPLER
  | ImageStorage => Ok VK_DESCRIPTOR_TYPE_STORAGE_IMAGE
  | Sampler => Ok VK_DESCRIPTOR_TYPE_SAMPLER
  | BufferUniform =>
      if isDynamic then Ok VK_DESCRIPTOR_TYPE_UNIFORM_BUFFER_DYNAMIC
      else Ok VK_DESCRIPTOR_TYPE_UNIFORM_BUFFER
  | BufferStorage =>
      if isDynamic then Ok VK_DESCRIPTOR_TYPE_STORAGE_BUFFER_DYNAMIC
      else Ok VK_DESCRIPTOR_TYPE_STORAGE_BUFFER
  | _ => Throw NoConversionPossible
  end.

Definition ValidateBinding (b : VkDescriptorSetLayoutBinding) (blacklist : list VkDescriptorType) : bool :=
  negb (existsb (fun t => bool_decide (t = descriptorType b)) blacklist).

Definition ValidateFlags (bindings : list VkDescriptorSetLayoutBinding) (flags : list Z) : bool :=
  match flags with
  | [] => true
  | _ => if decide (length bindings <> length flags) then false else true
  end.

(** Resources the constructor's loop skips with [continue]. *)
Definition without_binding_point (t : ShaderResourceType) : bool :=
  match t with
  | Input | Output | PushConstant | SpecializationConstant => true
  | _ => false
  end.

Definition is_mode (m : ShaderResourceMode) (r : ShaderResource) : bool :=
  bool_decide (res_mode r = m).

(** One iteration of the constructor's loop over [resourceSet]. *)
Definition add_resource (resource : ShaderResource) (l : DescriptorSetLayout)
  : result LayoutError DescriptorSetLayout :=
  if without_binding_point (res_type resource) then Ok l
  else
    try! descriptor_type := FindDescriptorType (res_type resource) (is_mode Dynamic resource) in
    let flag := if is_mode UpdateAfterBind resource
                then VK_DESCRIPTOR_BINDING_UPDATE_AFTER_BIND_BIT_EXT else 0 in
    let layout_binding :=
      {| binding := res_binding resource;
         descriptorType := descriptor_type;
         descriptorCount := res_array_size resource;
         stageFlags := res_stages resource |} in
    Ok {| m_handle := m_handle l;
          m_setIndex := m_setIndex l;
          m_bindings := m_bindings l ++ [layout_binding];
          m_bindingFlags := m_bindingFlags l ++ [flag];
          m_bindingsLookup := emplace (res_binding resource) layout_binding (m_bindingsLookup l);
          m_bindingFlagsLookup := emplace (res_binding resource) flag (m_bindingFlagsLookup l);
          m_resourcesLookup := emplace (res_name resource) (res_binding resource) (m_resourcesLookup l);
          m_shaderModules := m_shaderModules l |}.

Fixpoint add_resources (resourceSet : list ShaderResource) (l : DescriptorSetLayout)
  : result LayoutError DescriptorSetLayout :=
  match resourceSet with
  | [] => Ok l
  | resource :: rest => try! l' := add_resource resource l in add_resources rest l'
  end.

(** The update-after-bind block of the constructor: [None] when nothing is
    thrown, together with the create-info it leaves behind. *)
Definition update_after_bind_info (resourceSet : list ShaderResource)
    (bindings : list VkDescriptorSetLayoutBinding) (flags : list Z)
  : result LayoutError VkDescriptorSetLayoutCreateInfo :=
  if existsb (is_mode UpdateAfterBind) resourceSet then
    if existsb (is_mode Dynamic) resourceSet then Throw DynamicWithUpdateAfterBind
    else if negb (ValidateFlags bindings flags) then Throw InvalidBinding
    else Ok {| ci_flags :=
                 Z.lor 0 (if existsb (Z.eqb VK_DESCRIPTOR_BINDING_UPDATE_AFTER_BIND_BIT_EXT) flags
                          then VK_DESCRIPTOR_SET_LAYOUT_CREATE_UPDATE_AFTER_BIND_POOL_BIT_EXT
                          else 0);
               ci_pBindings := bindings;
               ci_pNext := Some flags |}
  else Ok {| ci_flags := 0; ci_pBindings := bindings; ci_pNext := None |}.

(** The members as the constructor's initialiser list leaves them. *)
Definition empty_layout (setIndex : Z) (shaderModules : list VkHandle) : DescriptorSetLayout :=
  {| m_handle := VK_NULL_HANDLE; m_setIndex := setIndex;
     m_bindings := []; m_bindingFlags := [];
     m_bindingsLookup := ∅; m_bindingFlagsLookup := ∅; m_resourcesLookup := ∅;
     m_shaderModules := shaderModules |}.

Section DescriptorSetLayoutConstruction.

(** The driver's answer to [vkCreateDescriptorSetLayout]. *)
Variable vkCreateDescriptorSetLayout : VkDescriptorSetLayoutCreateInfo -> VkResult * VkHandle.

Definition new_DescriptorSetLayout (setIndex : Z) (shaderModules : list VkHandle)
    (resourceSet : list ShaderResource) : result LayoutError DescriptorSetLayout :=
  try! l := add_resources resourceSet (empty_layout setIndex shaderModules) in
  try! create_info := update_after_bind_info resourceSet (m_bindings l) (m_bindingFlags l) in
  let '(r, handle) := vkCreateDescriptorSetLayout create_info in
  if decide (r <> VK_SUCCESS) then Throw (VulkanException r)
  else Ok {| m_handle := handle; m_setIndex := m_setIndex l;
             m_bindings := m_bindings l; m_bindingFlags := m_bindingFlags l;
             m_bindingsLookup := m_bindingsLookup l;
             m_bindingFlagsLookup := m_bindingFlagsLookup l;
             m_resourcesLookup := m_resourcesLookup l;
             m_shaderModules := m_shaderModules l |}.

End DescriptorSetLayoutConstruction.

Definition GetLayoutBinding (l : DescriptorSetLayout) (bindingIndex : Z)
  : option VkDescriptorSetLayoutBinding :=
  m_bindingsLookup l !! bindingIndex.

Definition GetLayoutBindingByName (l : DescriptorSetLayout) (name : string)
  : option VkDescriptorSetLayoutBinding :=
  match m_resourcesLookup l !! name with
  | None => None
  | Some b => GetLayoutBinding l b
  end.

Definition GetLayoutBindingFlag (l : DescriptorSetLayout) (bindingIndex : Z) : Z :=
  match m_bindingFlagsLookup l !! bindingIndex with
  | None => 0
  | Some f => f
  end.

(** ** Descriptor pool ([DescriptorPool.cpp]) *)

Record VkDescriptorPoolSize : Type := {
  ps_type : VkDescriptorType;
  ps_descriptorCount : Z
}.

Record VkDescriptorPoolCreateInfo : Type := {
  pci_flags : Z;
  pci_maxSets : Z;
  pci_pPoolSizes : list VkDescriptorPoolSize
}.

(** Calls the pool issues to the driver. *)
Inductive PoolCall : Type :=
| vkCreateDescriptorPool (create_info : VkDescriptorPoolCreateInfo)
| vkAllocateDescriptorSets (descriptorPool : VkHandle) (setLayout : VkHandle)
| vkFreeDescriptorSets (descriptorPool : VkHandle) (descriptorSet : VkHandle)
| vkResetDescriptorPool (descriptorPool : VkHandle).

Record DescriptorPool : Type := {
  m_descriptorSetLayout : DescriptorSetLayout;
  m_poolSizes : list VkDescriptorPoolSize;
  m_poolMaxSets : Z;
  m_pools : list VkHandle;
  m_poolSetsCount : list Z;
  m_poolIndex : nat;
  m_setPoolMapping : gmap Z nat
}.

Definition set_pools (pools : list VkHandle) (counts : list Z) (p : DescriptorPool) : DescriptorPool :=
  {| m_descriptorSetLayout := m_descriptorSetLayout p; m_poolSizes := m_poolSizes p;
     m_poolMaxSets := m_poolMaxSets p; m_pools := pools; m_poolSetsCount := counts;
     m_poolIndex := m_poolIndex p; m_setPoolMapping := m_setPoolMapping p |}.

Definition set_poolSetsCount (counts : list Z) (p : DescriptorPool) : DescriptorPool :=
  set_pools (m_pools p) counts p.

Definition set_poolIndex (i : nat) (p : DescriptorPool) : DescriptorPool :=
  {| m_descriptorSetLayout := m_descriptorSetLayout p; m_poolSizes := m_poolSizes p;
     m_poolMaxSets := m_poolMaxSets p; m_pools := m_pools p; m_poolSetsCount := m_poolSetsCount p;
     m_poolIndex := i; m_setPoolMapping := m_setPoolMapping p |}.

Definition set_setPoolMapping (m : gmap Z nat) (p : DescriptorPool) : DescriptorPool :=
  {| m_descriptorSetLayout := m_descriptorSetLayout p; m_poolSizes := m_poolSizes p;
     m_poolMaxSets := m_poolMaxSets p; m_pools := m_pools p; m_poolSetsCount := m_poolSetsCount p;
     m_poolIndex := m_poolIndex p; m_setPoolMapping := m |}.

(** [descriptorTypeCounts[type] += count] on the ordered
    [std::map<VkDescriptorType, uint32_t>], kept in key order. *)
Fixpoint add_type_count (t : VkDescriptorType) (n : Z) (counts : list (VkDescriptorType * Z))
  : list (VkDescriptorType * Z) :=
  match counts with
  | [] => [(t, u32 (0 + n))]
  | (t', c) :: rest =>
      if decide (t = t') then (t', u32 (c + n)) :: rest
      else if descriptor_type_code t <? descriptor_type_code t' then (t, u32 (0 + n)) :: counts
      else (t', c) :: add_type_count t n rest
  end.

Definition new_DescriptorPool (descriptorSetLayout : DescriptorSetLayout) (poolSize : Z) : DescriptorPool :=
  let descriptorTypeCounts :=
    fold_left (fun counts b => add_type_count (descriptorType b) (descriptorCount b) counts)
              (m_bindings descriptorSetLayout) [] in
  {| m_descriptorSetLayout := descriptorSetLayout;
     m_poolSizes := map (fun it => {| ps_type := fst it; ps_descriptorCount := u32 (snd it * poolSize) |})
                        descriptorTypeCounts;
     m_poolMaxSets := poolSize;
     m_pools := [];
     m_poolSetsCount := [];
     m_poolIndex := 0%nat;
     m_setPoolMapping := ∅ |}.

Definition Reset (p : DescriptorPool) : DescriptorPool * list PoolCall :=
  ({| m_descriptorSetLayout := m_descriptorSetLayout p; m_poolSizes := m_poolSizes p;
      m_poolMaxSets := m_poolMaxSets p; m_pools := m_pools p;
      m_poolSetsCount := map (fun _ => 0) (m_poolSetsCount p);
      m_poolIndex := 0%nat; m_setPoolMapping := ∅ |},
   map vkResetDescriptorPool (m_pools p)).

Definition pool_create_info (p : DescriptorPool) : VkDescriptorPoolCreateInfo :=
  {| pci_flags :=
       fold_left (fun flags bindingFlag =>
                    if Z.land bindingFlag VK_DESCRIPTOR_BINDING_UPDATE_AFTER_BIND_BIT_EXT =? 0
                    then flags
                    else Z.lor flags VK_DESCRIPTOR_POOL_CREATE_UPDATE_AFTER_BIND_BIT_EXT)
                 (m_bindingFlags (m_descriptorSetLayout p)) 0;
     pci_maxSets := m_poolMaxSets p;
     pci_pPoolSizes := m_poolSizes p |}.

(** [FindAvailablePool] returns the index it settles on.  [create_answer]
    is the driver's answer to [vkCreateDescriptorPool], consulted only when
    the call is made.  Reading a vector out of range is undefined behaviour in
    the source and [None] here.  The search index stays below the number of
    sub-pools while the probe advances, so its 32-bit wrap never shows. *)
Equations? FindAvailablePool (create_answer : VkResult * VkHandle) (p : DescriptorPool)
    (searchIndex : nat) : option (DescriptorPool * nat * list PoolCall)
    by wf (length (m_pools p) - searchIndex)%nat lt :=
FindAvailablePool create_answer p searchIndex with decide (length (m_pools p) <= searchIndex)%nat => {
  | left _ =>
      let call := vkCreateDescriptorPool (pool_create_info p) in
      if decide (fst create_answer <> VK_SUCCESS) then Some (p, 0%nat, [call])
      else Some (set_pools (m_pools p ++ [snd create_answer]) (m_poolSetsCount p ++ [0]) p,
                 searchIndex, [call]);
  | right _ with m_poolSetsCount p !! searchIndex => {
      | None => None;
      | Some c with decide (c < m_poolMaxSets p) => {
          | left _ => Some (p, searchIndex, []);
          | right _ => FindAvailablePool create_answer p (S searchIndex) } } }.
Proof. lia. Qed.

(** [alloc_answer] is the driver's answer to [vkAllocateDescriptorSets]. *)
Definition AllocateDescriptorSet (create_answer alloc_answer : VkResult * VkHandle)
    (p : DescriptorPool) : option (DescriptorPool * VkHandle * list PoolCall) :=
  match FindAvailablePool create_answer p (m_poolIndex p) with
  | None => None
  | Some (p1, index, calls) =>
      let p2 := set_poolIndex index p1 in
      match m_poolSetsCount p2 !! index, m_pools p2 !! index with
      | Some c, Some pool =>
          let p3 := set_poolSetsCount (<[index := u32 (c + 1)]> (m_poolSetsCount p2)) p2 in
          let call := vkAllocateDescriptorSets pool (m_handle (m_descriptorSetLayout p3)) in
          if decide (fst alloc_answer <> VK_SUCCESS) then
            Some (set_poolSetsCount (<[index := u32 (u32 (c + 1) - 1)]> (m_poolSetsCount p3)) p3,
                  VK_NULL_HANDLE, calls ++ [call])
          else
            Some (set_setPoolMapping (emplace (snd alloc_answer) index (m_setPoolMapping p3)) p3,
                  snd alloc_answer, calls ++ [call])
      | _, _ => None
      end
  end.

Definition FreeDescriptorSet (p : DescriptorPool) (descriptorSet : VkHandle)
  : option (DescriptorPool * VkResult * list PoolCall) :=
  match m_setPoolMapping p !! descriptorSet with
  | None => Some (p, VK_INCOMPLETE, [])
  | Some descPoolIndex =>
      match m_pools p !! descPoolIndex, m_poolSetsCount p !! descPoolIndex with
      | Some pool, Some c =>
          Some (set_poolIndex descPoolIndex
                  (set_poolSetsCount (<[descPoolIndex := u32 (c - 1)]> (m_poolSetsCount p))
                     (set_setPoolMapping (delete descriptorSet (m_setPoolMapping p)) p)),
                VK_SUCCESS,
                [vkFreeDescriptorSets pool descriptorSet])
      | _, _ => None
      end
  end.

(** ** Descriptor set ([DescriptorSet.cpp]) *)

Record VkDescriptorBufferInfo : Type := {
  buffer : VkHandle;
  offset : Z;
  range : Z
}.

Record VkDescriptorImageInfo : Type := {
  sampler : VkHandle;
  imageView : VkHandle;
  imageLayout : Z
}.

(** [BindingMap<T>] is [std::map<uint32_t, std::map<uint32_t, T>>]: binding
    number, then array element; the lists hold the entries in iteration
    order. *)
Abbreviation BindingMap T := (list (Z * list (Z * T))).

Fixpoint assoc {T : Type} (k : Z) (l : list (Z * T)) : option T :=
  match l with
  | [] => None
  | (k', v) :: rest => if decide (k = k') then Some v else assoc k rest
  end.

Definition lookup_info {T : Type} (m : BindingMap T) (b e : Z) : option T :=
  match assoc b m with
  | Some elements => assoc e elements
  | None => None
  end.

(** What [pBufferInfo] or [pImageInfo] of a write points at: an element of
    the set's own [m_bufferInfos] or [m_imageInfos], so a later change of
    that element shows through the write. *)
Inductive InfoRef : Type :=
| BufferInfoRef (bindingIndex arrayElement : Z)
| ImageInfoRef (bindingIndex arrayElement : Z).

Record VkWriteDescriptorSet : Type := {
  dstSet : VkHandle;
  dstBinding : Z;
  dstArrayElement : Z;
  writeDescriptorCount : Z;
  writeDescriptorType : VkDescriptorType;
  pInfo : InfoRef
}.

(** A write as the driver and the hasher read it: the pointer followed. *)
Inductive InfoData : Type :=
| BufferData (info : option VkDescriptorBufferInfo)
| ImageData (info : option VkDescriptorImageInfo).

Record WriteData : Type := {
  wd_dstSet : VkHandle;
  wd_dstBinding : Z;
  wd_dstArrayElement : Z;
  wd_descriptorCount : Z;
  wd_descriptorType : VkDescriptorType;
  wd_info : InfoData
}.

Record VkPhysicalDeviceLimits : Type := {
  maxUniformBufferRange : Z;
  maxStorageBufferRange : Z
}.

Inductive Diagnostic : Type :=
| LOGW_AlreadyPrepared
| LOGW_ResetWithoutInfos
| LOGE_UniformRangeExceeded (setIndex bindingIndex bufferRange limit : Z)
| LOGE_StorageRangeExceeded (setIndex bindingIndex bufferRange limit : Z)
| LOGE_NoBufferBinding (bindingIndex : Z)
| LOGE_NoImageBinding (bindingIndex : Z).

Inductive SetCall : Type :=
| vkUpdateDescriptorSets (writes : list WriteData).

Record DescriptorSet : Type := {
  m_setLayout : DescriptorSetLayout;
  m_bufferInfos : BindingMap VkDescriptorBufferInfo;
  m_imageInfos : BindingMap VkDescriptorImageInfo;
  m_setHandle : VkHandle;
  m_writeDescriptorSets : list VkWriteDescriptorSet;
  m_updatedBindings : gmap Z Z
}.

Definition is_uniform_buffer (t : VkDescriptorType) : bool :=
  match t with
  | VK_DESCRIPTOR_TYPE_UNIFORM_BUFFER | VK_DESCRIPTOR_TYPE_UNIFORM_BUFFER_DYNAMIC => true
  | _ => false
  end.

Definition is_storage_buffer (t : VkDescriptorType) : bool :=
  match t with
  | VK_DESCRIPTOR_TYPE_STORAGE_BUFFER | VK_DESCRIPTOR_TYPE_STORAGE_BUFFER_DYNAMIC => true
  | _ => false
  end.

(** The range [Prepare] leaves in a buffer info, and what it logs. *)
Definition clip_range (limits : VkPhysicalDeviceLimits) (setIndex bindingIndex : Z)
    (t : VkDescriptorType) (bufferRange : Z) : Z * list Diagnostic :=
  let uniformBufferRangeLimit := maxUniformBufferRange limits in
  let storageBufferRangeLimit := maxStorageBufferRange limits in
  if is_uniform_buffer t && (uniformBufferRangeLimit <? bufferRange) then
    (uniformBufferRangeLimit,
     [LOGE_UniformRangeExceeded setIndex bindingIndex bufferRange uniformBufferRangeLimit])
  else if is_storage_buffer t && (storageBufferRangeLimit <? bufferRange) then
    (storageBufferRangeLimit,
     [LOGE_StorageRangeExceeded setIndex bindingIndex bufferRange storageBufferRangeLimit])
  else (bufferRange, []).

(** The inner loop of [Prepare] over the array elements of one buffer
    binding: the elements with their ranges clipped, the writes pushed and
    the diagnostics logged. *)
Fixpoint prepare_buffer_elements (limits : VkPhysicalDeviceLimits) (setIndex : Z) (handle : VkHandle)
    (bindingIndex : Z) (bindingInfo : VkDescriptorSetLayoutBinding)
    (bufferBindings : list (Z * VkDescriptorBufferInfo))
  : list (Z * VkDescriptorBufferInfo) * list VkWriteDescriptorSet * list Diagnostic :=
  match bufferBindings with
  | [] => ([], [], [])
  | (arrayElement, bufferInfo) :: rest =>
      let '(bufferRangeLimit, log) :=
        clip_range limits setIndex bindingIndex (descriptorType bindingInfo) (range bufferInfo) in
      let bufferInfo' :=
        {| buffer := buffer bufferInfo; offset := offset bufferInfo; range := bufferRangeLimit |} in
      let write_descriptor_set :=
        {| dstSet := handle; dstBinding := bindingIndex; dstArrayElement := arrayElement;
           writeDescriptorCount := 1; writeDescriptorType := descriptorType bindingInfo;
           pInfo := BufferInfoRef bindingIndex arrayElement |} in
      let '(rest', writes, logs) :=
        prepare_buffer_elements limits setIndex handle bindingIndex bindingInfo rest in
      ((arrayElement, bufferInfo') :: rest', write_descriptor_set :: writes, log ++ logs)
  end.

(** The outer loop over all buffer bindings. *)
Fixpoint prepare_buffers (limits : VkPhysicalDeviceLimits) (layout : DescriptorSetLayout)
    (handle : VkHandle) (bufferInfos : BindingMap VkDescriptorBufferInfo)
  : BindingMap VkDescriptorBufferInfo * list VkWriteDescriptorSet * list Diagnostic :=
  match bufferInfos with
  | [] => ([], [], [])
  | (bindingIndex, bufferBindings) :: rest =>
      let '(bufferBindings', writes, logs) :=
        match GetLayoutBinding layout bindingIndex with
        | Some bindingInfo =>
            prepare_buffer_elements limits (m_setIndex layout) handle bindingIndex bindingInfo
              bufferBindings
        | None => (bufferBindings, [], [LOGE_NoBufferBinding bindingIndex])
        end in
      let '(rest', writes', logs') := prepare_buffers limits layout handle rest in
      ((bindingIndex, bufferBindings') :: rest', writes ++ writes', logs ++ logs')
  end.

Definition prepare_image_elements (handle : VkHandle) (bindingIndex : Z)
    (bindingInfo : VkDescriptorSetLayoutBinding) (bindingResources : list (Z * VkDescriptorImageInfo))
  : list VkWriteDescriptorSet :=
  map (fun elementIt =>
         {| dstSet := handle; dstBinding := bindingIndex; dstArrayElement := fst elementIt;
            writeDescriptorCount := 1; writeDescriptorType := descriptorType bindingInfo;
            pInfo := ImageInfoRef bindingIndex (fst elementIt) |})
      bindingResources.

Fixpoint prepare_images (layout : DescriptorSetLayout) (handle : VkHandle)
    (imageInfos : BindingMap VkDescriptorImageInfo)
  : list VkWriteDescriptorSet * list Diagnostic :=
  match imageInfos with
  | [] => ([], [])
  | (bindingIndex, bindingResources) :: rest =>
      let '(writes, logs) :=
        match GetLayoutBinding layout bindingIndex with
        | Some bindingInfo =>
            (prepare_image_elements handle bindingIndex bindingInfo bindingResources, [])
        | None => ([], [LOGE_NoImageBinding bindingIndex])
        end in
      let '(writes', logs') := prepare_images layout handle rest in
      (writes ++ writes', logs ++ logs')
  end.

Definition Prepare (limits : VkPhysicalDeviceLimits) (ds : DescriptorSet)
  : DescriptorSet * list Diagnostic :=
  match m_writeDescriptorSets ds with
  | _ :: _ => (ds, [LOGW_AlreadyPrepared])
  | [] =>
      let '(bufferInfos', bufferWrites, bufferLogs) :=
        prepare_buffers limits (m_setLayout ds) (m_setHandle ds) (m_bufferInfos ds) in
      let '(imageWrites, imageLogs) :=
        prepare_images (m_setLayout ds) (m_setHandle ds) (m_imageInfos ds) in
      ({| m_setLayout := m_setLayout ds;
          m_bufferInfos := bufferInfos';
          m_imageInfos := m_imageInfos ds;
          m_setHandle := m_setHandle ds;
          m_writeDescriptorSets := bufferWrites ++ imageWrites;
          m_updatedBindings := m_updatedBindings ds |},
       bufferLogs ++ imageLogs)
  end.

(** The constructor: a handle from the pool, then [Prepare]. *)
Definition new_DescriptorSet (limits : VkPhysicalDeviceLimits)
    (create_answer alloc_answer : VkResult * VkHandle)
    (descriptorSetLayout : DescriptorSetLayout) (descriptorPool : DescriptorPool)
    (bufferInfos : BindingMap VkDescriptorBufferInfo)
    (imageInfos : BindingMap VkDescriptorImageInfo)
  : option (DescriptorSet * DescriptorPool * list PoolCall * list Diagnostic) :=
  match AllocateDescriptorSet create_answer alloc_answer descriptorPool with
  | None => None
  | Some (descriptorPool', handle, calls) =>
      let '(ds, log) :=
        Prepare limits
          {| m_setLayout := descriptorSetLayout; m_bufferInfos := bufferInfos;
             m_imageInfos := imageInfos; m_setHandle := handle;
             m_writeDescriptorSets := []; m_updatedBindings := ∅ |} in
      Some (ds, descriptorPool', calls, log)
  end.

Definition ResetDescriptorSet (limits : VkPhysicalDeviceLimits)
    (newBufferInfos : BindingMap VkDescriptorBufferInfo)
    (newImageInfos : BindingMap VkDescriptorImageInfo) (ds : DescriptorSet)
  : DescriptorSet * list Diagnostic :=
  let '(bufferInfos, imageInfos, log) :=
    match newBufferInfos, newImageInfos with
    | [], [] => (m_bufferInfos ds, m_imageInfos ds, [LOGW_ResetWithoutInfos])
    | _, _ => (newBufferInfos, newImageInfos, [])
    end in
  let '(ds', log') :=
    Prepare limits
      {| m_setLayout := m_setLayout ds; m_bufferInfos := bufferInfos; m_imageInfos := imageInfos;
         m_setHandle := m_setHandle ds; m_writeDescriptorSets := []; m_updatedBindings := ∅ |} in
  (ds', log ++ log').

(** Following the pointer of a write into the set's binding maps. *)
Definition resolve (ds : DescriptorSet) (w : VkWriteDescriptorSet) : WriteData :=
  {| wd_dstSet := dstSet w; wd_dstBinding := dstBinding w;
     wd_dstArrayElement := dstArrayElement w; wd_descriptorCount := writeDescriptorCount w;
     wd_descriptorType := writeDescriptorType w;
     wd_info := match pInfo w with
                | BufferInfoRef b e => BufferData (lookup_info (m_bufferInfos ds) b e)
                | ImageInfoRef b e => ImageData (lookup_info (m_imageInfos ds) b e)
                end |}.

Section DescriptorSetUpdate.

(** [hash_param] on a write-descriptor entry, from [resource_caching.h]. *)
Variable hash_write : WriteData -> Z.

(** The test both loops of [Update] apply to a write: no hash on record for
    its binding, or a different one. *)
Definition needs_update (updatedBindings : gmap Z Z) (bindingIndex writeOperationHash : Z) : bool :=
  match updatedBindings !! bindingIndex with
  | None => true
  | Some h => negb (h =? writeOperationHash)
  end.

(** One loop of [Update] over [m_writeDescriptorSets]; [selected] is the
    condition the second loop adds ([std::find] in [bindingsToUpdate]). *)
Fixpoint collect_writes (ds : DescriptorSet) (selected : VkWriteDescriptorSet -> bool)
    (writes : list VkWriteDescriptorSet) : list (VkWriteDescriptorSet * Z) :=
  match writes with
  | [] => []
  | writeOperation :: rest =>
      if selected writeOperation then
        let writeOperationHash := hash_write (resolve ds writeOperation) in
        if needs_update (m_updatedBindings ds) (dstBinding writeOperation) writeOperationHash
        then (writeOperation, writeOperationHash) :: collect_writes ds selected rest
        else collect_writes ds selected rest
      else collect_writes ds selected rest
  end.

Definition in_bindings (bindingsToUpdate : list Z) (w : VkWriteDescriptorSet) : bool :=
  existsb (Z.eqb (dstBinding w)) bindingsToUpdate.

Definition Update (bindingsToUpdate : list Z) (ds : DescriptorSet) : DescriptorSet * list SetCall :=
  let writeOperations :=
    match bindingsToUpdate with
    | [] => collect_writes ds (fun _ => true) (m_writeDescriptorSets ds)
    | _ => collect_writes ds (in_bindings bindingsToUpdate) (m_writeDescriptorSets ds)
    end in
  let calls :=
    match writeOperations with
    | [] => []
    | _ => [vkUpdateDescriptorSets (map (fun wh => resolve ds (fst wh)) writeOperations)]
    end in
  ({| m_setLayout := m_setLayout ds; m_bufferInfos := m_bufferInfos ds;
      m_imageInfos := m_imageInfos ds; m_setHandle := m_setHandle ds;
      m_writeDescriptorSets := m_writeDescriptorSets ds;
      m_updatedBindings :=
        fold_left (fun updated wh => <[dstBinding (fst wh) := snd wh]> updated)
                  writeOperations (m_updatedBindings ds) |},
   calls).

End DescriptorSetUpdate.

Definition ApplyWrites (ds : DescriptorSet) : list SetCall :=
  [vkUpdateDescriptorSets (map (resolve ds) (m_writeDescriptorSets ds))].

(** The write [Prepare] pushes for one array element of a binding. *)
Definition buffer_write (handle b e : Z) (t : VkDescriptorType) : VkWriteDescriptorSet :=
  {| dstSet := handle; dstBinding := b; dstArrayElement := e;
     writeDescriptorCount := 1; writeDescriptorType := t; pInfo := BufferInfoRef b e |}.

Definition image_write (handle b e : Z) (t : VkDescriptorType) : VkWriteDescriptorSet :=
  {| dstSet := handle; dstBinding := b; dstArrayElement := e;
     writeDescriptorCount := 1; writeDescriptorType := t; pInfo := ImageInfoRef b e |}.

(** Modelled from the spec: [hash_combine] and the [std::hash]
    specialisations behind [hash_param] live in [common/helpers.h] and
    [common/resource_caching.h], which are not among the sources.  The
    content hasher is a deterministic, order-sensitive combination of a
    value's structural fields into a fixed-width key; this instance folds the
    fields into a 64-bit seed. *)
Definition hash_combine (seed v : Z) : Z :=
  Z.lxor seed ((v + 2654435769 + Z.shiftl seed 6 + Z.shiftr seed 2) mod 2 ^ 64).

Definition hash_fields (fields : list Z) : Z := fold_left hash_combine fields 0.

Definition hash_WriteData (w : WriteData) : Z :=
  hash_fields
    ([wd_dstSet w; wd_dstBinding w; wd_dstArrayElement w; wd_descriptorCount w;
      descriptor_type_code (wd_descriptorType w)] ++
     match wd_info w with
     | BufferData (Some info) => [buffer info; offset info; range info]
     | ImageData (Some info) => [sampler info; imageView info; imageLayout info]
     | _ => []
     end).

(** Allocation of several sets in a row, one pair of driver answers each. *)
Fixpoint allocate_seq (answers : list ((VkResult * VkHandle) * (VkResult * VkHandle)))
    (p : DescriptorPool) : option DescriptorPool :=
  match answers with
  | [] => Some p
  | (create_answer, alloc_answer) :: rest =>
      match AllocateDescriptorSet create_answer alloc_answer p with
      | Some (p', _, _) => allocate_seq rest p'
      | None => None
      end
  end.

(** Number of live handles the mapping attributes to sub-pool [i]. *)
Definition live_sets (m : gmap Z nat) (i : nat) : nat :=
  size (filter (fun kv : Z * nat => kv.2 = i) m).

(** The representation invariant of a pool: one counter per sub-pool, each
    counter equal to the number of live handles of its sub-pool and within the
    capacity, the cursor at most one past the last sub-pool. *)
Record pool_wf (p : DescriptorPool) : Prop := {
  wf_capacity : 0 < m_poolMaxSets p < 2 ^ 32;
  wf_length : length (m_poolSetsCount p) = length (m_pools p);
  wf_cursor : (m_poolIndex p <= length (m_pools p))%nat;
  wf_count : forall i c, m_poolSetsCount p !! i = Some c ->
               c = Z.of_nat (live_sets (m_setPoolMapping p) i) /\ c <= m_poolMaxSets p;
  wf_mapping : forall h i, m_setPoolMapping p !! h = Some i -> (i < length (m_pools p))%nat
}.

(** What the driver may answer to an allocation: pool creation succeeds, and a
    successful set allocation hands out a handle that is not currently live. *)
Definition driver_ok (p : DescriptorPool) (create_answer alloc_answer : VkResult * VkHandle) : Prop :=
  fst create_answer = VK_SUCCESS /\
  (fst alloc_answer = VK_SUCCESS -> m_setPoolMapping p !! snd alloc_answer = None).

(** The entries a call of [Update] has to consider. *)
Definition candidate (bindingsToUpdate : list Z) (w : VkWriteDescriptorSet) : bool :=
  match bindingsToUpdate with
  | [] => true
  | _ => in_bindings bindingsToUpdate w
  end.

(** The candidates whose hash is not the one on record for their binding. *)
Definition stale_writes (hash_write : WriteData -> Z) (bindingsToUpdate : list Z)
    (ds : DescriptorSet) : list VkWriteDescriptorSet :=
  List.filter
    (fun w => candidate bindingsToUpdate w &&
              needs_update (m_updatedBindings ds) (dstBinding w) (hash_write (resolve ds w)))
    (m_writeDescriptorSets ds).

(** ** Resource record ([ResourceRecord.h], [ResourceRecord.cpp]) *)

(** The identity of a constructed object: its address. *)
Inductive ptr : Type := Ptr (addr : Z).

Definition ptr_addr (p : ptr) : Z := match p with Ptr a => a end.

#[global] Instance ptr_eq_dec : EqDecision ptr.
Proof. solve_decision. Defined.

#[global] Instance ptr_countable : Countable ptr.
Proof. apply (inj_countable' ptr_addr Ptr). by intros []. Defined.

Module ResourceType.
Inductive t : Type :=
| ShaderModule
| PipelineLayout
| RenderPass
| GraphicsPipeline.
End ResourceType.

#[global] Instance ResourceType_eq_dec : EqDecision ResourceType.t.
Proof. solve_decision. Defined.

(** Plain-data structures of the framework whose declarations are not among
    the sources are carried as the sequence of their fields. *)
Abbreviation blob := (list Z) (only parsing).

Record SubpassInfo : Type := {
  input_attachments : list Z;
  output_attachments : list Z
}.

(** The plain values of a [PipelineState] that the recorder writes. *)
Record PipelineStateData : Type := {
  subpass_index : Z;
  specialization_constant_state : list (Z * blob);
  vertex_input_attributes : list blob;
  vertex_input_bindings : list blob;
  input_assembly_state : blob;
  rasterization_state : blob;
  viewport_state : blob;
  multisample_state : blob;
  depth_stencil_state : blob;
  color_blend_logic_op : Z;
  color_blend_logic_op_enable : bool;
  color_blend_attachments : list blob
}.

(** The parts of [PipelineState] the recorder reads: the two objects it
    refers to and the plain values. *)
Record PipelineState : Type := {
  pipeline_layout : ptr;
  render_pass : ptr;
  state_data : PipelineStateData
}.

(** One tagged entry of the stream: the values one [Register...] call
    writes, the tag first.  The byte layout [write] gives them is not
    modelled. *)
Inductive Entry : Type :=
| ShaderModuleEntry (stage : Z) (source entryPoint preamble : string) (processes : list string)
| PipelineLayoutEntry (shaderIndices : list nat)
| RenderPassEntry (attachments loadStoreInfos : list blob) (subpasses : list (blob * blob))
| GraphicsPipelineEntry (pipelineLayoutIndex renderPassIndex : nat) (data : PipelineStateData).

Definition entry_tag (e : Entry) : ResourceType.t :=
  match e with
  | ShaderModuleEntry _ _ _ _ _ => ResourceType.ShaderModule
  | PipelineLayoutEntry _ => ResourceType.PipelineLayout
  | RenderPassEntry _ _ _ => ResourceType.RenderPass
  | GraphicsPipelineEntry _ _ _ => ResourceType.GraphicsPipeline
  end.

Record ResourceRecord : Type := {
  m_stream : list Entry;
  m_shaderModuleIndices : list nat;
  m_pipelineLayoutIndices : list nat;
  m_renderPassIndices : list nat;
  m_graphicsPipelineIndices : list nat;
  m_shaderModuleToIndex : gmap ptr nat;
  m_pipelineLayoutToIndex : gmap ptr nat;
  m_renderPassToIndex : gmap ptr nat;
  m_graphicsPipelineToIndex : gmap ptr nat
}.

Definition empty_record : ResourceRecord :=
  {| m_stream := []; m_shaderModuleIndices := []; m_pipelineLayoutIndices := [];
     m_renderPassIndices := []; m_graphicsPipelineIndices := [];
     m_shaderModuleToIndex := ∅; m_pipelineLayoutToIndex := ∅;
     m_renderPassToIndex := ∅; m_graphicsPipelineToIndex := ∅ |}.

Definition set_stream (s : list Entry) (r : ResourceRecord) : ResourceRecord :=
  {| m_stream := s; m_shaderModuleIndices := m_shaderModuleIndices r;
     m_pipelineLayoutIndices := m_pipelineLayoutIndices r;
     m_renderPassIndices := m_renderPassIndices r;
     m_graphicsPipelineIndices := m_graphicsPipelineIndices r;
     m_shaderModuleToIndex := m_shaderModuleToIndex r;
     m_pipelineLayoutToIndex := m_pipelineLayoutToIndex r;
     m_renderPassToIndex := m_renderPassToIndex r;
     m_graphicsPipelineToIndex := m_graphicsPipelineToIndex r |}.

(** [SetData] replaces the content of the stream and [GetData] copies it.
    The stream is the list of the entries written; a [Register...] call adds
    its entry at the end, which is what the code does on a recorder whose
    stream [SetData] never replaced.  Not modelled: after [str(...)] a
    [std::ostringstream] writes from its beginning again, so a [Register...]
    call that follows [SetData] overwrites the loaded bytes instead of
    following them.  The properties below read the stream of a recorder that
    went through [SetData] only as the input of the replay, before any write,
    and otherwise speak of recorders that start empty. *)
Definition SetData (data : list Entry) (r : ResourceRecord) : ResourceRecord := set_stream data r.

Definition GetData (r : ResourceRecord) : list Entry := m_stream r.

(** [std::out_of_range], thrown by [unordered_map::at]. *)
Inductive out_of_range : Type := OutOfRange.

(** [v.push_back(v.size())] and [v.back()]. *)
Definition push_back_size (v : list nat) : list nat := v ++ [length v].
Definition back (v : list nat) : nat := List.last v 0%nat.

(** [std::transform] of [m_shaderModuleToIndex.at] over the modules: the
    first unknown module throws. *)
Fixpoint at_all (table : gmap ptr nat) (ps : list ptr) : result out_of_range (list nat) :=
  match ps with
  | [] => Ok []
  | p :: rest =>
      match table !! p with
      | None => Throw OutOfRange
      | Some i => try! indices := at_all table rest in Ok (i :: indices)
      end
  end.

Definition RegisterShaderModule (stage : Z) (source entryPoint preamble : string)
    (processes : list string) (r : ResourceRecord) : ResourceRecord * result out_of_range nat :=
  let indices := push_back_size (m_shaderModuleIndices r) in
  ({| m_stream := m_stream r ++ [ShaderModuleEntry stage source entryPoint preamble processes];
      m_shaderModuleIndices := indices;
      m_pipelineLayoutIndices := m_pipelineLayoutIndices r;
      m_renderPassIndices := m_renderPassIndices r;
      m_graphicsPipelineIndices := m_graphicsPipelineIndices r;
      m_shaderModuleToIndex := m_shaderModuleToIndex r;
      m_pipelineLayoutToIndex := m_pipelineLayoutToIndex r;
      m_renderPassToIndex := m_renderPassToIndex r;
      m_graphicsPipelineToIndex := m_graphicsPipelineToIndex r |},
   Ok (back indices)).

Definition RegisterPipelineLayout (shaderModules : list ptr) (r : ResourceRecord)
  : ResourceRecord * result out_of_range nat :=
  let indices := push_back_size (m_pipelineLayoutIndices r) in
  let r1 :=
    {| m_stream := m_stream r;
       m_shaderModuleIndices := m_shaderModuleIndices r;
       m_pipelineLayoutIndices := indices;
       m_renderPassIndices := m_renderPassIndices r;
       m_graphicsPipelineIndices := m_graphicsPipelineIndices r;
       m_shaderModuleToIndex := m_shaderModuleToIndex r;
       m_pipelineLayoutToIndex := m_pipelineLayoutToIndex r;
       m_renderPassToIndex := m_renderPassToIndex r;
       m_graphicsPipelineToIndex := m_graphicsPipelineToIndex r |} in
  match at_all (m_shaderModuleToIndex r) shaderModules with
  | Throw e => (r1, Throw e)
  | Ok shaderIndices =>
      (set_stream (m_stream r ++ [PipelineLayoutEntry shaderIndices]) r1, Ok (back indices))
  end.

Definition RegisterRenderPass (attachments loadStoreInfos : list blob)
    (subpasses : list SubpassInfo) (r : ResourceRecord) : ResourceRecord * result out_of_range nat :=
  let indices := push_back_size (m_renderPassIndices r) in
  ({| m_stream := m_stream r ++
                    [RenderPassEntry attachments loadStoreInfos
                       (map (fun item => (input_attachments item, output_attachments item))
                            subpasses)];
      m_shaderModuleIndices := m_shaderModuleIndices r;
      m_pipelineLayoutIndices := m_pipelineLayoutIndices r;
      m_renderPassIndices := indices;
      m_graphicsPipelineIndices := m_graphicsPipelineIndices r;
      m_shaderModuleToIndex := m_shaderModuleToIndex r;
      m_pipelineLayoutToIndex := m_pipelineLayoutToIndex r;
      m_renderPassToIndex := m_renderPassToIndex r;
      m_graphicsPipelineToIndex := m_graphicsPipelineToIndex r |},
   Ok (back indices)).

Definition RegisterGraphicsPipeline (pipelineCache : VkHandle) (pipelineState : PipelineState)
    (r : ResourceRecord) : ResourceRecord * result out_of_range nat :=
  let indices := push_back_size (m_graphicsPipelineIndices r) in
  let r1 :=
    {| m_stream := m_stream r;
       m_shaderModuleIndices := m_shaderModuleIndices r;
       m_pipelineLayoutIndices := m_pipelineLayoutIndices r;
       m_renderPassIndices := m_renderPassIndices r;
       m_graphicsPipelineIndices := indices;
       m_shaderModuleToIndex := m_shaderModuleToIndex r;
       m_pipelineLayoutToIndex := m_pipelineLayoutToIndex r;
       m_renderPassToIndex := m_renderPassToIndex r;
       m_graphicsPipelineToIndex := m_graphicsPipelineToIndex r |} in
  match m_pipelineLayoutToIndex r !! pipeline_layout pipelineState,
        m_renderPassToIndex r !! render_pass pipelineState with
  | Some layoutIndex, Some renderPassIndex =>
      (set_stream (m_stream r ++ [GraphicsPipelineEntry layoutIndex renderPassIndex (state_data pipelineState)]) r1,
       Ok (back indices))
  | _, _ => (r1, Throw OutOfRange)
  end.

Definition SetShaderModule (index : nat) (shaderModule : ptr) (r : ResourceRecord) : ResourceRecord :=
  {| m_stream := m_stream r;
     m_shaderModuleIndices := m_shaderModuleIndices r;
     m_pipelineLayoutIndices := m_pipelineLayoutIndices r;
     m_renderPassIndices := m_renderPassIndices r;
     m_graphicsPipelineIndices := m_graphicsPipelineIndices r;
     m_shaderModuleToIndex := <[shaderModule := index]> (m_shaderModuleToIndex r);
     m_pipelineLayoutToIndex := m_pipelineLayoutToIndex r;
     m_renderPassToIndex := m_renderPassToIndex r;
     m_graphicsPipelineToIndex := m_graphicsPipelineToIndex r |}.

Definition SetPipelineLayout (index : nat) (pipelineLayout : ptr) (r : ResourceRecord) : ResourceRecord :=
  {| m_stream := m_stream r;
     m_shaderModuleIndices := m_shaderModuleIndices r;
     m_pipelineLayoutIndices := m_pipelineLayoutIndices r;
     m_renderPassIndices := m_renderPassIndices r;
     m_graphicsPipelineIndices := m_graphicsPipelineIndices r;
     m_shaderModuleToIndex := m_shaderModuleToIndex r;
     m_pipelineLayoutToIndex := <[pipelineLayout := index]> (m_pipelineLayoutToIndex r);
     m_renderPassToIndex := m_renderPassToIndex r;
     m_graphicsPipelineToIndex := m_graphicsPipelineToIndex r |}.

Definition SetRenderPass (index : nat) (renderPass : ptr) (r : ResourceRecord) : ResourceRecord :=
  {| m_stream := m_stream r;
     m_shaderModuleIndices := m_shaderModuleIndices r;
     m_pipelineLayoutIndices := m_pipelineLayoutIndices r;
     m_renderPassIndices := m_renderPassIndices r;
     m_graphicsPipelineIndices := m_graphicsPipelineIndices r;
     m_shaderModuleToIndex := m_shaderModuleToIndex r;
     m_pipelineLayoutToIndex := m_pipelineLayoutToIndex r;
     m_renderPassToIndex := <[renderPass := index]> (m_renderPassToIndex r);
     m_graphicsPipelineToIndex := m_graphicsPipelineToIndex r |}.

Definition SetGraphicsPipeline (index : nat) (graphicsPipeline : ptr) (r : ResourceRecord) : ResourceRecord :=
  {| m_stream := m_stream r;
     m_shaderModuleIndices := m_shaderModuleIndices r;
     m_pipelineLayoutIndices := m_pipelineLayoutIndices r;
     m_renderPassIndices := m_renderPassIndices r;
     m_graphicsPipelineIndices := m_graphicsPipelineIndices r;
     m_shaderModuleToIndex := m_shaderModuleToIndex r;
     m_pipelineLayoutToIndex := m_pipelineLayoutToIndex r;
     m_renderPassToIndex := m_renderPassToIndex r;
     m_graphicsPipelineToIndex := <[graphicsPipeline := index]> (m_graphicsPipelineToIndex r) |}.

(** A call on the recorder, for reasoning about call sequences. *)
Inductive RecorderCall : Type :=
| CallRegisterShaderModule (stage : Z) (source entryPoint preamble : string) (processes : list string)
| CallRegisterPipelineLayout (shaderModules : list ptr)
| CallRegisterRenderPass (attachments loadStoreInfos : list blob) (subpasses : list SubpassInfo)
| CallRegisterGraphicsPipeline (pipelineCache : VkHandle) (pipelineState : PipelineState)
| CallSetShaderModule (index : nat) (shaderModule : ptr)
| CallSetPipelineLayout (index : nat) (pipelineLayout : ptr)
| CallSetRenderPass (index : nat) (renderPass : ptr)
| CallSetGraphicsPipeline (index : nat) (graphicsPipeline : ptr).

(** The kind a call registers, if it is a [Register...] call. *)
Definition registers (c : RecorderCall) : option ResourceType.t :=
  match c with
  | CallRegisterShaderModule _ _ _ _ _ => Some ResourceType.ShaderModule
  | CallRegisterPipelineLayout _ => Some ResourceType.PipelineLayout
  | CallRegisterRenderPass _ _ _ => Some ResourceType.RenderPass
  | CallRegisterGraphicsPipeline _ _ => Some ResourceType.GraphicsPipeline
  | _ => None
  end.

(** The outcome of a call: the recorder afterwards and, for a [Register...]
    call, the index returned or the exception thrown. *)
Definition run_call (c : RecorderCall) (r : ResourceRecord)
  : ResourceRecord * option (result out_of_range nat) :=
  match c with
  | CallRegisterShaderModule stage source entryPoint preamble processes =>
      let '(r', i) := RegisterShaderModule stage source entryPoint preamble processes r in
      (r', Some i)
  | CallRegisterPipelineLayout shaderModules =>
      let '(r', i) := RegisterPipelineLayout shaderModules r in (r', Some i)
  | CallRegisterRenderPass attachments loadStoreInfos subpasses =>
      let '(r', i) := RegisterRenderPass attachments loadStoreInfos subpasses r in (r', Some i)
  | CallRegisterGraphicsPipeline pipelineCache pipelineState =>
      let '(r', i) := RegisterGraphicsPipeline pipelineCache pipelineState r in (r', Some i)
  | CallSetShaderModule index p => (SetShaderModule index p r, None)
  | CallSetPipelineLayout index p => (SetPipelineLayout index p r, None)
  | CallSetRenderPass index p => (SetRenderPass index p r, None)
  | CallSetGraphicsPipeline index p => (SetGraphicsPipeline index p r, None)
  end.

(** The recorder after a sequence of calls; a caller that catches the
    exception of one call goes on with the recorder as that call left it. *)
Definition run_calls (calls : list RecorderCall) (r : ResourceRecord) : ResourceRecord :=
  fold_left (fun r c => fst (run_call c r)) calls r.

(** How many calls of a sequence register kind [X]. *)
Definition count_registers (X : ResourceType.t) (calls : list RecorderCall) : nat :=
  length (List.filter (fun c => bool_decide (registers c = Some X)) calls).

(** The index vector of kind [X]. *)
Definition indices_of (X : ResourceType.t) (r : ResourceRecord) : list nat :=
  match X with
  | ResourceType.ShaderModule => m_shaderModuleIndices r
  | ResourceType.PipelineLayout => m_pipelineLayoutIndices r
  | ResourceType.RenderPass => m_renderPassIndices r
  | ResourceType.GraphicsPipeline => m_graphicsPipelineIndices r
  end.

(** The references of a composite entry are the table's indices of the
    objects the call named. *)
Definition encodes_dependencies (r : ResourceRecord) (c : RecorderCall) (e : Entry) : Prop :=
  match c, e with
  | CallRegisterPipelineLayout shaderModules, PipelineLayoutEntry shaderIndices =>
      Forall2 (fun p i => m_shaderModuleToIndex r !! p = Some i) shaderModules shaderIndices
  | CallRegisterGraphicsPipeline _ pipelineState, GraphicsPipelineEntry layoutIndex renderPassIndex _ =>
      m_pipelineLayoutToIndex r !! pipeline_layout pipelineState = Some layoutIndex /\
      m_renderPassToIndex r !! render_pass pipelineState = Some renderPassIndex
  | CallRegisterShaderModule _ _ _ _ _, ShaderModuleEntry _ _ _ _ _ => True
  | CallRegisterRenderPass _ _ _, RenderPassEntry _ _ _ => True
  | _, _ => False
  end.

(** The objects a composite call names are all in the tables. *)
Definition dependencies_known (r : ResourceRecord) (c : RecorderCall) : Prop :=
  match c with
  | CallRegisterPipelineLayout shaderModules =>
      Forall (fun p => is_Some (m_shaderModuleToIndex r !! p)) shaderModules
  | CallRegisterGraphicsPipeline _ pipelineState =>
      is_Some (m_pipelineLayoutToIndex r !! pipeline_layout pipelineState) /\
      is_Some (m_renderPassToIndex r !! render_pass pipelineState)
  | _ => True
  end.

(** ** Resource cache ([ResourceCache.h], [ResourceCache.cpp]) *)

(** The cached classes whose sources are not part of this development are
    carried as the parameters they were built from. *)
Record ShaderModule : Type := {
  sm_stage : Z;
  sm_source : string;
  sm_entry_point : string;
  sm_preamble : string;
  sm_processes : list string
}.

Record PipelineLayout : Type := { pl_shader_modules : list ptr }.

Record RenderPass : Type := {
  rp_attachments : list blob;
  rp_load_store_infos : list blob;
  rp_subpasses : list SubpassInfo
}.

Record GraphicsPipeline : Type := { gp_pipeline_cache : VkHandle; gp_state : PipelineState }.

Record ComputePipeline : Type := { cp_pipeline_cache : VkHandle; cp_state : PipelineState }.

Record Framebuffer : Type := { fb_render_target : blob; fb_render_pass : ptr }.

Record ResourceCacheState : Type := {
  shader_modules : gmap Z ShaderModule;
  pipeline_layouts : gmap Z PipelineLayout;
  descriptor_set_layouts : gmap Z DescriptorSetLayout;
  descriptor_pools : gmap Z DescriptorPool;
  render_passes : gmap Z RenderPass;
  graphics_pipelines : gmap Z GraphicsPipeline;
  compute_pipelines : gmap Z ComputePipeline;
  descriptor_sets : gmap Z DescriptorSet;
  framebuffers : gmap Z Framebuffer
}.

Definition empty_state : ResourceCacheState :=
  {| shader_modules := ∅; pipeline_layouts := ∅; descriptor_set_layouts := ∅;
     descriptor_pools := ∅; render_passes := ∅; graphics_pipelines := ∅;
     compute_pipelines := ∅; descriptor_sets := ∅; framebuffers := ∅ |}.

Definition ClearPipelines (s : ResourceCacheState) : ResourceCacheState :=
  {| shader_modules := shader_modules s; pipeline_layouts := pipeline_layouts s;
     descriptor_set_layouts := descriptor_set_layouts s;
     descriptor_pools := descriptor_pools s; render_passes := render_passes s;
     graphics_pipelines := ∅; compute_pipelines := ∅;
     descriptor_sets := descriptor_sets s; framebuffers := framebuffers s |}.

Definition ClearFramebuffers (s : ResourceCacheState) : ResourceCacheState :=
  {| shader_modules := shader_modules s; pipeline_layouts := pipeline_layouts s;
     descriptor_set_layouts := descriptor_set_layouts s;
     descriptor_pools := descriptor_pools s; render_passes := render_passes s;
     graphics_pipelines := graphics_pipelines s; compute_pipelines := compute_pipelines s;
     descriptor_sets := descriptor_sets s; framebuffers := ∅ |}.

Definition Clear (s : ResourceCacheState) : ResourceCacheState :=
  let s1 :=
    {| shader_modules := ∅; pipeline_layouts := ∅; descriptor_set_layouts := ∅;
       descriptor_pools := descriptor_pools s; render_passes := ∅;
       graphics_pipelines := graphics_pipelines s; compute_pipelines := compute_pipelines s;
       descriptor_sets := ∅; framebuffers := framebuffers s |} in
  ClearFramebuffers (ClearPipelines s1).

(** [std::set<size_t>::insert]: the keys in ascending order, each once. *)
Fixpoint set_insert (x : Z) (l : list Z) : list Z :=
  match l with
  | [] => [x]
  | y :: rest =>
      if x <? y then x :: l
      else if x =? y then l
      else y :: set_insert x rest
  end.

(** What the loops of [UpdateDescriptorSets] do to one descriptor set for one
    pair of views: the image infos with the view swapped, the writes saved
    for later, the diagnostics and whether any info referred to
    [oldView]. *)
Fixpoint swap_elements (oldView newView : VkHandle) (layout : DescriptorSetLayout)
    (handle bindingIndex : Z) (array : list (Z * VkDescriptorImageInfo))
  : list (Z * VkDescriptorImageInfo) * list VkWriteDescriptorSet * list Diagnostic * bool :=
  match array with
  | [] => ([], [], [], false)
  | (arrayElement, imageInfo) :: rest =>
      let '(rest', writes, logs, hit) :=
        swap_elements oldView newView layout handle bindingIndex rest in
      if decide (imageView imageInfo = oldView) then
        let imageInfo' :=
          {| sampler := sampler imageInfo; imageView := newView;
             imageLayout := imageLayout imageInfo |} in
        match GetLayoutBinding layout bindingIndex with
        | Some binding_info =>
            ((arrayElement, imageInfo') :: rest',
             image_write handle bindingIndex arrayElement (descriptorType binding_info) :: writes,
             logs, true)
        | None =>
            ((arrayElement, imageInfo') :: rest', writes,
             LOGE_NoImageBinding bindingIndex :: logs, true)
        end
      else ((arrayElement, imageInfo) :: rest', writes, logs, hit)
  end.

Fixpoint swap_bindings (oldView newView : VkHandle) (layout : DescriptorSetLayout)
    (handle : Z) (imageInfos : BindingMap VkDescriptorImageInfo)
  : BindingMap VkDescriptorImageInfo * list VkWriteDescriptorSet * list Diagnostic * bool :=
  match imageInfos with
  | [] => ([], [], [], false)
  | (bindingIndex, array) :: rest =>
      let '(array', writes, logs, hit) :=
        swap_elements oldView newView layout handle bindingIndex array in
      let '(rest', writes', logs', hit') := swap_bindings oldView newView layout handle rest in
      ((bindingIndex, array') :: rest', writes ++ writes', logs ++ logs', hit || hit')
  end.

Definition set_imageInfos (imageInfos : BindingMap VkDescriptorImageInfo) (ds : DescriptorSet)
  : DescriptorSet :=
  {| m_setLayout := m_setLayout ds; m_bufferInfos := m_bufferInfos ds;
     m_imageInfos := imageInfos; m_setHandle := m_setHandle ds;
     m_writeDescriptorSets := m_writeDescriptorSets ds;
     m_updatedBindings := m_updatedBindings ds |}.

Definition swap_set (oldView newView : VkHandle) (ds : DescriptorSet)
  : DescriptorSet * list VkWriteDescriptorSet * list Diagnostic * bool :=
  let '(imageInfos', writes, logs, hit) :=
    swap_bindings oldView newView (m_setLayout ds) (m_setHandle ds) (m_imageInfos ds) in
  (set_imageInfos imageInfos' ds, writes, logs, hit).

Definition swapped (oldView newView : VkHandle) (ds : DescriptorSet) : DescriptorSet :=
  fst (fst (fst (swap_set oldView newView ds))).

(** The state of the first loop nest: the sets (changed in place), the
    saved writes with the key of their set, the diagnostics and [matches]. *)
Record SwapState : Type := {
  sw_sets : gmap Z DescriptorSet;
  sw_updates : list (Z * VkWriteDescriptorSet);
  sw_logs : list Diagnostic;
  sw_matches : list Z
}.

(** One iteration of the outer loop: every cached set is visited, in the
    iteration order of the map. *)
Definition visit (oldView newView : VkHandle) (kv : Z * DescriptorSet)
  : Z * (DescriptorSet * list VkWriteDescriptorSet * list Diagnostic * bool) :=
  (fst kv, swap_set oldView newView (snd kv)).

Definition visit_updates
    (kr : Z * (DescriptorSet * list VkWriteDescriptorSet * list Diagnostic * bool))
  : list (Z * VkWriteDescriptorSet) :=
  map (fun w => (fst kr, w)) (snd (fst (fst (snd kr)))).

Definition visit_logs
    (kr : Z * (DescriptorSet * list VkWriteDescriptorSet * list Diagnostic * bool))
  : list Diagnostic :=
  snd (fst (snd kr)).

Definition visit_match (ms : list Z)
    (kr : Z * (DescriptorSet * list VkWriteDescriptorSet * list Diagnostic * bool))
  : list Z :=
  if snd (snd kr) then set_insert (fst kr) ms else ms.

Definition swap_pass (oldView newView : VkHandle) (st : SwapState) : SwapState :=
  let visited := map (visit oldView newView) (map_to_list (sw_sets st)) in
  {| sw_sets := swapped oldView newView <$> sw_sets st;
     sw_updates := sw_updates st ++ flat_map visit_updates visited;
     sw_logs := sw_logs st ++ flat_map visit_logs visited;
     sw_matches := fold_left visit_match visited (sw_matches st) |}.

(** The outer loop over [oldViews]; reading [newViews] past its end is
    undefined behaviour, [None] here. *)
Fixpoint swap_views (oldViews newViews : list VkHandle) (st : SwapState) : option SwapState :=
  match oldViews with
  | [] => Some st
  | oldView :: olds =>
      match newViews with
      | [] => None
      | newView :: news => swap_views olds news (swap_pass oldView newView st)
      end
  end.

(** A saved write as the driver reads it at the time of the batched call. *)
Definition resolve_in (sets : gmap Z DescriptorSet) (kw : Z * VkWriteDescriptorSet) : WriteData :=
  match sets !! fst kw with
  | Some ds => resolve ds (snd kw)
  | None =>
      {| wd_dstSet := dstSet (snd kw); wd_dstBinding := dstBinding (snd kw);
         wd_dstArrayElement := dstArrayElement (snd kw);
         wd_descriptorCount := writeDescriptorCount (snd kw);
         wd_descriptorType := writeDescriptorType (snd kw); wd_info := ImageData None |}
  end.

Section UpdateDescriptorSets.

(** [hash_param] on a layout and the two binding maps, from
    [resource_caching.h]. *)
Variable hash_param :
  DescriptorSetLayout -> BindingMap VkDescriptorBufferInfo ->
  BindingMap VkDescriptorImageInfo -> Z.

Definition new_key (ds : DescriptorSet) : Z :=
  hash_param (m_setLayout ds) (m_bufferInfos ds) (m_imageInfos ds).

(** The last loop: every matched set is moved out of the map, erased under
    its old key and emplaced under the key of its present contents.
    Dereferencing the end iterator is undefined behaviour, [None] here. *)
Fixpoint rekey (matches : list Z) (sets : gmap Z DescriptorSet) : option (gmap Z DescriptorSet) :=
  match matches with
  | [] => Some sets
  | match_ :: rest =>
      match sets !! match_ with
      | None => None
      | Some descriptorSet =>
          rekey rest (emplace (new_key descriptorSet) descriptorSet (delete match_ sets))
      end
  end.

Definition UpdateDescriptorSets (oldViews newViews : list VkHandle)
    (sets : gmap Z DescriptorSet)
  : option (gmap Z DescriptorSet * list SetCall * list Diagnostic) :=
  match swap_views oldViews newViews
          {| sw_sets := sets; sw_updates := []; sw_logs := []; sw_matches := [] |} with
  | None => None
  | Some st =>
      let calls :=
        match sw_updates st with
        | [] => []
        | _ => [vkUpdateDescriptorSets (map (resolve_in (sw_sets st)) (sw_updates st))]
        end in
      match rekey (sw_matches st) (sw_sets st) with
      | None => None
      | Some sets' => Some (sets', calls, sw_logs st)
      end
  end.

End UpdateDescriptorSets.

(** The view an image info ends up with after all pairs were applied in
    turn. *)
Fixpoint final_view (oldViews newViews : list VkHandle) (v : VkHandle) : VkHandle :=
  match oldViews, newViews with
  | oldView :: olds, newView :: news =>
      final_view olds news (if decide (v = oldView) then newView else v)
  | _, _ => v
  end.

Definition map_views (f : VkHandle -> VkHandle) (imageInfos : BindingMap VkDescriptorImageInfo)
  : BindingMap VkDescriptorImageInfo :=
  map (fun ba =>
         (fst ba,
          map (fun ei => (fst ei, {| sampler := sampler (snd ei);
                                     imageView := f (imageView (snd ei));
                                     imageLayout := imageLayout (snd ei) |}))
              (snd ba)))
      imageInfos.

(** The views a set's image infos refer to. *)
Definition views_of (ds : DescriptorSet) : list VkHandle :=
  flat_map (fun ba => map (fun ei => imageView (snd ei)) (snd ba)) (m_imageInfos ds).

(** The swap of one pair of views on a single view. *)
Definition swap1 (oldView newView v : Z) : Z := if decide (v = oldView) then newView else v.

(** A set after all pairs were applied in turn, and whether any of its image
    infos referred to the old view of the pair being applied. *)
Fixpoint swapped_all (oldViews newViews : list VkHandle) (ds : DescriptorSet) : DescriptorSet :=
  match oldViews, newViews with
  | oldView :: olds, newView :: news => swapped_all olds news (swapped oldView newView ds)
  | _, _ => ds
  end.

Fixpoint touched (oldViews newViews : list VkHandle) (ds : DescriptorSet) : Prop :=
  match oldViews, newViews with
  | oldView :: olds, newView :: news =>
      oldView ∈ views_of ds \/ touched olds news (swapped oldView newView ds)
  | _, _ => False
  end.

(** ** Requests, recording and replay *)

(** The resource kinds of the cache, one per map of [ResourceCacheState]. *)
Inductive Kind : Type :=
| KShaderModule
| KPipelineLayout
| KDescriptorSetLayout
| KDescriptorPool
| KRenderPass
| KGraphicsPipeline
| KComputePipeline
| KDescriptorSet
| KFramebuffer.

#[global] Instance Kind_eq_dec : EqDecision Kind.
Proof. solve_decision. Defined.

Definition kind_code (k : Kind) : Z :=
  match k with
  | KShaderModule => 0
  | KPipelineLayout => 1
  | KDescriptorSetLayout => 2
  | KDescriptorPool => 3
  | KRenderPass => 4
  | KGraphicsPipeline => 5
  | KComputePipeline => 6
  | KDescriptorSet => 7
  | KFramebuffer => 8
  end.

(** The kinds [ResourceRecord] has a tag and a [Register...] function for. *)
Definition record_tag (k : Kind) : option ResourceType.t :=
  match k with
  | KShaderModule => Some ResourceType.ShaderModule
  | KPipelineLayout => Some ResourceType.PipelineLayout
  | KRenderPass => Some ResourceType.RenderPass
  | KGraphicsPipeline => Some ResourceType.GraphicsPipeline
  | _ => None
  end.

(** The keys cached for a kind. *)
Definition keys_of (k : Kind) (s : ResourceCacheState) : gset Z :=
  match k with
  | KShaderModule => dom (shader_modules s)
  | KPipelineLayout => dom (pipeline_layouts s)
  | KDescriptorSetLayout => dom (descriptor_set_layouts s)
  | KDescriptorPool => dom (descriptor_pools s)
  | KRenderPass => dom (render_passes s)
  | KGraphicsPipeline => dom (graphics_pipelines s)
  | KComputePipeline => dom (compute_pipelines s)
  | KDescriptorSet => dom (descriptor_sets s)
  | KFramebuffer => dom (framebuffers s)
  end.

(** An object lives in the node of its map, so within one cache its address
    is fixed by its kind and key; distinct objects have distinct
    addresses. *)
Definition address_of (k : Kind) (key : Z) : ptr := Ptr (16 * key + kind_code k).

Record ResourceCache : Type := {
  m_recorder : ResourceRecord;
  m_pipelineCache : VkHandle;
  m_state : ResourceCacheState
}.

Definition new_ResourceCache : ResourceCache :=
  {| m_recorder := empty_record; m_pipelineCache := VK_NULL_HANDLE; m_state := empty_state |}.

Definition SetPipelineCache (pipelineCache : VkHandle) (c : ResourceCache) : ResourceCache :=
  {| m_recorder := m_recorder c; m_pipelineCache := pipelineCache; m_state := m_state c |}.

Definition Serialize (c : ResourceCache) : list Entry := GetData (m_recorder c).

Definition set_shader_modules (m : gmap Z ShaderModule) (s : ResourceCacheState) : ResourceCacheState :=
  {| shader_modules := m; pipeline_layouts := pipeline_layouts s;
     descriptor_set_layouts := descriptor_set_layouts s;
     descriptor_pools := descriptor_pools s; render_passes := render_passes s;
     graphics_pipelines := graphics_pipelines s; compute_pipelines := compute_pipelines s;
     descriptor_sets := descriptor_sets s; framebuffers := framebuffers s |}.

Definition set_pipeline_layouts (m : gmap Z PipelineLayout) (s : ResourceCacheState) : ResourceCacheState :=
  {| shader_modules := shader_modules s; pipeline_layouts := m;
     descriptor_set_layouts := descriptor_set_layouts s;
     descriptor_pools := descriptor_pools s; render_passes := render_passes s;
     graphics_pipelines := graphics_pipelines s; compute_pipelines := compute_pipelines s;
     descriptor_sets := descriptor_sets s; framebuffers := framebuffers s |}.

Definition set_descriptor_set_layouts (m : gmap Z DescriptorSetLayout) (s : ResourceCacheState)
  : ResourceCacheState :=
  {| shader_modules := shader_modules s; pipeline_layouts := pipeline_layouts s;
     descriptor_set_layouts := m;
     descriptor_pools := descriptor_pools s; render_passes := render_passes s;
     graphics_pipelines := graphics_pipelines s; compute_pipelines := compute_pipelines s;
     descriptor_sets := descriptor_sets s; framebuffers := framebuffers s |}.

Definition set_descriptor_pools (m : gmap Z DescriptorPool) (s : ResourceCacheState) : ResourceCacheState :=
  {| shader_modules := shader_modules s; pipeline_layouts := pipeline_layouts s;
     descriptor_set_layouts := descriptor_set_layouts s;
     descriptor_pools := m; render_passes := render_passes s;
     graphics_pipelines := graphics_pipelines s; compute_pipelines := compute_pipelines s;
     descriptor_sets := descriptor_sets s; framebuffers := framebuffers s |}.

Definition set_render_passes (m : gmap Z RenderPass) (s : ResourceCacheState) : ResourceCacheState :=
  {| shader_modules := shader_modules s; pipeline_layouts := pipeline_layouts s;
     descriptor_set_layouts := descriptor_set_layouts s;
     descriptor_pools := descriptor_pools s; render_passes := m;
     graphics_pipelines := graphics_pipelines s; compute_pipelines := compute_pipelines s;
     descriptor_sets := descriptor_sets s; framebuffers := framebuffers s |}.

Definition set_graphics_pipelines (m : gmap Z GraphicsPipeline) (s : ResourceCacheState) : ResourceCacheState :=
  {| shader_modules := shader_modules s; pipeline_layouts := pipeline_layouts s;
     descriptor_set_layouts := descriptor_set_layouts s;
     descriptor_pools := descriptor_pools s; render_passes := render_passes s;
     graphics_pipelines := m; compute_pipelines := compute_pipelines s;
     descriptor_sets := descriptor_sets s; framebuffers := framebuffers s |}.

Definition set_compute_pipelines (m : gmap Z ComputePipeline) (s : ResourceCacheState) : ResourceCacheState :=
  {| shader_modules := shader_modules s; pipeline_layouts := pipeline_layouts s;
     descriptor_set_layouts := descriptor_set_layouts s;
     descriptor_pools := descriptor_pools s; render_passes := render_passes s;
     graphics_pipelines := graphics_pipelines s; compute_pipelines := m;
     descriptor_sets := descriptor_sets s; framebuffers := framebuffers s |}.

Definition set_descriptor_sets (m : gmap Z DescriptorSet) (s : ResourceCacheState) : ResourceCacheState :=
  {| shader_modules := shader_modules s; pipeline_layouts := pipeline_layouts s;
     descriptor_set_layouts := descriptor_set_layouts s;
     descriptor_pools := descriptor_pools s; render_passes := render_passes s;
     graphics_pipelines := graphics_pipelines s; compute_pipelines := compute_pipelines s;
     descriptor_sets := m; framebuffers := framebuffers s |}.

Definition set_framebuffers (m : gmap Z Framebuffer) (s : ResourceCacheState) : ResourceCacheState :=
  {| shader_modules := shader_modules s; pipeline_layouts := pipeline_layouts s;
     descriptor_set_layouts := descriptor_set_layouts s;
     descriptor_pools := descriptor_pools s; render_passes := render_passes s;
     graphics_pipelines := graphics_pipelines s; compute_pipelines := compute_pipelines s;
     descriptor_sets := descriptor_sets s; framebuffers := m |}.

Definition with_state (s : ResourceCacheState) (c : ResourceCache) : ResourceCache :=
  {| m_recorder := m_recorder c; m_pipelineCache := m_pipelineCache c; m_state := s |}.

Definition with_recorder (r : ResourceRecord) (c : ResourceCache) : ResourceCache :=
  {| m_recorder := r; m_pipelineCache := m_pipelineCache c; m_state := m_state c |}.

(** What a request can throw. *)
Inductive CacheError : Type :=
| RecorderOutOfRange
| ConstructionFailed (e : LayoutError)
| UnknownObject
| UndefinedBehaviour.

Definition lift_record {A} (r : result out_of_range A) : result CacheError A :=
  match r with
  | Ok a => Ok a
  | Throw _ => Throw RecorderOutOfRange
  end.

(** The hash functions [hash_param] yields for the argument lists of the
    request operations, and the collaborators that build driver objects. *)
Record Hasher : Type := {
  hash_shader_module : Z -> string -> string -> string -> list string -> Z;
  hash_pipeline_layout : list Z -> Z;
  hash_descriptor_set_layout : Z -> list Z -> list ShaderResource -> Z;
  hash_descriptor_pool : Z -> Z;
  hash_render_pass : list blob -> list blob -> list SubpassInfo -> Z;
  hash_graphics_pipeline : VkHandle -> Z -> Z -> PipelineStateData -> Z;
  hash_compute_pipeline : VkHandle -> Z -> Z -> PipelineStateData -> Z;
  hash_requested_descriptor_set :
    Z -> Z -> BindingMap VkDescriptorBufferInfo -> BindingMap VkDescriptorImageInfo -> Z;
  hash_framebuffer : blob -> Z -> Z
}.

(** A request names the cached objects it depends on by their keys: the
    pointer or reference the C++ caller passes is the address of the object
    cached under that key. *)
Inductive Request : Type :=
| ReqShaderModule (stage : Z) (glslSource preamble : string) (processes : list string)
| ReqPipelineLayout (shaderModules : list Z)
| ReqDescriptorSetLayout (setIndex : Z) (shaderModules : list Z) (setResources : list ShaderResource)
| ReqGraphicsPipeline (pipelineLayout renderPass : Z) (data : PipelineStateData)
| ReqComputePipeline (pipelineLayout renderPass : Z) (data : PipelineStateData)
| ReqDescriptorSet (descriptorSetLayout : Z) (bufferInfos : BindingMap VkDescriptorBufferInfo)
    (imageInfos : BindingMap VkDescriptorImageInfo) (create_answer alloc_answer : VkResult * VkHandle)
| ReqRenderPass (attachments loadStoreInfos : list blob) (subpasses : list SubpassInfo)
| ReqFramebuffer (renderTarget : blob) (renderPass : Z).

Section Requests.

Variable hasher : Hasher.
Variable vkCreateDescriptorSetLayout : VkDescriptorSetLayoutCreateInfo -> VkResult * VkHandle.
Variable limits : VkPhysicalDeviceLimits.

(** Modelled from the spec: [request_resource] of
    [common/resource_caching.h] is not among the sources.  Each request
    computes the key from its arguments, returns the cached object on a hit
    and on a miss builds the object, inserts it and, for the kinds the
    recorder has a [Register...] function for, appends a record of the same
    arguments and associates the new object with the index returned.  The
    result carries the key of the object the reference returned refers to. *)
Definition RequestShaderModule (stage : Z) (glslSource preamble : string)
    (processes : list string) (c : ResourceCache) : result CacheError (ResourceCache * Z) :=
  let entryPoint := "main"%string in
  let key := hash_shader_module hasher stage glslSource entryPoint preamble processes in
  match shader_modules (m_state c) !! key with
  | Some _ => Ok (c, key)
  | None =>
      let resource :=
        {| sm_stage := stage; sm_source := glslSource; sm_entry_point := entryPoint;
           sm_preamble := preamble; sm_processes := processes |} in
      let c1 := with_state (set_shader_modules (<[key := resource]> (shader_modules (m_state c)))
                              (m_state c)) c in
      let '(r, index) :=
        RegisterShaderModule stage glslSource entryPoint preamble processes (m_recorder c1) in
      try! index := lift_record index in
      Ok (with_recorder (SetShaderModule index (address_of KShaderModule key) r) c1, key)
  end.

Definition RequestPipelineLayout (shaderModules : list Z) (c : ResourceCache)
  : result CacheError (ResourceCache * Z) :=
  let key := hash_pipeline_layout hasher shaderModules in
  match pipeline_layouts (m_state c) !! key with
  | Some _ => Ok (c, key)
  | None =>
      let pointers := map (address_of KShaderModule) shaderModules in
      let resource := {| pl_shader_modules := pointers |} in
      let c1 := with_state (set_pipeline_layouts (<[key := resource]> (pipeline_layouts (m_state c)))
                              (m_state c)) c in
      let '(r, index) := RegisterPipelineLayout pointers (m_recorder c1) in
      try! index := lift_record index in
      Ok (with_recorder (SetPipelineLayout index (address_of KPipelineLayout key) r) c1, key)
  end.

Definition RequestDescriptorSetLayout (setIndex : Z) (shaderModules : list Z)
    (setResources : list ShaderResource) (c : ResourceCache)
  : result CacheError (ResourceCache * Z) :=
  let key := hash_descriptor_set_layout hasher setIndex shaderModules setResources in
  match descriptor_set_layouts (m_state c) !! key with
  | Some _ => Ok (c, key)
  | None =>
      match new_DescriptorSetLayout vkCreateDescriptorSetLayout setIndex
              (map (fun k => ptr_addr (address_of KShaderModule k)) shaderModules)
              setResources with
      | Throw e => Throw (ConstructionFailed e)
      | Ok resource =>
          Ok (with_state (set_descriptor_set_layouts
                            (<[key := resource]> (descriptor_set_layouts (m_state c)))
                            (m_state c)) c, key)
      end
  end.

Definition pipeline_state_of (pipelineLayout renderPass : Z) (data : PipelineStateData)
  : PipelineState :=
  {| pipeline_layout := address_of KPipelineLayout pipelineLayout;
     render_pass := address_of KRenderPass renderPass;
     state_data := data |}.

Definition RequestGraphicsPipeline (pipelineLayout renderPass : Z) (data : PipelineStateData)
    (c : ResourceCache) : result CacheError (ResourceCache * Z) :=
  let key := hash_graphics_pipeline hasher (m_pipelineCache c) pipelineLayout renderPass data in
  match graphics_pipelines (m_state c) !! key with
  | Some _ => Ok (c, key)
  | None =>
      let pipelineState := pipeline_state_of pipelineLayout renderPass data in
      let resource := {| gp_pipeline_cache := m_pipelineCache c; gp_state := pipelineState |} in
      let c1 := with_state (set_graphics_pipelines
                              (<[key := resource]> (graphics_pipelines (m_state c)))
                              (m_state c)) c in
      let '(r, index) :=
        RegisterGraphicsPipeline (m_pipelineCache c) pipelineState (m_recorder c1) in
      try! index := lift_record index in
      Ok (with_recorder (SetGraphicsPipeline index (address_of KGraphicsPipeline key) r) c1, key)
  end.

Definition RequestComputePipeline (pipelineLayout renderPass : Z) (data : PipelineStateData)
    (c : ResourceCache) : result CacheError (ResourceCache * Z) :=
  let key := hash_compute_pipeline hasher (m_pipelineCache c) pipelineLayout renderPass data in
  match compute_pipelines (m_state c) !! key with
  | Some _ => Ok (c, key)
  | None =>
      let resource :=
        {| cp_pipeline_cache := m_pipelineCache c;
           cp_state := pipeline_state_of pipelineLayout renderPass data |} in
      Ok (with_state (set_compute_pipelines
                        (<[key := resource]> (compute_pipelines (m_state c)))
                        (m_state c)) c, key)
  end.

Definition RequestRenderPass (attachments loadStoreInfos : list blob)
    (subpasses : list SubpassInfo) (c : ResourceCache) : result CacheError (ResourceCache * Z) :=
  let key := hash_render_pass hasher attachments loadStoreInfos subpasses in
  match render_passes (m_state c) !! key with
  | Some _ => Ok (c, key)
  | None =>
      let resource :=
        {| rp_attachments := attachments; rp_load_store_infos := loadStoreInfos;
           rp_subpasses := subpasses |} in
      let c1 := with_state (set_render_passes (<[key := resource]> (render_passes (m_state c)))
                              (m_state c)) c in
      let '(r, index) := RegisterRenderPass attachments loadStoreInfos subpasses (m_recorder c1) in
      try! index := lift_record index in
      Ok (with_recorder (SetRenderPass index (address_of KRenderPass key) r) c1, key)
  end.

Definition RequestFramebuffer (renderTarget : blob) (renderPass : Z) (c : ResourceCache)
  : result CacheError (ResourceCache * Z) :=
  let key := hash_framebuffer hasher renderTarget renderPass in
  match framebuffers (m_state c) !! key with
  | Some _ => Ok (c, key)
  | None =>
      let resource :=
        {| fb_render_target := renderTarget; fb_render_pass := address_of KRenderPass renderPass |} in
      Ok (with_state (set_framebuffers (<[key := resource]> (framebuffers (m_state c)))
                        (m_state c)) c, key)
  end.

(** [RequestDescriptorSet] of [ResourceCache.cpp]: the pool of the layout
    first, then the set, which takes its handle from that pool. *)
Definition RequestDescriptorSet (descriptorSetLayout : Z)
    (bufferInfos : BindingMap VkDescriptorBufferInfo)
    (imageInfos : BindingMap VkDescriptorImageInfo)
    (create_answer alloc_answer : VkResult * VkHandle) (c : ResourceCache)
  : result CacheError (ResourceCache * Z) :=
  match descriptor_set_layouts (m_state c) !! descriptorSetLayout with
  | None => Throw UnknownObject
  | Some layout =>
      let poolKey := hash_descriptor_pool hasher descriptorSetLayout in
      let pools :=
        match descriptor_pools (m_state c) !! poolKey with
        | Some _ => descriptor_pools (m_state c)
        | None =>
            <[poolKey := new_DescriptorPool layout 16]> (descriptor_pools (m_state c))
        end in
      let key := hash_requested_descriptor_set hasher descriptorSetLayout poolKey bufferInfos imageInfos in
      match descriptor_sets (m_state c) !! key with
      | Some _ => Ok (with_state (set_descriptor_pools pools (m_state c)) c, key)
      | None =>
          match pools !! poolKey with
          | None => Throw UndefinedBehaviour
          | Some pool =>
              match new_DescriptorSet limits create_answer alloc_answer layout pool
                      bufferInfos imageInfos with
              | None => Throw UndefinedBehaviour
              | Some (resource, pool', _, _) =>
                  Ok (with_state
                        (set_descriptor_sets
                           (<[key := resource]> (descriptor_sets (m_state c)))
                           (set_descriptor_pools (<[poolKey := pool']> pools) (m_state c))) c,
                      key)
              end
          end
      end
  end.

Definition request (q : Request) (c : ResourceCache) : result CacheError (ResourceCache * Z) :=
  match q with
  | ReqShaderModule stage glslSource preamble processes =>
      RequestShaderModule stage glslSource preamble processes c
  | ReqPipelineLayout shaderModules => RequestPipelineLayout shaderModules c
  | ReqDescriptorSetLayout setIndex shaderModules setResources =>
      RequestDescriptorSetLayout setIndex shaderModules setResources c
  | ReqGraphicsPipeline pipelineLayout renderPass data =>
      RequestGraphicsPipeline pipelineLayout renderPass data c
  | ReqComputePipeline pipelineLayout renderPass data =>
      RequestComputePipeline pipelineLayout renderPass data c
  | ReqDescriptorSet descriptorSetLayout bufferInfos imageInfos create_answer alloc_answer =>
      RequestDescriptorSet descriptorSetLayout bufferInfos imageInfos create_answer alloc_answer c
  | ReqRenderPass attachments loadStoreInfos subpasses =>
      RequestRenderPass attachments loadStoreInfos subpasses c
  | ReqFramebuffer renderTarget renderPass => RequestFramebuffer renderTarget renderPass c
  end.

(** A sequence of requests; it ends at the first exception. *)
Fixpoint run_requests (qs : list Request) (c : ResourceCache) : result CacheError ResourceCache :=
  match qs with
  | [] => Ok c
  | q :: rest => try! r := request q c in run_requests rest (fst r)
  end.

(** Modelled from the spec: [ResourceReplay] is not among the sources.
    Replay iterates the log in order and, for each entry, invokes the
    corresponding request operation on the target cache; an entry refers to
    an earlier object by its index, which replay resolves in the per-kind
    lists of the objects it has requested so far. *)
Record ResourceReplay : Type := {
  replayed_shader_modules : list Z;
  replayed_pipeline_layouts : list Z;
  replayed_render_passes : list Z;
  replayed_graphics_pipelines : list Z
}.

Definition empty_replay : ResourceReplay :=
  {| replayed_shader_modules := []; replayed_pipeline_layouts := [];
     replayed_render_passes := []; replayed_graphics_pipelines := [] |}.

(** [vector::at] on the list of replayed objects. *)
Definition replayed_at (v : list Z) (i : nat) : result CacheError Z :=
  match v !! i with
  | Some key => Ok key
  | None => Throw RecorderOutOfRange
  end.

Fixpoint replayed_at_all (v : list Z) (indices : list nat) : result CacheError (list Z) :=
  match indices with
  | [] => Ok []
  | i :: rest =>
      try! key := replayed_at v i in
      try! keys := replayed_at_all v rest in
      Ok (key :: keys)
  end.

Definition play_entry (e : Entry) (st : ResourceCache * ResourceReplay)
  : result CacheError (ResourceCache * ResourceReplay) :=
  let '(c, v) := st in
  match e with
  | ShaderModuleEntry stage source entryPoint preamble processes =>
      try! r := RequestShaderModule stage source preamble processes c in
      Ok (fst r,
          {| replayed_shader_modules := replayed_shader_modules v ++ [snd r];
             replayed_pipeline_layouts := replayed_pipeline_layouts v;
             replayed_render_passes := replayed_render_passes v;
             replayed_graphics_pipelines := replayed_graphics_pipelines v |})
  | PipelineLayoutEntry shaderIndices =>
      try! shaderModules := replayed_at_all (replayed_shader_modules v) shaderIndices in
      try! r := RequestPipelineLayout shaderModules c in
      Ok (fst r,
          {| replayed_shader_modules := replayed_shader_modules v;
             replayed_pipeline_layouts := replayed_pipeline_layouts v ++ [snd r];
             replayed_render_passes := replayed_render_passes v;
             replayed_graphics_pipelines := replayed_graphics_pipelines v |})
  | RenderPassEntry attachments loadStoreInfos subpasses =>
      try! r := RequestRenderPass attachments loadStoreInfos
                  (map (fun s => {| input_attachments := fst s; output_attachments := snd s |})
                       subpasses) c in
      Ok (fst r,
          {| replayed_shader_modules := replayed_shader_modules v;
             replayed_pipeline_layouts := replayed_pipeline_layouts v;
             replayed_render_passes := replayed_render_passes v ++ [snd r];
             replayed_graphics_pipelines := replayed_graphics_pipelines v |})
  | GraphicsPipelineEntry pipelineLayoutIndex renderPassIndex data =>
      try! pipelineLayout := replayed_at (replayed_pipeline_layouts v) pipelineLayoutIndex in
      try! renderPass := replayed_at (replayed_render_passes v) renderPassIndex in
      try! r := RequestGraphicsPipeline pipelineLayout renderPass data c in
      Ok (fst r,
          {| replayed_shader_modules := replayed_shader_modules v;
             replayed_pipeline_layouts := replayed_pipeline_layouts v;
             replayed_render_passes := replayed_render_passes v;
             replayed_graphics_pipelines := replayed_graphics_pipelines v ++ [snd r] |})
  end.

Fixpoint play (entries : list Entry) (st : ResourceCache * ResourceReplay)
  : result CacheError (ResourceCache * ResourceReplay) :=
  match entries with
  | [] => Ok st
  | e :: rest => try! st' := play_entry e st in play rest st'
  end.

(** [Warmup] of [ResourceCache.cpp]: the data go into the recorder, then the
    replayer plays the recorder's stream on this cache. *)
Definition Warmup (data : list Entry) (c : ResourceCache) : result CacheError ResourceCache :=
  let c1 := with_recorder (SetData data (m_recorder c)) c in
  try! st := play (m_stream (m_recorder c1)) (c1, empty_replay) in
  Ok (fst st).

End Requests.

(** The kind a record tag stands for, and the per-kind parts of the recorder
    and of the replayer. *)
Definition kind_of_tag (X : ResourceType.t) : Kind :=
  match X with
  | ResourceType.ShaderModule => KShaderModule
  | ResourceType.PipelineLayout => KPipelineLayout
  | ResourceType.RenderPass => KRenderPass
  | ResourceType.GraphicsPipeline => KGraphicsPipeline
  end.

Definition table_of (X : ResourceType.t) (r : ResourceRecord) : gmap ptr nat :=
  match X with
  | ResourceType.ShaderModule => m_shaderModuleToIndex r
  | ResourceType.PipelineLayout => m_pipelineLayoutToIndex r
  | ResourceType.RenderPass => m_renderPassToIndex r
  | ResourceType.GraphicsPipeline => m_graphicsPipelineToIndex r
  end.

Definition replayed_of (X : ResourceType.t) (v : ResourceReplay) : list Z :=
  match X with
  | ResourceType.ShaderModule => replayed_shader_modules v
  | ResourceType.PipelineLayout => replayed_pipeline_layouts v
  | ResourceType.RenderPass => replayed_render_passes v
  | ResourceType.GraphicsPipeline => replayed_graphics_pipelines v
  end.

(** What relates a cache built live to the cache and replayer obtained by
    playing the live recorder's stream: the same keys for the recorded kinds,
    the index of every recorded object resolving to its key, and the target's
    own recorder knowing every replayed object. *)
Record replay_inv (live target : ResourceCache) (v : ResourceReplay) : Prop := {
  inv_keys : forall X,
    keys_of (kind_of_tag X) (m_state target) = keys_of (kind_of_tag X) (m_state live);
  inv_index : forall X key i,
    table_of X (m_recorder live) !! address_of (kind_of_tag X) key = Some i ->
    replayed_of X v !! i = Some key;
  inv_length : forall X, length (indices_of X (m_recorder live)) = length (replayed_of X v);
  inv_known : forall X i key,
    replayed_of X v !! i = Some key ->
    is_Some (table_of X (m_recorder target) !! address_of (kind_of_tag X) key);
  inv_pipeline_cache : m_pipelineCache target = m_pipelineCache live;
  inv_unrecorded : forall k, record_tag k = None -> keys_of k (m_state target) = ∅
}.

(** The two outcomes of a live request as replay sees them: nothing was
    recorded and the relation stands, or one entry was appended and playing
    it on the target restores the relation. *)
Definition replay_follows (hasher : Hasher) (live live' target : ResourceCache)
    (v : ResourceReplay) : Prop :=
  (m_stream (m_recorder live') = m_stream (m_recorder live) /\ replay_inv live' target v) \/
  (exists e target' v',
     m_stream (m_recorder live') = m_stream (m_recorder live) ++ [e] /\
     play_entry hasher e (target, v) = Ok (target', v') /\
     replay_inv live' target' v').

(** ** Locks of the cache ([ResourceCache.h], [ResourceCache.cpp]) *)

(** The [std::mutex] members of [ResourceCache]. *)
Inductive Mutex : Type :=
| m_descriptorSetMutex
| m_pipelineLayoutMutex
| m_shaderModuleMutex
| m_descriptorSetLayoutMutex
| m_graphicsPipelineMutex
| m_renderPassMutex
| m_computePipelineMutex
| m_framebufferMutex.

#[global] Instance Mutex_eq_dec : EqDecision Mutex.
Proof. solve_decision. Defined.

Definition mutex_code (m : Mutex) : nat :=
  match m with
  | m_descriptorSetMutex => 0
  | m_pipelineLayoutMutex => 1
  | m_shaderModuleMutex => 2
  | m_descriptorSetLayoutMutex => 3
  | m_graphicsPipelineMutex => 4
  | m_renderPassMutex => 5
  | m_computePipelineMutex => 6
  | m_framebufferMutex => 7
  end%nat.

Definition mutex_of_code (n : nat) : Mutex :=
  match n with
  | 0 => m_descriptorSetMutex
  | 1 => m_pipelineLayoutMutex
  | 2 => m_shaderModuleMutex
  | 3 => m_descriptorSetLayoutMutex
  | 4 => m_graphicsPipelineMutex
  | 5 => m_renderPassMutex
  | 6 => m_computePipelineMutex
  | _ => m_framebufferMutex
  end%nat.

#[global] Instance Mutex_countable : Countable Mutex.
Proof. refine (inj_countable' mutex_code mutex_of_code _). by intros []. Defined.

Definition kind_of_code (n : Z) : Kind :=
  match n with
  | 0 => KShaderModule
  | 1 => KPipelineLayout
  | 2 => KDescriptorSetLayout
  | 3 => KDescriptorPool
  | 4 => KRenderPass
  | 5 => KGraphicsPipeline
  | 6 => KComputePipeline
  | 7 => KDescriptorSet
  | _ => KFramebuffer
  end.

#[global] Instance Kind_countable : Countable Kind.
Proof. refine (inj_countable' kind_code kind_of_code _). by intros []. Defined.


(** The calls of [RequestResource] a request makes, in order, each with the
    kind of the map and the key looked up. *)
Definition resource_calls (hasher : Hasher) (pipelineCache : VkHandle) (q : Request)
  : list (Kind * Z) :=
  match q with
  | ReqShaderModule stage glslSource preamble processes =>
      [(KShaderModule, hash_shader_module hasher stage glslSource "main" preamble processes)]
  | ReqPipelineLayout shaderModules =>
      [(KPipelineLayout, hash_pipeline_layout hasher shaderModules)]
  | ReqDescriptorSetLayout setIndex shaderModules setResources =>
      [(KDescriptorSetLayout,
        hash_descriptor_set_layout hasher setIndex shaderModules setResources)]
  | ReqGraphicsPipeline pipelineLayout renderPass data =>
      [(KGraphicsPipeline,
        hash_graphics_pipeline hasher pipelineCache pipelineLayout renderPass data)]
  | ReqComputePipeline pipelineLayout renderPass data =>
      [(KComputePipeline,
        hash_compute_pipeline hasher pipelineCache pipelineLayout renderPass data)]
  | ReqDescriptorSet descriptorSetLayout bufferInfos imageInfos _ _ =>
      let pool := hash_descriptor_pool hasher descriptorSetLayout in
      [(KDescriptorPool, pool);
       (KDescriptorSet,
        hash_requested_descriptor_set hasher descriptorSetLayout pool bufferInfos imageInfos)]
  | ReqRenderPass attachments loadStoreInfos subpasses =>
      [(KRenderPass, hash_render_pass hasher attachments loadStoreInfos subpasses)]
  | ReqFramebuffer renderTarget renderPass =>
      [(KFramebuffer, hash_framebuffer hasher renderTarget renderPass)]
  end.















(** ** Reading a constructed layout *)

Definition has_binding_point (resource : ShaderResource) : bool :=
  negb (without_binding_point (res_type resource)).

(** The [layout_binding] and the flag the constructor's loop builds from a
    resource it does not skip. *)
Definition binding_of (resource : ShaderResource)
  : result LayoutError VkDescriptorSetLayoutBinding :=
  try! descriptor_type := FindDescriptorType (res_type resource) (is_mode Dynamic resource) in
  Ok {| binding := res_binding resource;
        descriptorType := descriptor_type;
        descriptorCount := res_array_size resource;
        stageFlags := res_stages resource |}.

Definition flag_of (resource : ShaderResource) : Z :=
  if is_mode UpdateAfterBind resource then VK_DESCRIPTOR_BINDING_UPDATE_AFTER_BIND_BIT_EXT else 0.

(** The first resource of the set, among those with a binding point, that
    has binding number [b], or name [name]. *)
Definition first_bound (b : Z) (resourceSet : list ShaderResource) : option ShaderResource :=
  List.find (fun r => has_binding_point r && (res_binding r =? b)) resourceSet.

Definition first_named (name : string) (resourceSet : list ShaderResource)
  : option ShaderResource :=
  List.find (fun r => has_binding_point r && bool_decide (res_name r = name)) resourceSet.

(** ** Reading a descriptor pool *)

(** The descriptors of type [t] a list of bindings asks for. *)
Definition type_total (t : VkDescriptorType) (bindings : list VkDescriptorSetLayoutBinding) : Z :=
  fold_right Z.add 0
    (map descriptorCount (List.filter (fun b => bool_decide (descriptorType b = t)) bindings)).

(** [find] on the ordered map of the constructor. *)
Fixpoint lookup_type (t : VkDescriptorType) (counts : list (VkDescriptorType * Z)) : option Z :=
  match counts with
  | [] => None
  | (t', c) :: rest => if decide (t = t') then Some c else lookup_type t rest
  end.

(** The keys of the ordered map ascend. *)
Definition ascending (counts : list (VkDescriptorType * Z)) : Prop :=
  StronglySorted (fun a b => descriptor_type_code a.1 < descriptor_type_code b.1) counts.

(** The live handles of the sub-pools in [l], added up. *)
Definition sum_live (m : gmap Z nat) (l : list nat) : nat :=
  fold_right (fun i acc => (live_sets m i + acc)%nat) 0%nat l.

(** The public operations of a pool, with the driver's answers to the calls
    an allocation may make. *)
Inductive PoolOp : Type :=
| OpAllocate (create_answer alloc_answer : VkResult * VkHandle)
| OpFree (descriptorSet : VkHandle)
| OpReset.

Definition run_pool_op (op : PoolOp) (p : DescriptorPool) : option DescriptorPool :=
  match op with
  | OpAllocate create_answer alloc_answer =>
      match AllocateDescriptorSet create_answer alloc_answer p with
      | Some (p', _, _) => Some p'
      | None => None
      end
  | OpFree descriptorSet =>
      match FreeDescriptorSet p descriptorSet with
      | Some (p', _, _) => Some p'
      | None => None
      end
  | OpReset => Some (fst (Reset p))
  end.

Fixpoint run_pool_ops (ops : list PoolOp) (p : DescriptorPool) : option DescriptorPool :=
  match ops with
  | [] => Some p
  | op :: rest =>
      match run_pool_op op p with
      | Some p' => run_pool_ops rest p'
      | None => None
      end
  end.

(** The driver behaves at every allocation of a run: see [driver_ok]. *)
Fixpoint driver_ok_along (ops : list PoolOp) (p : DescriptorPool) : Prop :=
  match ops with
  | [] => True
  | op :: rest =>
      match op with
      | OpAllocate create_answer alloc_answer => driver_ok p create_answer alloc_answer
      | _ => True
      end /\
      forall p', run_pool_op op p = Some p' -> driver_ok_along rest p'
  end.

(** ** Reading a prepared descriptor set *)

(** The writes [Prepare] is to push for the buffer bindings and for the
    image bindings: one per array element of every binding the layout
    knows. *)
Definition buffer_writes_of (layout : DescriptorSetLayout) (handle : VkHandle)
    (bufferInfos : BindingMap VkDescriptorBufferInfo) : list VkWriteDescriptorSet :=
  flat_map (fun ba =>
              match GetLayoutBinding layout (fst ba) with
              | Some bi => map (fun ei => buffer_write handle (fst ba) (fst ei) (descriptorType bi))
                               (snd ba)
              | None => []
              end) bufferInfos.

Definition image_writes_of (layout : DescriptorSetLayout) (handle : VkHandle)
    (imageInfos : BindingMap VkDescriptorImageInfo) : list VkWriteDescriptorSet :=
  flat_map (fun ba =>
              match GetLayoutBinding layout (fst ba) with
              | Some bi => map (fun ei => image_write handle (fst ba) (fst ei) (descriptorType bi))
                               (snd ba)
              | None => []
              end) imageInfos.

(** The set as [Reset] hands it to [Prepare]. *)
Definition cleared_set (bufferInfos : BindingMap VkDescriptorBufferInfo)
    (imageInfos : BindingMap VkDescriptorImageInfo) (ds : DescriptorSet) : DescriptorSet :=
  {| m_setLayout := m_setLayout ds; m_bufferInfos := bufferInfos; m_imageInfos := imageInfos;
     m_setHandle := m_setHandle ds; m_writeDescriptorSets := []; m_updatedBindings := ∅ |}.

(** ** Render frame ([RenderFrame.h], [RenderFrame.cpp]): the descriptor
    tables of a frame *)

Inductive DescriptorManagementStrategy : Type :=
| StoreInCache
| CreateDirectly.

(** The members of [RenderFrame] its descriptor functions read and write:
    one table of pools and one table of sets per thread. *)
Record RenderFrame : Type := {
  m_threadCount : nat;
  m_descriptorPools : list (gmap Z DescriptorPool);
  m_descriptorSets : list (gmap Z DescriptorSet);
  m_descriptorManagementStrategy : DescriptorManagementStrategy
}.

(** The second loop of the constructor and the default strategy. *)
Definition new_RenderFrame (threadCount : nat) : RenderFrame :=
  {| m_threadCount := threadCount;
     m_descriptorPools := replicate threadCount ∅;
     m_descriptorSets := replicate threadCount ∅;
     m_descriptorManagementStrategy := StoreInCache |}.

Definition SetDescriptorManagementStrategy (newStrategy : DescriptorManagementStrategy)
    (f : RenderFrame) : RenderFrame :=
  {| m_threadCount := m_threadCount f; m_descriptorPools := m_descriptorPools f;
     m_descriptorSets := m_descriptorSets f; m_descriptorManagementStrategy := newStrategy |}.

(** The lambda of [CollectBindingsToUpdate], run over the keys of one
    binding map: a binding index is pushed when its flag lacks the
    update-after-bind bit and it is not in the vector yet. *)
Definition aggregateBindingToUpdate (descriptorSetLayout : DescriptorSetLayout)
    (keys : list Z) (bindingsToUpdate : list Z) : list Z :=
  fold_left
    (fun collected bindingIndex =>
       if (Z.land (GetLayoutBindingFlag descriptorSetLayout bindingIndex)
                  VK_DESCRIPTOR_BINDING_UPDATE_AFTER_BIND_BIT_EXT =? 0)
          && negb (existsb (Z.eqb bindingIndex) collected)
       then collected ++ [bindingIndex]
       else collected)
    keys bindingsToUpdate.

Definition CollectBindingsToUpdate (descriptorSetLayout : DescriptorSetLayout)
    (bufferInfos : BindingMap VkDescriptorBufferInfo)
    (imageInfos : BindingMap VkDescriptorImageInfo) : list Z :=
  aggregateBindingToUpdate descriptorSetLayout (map fst imageInfos)
    (aggregateBindingToUpdate descriptorSetLayout (map fst bufferInfos) []).

(** The condition of the lambda on the flag of a binding. *)
Definition updated_before_bind (descriptorSetLayout : DescriptorSetLayout) (bindingIndex : Z)
  : bool :=
  Z.land (GetLayoutBindingFlag descriptorSetLayout bindingIndex)
         VK_DESCRIPTOR_BINDING_UPDATE_AFTER_BIND_BIT_EXT =? 0.

Section RenderFrameDescriptors.

(** [hash_param] on a write-descriptor entry, from [resource_caching.h]. *)
Variable hash_write : WriteData -> Z.

(** [RenderFrame::UpdateDescriptorSets]: [Update()] on every set of the
    thread's table, in the iteration order of the table.  The index is
    guarded by an [assert] only; past the end of the vector the access is
    undefined behaviour, [None] here. *)
Definition RenderFrame_UpdateDescriptorSets (threadIndex : nat) (f : RenderFrame)
  : option (RenderFrame * list SetCall) :=
  match m_descriptorSets f !! threadIndex with
  | None => None
  | Some threadDescriptorSets =>
      Some ({| m_threadCount := m_threadCount f;
               m_descriptorPools := m_descriptorPools f;
               m_descriptorSets :=
                 <[threadIndex := (fun ds => fst (Update hash_write [] ds)) <$> threadDescriptorSets]>
                   (m_descriptorSets f);
               m_descriptorManagementStrategy := m_descriptorManagementStrategy f |},
            flat_map (fun kv => snd (Update hash_write [] (snd kv)))
                     (map_to_list threadDescriptorSets))
  end.

End RenderFrameDescriptors.

(** [RenderFrame::ClearDescriptors]: the set tables are cleared, every pool
    of every thread is reset. *)
Definition ClearDescriptors (f : RenderFrame) : RenderFrame * list PoolCall :=
  ({| m_threadCount := m_threadCount f;
      m_descriptorPools := map (fmap (fun pool => fst (Reset pool))) (m_descriptorPools f);
      m_descriptorSets := map (fun _ => ∅) (m_descriptorSets f);
      m_descriptorManagementStrategy := m_descriptorManagementStrategy f |},
   flat_map (fun descPoolsPerThread =>
               flat_map (fun kv => snd (Reset (snd kv))) (map_to_list descPoolsPerThread))
            (m_descriptorPools f)).

(** ** Reading the recorder's stream *)

(** How many entries of a stream carry the tag [X]. *)
Definition count_tag (X : ResourceType.t) (stream : list Entry) : nat :=
  length (List.filter (fun e => bool_decide (entry_tag e = X)) stream).

(** The entry a call writes when it returns. *)
Definition entry_of (r : ResourceRecord) (c : RecorderCall) : option Entry :=
  match c with
  | CallRegisterShaderModule stage source entryPoint preamble processes =>
      Some (ShaderModuleEntry stage source entryPoint preamble processes)
  | CallRegisterPipelineLayout shaderModules =>
      match at_all (m_shaderModuleToIndex r) shaderModules with
      | Ok shaderIndices => Some (PipelineLayoutEntry shaderIndices)
      | Throw _ => None
      end
  | CallRegisterRenderPass attachments loadStoreInfos subpasses =>
      Some (RenderPassEntry attachments loadStoreInfos
              (map (fun item => (input_attachments item, output_attachments item)) subpasses))
  | CallRegisterGraphicsPipeline _ pipelineState =>
      match m_pipelineLayoutToIndex r !! pipeline_layout pipelineState,
            m_renderPassToIndex r !! render_pass pipelineState with
      | Some layoutIndex, Some renderPassIndex =>
          Some (GraphicsPipelineEntry layoutIndex renderPassIndex (state_data pipelineState))
      | _, _ => None
      end
  | _ => None
  end.

(** A [Set...] call passes an index some [Register...] call of the kind
    has returned. *)
Definition set_in_range (r : ResourceRecord) (c : RecorderCall) : Prop :=
  match c with
  | CallSetShaderModule index _ => (index < length (m_shaderModuleIndices r))%nat
  | CallSetPipelineLayout index _ => (index < length (m_pipelineLayoutIndices r))%nat
  | CallSetRenderPass index _ => (index < length (m_renderPassIndices r))%nat
  | CallSetGraphicsPipeline index _ => (index < length (m_graphicsPipelineIndices r))%nat
  | _ => True
  end.

(** Along a sequence of calls, every composite [Register...] call names
    objects the tables know and every [Set...] call passes an index that was
    returned. *)
Fixpoint well_used (calls : list RecorderCall) (r : ResourceRecord) : Prop :=
  match calls with
  | [] => True
  | c :: rest =>
      dependencies_known r c /\ set_in_range r c /\ well_used rest (fst (run_call c r))
  end.

(** The references of an entry point at entries of [earlier]. *)
Definition refers_back (earlier : list Entry) (e : Entry) : Prop :=
  match e with
  | PipelineLayoutEntry shaderIndices =>
      Forall (fun i => (i < count_tag ResourceType.ShaderModule earlier)%nat) shaderIndices
  | GraphicsPipelineEntry pipelineLayoutIndex renderPassIndex _ =>
      (pipelineLayoutIndex < count_tag ResourceType.PipelineLayout earlier)%nat /\
      (renderPassIndex < count_tag ResourceType.RenderPass earlier)%nat
  | _ => True
  end.

(** What a well-used recorder keeps: the tables hold indices that were
    returned, every kind has as many entries as indices, and the references
    of every entry point backwards. *)
Record record_inv (r : ResourceRecord) : Prop := {
  inv_shader_table : forall p i,
    m_shaderModuleToIndex r !! p = Some i -> (i < length (m_shaderModuleIndices r))%nat;
  inv_layout_table : forall p i,
    m_pipelineLayoutToIndex r !! p = Some i -> (i < length (m_pipelineLayoutIndices r))%nat;
  inv_pass_table : forall p i,
    m_renderPassToIndex r !! p = Some i -> (i < length (m_renderPassIndices r))%nat;
  inv_counts : forall X, count_tag X (m_stream r) = length (indices_of X r);
  inv_refs : forall i e, m_stream r !! i = Some e -> refers_back (take i (m_stream r)) e
}.

(** ** Sample data *)

Definition example_limits : VkPhysicalDeviceLimits :=
  {| maxUniformBufferRange := 65536; maxStorageBufferRange := 134217728 |}.

(** A uniform-buffer binding with two array elements. *)
Definition array_resource : ShaderResource :=
  {| res_stages := 1; res_type := BufferUniform; res_mode := Static;
     res_binding := 0; res_array_size := 2; res_name := "lights" |}.

Definition array_layout : DescriptorSetLayout :=
  match new_DescriptorSetLayout (fun _ => (VK_SUCCESS, 7)) 0 [] [array_resource] with
  | Ok l => l
  | Throw _ => empty_layout 0 []
  end.

Definition array_set : DescriptorSet :=
  fst (Prepare example_limits
         {| m_setLayout := array_layout;
            m_bufferInfos := [(0, [(0, {| buffer := 11; offset := 0; range := 64 |});
                                   (1, {| buffer := 12; offset := 0; range := 64 |})])];
            m_imageInfos := [];
            m_setHandle := 21;
            m_writeDescriptorSets := [];
            m_updatedBindings := ∅ |}).

(** A set whose binding 0 asks for more than the uniform-buffer limit and
    whose binding 5 the layout does not know. *)
Definition oversized_set : DescriptorSet :=
  {| m_setLayout := array_layout;
     m_bufferInfos := [(0, [(0, {| buffer := 11; offset := 0; range := 100000 |})]);
                       (5, [(0, {| buffer := 12; offset := 0; range := 16 |})])];
     m_imageInfos := [];
     m_setHandle := 22;
     m_writeDescriptorSets := [];
     m_updatedBindings := ∅ |}.

Definition conflicting_resources : list ShaderResource :=
  [{| res_stages := 1; res_type := ImageSampler; res_mode := UpdateAfterBind;
      res_binding := 0; res_array_size := 1; res_name := "textures" |};
   {| res_stages := 1; res_type := BufferUniform; res_mode := Dynamic;
      res_binding := 1; res_array_size := 1; res_name := "globals" |}].

(** A pool of capacity 2 and the driver's answers to three allocations. *)
Definition example_pool : DescriptorPool := new_DescriptorPool array_layout 2.

Definition example_answers : list ((VkResult * VkHandle) * (VkResult * VkHandle)) :=
  [((VK_SUCCESS, 101), (VK_SUCCESS, 11)); ((VK_SUCCESS, 102), (VK_SUCCESS, 12))].

Definition example_extra : (VkResult * VkHandle) * (VkResult * VkHandle) :=
  ((VK_SUCCESS, 102), (VK_SUCCESS, 13)).

Definition example_pool_grown : DescriptorPool :=
  match allocate_seq (example_answers ++ [example_extra]) example_pool with
  | Some p => p
  | None => example_pool
  end.

(** The model hasher on a layout and two binding maps. *)
Definition hash_descriptor_set (layout : DescriptorSetLayout)
    (bufferInfos : BindingMap VkDescriptorBufferInfo)
    (imageInfos : BindingMap VkDescriptorImageInfo) : Z :=
  hash_fields
    ([m_handle layout] ++
     flat_map (fun ba =>
                 fst ba :: flat_map (fun ei => [fst ei; buffer (snd ei); offset (snd ei);
                                                range (snd ei)]) (snd ba)) bufferInfos ++
     flat_map (fun ba =>
                 fst ba :: flat_map (fun ei => [fst ei; sampler (snd ei); imageView (snd ei);
                                                imageLayout (snd ei)]) (snd ba)) imageInfos).

(** A combined image sampler at binding 1 and a set bound to one view. *)
Definition image_resource : ShaderResource :=
  {| res_stages := 16; res_type := ImageSampler; res_mode := Static;
     res_binding := 1; res_array_size := 1; res_name := "albedo" |}.

Definition image_layout : DescriptorSetLayout :=
  match new_DescriptorSetLayout (fun _ => (VK_SUCCESS, 8)) 0 [] [image_resource] with
  | Ok l => l
  | Throw _ => empty_layout 0 []
  end.

Definition image_set (handle view : VkHandle) : DescriptorSet :=
  fst (Prepare example_limits
         {| m_setLayout := image_layout;
            m_bufferInfos := [];
            m_imageInfos := [(1, [(0, {| sampler := 5; imageView := view; imageLayout := 1 |})])];
            m_setHandle := handle;
            m_writeDescriptorSets := [];
            m_updatedBindings := ∅ |}).

(** A cache holding one set bound to view 300, under the key of its
    contents. *)
Definition example_sets : gmap Z DescriptorSet :=
  {[ new_key hash_descriptor_set (image_set 31 300) := image_set 31 300 ]}.

(** Two shader modules registered and associated with their addresses. *)
Definition example_calls : list RecorderCall :=
  [CallRegisterShaderModule 1 "void main() {}" "main" "" [];
   CallSetShaderModule 0 (Ptr 4096);
   CallRegisterShaderModule 16 "void main() { discard; }" "main" "#define A" ["DA"];
   CallSetShaderModule 1 (Ptr 8192)].

(** A hasher for the samples: every argument of a request is folded into
    the key with [hash_fields]. *)
Definition hash_string (s : string) : Z :=
  hash_fields (map (fun a => Z.of_nat (Ascii.nat_of_ascii a)) (String.list_ascii_of_string s)).

Definition hash_blobs (bs : list blob) : Z := hash_fields (map hash_fields bs).

Definition hash_PipelineStateData (d : PipelineStateData) : Z :=
  hash_fields
    [subpass_index d;
     hash_fields (map (fun c => hash_fields [c.1; hash_fields c.2])
                    (specialization_constant_state d));
     hash_blobs (vertex_input_attributes d); hash_blobs (vertex_input_bindings d);
     hash_fields (input_assembly_state d); hash_fields (rasterization_state d);
     hash_fields (viewport_state d); hash_fields (multisample_state d);
     hash_fields (depth_stencil_state d); color_blend_logic_op d;
     (if color_blend_logic_op_enable d then 1 else 0);
     hash_blobs (color_blend_attachments d)].

Definition hash_BindingMap {T : Type} (h : T -> Z) (m : BindingMap T) : Z :=
  hash_fields
    (map (fun b => hash_fields [b.1; hash_fields (map (fun e => hash_fields [e.1; h e.2]) b.2)]) m).

Definition example_hasher : Hasher :=
  {| hash_shader_module := fun stage source entry preamble processes =>
       hash_fields [1; stage; hash_string source; hash_string entry; hash_string preamble;
                    hash_fields (map hash_string processes)];
     hash_pipeline_layout := fun shaderModules => hash_fields [2; hash_fields shaderModules];
     hash_descriptor_set_layout := fun setIndex shaderModules setResources =>
       hash_fields [3; setIndex; hash_fields shaderModules;
                    hash_fields (map (fun r => hash_fields [res_stages r; res_binding r;
                                                            res_array_size r;
                                                            hash_string (res_name r)])
                                   setResources)];
     hash_descriptor_pool := fun layout => hash_fields [4; layout];
     hash_render_pass := fun attachments loadStoreInfos subpasses =>
       hash_fields [5; hash_blobs attachments; hash_blobs loadStoreInfos;
                    hash_fields (map (fun s => hash_fields [hash_fields (input_attachments s);
                                                            hash_fields (output_attachments s)])
                                   subpasses)];
     hash_graphics_pipeline := fun pipelineCache pipelineLayout renderPass data =>
       hash_fields [6; pipelineCache; pipelineLayout; renderPass; hash_PipelineStateData data];
     hash_compute_pipeline := fun pipelineCache pipelineLayout renderPass data =>
       hash_fields [7; pipelineCache; pipelineLayout; renderPass; hash_PipelineStateData data];
     hash_requested_descriptor_set := fun layout pool bufferInfos imageInfos =>
       hash_fields [8; layout; pool;
                    hash_BindingMap (fun i => hash_fields [buffer i; offset i; range i]) bufferInfos;
                    hash_BindingMap (fun i => hash_fields [sampler i; imageView i; imageLayout i])
                      imageInfos];
     hash_framebuffer := fun renderTarget renderPass =>
       hash_fields [9; hash_fields renderTarget; renderPass] |}.

Definition example_driver (info : VkDescriptorSetLayoutCreateInfo) : VkResult * VkHandle :=
  (VK_SUCCESS, 77).

Definition example_subpasses : list SubpassInfo :=
  [{| input_attachments := []; output_attachments := [0] |}].

(** A render pass, then a framebuffer for it. *)
Definition example_requests : list Request :=
  [ReqShaderModule 1 "void main() {}" "" [];
   ReqRenderPass [[37; 1]] [[1; 0]] example_subpasses;
   ReqFramebuffer [640; 480]
     (hash_render_pass example_hasher [[37; 1]] [[1; 0]] example_subpasses)].

Definition example_live : ResourceCache :=
  match run_requests example_hasher example_driver example_limits example_requests
          new_ResourceCache with
  | Ok c => c
  | Throw _ => new_ResourceCache
  end.





(** Two resources that share binding number 3, after a push constant. *)
Definition shadowed_resources : list ShaderResource :=
  [{| res_stages := 1; res_type := PushConstant; res_mode := UpdateAfterBind;
      res_binding := 3; res_array_size := 1; res_name := "push" |};
   {| res_stages := 1; res_type := BufferStorage; res_mode := UpdateAfterBind;
      res_binding := 3; res_array_size := 4; res_name := "particles" |};
   {| res_stages := 16; res_type := Image; res_mode := Static;
      res_binding := 3; res_array_size := 1; res_name := "noise" |}].

Definition shadowed_layout : DescriptorSetLayout :=
  match new_DescriptorSetLayout (fun _ => (VK_SUCCESS, 9)) 2 [] shadowed_resources with
  | Ok l => l
  | Throw _ => empty_layout 2 []
  end.

(** A layout with three bindings of two descriptor types. *)
Definition mixed_resources : list ShaderResource :=
  [{| res_stages := 1; res_type := BufferUniform; res_mode := Static;
      res_binding := 0; res_array_size := 2; res_name := "lights" |};
   {| res_stages := 16; res_type := ImageSampler; res_mode := Static;
      res_binding := 1; res_array_size := 3; res_name := "textures" |};
   {| res_stages := 16; res_type := BufferUniform; res_mode := Static;
      res_binding := 2; res_array_size := 1; res_name := "camera" |}].

Definition mixed_layout : DescriptorSetLayout :=
  match new_DescriptorSetLayout (fun _ => (VK_SUCCESS, 10)) 0 [] mixed_resources with
  | Ok l => l
  | Throw _ => empty_layout 0 []
  end.

(** Allocations, a free, a reset and an allocation the driver refuses. *)
Definition example_ops : list PoolOp :=
  [OpAllocate (VK_SUCCESS, 101) (VK_SUCCESS, 11);
   OpAllocate (VK_SUCCESS, 102) (VK_SUCCESS, 12);
   OpAllocate (VK_SUCCESS, 102) (VK_SUCCESS, 13);
   OpFree 11;
   OpFree 99;
   OpAllocate (VK_SUCCESS, 103) (VK_ERROR (-1), 0);
   OpReset;
   OpAllocate (VK_SUCCESS, 104) (VK_SUCCESS, 11)].

(** The pool of capacity 2 after two allocations: its only sub-pool is
    full. *)
Definition example_pool_full : DescriptorPool :=
  match allocate_seq example_answers example_pool with
  | Some p => p
  | None => example_pool
  end.

(** A set over [mixed_layout] with one array element per binding. *)
Definition single_element_set : DescriptorSet :=
  {| m_setLayout := mixed_layout;
     m_bufferInfos := [(0, [(0, {| buffer := 11; offset := 0; range := 64 |})]);
                       (2, [(0, {| buffer := 12; offset := 0; range := 100000 |})])];
     m_imageInfos := [(1, [(0, {| sampler := 5; imageView := 300; imageLayout := 1 |})])];
     m_setHandle := 23;
     m_writeDescriptorSets := [];
     m_updatedBindings := ∅ |}.

(** A layout whose binding 3 is update-after-bind and whose binding 4 is
    not. *)
Definition bindless_resources : list ShaderResource :=
  [{| res_stages := 16; res_type := ImageSampler; res_mode := UpdateAfterBind;
      res_binding := 3; res_array_size := 64; res_name := "textures" |};
   {| res_stages := 1; res_type := BufferUniform; res_mode := Static;
      res_binding := 4; res_array_size := 1; res_name := "camera" |}].

Definition bindless_layout : DescriptorSetLayout :=
  match new_DescriptorSetLayout (fun _ => (VK_SUCCESS, 12)) 1 [] bindless_resources with
  | Ok l => l
  | Throw _ => empty_layout 1 []
  end.

(** A frame of two threads; the first thread holds one prepared set and
    the pool it came from. *)
Definition example_frame : RenderFrame :=
  {| m_threadCount := 2;
     m_descriptorPools := [{[ 70 := example_pool_grown ]}; ∅];
     m_descriptorSets := [{[ 80 := fst (Prepare example_limits single_element_set) ]}; ∅];
     m_descriptorManagementStrategy := StoreInCache |}.

(** Two shader modules, their pipeline layout, a render pass and a
    graphics pipeline over both, each associated with its address. *)
Definition example_pipeline_state : PipelineState :=
  {| pipeline_layout := Ptr 12288; render_pass := Ptr 16384;
     state_data :=
       {| subpass_index := 0; specialization_constant_state := [];
          vertex_input_attributes := []; vertex_input_bindings := [];
          input_assembly_state := [3]; rasterization_state := [0; 2];
          viewport_state := [1; 1]; multisample_state := [1];
          depth_stencil_state := [1; 1]; color_blend_logic_op := 0;
          color_blend_logic_op_enable := false; color_blend_attachments := [[15]] |} |}.

Definition example_recording : list RecorderCall :=
  example_calls ++
  [CallRegisterPipelineLayout [Ptr 4096; Ptr 8192];
   CallSetPipelineLayout 0 (Ptr 12288);
   CallRegisterRenderPass [[37; 1]] [[1; 0]] example_subpasses;
   CallSetRenderPass 0 (Ptr 16384);
   CallRegisterGraphicsPipeline 0 example_pipeline_state;
   CallSetGraphicsPipeline 0 (Ptr 20480)].

(** The grown pool after one more allocation and the release of handle
    11: sub-pool 0 has room, sub-pool 1 is full. *)
Definition example_pool_fragmented : DescriptorPool :=
  match run_pool_ops [OpAllocate (VK_SUCCESS, 103) (VK_SUCCESS, 14); OpFree 11]
          example_pool_grown with
  | Some p => p
  | None => example_pool_grown
  end.

(** * Verified properties *)

(** ** Descriptor set layout *)

Lemma existsb_is_mode m (rs : list ShaderResource) :
  existsb (is_mode m) rs = true <-> exists r, r ∈ rs /\ res_mode r = m.
Proof.
  rewrite existsb_exists. unfold is_mode. split.
  - intros (r & Hin & Hr). exists r. split; [by apply list_elem_of_In|].
    by apply bool_decide_eq_true in Hr.
  - intros (r & Hin & Hr). exists r. split; [by apply list_elem_of_In|].
    by apply bool_decide_eq_true.
Qed.

Lemma add_resources_throws rs : forall l e,
  add_resources rs l = Throw e -> e = NoConversionPossible.
Proof.
  induction rs as [|r rs IH]; intros l e; simpl; [done|].
  unfold add_resource.
  destruct (without_binding_point (res_type r)); simpl; [apply IH|].
  destruct (FindDescriptorType (res_type r) (is_mode Dynamic r)) as [t|e'] eqn:Ht; simpl.
  - apply IH.
  - intros [= <-]. unfold FindDescriptorType in Ht.
    destruct (res_type r), (is_mode Dynamic r); congruence.
Qed.

Lemma add_resources_lengths rs : forall l l',
  add_resources rs l = Ok l' ->
  length (m_bindings l) = length (m_bindingFlags l) ->
  length (m_bindings l') = length (m_bindingFlags l').
Proof.
  induction rs as [|r rs IH]; intros l l'; simpl; [by intros [= <-]|].
  unfold add_resource.
  destruct (without_binding_point (res_type r)); simpl; [apply IH|].
  destruct (FindDescriptorType (res_type r) (is_mode Dynamic r)) as [t|e']; simpl; [|done].
  intros Hrest Hlen. apply (IH _ _ Hrest). simpl. rewrite !length_app. simpl. lia.
Qed.

Lemma ValidateFlags_false bindings flags :
  ValidateFlags bindings flags = false <-> flags <> [] /\ length bindings <> length flags.
Proof.
  unfold ValidateFlags. destruct flags as [|f flags].
  - split; [done | by intros [? _]].
  - destruct (decide (length bindings <> length (f :: flags))); split; try done.
    by intros [_ ?].
Qed.

(** C5: construction throws, before any driver call, whenever the resource
    set holds an update-after-bind resource together with a dynamic one;
    without an update-after-bind resource neither the conflict error nor the
    flag-count error is raised and construction goes on to the driver call;
    a non-empty flag list whose length differs from the binding count makes
    [ValidateFlags] fail and the constructor's validation step throw. *)
Theorem DescriptorSetLayout_construction_checks :
  forall (driver : VkDescriptorSetLayoutCreateInfo -> VkResult * VkHandle)
         setIndex shaderModules (resourceSet : list ShaderResource),
  ((exists r, r ∈ resourceSet /\ res_mode r = UpdateAfterBind) ->
   (exists r, r ∈ resourceSet /\ res_mode r = Dynamic) ->
   (new_DescriptorSetLayout driver setIndex shaderModules resourceSet = Throw DynamicWithUpdateAfterBind \/
    new_DescriptorSetLayout driver setIndex shaderModules resourceSet = Throw NoConversionPossible) /\
   (forall l, add_resources resourceSet (empty_layout setIndex shaderModules) = Ok l ->
      new_DescriptorSetLayout driver setIndex shaderModules resourceSet = Throw DynamicWithUpdateAfterBind)) /\
  ((forall r, r ∈ resourceSet -> res_mode r <> UpdateAfterBind) ->
   new_DescriptorSetLayout driver setIndex shaderModules resourceSet <> Throw DynamicWithUpdateAfterBind /\
   new_DescriptorSetLayout driver setIndex shaderModules resourceSet <> Throw InvalidBinding /\
   (forall l, add_resources resourceSet (empty_layout setIndex shaderModules) = Ok l ->
      let answer := driver {| ci_flags := 0; ci_pBindings := m_bindings l; ci_pNext := None |} in
      (fst answer = VK_SUCCESS ->
         exists l', new_DescriptorSetLayout driver setIndex shaderModules resourceSet = Ok l' /\
                    m_handle l' = snd answer /\ m_bindings l' = m_bindings l) /\
      (fst answer <> VK_SUCCESS ->
         new_DescriptorSetLayout driver setIndex shaderModules resourceSet =
           Throw (VulkanException (fst answer))))) /\
  (forall bindings flags,
     (ValidateFlags bindings flags = false <-> flags <> [] /\ length bindings <> length flags) /\
     (flags <> [] -> length bindings <> length flags ->
      (exists r, r ∈ resourceSet /\ res_mode r = UpdateAfterBind) ->
      (forall r, r ∈ resourceSet -> res_mode r <> Dynamic) ->
      update_after_bind_info resourceSet bindings flags = Throw InvalidBinding)).
Proof.
  intros driver setIndex shaderModules resourceSet. split_and!.
  - intros Huab Hdyn.
    apply existsb_is_mode in Huab. apply existsb_is_mode in Hdyn.
    assert (Hinfo : forall bs fs, update_after_bind_info resourceSet bs fs = Throw DynamicWithUpdateAfterBind).
    { intros bs fs. unfold update_after_bind_info. by rewrite Huab, Hdyn. }
    unfold new_DescriptorSetLayout.
    destruct (add_resources resourceSet _) as [l|e] eqn:Hadd; simpl.
    + rewrite Hinfo. simpl. split; [by left|]. done.
    + apply add_resources_throws in Hadd as ->. split; [by right|]. done.
  - intros Hno.
    assert (Huab : existsb (is_mode UpdateAfterBind) resourceSet = false).
    { apply not_true_is_false. intros H. apply existsb_is_mode in H as (r & Hin & Hr).
      by apply (Hno r). }
    unfold new_DescriptorSetLayout.
    destruct (add_resources resourceSet _) as [l|e] eqn:Hadd; simpl.
    + unfold update_after_bind_info. rewrite Huab. simpl.
      destruct (driver _) as [r handle] eqn:Hdrv.
      destruct (decide (r <> VK_SUCCESS)) as [Hr|Hr].
      * split; [done|]. split; [done|]. intros l0 [= <-]. simpl.
        rewrite Hdrv. simpl. split; [done|]. intros _. done.
      * split; [done|]. split; [done|]. intros l0 [= <-]. simpl.
        rewrite Hdrv. simpl. split; [|done]. intros _. eexists. split; [done|]. done.
    + apply add_resources_throws in Hadd as ->. split; [done|]. split; [done|]. done.
  - intros bindings flags. split; [apply ValidateFlags_false|].
    intros Hne Hlen Huab Hdyn.
    apply existsb_is_mode in Huab.
    assert (Hd : existsb (is_mode Dynamic) resourceSet = false).
    { apply not_true_is_false. intros H. apply existsb_is_mode in H as (r & Hin & Hr).
      by apply (Hdyn r). }
    unfold update_after_bind_info. rewrite Huab, Hd.
    assert (Hv : ValidateFlags bindings flags = false) by by apply ValidateFlags_false.
    by rewrite Hv.
Qed.

(** ** Descriptor pool *)

Lemma FindAvailablePool_eq create_answer p searchIndex :
  FindAvailablePool create_answer p searchIndex =
  if decide (length (m_pools p) <= searchIndex)%nat then
    if decide (fst create_answer <> VK_SUCCESS)
    then Some (p, 0%nat, [vkCreateDescriptorPool (pool_create_info p)])
    else Some (set_pools (m_pools p ++ [snd create_answer]) (m_poolSetsCount p ++ [0]) p,
               searchIndex, [vkCreateDescriptorPool (pool_create_info p)])
  else match m_poolSetsCount p !! searchIndex with
       | None => None
       | Some c => if decide (c < m_poolMaxSets p) then Some (p, searchIndex, [])
                   else FindAvailablePool create_answer p (S searchIndex)
       end.
Proof.
  simp FindAvailablePool.
  destruct (decide (length (m_pools p) <= searchIndex)%nat); simpl; [done|].
  destruct (m_poolSetsCount p !! searchIndex); simpl; [|done].
  destruct (decide (z < m_poolMaxSets p)); simpl; [done|].
  by simp FindAvailablePool.
Qed.

Lemma live_sets_insert (m : gmap Z nat) h i j :
  m !! h = None ->
  live_sets (<[h:=i]> m) j = if decide (j = i) then S (live_sets m j) else live_sets m j.
Proof.
  intros Hh. unfold live_sets. rewrite map_filter_insert. simpl.
  destruct (decide (i = j)) as [->|Hne].
  - rewrite decide_True by done. apply map_size_insert_None.
    apply map_lookup_filter_None. by left.
  - rewrite decide_False by congruence. by rewrite delete_id.
Qed.

Lemma live_sets_delete (m : gmap Z nat) h i j :
  m !! h = Some i ->
  live_sets (delete h m) j = if decide (j = i) then pred (live_sets m j) else live_sets m j.
Proof.
  intros Hh. unfold live_sets. rewrite map_filter_delete.
  destruct (decide (j = i)) as [->|Hne].
  - apply map_size_delete_Some. exists i. by apply map_lookup_filter_Some.
  - apply map_size_delete_None. apply map_lookup_filter_None. right.
    intros x Hx. simpl. congruence.
Qed.

Lemma live_sets_pos (m : gmap Z nat) h i :
  m !! h = Some i -> (1 <= live_sets m i)%nat.
Proof.
  intros Hh. unfold live_sets.
  assert (Hne : size (filter (fun kv : Z * nat => kv.2 = i) m) <> 0%nat).
  { apply map_size_non_empty_iff. intros He.
    assert (Hl : filter (fun kv : Z * nat => kv.2 = i) m !! h = Some i)
      by by apply map_lookup_filter_Some.
    rewrite He in Hl. by rewrite lookup_empty in Hl. }
  lia.
Qed.

Lemma FindAvailablePool_spec create_answer p i :
  fst create_answer = VK_SUCCESS ->
  length (m_poolSetsCount p) = length (m_pools p) ->
  (i <= length (m_pools p))%nat ->
  exists idx,
    (i <= idx)%nat /\
    (forall j, (i <= j < idx)%nat ->
       exists c, m_poolSetsCount p !! j = Some c /\ m_poolMaxSets p <= c) /\
    ((exists c, m_poolSetsCount p !! idx = Some c /\ c < m_poolMaxSets p /\
        FindAvailablePool create_answer p i = Some (p, idx, []))
     \/ (idx = length (m_pools p) /\
         FindAvailablePool create_answer p i =
           Some (set_pools (m_pools p ++ [snd create_answer]) (m_poolSetsCount p ++ [0]) p, idx,
                 [vkCreateDescriptorPool (pool_create_info p)]))).
Proof.
  intros Hok Hlen.
  remember (length (m_pools p) - i)%nat as n eqn:Hn.
  revert i Hn. induction n as [|n IH]; intros i Hn Hi.
  - exists i. split; [lia|]. split; [intros j Hj; lia|]. right.
    split; [lia|]. rewrite FindAvailablePool_eq.
    rewrite decide_True by lia. rewrite decide_False by (rewrite Hok; tauto).
    done.
  - rewrite FindAvailablePool_eq. rewrite decide_False by lia.
    destruct (m_poolSetsCount p !! i) as [c|] eqn:Hc.
    2:{ apply lookup_ge_None in Hc. lia. }
    destruct (decide (c < m_poolMaxSets p)) as [Hlt|Hge].
    + exists i. split; [lia|]. split; [intros j Hj; lia|]. left. eauto.
    + destruct (IH (S i)) as (idx & Hle & Hfull & Hres); [lia|lia|].
      exists idx. split; [lia|]. split.
      * intros j Hj. destruct (decide (j = i)) as [->|]; [exists c; split; [done|lia]|].
        apply Hfull. lia.
      * done.
Qed.

Lemma live_sets_none (m : gmap Z nat) i :
  (forall h j, m !! h = Some j -> j <> i) -> live_sets m i = 0%nat.
Proof.
  intros Hm. unfold live_sets. apply map_size_empty_iff.
  apply map_empty. intros h. apply map_lookup_filter_None. right.
  intros j Hh Hj. simpl in Hj. by apply (Hm h j).
Qed.

Lemma u32_small x : 0 <= x < 2 ^ 32 -> u32 x = x.
Proof. intros Hx. unfold u32. by apply Z.mod_small. Qed.

Lemma FindAvailablePool_wf create_answer p :
  pool_wf p -> fst create_answer = VK_SUCCESS ->
  exists p1 idx calls c,
    FindAvailablePool create_answer p (m_poolIndex p) = Some (p1, idx, calls) /\
    pool_wf p1 /\
    m_setPoolMapping p1 = m_setPoolMapping p /\
    m_poolMaxSets p1 = m_poolMaxSets p /\
    m_descriptorSetLayout p1 = m_descriptorSetLayout p /\
    m_poolSetsCount p1 !! idx = Some c /\ c < m_poolMaxSets p.
Proof.
  intros Hwf Hok. pose proof Hwf as [Hcap Hlen Hcur Hcnt Hmap].
  destruct (FindAvailablePool_spec create_answer p (m_poolIndex p) Hok Hlen Hcur)
    as (idx & Hle & Hfull & [(c & Hc & Hlt & ->)|(-> & ->)]).
  - exists p, idx, [], c. split_and!; done.
  - exists (set_pools (m_pools p ++ [snd create_answer]) (m_poolSetsCount p ++ [0]) p),
      (length (m_pools p)), [vkCreateDescriptorPool (pool_create_info p)], 0.
    split; [done|]. split.
    { split; simpl.
      - done.
      - rewrite !length_app. simpl. lia.
      - rewrite length_app. simpl. lia.
      - intros i c Hi. apply lookup_app_Some in Hi as [Hi|[Hge Hi]].
        + by apply Hcnt.
        + rewrite Hlen in Hi, Hge.
          destruct (i - length (m_pools p))%nat as [|k] eqn:Hk; simpl in Hi; [|done].
          injection Hi as <-. split; [|lia].
          rewrite live_sets_none; [done|].
          intros h j Hh ->. apply Hmap in Hh. lia.
      - intros h i Hh. apply Hmap in Hh. rewrite length_app. simpl. lia. }
    split_and!; simpl; try done; try lia.
    rewrite lookup_app_r by lia. rewrite Hlen, Nat.sub_diag. done.
Qed.

Lemma AllocateDescriptorSet_wf create_answer alloc_answer p :
  pool_wf p -> driver_ok p create_answer alloc_answer ->
  exists p' h calls,
    AllocateDescriptorSet create_answer alloc_answer p = Some (p', h, calls) /\
    pool_wf p' /\
    (fst alloc_answer = VK_SUCCESS ->
       h = snd alloc_answer /\
       m_setPoolMapping p' = <[h := m_poolIndex p']> (m_setPoolMapping p)) /\
    (fst alloc_answer <> VK_SUCCESS ->
       h = VK_NULL_HANDLE /\ m_setPoolMapping p' = m_setPoolMapping p).
Proof.
  intros Hwf [Hcreate Hfresh].
  destruct (FindAvailablePool_wf create_answer p Hwf Hcreate)
    as (p1 & idx & calls & c & Hfind & Hwf1 & Hmap1 & Hmax1 & Hlay1 & Hc & Hlt).
  destruct Hwf1 as [Hcap Hlen Hcur Hcnt Hmap].
  assert (Hidx : (idx < length (m_pools p1))%nat).
  { rewrite <- Hlen. by eapply lookup_lt_Some. }
  destruct (lookup_lt_is_Some_2 (m_pools p1) idx Hidx) as [pool Hpool].
  destruct (Hcnt idx c Hc) as [Hclive _].
  assert (Hc0 : 0 <= c) by lia.
  unfold AllocateDescriptorSet. rewrite Hfind. simpl. rewrite Hc, Hpool.
  rewrite (u32_small (c + 1)) by lia.
  destruct (decide (fst alloc_answer <> VK_SUCCESS)) as [Hfail|Hsucc].
  - eexists _, _, _. split; [done|]. split.
    + split; simpl; try done.
      * by rewrite !length_insert.
      * lia.
      * intros i ci. rewrite list_insert_insert_eq.
        replace (c + 1 - 1) with c by lia. rewrite u32_small by lia.
        rewrite list_insert_id by done. apply Hcnt.
    + split; [tauto|]. intros _. simpl. by rewrite Hmap1.
  - assert (Hs : fst alloc_answer = VK_SUCCESS) 
      by (destruct (decide (fst alloc_answer = VK_SUCCESS)); [done | by destruct Hsucc]).
    specialize (Hfresh Hs). rewrite <- Hmap1 in Hfresh.
    unfold emplace. simpl. rewrite Hfresh.
    eexists _, _, _. split; [done|]. split.
    + split; simpl; try done.
      * by rewrite length_insert.
      * lia.
      * intros i ci Hi. rewrite live_sets_insert by done.
        destruct (decide (i = idx)) as [->|Hne].
        -- rewrite list_lookup_insert_eq in Hi by (rewrite Hlen; lia).
           injection Hi as <-. lia.
        -- rewrite list_lookup_insert_ne in Hi by done. by apply Hcnt.
      * intros h i Hh. apply lookup_insert_Some in Hh as [[_ <-]|[_ Hh]]; [done|].
        by eapply Hmap.
    + split; [|tauto]. intros _. simpl. by rewrite Hmap1.
Qed.

Lemma FreeDescriptorSet_wf p h i :
  pool_wf p -> m_setPoolMapping p !! h = Some i ->
  exists pool c,
    m_pools p !! i = Some pool /\ m_poolSetsCount p !! i = Some c /\ 1 <= c /\
    FreeDescriptorSet p h =
      Some (set_poolIndex i
              (set_poolSetsCount (<[i := c - 1]> (m_poolSetsCount p))
                 (set_setPoolMapping (delete h (m_setPoolMapping p)) p)),
            VK_SUCCESS, [vkFreeDescriptorSets pool h]) /\
    pool_wf (set_poolIndex i
              (set_poolSetsCount (<[i := c - 1]> (m_poolSetsCount p))
                 (set_setPoolMapping (delete h (m_setPoolMapping p)) p))).
Proof.
  intros [Hcap Hlen Hcur Hcnt Hmap] Hh.
  pose proof (Hmap h i Hh) as Hi.
  destruct (lookup_lt_is_Some_2 (m_pools p) i Hi) as [pool Hpool].
  destruct (lookup_lt_is_Some_2 (m_poolSetsCount p) i) as [c Hc]; [lia|].
  destruct (Hcnt i c Hc) as [Hclive Hcmax].
  pose proof (live_sets_pos _ _ _ Hh) as Hpos.
  exists pool, c. split; [done|]. split; [done|]. split; [lia|]. split.
  - unfold FreeDescriptorSet. rewrite Hh, Hpool, Hc.
    by rewrite (u32_small (c - 1)) by lia.
  - split; simpl; try done.
    + by rewrite length_insert.
    + lia.
    + intros j cj Hj. rewrite (live_sets_delete _ h i) by done.
      destruct (decide (j = i)) as [->|Hne].
      * rewrite list_lookup_insert_eq in Hj by lia. injection Hj as <-. lia.
      * rewrite list_lookup_insert_ne in Hj by done. by apply Hcnt.
    + intros h' j Hh'. apply lookup_delete_Some in Hh' as [_ Hh']. by eapply Hmap.
Qed.

Lemma new_DescriptorPool_wf layout capacity :
  0 < capacity < 2 ^ 32 -> pool_wf (new_DescriptorPool layout capacity).
Proof.
  intros Hcap. split; simpl; try done.
Qed.

Lemma allocate_seq_app answers1 answers2 p :
  allocate_seq (answers1 ++ answers2) p =
  match allocate_seq answers1 p with
  | Some p' => allocate_seq answers2 p'
  | None => None
  end.
Proof.
  revert p. induction answers1 as [|[ca aa] rest IH]; intros p; simpl; [done|].
  destruct (AllocateDescriptorSet ca aa p) as [[[p' h] calls]|]; [apply IH | done].
Qed.

(** Filling the single sub-pool of a pool whose cursor is 0. *)
Lemma allocate_seq_fill answers : forall p hp j,
  m_pools p = [hp] -> m_poolSetsCount p = [j] -> m_poolIndex p = 0%nat ->
  0 <= j -> j + Z.of_nat (length answers) <= m_poolMaxSets p -> m_poolMaxSets p < 2 ^ 32 ->
  Forall (fun a => fst (snd a) = VK_SUCCESS) answers ->
  exists p', allocate_seq answers p = Some p' /\
    m_pools p' = [hp] /\ m_poolSetsCount p' = [j + Z.of_nat (length answers)] /\
    m_poolIndex p' = 0%nat /\ m_poolMaxSets p' = m_poolMaxSets p /\
    m_descriptorSetLayout p' = m_descriptorSetLayout p.
Proof.
  induction answers as [|[ca aa] rest IH]; intros p hp j Hp Hc Hi Hj Hroom Hmax Hall.
  - exists p. simpl. rewrite Z.add_0_r. done.
  - apply Forall_cons in Hall as [Haa Hall]. simpl in Haa.
    simpl length in Hroom. simpl.
    unfold AllocateDescriptorSet. rewrite Hi, FindAvailablePool_eq.
    rewrite Hp, Hc. simpl. rewrite decide_True by lia. simpl.
    rewrite Hp, Hc. simpl.
    rewrite decide_False by (rewrite Haa; tauto).
    rewrite u32_small by lia.
    destruct (IH (set_setPoolMapping (emplace (snd aa) 0%nat (m_setPoolMapping p))
                    (set_poolSetsCount [j + 1] (set_poolIndex 0 p))) hp (j + 1))
      as (p' & Hrun & Hp' & Hc' & Hi' & Hm' & Hl'); simpl; try done; try lia.
    exists p'. split_and!; try done. rewrite Hc'. f_equal. lia.
Qed.

Lemma allocate_seq_first ca aa layout capacity :
  fst ca = VK_SUCCESS -> fst aa = VK_SUCCESS -> 0 < capacity < 2 ^ 32 ->
  exists p', allocate_seq [(ca, aa)] (new_DescriptorPool layout capacity) = Some p' /\
    m_pools p' = [snd ca] /\ m_poolSetsCount p' = [1] /\ m_poolIndex p' = 0%nat /\
    m_poolMaxSets p' = capacity /\ m_descriptorSetLayout p' = layout.
Proof.
  intros Hca Haa Hcap. simpl. unfold AllocateDescriptorSet.
  rewrite FindAvailablePool_eq. simpl.
  rewrite decide_False by (rewrite Hca; tauto). simpl.
  rewrite decide_False by (rewrite Haa; tauto).
  eexists. split; [done|]. simpl. done.
Qed.

(** Allocating from a pool whose only sub-pool is full opens a second one. *)
Lemma allocate_seq_overflow ca aa p hp :
  m_pools p = [hp] -> m_poolSetsCount p = [m_poolMaxSets p] -> m_poolIndex p = 0%nat ->
  fst ca = VK_SUCCESS -> fst aa = VK_SUCCESS ->
  exists p', allocate_seq [(ca, aa)] p = Some p' /\
    m_pools p' = [hp; snd ca] /\ m_poolSetsCount p' = [m_poolMaxSets p; 1] /\
    m_poolIndex p' = 1%nat.
Proof.
  intros Hp Hc Hi Hca Haa. simpl. unfold AllocateDescriptorSet.
  rewrite Hi, FindAvailablePool_eq. rewrite Hp, Hc. simpl.
  rewrite decide_False by lia.
  rewrite FindAvailablePool_eq. rewrite Hp, Hc. simpl.
  rewrite decide_False by (rewrite Hca; tauto). simpl.
  rewrite decide_False by (rewrite Haa; tauto).
  eexists. split; [done|]. simpl. done.
Qed.

Lemma reuse_after_free p h i create_answer alloc_answer :
  pool_wf p -> m_setPoolMapping p !! h = Some i -> fst alloc_answer = VK_SUCCESS ->
  exists pool c p1 p2,
    m_pools p !! i = Some pool /\ m_poolSetsCount p !! i = Some c /\
    FreeDescriptorSet p h = Some (p1, VK_SUCCESS, [vkFreeDescriptorSets pool h]) /\
    m_poolSetsCount p1 !! i = Some (c - 1) /\
    m_setPoolMapping p1 !! h = None /\
    m_poolIndex p1 = i /\
    AllocateDescriptorSet create_answer alloc_answer p1 =
      Some (p2, snd alloc_answer,
            [vkAllocateDescriptorSets pool (m_handle (m_descriptorSetLayout p))]) /\
    m_pools p2 = m_pools p /\ m_poolIndex p2 = i /\ m_poolSetsCount p2 !! i = Some c.
Proof.
  intros Hwf Hh Haa.
  destruct (FreeDescriptorSet_wf p h i Hwf Hh) as (pool & c & Hpool & Hc & Hc1 & Hfree & Hwf1).
  destruct Hwf as [Hcap Hlen Hcur Hcnt Hmap].
  pose proof (Hmap h i Hh) as Hi.
  destruct (Hcnt i c Hc) as [_ Hcmax].
  eexists pool, c, _, _. split; [done|]. split; [done|]. split; [exact Hfree|].
  simpl. split; [apply list_lookup_insert_eq; lia|].
  split; [apply lookup_delete_eq|]. split; [done|].
  unfold AllocateDescriptorSet. simpl. rewrite FindAvailablePool_eq. simpl.
  rewrite decide_False by lia.
  rewrite list_lookup_insert_eq by lia.
  rewrite decide_True by lia. simpl.
  rewrite list_lookup_insert_eq by lia. rewrite Hpool.
  rewrite decide_False by (rewrite Haa; tauto).
  replace (c - 1 + 1) with c by lia. rewrite u32_small by lia.
  split; [reflexivity|]. simpl. split; [done|]. split; [done|].
  rewrite list_insert_insert_eq. apply list_lookup_insert_eq. lia.
Qed.

(** C6: the probe of [FindAvailablePool] creates a sub-pool when the cursor is
    past the last one, advances past a full sub-pool and stops at one with
    room; [capacity + 1] successful allocations from a fresh pool leave one
    sub-pool after the first [capacity] and two after the last; freeing a
    known handle decrements the counter of its sub-pool, drops the mapping
    and moves the cursor there, and the next allocation is served by that
    sub-pool without any sub-pool being created. *)
Theorem DescriptorPool_probe_growth_reuse :
  (forall create_answer p i,
     (length (m_pools p) <= i)%nat -> fst create_answer = VK_SUCCESS ->
     FindAvailablePool create_answer p i =
       Some (set_pools (m_pools p ++ [snd create_answer]) (m_poolSetsCount p ++ [0]) p, i,
             [vkCreateDescriptorPool (pool_create_info p)])) /\
  (forall create_answer p i c,
     (i < length (m_pools p))%nat -> m_poolSetsCount p !! i = Some c ->
     (m_poolMaxSets p <= c ->
        FindAvailablePool create_answer p i = FindAvailablePool create_answer p (S i)) /\
     (c < m_poolMaxSets p -> FindAvailablePool create_answer p i = Some (p, i, []))) /\
  (forall layout capacity answers extra,
     0 < capacity < 2 ^ 32 -> Z.of_nat (length answers) = capacity ->
     Forall (fun a => fst (fst a) = VK_SUCCESS /\ fst (snd a) = VK_SUCCESS) (answers ++ [extra]) ->
     exists p1 p2,
       allocate_seq answers (new_DescriptorPool layout capacity) = Some p1 /\
       length (m_pools p1) = 1%nat /\
       allocate_seq (answers ++ [extra]) (new_DescriptorPool layout capacity) = Some p2 /\
       length (m_pools p2) = 2%nat) /\
  (forall p h i create_answer alloc_answer,
     pool_wf p -> m_setPoolMapping p !! h = Some i -> fst alloc_answer = VK_SUCCESS ->
     exists pool c p1 p2,
       m_pools p !! i = Some pool /\ m_poolSetsCount p !! i = Some c /\
       FreeDescriptorSet p h = Some (p1, VK_SUCCESS, [vkFreeDescriptorSets pool h]) /\
       m_poolSetsCount p1 !! i = Some (c - 1) /\
       m_setPoolMapping p1 !! h = None /\
       m_poolIndex p1 = i /\
       AllocateDescriptorSet create_answer alloc_answer p1 =
         Some (p2, snd alloc_answer,
               [vkAllocateDescriptorSets pool (m_handle (m_descriptorSetLayout p))]) /\
       m_pools p2 = m_pools p /\ m_poolIndex p2 = i /\ m_poolSetsCount p2 !! i = Some c).
Proof.
  split_and!.
  - intros ca p i Hi Hca. rewrite FindAvailablePool_eq.
    rewrite decide_True by done. rewrite decide_False by (rewrite Hca; tauto). done.
  - intros ca p i c Hi Hc. split; intros Hcmp.
    + rewrite (FindAvailablePool_eq ca p i). rewrite decide_False by lia.
      rewrite Hc. rewrite decide_False by lia. done.
    + rewrite FindAvailablePool_eq. rewrite decide_False by lia.
      rewrite Hc. rewrite decide_True by lia. done.
  - intros layout capacity answers extra Hcap Hlen Hall.
    apply Forall_app in Hall as [Hall Hextra].
    apply Forall_singleton in Hextra as [Hx1 Hx2].
    destruct answers as [|[ca aa] rest]; [simpl in Hlen; lia|].
    apply Forall_cons in Hall as [[Hca Haa] Hall]. simpl in Hca, Haa.
    destruct (allocate_seq_first ca aa layout capacity Hca Haa Hcap)
      as (q & Hq & Hqp & Hqc & Hqi & Hqm & Hql).
    destruct (allocate_seq_fill rest q (snd ca) 1) as (p1 & Hp1 & Hp & Hc & Hi & Hm & Hl);
      try done.
    { rewrite Hqm. simpl length in Hlen. lia. }
    { rewrite Hqm. lia. }
    { eapply Forall_impl; [exact Hall|]. by intros a [_ Ha]. }
    assert (Hrun1 : allocate_seq ((ca, aa) :: rest) (new_DescriptorPool layout capacity) = Some p1).
    { change ((ca, aa) :: rest) with ([(ca, aa)] ++ rest).
      rewrite allocate_seq_app, Hq. exact Hp1. }
    destruct extra as [cx ax]. simpl in Hx1, Hx2.
    destruct (allocate_seq_overflow cx ax p1 (snd ca)) as (p2 & Hp2 & Hpp & _); try done.
    { rewrite Hc, Hm, Hqm. f_equal. simpl length in Hlen. lia. }
    exists p1, p2. split; [done|]. split; [by rewrite Hp|].
    split; [|by rewrite Hpp].
    rewrite allocate_seq_app, Hrun1. exact Hp2.
  - intros p h i ca aa. apply reuse_after_free.
Qed.

(** C10: freeing a handle the pool does not know returns the error code
    [VK_INCOMPLETE] and changes nothing: the pool is returned as it was and
    no driver call is issued. *)
Theorem FreeDescriptorSet_unknown_handle p h :
  m_setPoolMapping p !! h = None ->
  FreeDescriptorSet p h = Some (p, VK_INCOMPLETE, []) /\ VK_INCOMPLETE <> VK_SUCCESS.
Proof.
  intros Hh. unfold FreeDescriptorSet. rewrite Hh. done.
Qed.

(** ** Descriptor set: preparation *)

Lemma prepare_buffer_elements_spec limits setIndex handle b bi elems :
  forall elems' writes logs,
  prepare_buffer_elements limits setIndex handle b bi elems = (elems', writes, logs) ->
  (forall w, w ∈ writes -> dstBinding w = b) /\
  forall j e info, elems !! j = Some (e, info) ->
    buffer_write handle b e (descriptorType bi) ∈ writes /\
    elems' !! j =
      Some (e, {| buffer := buffer info; offset := offset info;
                  range := fst (clip_range limits setIndex b (descriptorType bi) (range info)) |}) /\
    (forall d, d ∈ snd (clip_range limits setIndex b (descriptorType bi) (range info)) -> d ∈ logs).
Proof.
  induction elems as [|[e0 info0] rest IH]; intros elems' writes logs Hrun.
  - simpl in Hrun. injection Hrun as <- <- <-. split; [by intros w Hw; apply elem_of_nil in Hw|].
    intros j e info Hj. by rewrite lookup_nil in Hj.
  - simpl in Hrun.
    destruct (clip_range limits setIndex b (descriptorType bi) (range info0)) as [r log] eqn:Hclip.
    destruct (prepare_buffer_elements limits setIndex handle b bi rest) as [[rest' ws] ls] eqn:Hrest.
    injection Hrun as <- <- <-.
    destruct (IH _ _ _ eq_refl) as [IHb IHe]. split.
    + intros w Hw. apply elem_of_cons in Hw as [->|Hw]; [done|by apply IHb].
    + intros [|j] e info Hj; simpl in Hj.
      * injection Hj as <- <-. rewrite Hclip. simpl. split; [apply list_elem_of_here|].
        split; [done|]. intros d Hd. apply elem_of_app. by left.
      * destruct (IHe j e info Hj) as (Hw & He & Hl). split; [by apply list_elem_of_further|].
        split; [done|]. intros d Hd. apply elem_of_app. right. by apply Hl.
Qed.

Lemma prepare_buffers_spec limits layout handle infos :
  forall infos' writes logs,
  prepare_buffers limits layout handle infos = (infos', writes, logs) ->
  (forall w, w ∈ writes -> is_Some (GetLayoutBinding layout (dstBinding w))) /\
  forall i b elems, infos !! i = Some (b, elems) ->
    match GetLayoutBinding layout b with
    | Some bi =>
        exists elems', infos' !! i = Some (b, elems') /\
        forall j e info, elems !! j = Some (e, info) ->
          buffer_write handle b e (descriptorType bi) ∈ writes /\
          elems' !! j =
            Some (e, {| buffer := buffer info; offset := offset info;
                        range := fst (clip_range limits (m_setIndex layout) b
                                        (descriptorType bi) (range info)) |}) /\
          (forall d, d ∈ snd (clip_range limits (m_setIndex layout) b
                                (descriptorType bi) (range info)) -> d ∈ logs)
    | None => infos' !! i = Some (b, elems) /\ LOGE_NoBufferBinding b ∈ logs
    end.
Proof.
  induction infos as [|[b0 elems0] rest IH]; intros infos' writes logs Hrun.
  - simpl in Hrun. injection Hrun as <- <- <-. split; [by intros w Hw; apply elem_of_nil in Hw|].
    intros i b elems Hi. by rewrite lookup_nil in Hi.
  - simpl in Hrun.
    destruct (prepare_buffers limits layout handle rest) as [[rest' ws'] ls'] eqn:Hrest.
    destruct (IH _ _ _ eq_refl) as [IHw IHi].
    destruct (GetLayoutBinding layout b0) as [bi|] eqn:Hb0.
    + destruct (prepare_buffer_elements limits (m_setIndex layout) handle b0 bi elems0)
        as [[elems0' ws] ls] eqn:Hel.
      injection Hrun as <- <- <-.
      destruct (prepare_buffer_elements_spec _ _ _ _ _ _ _ _ _ Hel) as [Hwb Hwe].
      split.
      * intros w Hw. apply elem_of_app in Hw as [Hw|Hw]; [|by apply IHw].
        rewrite (Hwb w Hw), Hb0. by eexists.
      * intros [|i] b elems Hi; simpl in Hi.
        -- injection Hi as <- <-. rewrite Hb0. exists elems0'. split; [done|].
           intros j e info Hj. destruct (Hwe j e info Hj) as (Hw & He & Hl).
           split; [apply elem_of_app; by left|]. split; [done|].
           intros d Hd. apply elem_of_app. left. by apply Hl.
        -- specialize (IHi i b elems Hi). destruct (GetLayoutBinding layout b) as [bi'|].
           ++ destruct IHi as (elems' & He' & Hall). exists elems'. split; [done|].
              intros j e info Hj. destruct (Hall j e info Hj) as (Hw & He & Hl).
              split; [apply elem_of_app; by right|]. split; [done|].
              intros d Hd. apply elem_of_app. right. by apply Hl.
           ++ destruct IHi as [Hi' Hlog]. split; [done|]. apply elem_of_app. by right.
    + injection Hrun as <- <- <-. split.
      * intros w Hw. simpl in Hw. by apply IHw.
      * intros [|i] b elems Hi; simpl in Hi.
        -- injection Hi as <- <-. rewrite Hb0. split; [done|]. apply list_elem_of_here.
        -- specialize (IHi i b elems Hi). destruct (GetLayoutBinding layout b) as [bi'|].
           ++ destruct IHi as (elems' & He' & Hall). exists elems'. split; [done|].
              intros j e info Hj. destruct (Hall j e info Hj) as (Hw & He & Hl).
              split; [done|]. split; [done|].
              intros d Hd. apply list_elem_of_further. by apply Hl.
           ++ destruct IHi as [Hi' Hlog]. split; [done|]. by apply list_elem_of_further.
Qed.

Lemma prepare_images_spec layout handle infos :
  forall writes logs,
  prepare_images layout handle infos = (writes, logs) ->
  (forall w, w ∈ writes -> is_Some (GetLayoutBinding layout (dstBinding w))) /\
  forall b resources, (b, resources) ∈ infos ->
    match GetLayoutBinding layout b with
    | Some bi => forall e info, (e, info) ∈ resources ->
                   image_write handle b e (descriptorType bi) ∈ writes
    | None => LOGE_NoImageBinding b ∈ logs
    end.
Proof.
  induction infos as [|[b0 res0] rest IH]; intros writes logs Hrun.
  - simpl in Hrun. injection Hrun as <- <-. split; [by intros w Hw; apply elem_of_nil in Hw|].
    intros b resources Hin. by apply elem_of_nil in Hin.
  - simpl in Hrun.
    destruct (prepare_images layout handle rest) as [ws' ls'] eqn:Hrest.
    destruct (IH _ _ eq_refl) as [IHw IHi].
    destruct (GetLayoutBinding layout b0) as [bi|] eqn:Hb0; injection Hrun as <- <-.
    + split.
      * intros w Hw. apply elem_of_app in Hw as [Hw|Hw]; [|by apply IHw].
        unfold prepare_image_elements in Hw. apply list_elem_of_fmap in Hw as (x & -> & _).
        simpl. rewrite Hb0. by eexists.
      * intros b resources Hin. apply elem_of_cons in Hin as [[= -> ->]|Hin].
        -- rewrite Hb0. intros e info He. apply elem_of_app. left.
           unfold prepare_image_elements. apply list_elem_of_fmap. by exists (e, info).
        -- specialize (IHi b resources Hin). destruct (GetLayoutBinding layout b).
           ++ intros e info He. apply elem_of_app. right. by apply (IHi e info).
           ++ done.
    + split.
      * intros w Hw. simpl in Hw. by apply IHw.
      * intros b resources Hin. apply elem_of_cons in Hin as [[= -> ->]|Hin].
        -- rewrite Hb0. apply list_elem_of_here.
        -- specialize (IHi b resources Hin). destruct (GetLayoutBinding layout b).
           ++ intros e info He. simpl. by apply (IHi e info).
           ++ by apply list_elem_of_further.
Qed.

Lemma clip_range_uniform limits setIndex b t r :
  is_uniform_buffer t = true -> maxUniformBufferRange limits < r ->
  clip_range limits setIndex b t r =
    (maxUniformBufferRange limits,
     [LOGE_UniformRangeExceeded setIndex b r (maxUniformBufferRange limits)]).
Proof.
  intros Ht Hr. unfold clip_range. rewrite Ht.
  by rewrite (proj2 (Z.ltb_lt _ _) Hr).
Qed.

Lemma clip_range_storage limits setIndex b t r :
  is_storage_buffer t = true -> maxStorageBufferRange limits < r ->
  clip_range limits setIndex b t r =
    (maxStorageBufferRange limits,
     [LOGE_StorageRangeExceeded setIndex b r (maxStorageBufferRange limits)]).
Proof.
  intros Ht Hr. unfold clip_range. rewrite Ht.
  assert (Hu : is_uniform_buffer t = false) by (by destruct t).
  rewrite Hu. simpl. by rewrite (proj2 (Z.ltb_lt _ _) Hr).
Qed.

Lemma clip_range_within limits setIndex b t r :
  (is_uniform_buffer t = true -> r <= maxUniformBufferRange limits) ->
  (is_storage_buffer t = true -> r <= maxStorageBufferRange limits) ->
  clip_range limits setIndex b t r = (r, []).
Proof.
  intros Hu Hs. unfold clip_range.
  destruct (is_uniform_buffer t).
  - rewrite (proj2 (Z.ltb_ge _ _) (Hu eq_refl)). simpl.
    destruct (is_storage_buffer t); [|done].
    by rewrite (proj2 (Z.ltb_ge _ _) (Hs eq_refl)).
  - simpl. destruct (is_storage_buffer t); [|done].
    by rewrite (proj2 (Z.ltb_ge _ _) (Hs eq_refl)).
Qed.

(** C4: [Prepare] on a set without write entries keeps every buffer
    binding the layout knows, clips its range to the uniform-buffer limit
    (uniform kinds) or storage-buffer limit (storage kinds) when the range
    exceeds it and logs the excess, and still pushes the write entry; a
    buffer or image binding the layout does not know is logged and gets no
    write entry while the other bindings are processed; the constructor
    itself has no failure path once the pool has handed out a handle. *)
Theorem Prepare_clips_ranges_and_skips_unknown_bindings limits ds ds' log :
  m_writeDescriptorSets ds = [] ->
  Prepare limits ds = (ds', log) ->
  (forall i b elems, m_bufferInfos ds !! i = Some (b, elems) ->
     match GetLayoutBinding (m_setLayout ds) b with
     | Some bi =>
         exists elems', m_bufferInfos ds' !! i = Some (b, elems') /\
         forall j e info, elems !! j = Some (e, info) ->
           exists r,
             elems' !! j = Some (e, {| buffer := buffer info; offset := offset info; range := r |}) /\
             buffer_write (m_setHandle ds) b e (descriptorType bi) ∈ m_writeDescriptorSets ds' /\
             (is_uniform_buffer (descriptorType bi) = true ->
              maxUniformBufferRange limits < range info ->
                r = maxUniformBufferRange limits /\
                LOGE_UniformRangeExceeded (m_setIndex (m_setLayout ds)) b (range info)
                  (maxUniformBufferRange limits) ∈ log) /\
             (is_storage_buffer (descriptorType bi) = true ->
              maxStorageBufferRange limits < range info ->
                r = maxStorageBufferRange limits /\
                LOGE_StorageRangeExceeded (m_setIndex (m_setLayout ds)) b (range info)
                  (maxStorageBufferRange limits) ∈ log) /\
             ((is_uniform_buffer (descriptorType bi) = true ->
                 range info <= maxUniformBufferRange limits) ->
              (is_storage_buffer (descriptorType bi) = true ->
                 range info <= maxStorageBufferRange limits) ->
              r = range info)
     | None =>
         m_bufferInfos ds' !! i = Some (b, elems) /\
         LOGE_NoBufferBinding b ∈ log /\
         forall w, w ∈ m_writeDescriptorSets ds' -> dstBinding w <> b
     end) /\
  (forall b resources, (b, resources) ∈ m_imageInfos ds ->
     match GetLayoutBinding (m_setLayout ds) b with
     | Some bi =>
         forall e info, (e, info) ∈ resources ->
           image_write (m_setHandle ds) b e (descriptorType bi) ∈ m_writeDescriptorSets ds'
     | None =>
         LOGE_NoImageBinding b ∈ log /\
         forall w, w ∈ m_writeDescriptorSets ds' -> dstBinding w <> b
     end) /\
  (forall create_answer alloc_answer pool pool' handle calls,
     AllocateDescriptorSet create_answer alloc_answer pool = Some (pool', handle, calls) ->
     m_setHandle ds = handle -> m_updatedBindings ds = ∅ ->
     new_DescriptorSet limits create_answer alloc_answer (m_setLayout ds) pool
       (m_bufferInfos ds) (m_imageInfos ds) = Some (ds', pool', calls, log)).
Proof.
  intros Hempty Hrun. unfold Prepare in Hrun. rewrite Hempty in Hrun.
  destruct (prepare_buffers limits (m_setLayout ds) (m_setHandle ds) (m_bufferInfos ds))
    as [[infos' bws] bls] eqn:Hbuf.
  destruct (prepare_images (m_setLayout ds) (m_setHandle ds) (m_imageInfos ds))
    as [iws ils] eqn:Himg.
  destruct (prepare_buffers_spec _ _ _ _ _ _ _ Hbuf) as [Hbw Hbi].
  destruct (prepare_images_spec _ _ _ _ _ Himg) as [Hiw Hii].
  assert (Hknown : forall w, w ∈ bws ++ iws ->
            is_Some (GetLayoutBinding (m_setLayout ds) (dstBinding w))).
  { intros w Hw. apply elem_of_app in Hw as [Hw|Hw]; [by apply Hbw|by apply Hiw]. }
  assert (Hunknown : forall b, GetLayoutBinding (m_setLayout ds) b = None ->
            forall w, w ∈ bws ++ iws -> dstBinding w <> b).
  { intros b Hb w Hw <-. apply Hknown in Hw as [bi Hbi']. congruence. }
  split_and!.
  - injection Hrun as <- <-. simpl.
    intros i b elems Hi. specialize (Hbi i b elems Hi).
    destruct (GetLayoutBinding (m_setLayout ds) b) as [bi|] eqn:Hb.
    + destruct Hbi as (elems' & He' & Hall). exists elems'. split; [done|].
      intros j e info Hj. destruct (Hall j e info Hj) as (Hw & He & Hl).
      eexists. split; [exact He|]. split; [apply elem_of_app; by left|].
      split_and!.
      * intros Ht Hr. rewrite clip_range_uniform in Hl |- * by done. simpl. split; [done|].
        apply elem_of_app. left. apply Hl. apply list_elem_of_here.
      * intros Ht Hr. rewrite clip_range_storage in Hl |- * by done. simpl. split; [done|].
        apply elem_of_app. left. apply Hl. apply list_elem_of_here.
      * intros Hu Hs. by rewrite clip_range_within.
    + destruct Hbi as [Hi' Hlog]. split; [done|]. split; [apply elem_of_app; by left|].
      by apply Hunknown.
  - injection Hrun as <- <-. simpl.
    intros b resources Hin. specialize (Hii b resources Hin).
    destruct (GetLayoutBinding (m_setLayout ds) b) as [bi|] eqn:Hb.
    + intros e info He. apply elem_of_app. right. by apply (Hii e info).
    + split; [apply elem_of_app; by right|]. by apply Hunknown.
  - intros ca aa pool pool' handle calls Halloc Hh Hu.
    unfold new_DescriptorSet. rewrite Halloc. unfold Prepare. simpl.
    rewrite <- Hh, Hbuf, Himg. rewrite <- Hu. by injection Hrun as <- <-.
Qed.

(** ** Descriptor set: incremental update *)

Section UpdateProperties.

Variable hash_write : WriteData -> Z.

Lemma collect_writes_filter ds selected ws :
  collect_writes hash_write ds selected ws =
  map (fun w => (w, hash_write (resolve ds w)))
      (List.filter
         (fun w => selected w &&
                   needs_update (m_updatedBindings ds) (dstBinding w) (hash_write (resolve ds w)))
         ws).
Proof.
  induction ws as [|w ws IH]; simpl; [done|].
  destruct (selected w); simpl; [|done].
  destruct (needs_update _ _ _); simpl; by rewrite IH.
Qed.

Lemma Update_collects bindingsToUpdate ds :
  (match bindingsToUpdate with
   | [] => collect_writes hash_write ds (fun _ => true) (m_writeDescriptorSets ds)
   | _ => collect_writes hash_write ds (in_bindings bindingsToUpdate) (m_writeDescriptorSets ds)
   end) =
  map (fun w => (w, hash_write (resolve ds w))) (stale_writes hash_write bindingsToUpdate ds).
Proof.
  unfold stale_writes, candidate.
  destruct bindingsToUpdate; by rewrite collect_writes_filter.
Qed.

(** What [Update] sends: nothing when no candidate is stale, otherwise one
    batched call with exactly the stale candidates. *)
Lemma Update_sends bindingsToUpdate ds :
  snd (Update hash_write bindingsToUpdate ds) =
  match stale_writes hash_write bindingsToUpdate ds with
  | [] => []
  | sent => [vkUpdateDescriptorSets (map (resolve ds) sent)]
  end.
Proof.
  unfold Update. simpl. rewrite Update_collects.
  destruct (stale_writes hash_write bindingsToUpdate ds) as [|w ws]; simpl; [done|].
  f_equal. f_equal. f_equal. by rewrite map_map.
Qed.

Lemma Update_frame bindingsToUpdate ds :
  let ds' := fst (Update hash_write bindingsToUpdate ds) in
  m_setLayout ds' = m_setLayout ds /\ m_bufferInfos ds' = m_bufferInfos ds /\
  m_imageInfos ds' = m_imageInfos ds /\ m_setHandle ds' = m_setHandle ds /\
  m_writeDescriptorSets ds' = m_writeDescriptorSets ds.
Proof. done. Qed.

Lemma resolve_Update bindingsToUpdate ds w :
  resolve (fst (Update hash_write bindingsToUpdate ds)) w = resolve ds w.
Proof. done. Qed.

(** The hashes on record after recording a list of sent writes. *)
Lemma record_hashes_lookup (ds : DescriptorSet) (sent : list VkWriteDescriptorSet) :
  forall (updated : gmap Z Z) b,
  fold_left (fun updated wh => <[dstBinding (fst wh) := snd wh]> updated)
            (map (fun w => (w, hash_write (resolve ds w))) sent) updated !! b =
  match last (List.filter (fun w => dstBinding w =? b) sent) with
  | Some w => Some (hash_write (resolve ds w))
  | None => updated !! b
  end.
Proof.
  induction sent as [|w sent IH]; intros updated b; simpl; [done|].
  rewrite IH. destruct (dstBinding w =? b) eqn:Hb.
  - apply Z.eqb_eq in Hb. subst b. simpl.
    destruct (List.filter _ sent) as [|w' rest] eqn:Hf; simpl.
    + by rewrite lookup_insert_eq.
    + destruct (last (w' :: rest)) eqn:Hl; [done|]. by apply last_None in Hl.
  - apply Z.eqb_neq in Hb.
    destruct (last (List.filter _ sent)); [done|]. by rewrite lookup_insert_ne.
Qed.

Lemma Update_records bindingsToUpdate ds b :
  m_updatedBindings (fst (Update hash_write bindingsToUpdate ds)) !! b =
  match last (List.filter (fun w => dstBinding w =? b)
                          (stale_writes hash_write bindingsToUpdate ds)) with
  | Some w => Some (hash_write (resolve ds w))
  | None => m_updatedBindings ds !! b
  end.
Proof.
  unfold Update. simpl. rewrite Update_collects. apply record_hashes_lookup.
Qed.

Lemma needs_update_false (updated : gmap Z Z) b h :
  needs_update updated b h = false <-> updated !! b = Some h.
Proof.
  unfold needs_update. destruct (updated !! b) as [h'|]; [|done].
  rewrite negb_false_iff, Z.eqb_eq. split; congruence.
Qed.

Lemma filter_filter_swap {A} (P Q : A -> bool) (l : list A) :
  List.filter Q (List.filter P l) = List.filter P (List.filter Q l).
Proof.
  induction l as [|x l IH]; simpl; [done|].
  destruct (P x) eqn:HP, (Q x) eqn:HQ; simpl; rewrite ?HP, ?HQ, IH; done.
Qed.

Lemma filter_none {A} (P : A -> bool) (l : list A) :
  (forall x, x ∈ l -> P x = false) -> List.filter P l = [].
Proof.
  induction l as [|x l IH]; intros Hall; simpl; [done|].
  rewrite (Hall x) by apply list_elem_of_here.
  apply IH. intros y Hy. apply Hall. by apply list_elem_of_further.
Qed.

Lemma filter_only {A} (P : A -> bool) (l : list A) (x0 : A) :
  NoDup l -> x0 ∈ l -> P x0 = true ->
  (forall x, x ∈ l -> x <> x0 -> P x = false) ->
  List.filter P l = [x0].
Proof.
  induction l as [|x l IH]; intros Hnd Hin H0 Hother; [by apply elem_of_nil in Hin|].
  apply NoDup_cons in Hnd as [Hx Hnd]. simpl.
  apply elem_of_cons in Hin as [<-|Hin].
  - rewrite H0. f_equal. apply filter_none. intros y Hy.
    apply Hother; [by apply list_elem_of_further|]. by intros ->.
  - rewrite (Hother x); [|apply list_elem_of_here|by intros ->].
    apply IH; try done. intros y Hy. apply Hother. by apply list_elem_of_further.
Qed.

Lemma NoDup_map_inv {A B} (f : A -> B) (l : list A) :
  NoDup (map f l) -> NoDup l.
Proof. apply (NoDup_fmap_1 f). Qed.

Lemma filter_same_binding (ws : list VkWriteDescriptorSet) w :
  NoDup (map dstBinding ws) -> w ∈ ws ->
  List.filter (fun x => dstBinding x =? dstBinding w) ws = [w].
Proof.
  intros Hnd Hw. apply filter_only; try done.
  - by eapply NoDup_map_inv.
  - apply Z.eqb_refl.
  - intros x Hx Hne. apply Z.eqb_neq. intros Heq. apply Hne.
    apply list_elem_of_lookup in Hx as [i Hi]. apply list_elem_of_lookup in Hw as [j Hj].
    assert (i = j) as ->; [|congruence].
    eapply (NoDup_lookup (map dstBinding ws)); [done| |].
    + rewrite list_lookup_fmap, Hi. simpl. reflexivity.
    + rewrite list_lookup_fmap, Hj. simpl. by rewrite Heq.
Qed.

(** With one write entry per binding number, a full [Update] leaves the hash
    of every entry on record. *)
Lemma Update_all_recorded ds :
  NoDup (map dstBinding (m_writeDescriptorSets ds)) ->
  forall w, w ∈ m_writeDescriptorSets ds ->
    m_updatedBindings (fst (Update hash_write [] ds)) !! dstBinding w =
      Some (hash_write (resolve ds w)).
Proof.
  intros Hnd w Hw. rewrite Update_records. unfold stale_writes.
  rewrite filter_filter_swap, filter_same_binding by done. simpl.
  destruct (needs_update _ _ _) eqn:Hn; simpl; [done|].
  by apply needs_update_false.
Qed.

(** Hence a second full [Update] right after the first sends nothing. *)
Lemma Update_twice_one_entry_per_binding ds :
  NoDup (map dstBinding (m_writeDescriptorSets ds)) ->
  snd (Update hash_write [] (fst (Update hash_write [] ds))) = [].
Proof.
  intros Hnd. rewrite Update_sends. unfold stale_writes.
  rewrite filter_none; [done|].
  intros w Hw. rewrite resolve_Update. rewrite andb_true_l.
  apply needs_update_false. by apply Update_all_recorded.
Qed.

(** And after the data behind exactly one entry changes, the next full
    [Update] sends that entry alone. *)
Lemma Update_after_one_change ds ds2 w0 :
  NoDup (map dstBinding (m_writeDescriptorSets ds)) ->
  (forall w, w ∈ m_writeDescriptorSets ds ->
     m_updatedBindings ds !! dstBinding w = Some (hash_write (resolve ds w))) ->
  m_writeDescriptorSets ds2 = m_writeDescriptorSets ds ->
  m_updatedBindings ds2 = m_updatedBindings ds ->
  w0 ∈ m_writeDescriptorSets ds ->
  (forall w, w ∈ m_writeDescriptorSets ds -> w <> w0 -> resolve ds2 w = resolve ds w) ->
  hash_write (resolve ds2 w0) <> hash_write (resolve ds w0) ->
  snd (Update hash_write [] ds2) = [vkUpdateDescriptorSets [resolve ds2 w0]].
Proof.
  intros Hnd Hrec Hws Hup Hw0 Hsame Hdiff.
  rewrite Update_sends. unfold stale_writes. rewrite Hws, Hup.
  rewrite (filter_only _ _ w0); try done.
  - by eapply NoDup_map_inv.
  - simpl. unfold needs_update. rewrite (Hrec w0 Hw0).
    apply negb_true_iff, Z.eqb_neq. congruence.
  - intros w Hw Hne. simpl. apply needs_update_false.
    rewrite (Hsame w Hw Hne). by apply Hrec.
Qed.

End UpdateProperties.

(** C3 (the code departs from it): on a set whose binding 0 has two array
    elements, whose write entries hash differently, the first full [Update]
    sends both entries and the second one, with nothing changed in between,
    sends the entry of element 0 again: [m_updatedBindings] keeps one hash per
    binding number, and the hash of element 1 has replaced that of
    element 0. *)
Theorem Update_twice_resends_array_element (hash_write : WriteData -> Z) :
  hash_write (resolve array_set (buffer_write 21 0 0 VK_DESCRIPTOR_TYPE_UNIFORM_BUFFER)) <>
  hash_write (resolve array_set (buffer_write 21 0 1 VK_DESCRIPTOR_TYPE_UNIFORM_BUFFER)) ->
  snd (Update hash_write [] array_set) =
    [vkUpdateDescriptorSets
       [resolve array_set (buffer_write 21 0 0 VK_DESCRIPTOR_TYPE_UNIFORM_BUFFER);
        resolve array_set (buffer_write 21 0 1 VK_DESCRIPTOR_TYPE_UNIFORM_BUFFER)]] /\
  snd (Update hash_write [] (fst (Update hash_write [] array_set))) =
    [vkUpdateDescriptorSets
       [resolve array_set (buffer_write 21 0 0 VK_DESCRIPTOR_TYPE_UNIFORM_BUFFER)]].
Proof.
  intros Hdiff.
  assert (Hws : m_writeDescriptorSets array_set =
                [buffer_write 21 0 0 VK_DESCRIPTOR_TYPE_UNIFORM_BUFFER;
                 buffer_write 21 0 1 VK_DESCRIPTOR_TYPE_UNIFORM_BUFFER]) by reflexivity.
  assert (Hup : m_updatedBindings array_set = ∅) by reflexivity.
  assert (Hfirst : stale_writes hash_write [] array_set = m_writeDescriptorSets array_set).
  { unfold stale_writes, needs_update. rewrite Hup, Hws. simpl.
    by rewrite !lookup_empty. }
  split.
  - rewrite Update_sends, Hfirst, Hws. done.
  - assert (Hrec : m_updatedBindings (fst (Update hash_write [] array_set)) !! 0 =
                   Some (hash_write (resolve array_set
                           (buffer_write 21 0 1 VK_DESCRIPTOR_TYPE_UNIFORM_BUFFER)))).
    { rewrite Update_records, Hfirst, Hws. done. }
    assert (Hws1 : m_writeDescriptorSets (fst (Update hash_write [] array_set)) =
                   m_writeDescriptorSets array_set) by done.
    pose proof (resolve_Update hash_write [] array_set) as Hres.
    remember (fst (Update hash_write [] array_set)) as ds1 eqn:Hds1.
    rewrite Update_sends. unfold stale_writes, needs_update.
    rewrite Hws1, Hws. cbn [List.filter candidate andb buffer_write dstBinding].
    rewrite !Hres, Hrec.
    apply Z.eqb_neq in Hdiff. rewrite Z.eqb_sym, Hdiff. cbn [negb].
    rewrite Z.eqb_refl. cbn [negb map]. by rewrite Hres.
Qed.

Lemma Update_twice_resends_array_element_witness :
  snd (Update hash_WriteData [] (fst (Update hash_WriteData [] array_set))) =
    [vkUpdateDescriptorSets
       [resolve array_set (buffer_write 21 0 0 VK_DESCRIPTOR_TYPE_UNIFORM_BUFFER)]].
Proof.
  apply (Update_twice_resends_array_element hash_WriteData).
  vm_compute. discriminate.
Defined.

(** ** Instances on the sample data *)

Lemma DescriptorSetLayout_construction_checks_witness :
  new_DescriptorSetLayout (fun _ => (VK_SUCCESS, 7)) 0 [] conflicting_resources =
    Throw DynamicWithUpdateAfterBind /\
  (exists l', new_DescriptorSetLayout (fun _ => (VK_SUCCESS, 7)) 0 [] [array_resource] = Ok l' /\
              m_handle l' = 7) /\
  ValidateFlags [] [0] = false.
Proof.
  split_and!.
  - destruct (DescriptorSetLayout_construction_checks (fun _ => (VK_SUCCESS, 7)) 0 []
                conflicting_resources) as (Ha & _ & _).
    eapply Ha; [| |reflexivity].
    + eexists. split; [apply list_elem_of_here|reflexivity].
    + eexists. split; [apply list_elem_of_further, list_elem_of_here|reflexivity].
  - destruct (DescriptorSetLayout_construction_checks (fun _ => (VK_SUCCESS, 7)) 0 []
                [array_resource]) as (_ & Hb & _).
    destruct Hb as (_ & _ & Hb).
    + intros r Hr. apply list_elem_of_singleton in Hr as ->. discriminate.
    + destruct (Hb _ eq_refl) as [Hok _]. destruct (Hok eq_refl) as (l' & Hl' & Hh & _).
      exists l'. split; [exact Hl'|exact Hh].
  - destruct (DescriptorSetLayout_construction_checks (fun _ => (VK_SUCCESS, 7)) 0 []
                conflicting_resources) as (_ & _ & Hc).
    apply (Hc [] [0]). split; [discriminate|]. simpl. lia.
Defined.

Lemma Prepare_clips_ranges_and_skips_unknown_bindings_witness :
  LOGE_UniformRangeExceeded 0 0 100000 65536 ∈ snd (Prepare example_limits oversized_set) /\
  LOGE_NoBufferBinding 5 ∈ snd (Prepare example_limits oversized_set).
Proof.
  destruct (Prepare_clips_ranges_and_skips_unknown_bindings example_limits oversized_set
              (fst (Prepare example_limits oversized_set))
              (snd (Prepare example_limits oversized_set)) eq_refl (surjective_pairing _))
    as (Hbuf & _ & _).
  split.
  - pose proof (Hbuf 0%nat 0 _ eq_refl) as H0.
    change (GetLayoutBinding (m_setLayout oversized_set) 0) with
      (Some {| binding := 0; descriptorType := VK_DESCRIPTOR_TYPE_UNIFORM_BUFFER;
               descriptorCount := 2; stageFlags := 1 |}) in H0.
    destruct H0 as (elems' & _ & Hall).
    destruct (Hall 0%nat 0 _ eq_refl) as (r & _ & _ & Hu & _).
    apply Hu; [reflexivity|]. simpl. lia.
  - pose proof (Hbuf 1%nat 5 _ eq_refl) as H5.
    change (GetLayoutBinding (m_setLayout oversized_set) 5) with
      (@None VkDescriptorSetLayoutBinding) in H5.
    apply H5.
Defined.

Lemma AllocateDescriptorSet_reaches_wf create_answer alloc_answer p p' h calls :
  pool_wf p -> driver_ok p create_answer alloc_answer ->
  AllocateDescriptorSet create_answer alloc_answer p = Some (p', h, calls) ->
  pool_wf p'.
Proof.
  intros Hwf Hok Hrun.
  destruct (AllocateDescriptorSet_wf _ _ _ Hwf Hok) as (q & h' & calls' & Hq & Hwfq & _).
  congruence.
Qed.

Lemma allocate_seq_reaches_wf answers : forall p p',
  pool_wf p ->
  Forall (fun a => fst (fst a) = VK_SUCCESS /\ fst (snd a) = VK_SUCCESS) answers ->
  NoDup (map (fun a => snd (snd a)) answers) ->
  (forall a, a ∈ answers -> m_setPoolMapping p !! snd (snd a) = None) ->
  allocate_seq answers p = Some p' -> pool_wf p'.
Proof.
  induction answers as [|[ca aa] rest IH]; intros p p' Hwf Hall Hnd Hfresh Hrun; simpl in Hrun.
  - congruence.
  - apply Forall_cons in Hall as [[Hca Haa] Hall]. simpl in Hca, Haa.
    apply NoDup_cons in Hnd as [Hnotin Hnd].
    assert (Hok : driver_ok p ca aa).
    { split; [done|]. intros _. apply (Hfresh (ca, aa)). apply list_elem_of_here. }
    destruct (AllocateDescriptorSet_wf ca aa p Hwf Hok)
      as (q & h & calls & Hq & Hwfq & Hsucc & _).
    rewrite Hq in Hrun. destruct (Hsucc Haa) as [-> Hmap].
    apply (IH q p' Hwfq Hall Hnd); [|done].
    intros a Ha. rewrite Hmap. rewrite lookup_insert_ne.
    + apply Hfresh. by apply list_elem_of_further.
    + intros Heq. apply Hnotin. simpl. rewrite Heq.
      apply list_elem_of_In, in_map_iff. exists a. split; [done|]. by apply list_elem_of_In.
Qed.

Lemma example_pool_grown_wf : pool_wf example_pool_grown.
Proof.
  apply (allocate_seq_reaches_wf (example_answers ++ [example_extra]) example_pool).
  - apply new_DescriptorPool_wf. lia.
  - repeat constructor.
  - simpl. repeat constructor; rewrite ?list_elem_of_In; simpl; intuition lia.
  - intros a _. apply lookup_empty.
  - reflexivity.
Qed.

Lemma DescriptorPool_probe_growth_reuse_witness :
  (exists p1 p2,
     allocate_seq example_answers example_pool = Some p1 /\ length (m_pools p1) = 1%nat /\
     allocate_seq (example_answers ++ [example_extra]) example_pool = Some p2 /\
     length (m_pools p2) = 2%nat) /\
  (exists pool c p1 p2,
     m_pools example_pool_grown !! 0%nat = Some pool /\
     m_poolSetsCount example_pool_grown !! 0%nat = Some c /\
     FreeDescriptorSet example_pool_grown 11 =
       Some (p1, VK_SUCCESS, [vkFreeDescriptorSets pool 11]) /\
     m_poolSetsCount p1 !! 0%nat = Some (c - 1) /\
     m_setPoolMapping p1 !! 11 = None /\
     m_poolIndex p1 = 0%nat /\
     AllocateDescriptorSet (VK_SUCCESS, 103) (VK_SUCCESS, 14) p1 =
       Some (p2, 14, [vkAllocateDescriptorSets pool (m_handle (m_descriptorSetLayout example_pool_grown))]) /\
     m_pools p2 = m_pools example_pool_grown /\ m_poolIndex p2 = 0%nat /\
     m_poolSetsCount p2 !! 0%nat = Some c).
Proof.
  destruct DescriptorPool_probe_growth_reuse as (_ & _ & Hgrow & Hreuse).
  split.
  - apply Hgrow; [lia|reflexivity|repeat constructor].
  - apply (Hreuse example_pool_grown 11 0%nat (VK_SUCCESS, 103) (VK_SUCCESS, 14));
      [apply example_pool_grown_wf|reflexivity|reflexivity].
Defined.

Lemma FreeDescriptorSet_unknown_handle_witness :
  FreeDescriptorSet example_pool_grown 99 = Some (example_pool_grown, VK_INCOMPLETE, []) /\
  VK_INCOMPLETE <> VK_SUCCESS.
Proof.
  apply FreeDescriptorSet_unknown_handle. reflexivity.
Defined.

(** ** Resource record *)

Lemma back_push_back_size v : back (push_back_size v) = length v.
Proof. unfold back, push_back_size. apply last_last. Qed.

Lemma at_all_Ok table ps idxs :
  at_all table ps = Ok idxs -> Forall2 (fun p i => table !! p = Some i) ps idxs.
Proof.
  revert idxs. induction ps as [|p ps IH]; intros idxs; simpl.
  - intros [= <-]. constructor.
  - destruct (table !! p) as [i|] eqn:Hp; [|done].
    destruct (at_all table ps) as [idxs'|e]; simpl; [|done].
    intros [= <-]. constructor; [done|]. by apply IH.
Qed.

Lemma at_all_known table ps :
  Forall (fun p => is_Some (table !! p)) ps -> exists idxs, at_all table ps = Ok idxs.
Proof.
  induction ps as [|p ps IH]; intros Hall; simpl; [by eexists|].
  apply Forall_cons in Hall as [[i Hi] Hall]. rewrite Hi.
  destruct (IH Hall) as [idxs ->]. simpl. by eexists.
Qed.

Lemma run_call_returns c r X r' i :
  registers c = Some X -> run_call c r = (r', Some (Ok i)) ->
  i = length (indices_of X r) /\
  exists e, m_stream r' = m_stream r ++ [e] /\ entry_tag e = X /\ encodes_dependencies r c e.
Proof.
  intros HX Hrun. destruct c; simpl in HX; try done; injection HX as <-; simpl in Hrun.
  - injection Hrun as <- <-. rewrite back_push_back_size. split; [done|].
    eexists. simpl. done.
  - unfold RegisterPipelineLayout in Hrun.
    destruct (at_all (m_shaderModuleToIndex r) shaderModules) as [idxs|e] eqn:Hat; [|done].
    injection Hrun as <- <-. rewrite back_push_back_size. split; [done|].
    eexists. simpl. split; [done|]. split; [done|]. by apply at_all_Ok.
  - injection Hrun as <- <-. rewrite back_push_back_size. split; [done|].
    eexists. simpl. done.
  - unfold RegisterGraphicsPipeline in Hrun.
    destruct (m_pipelineLayoutToIndex r !! pipeline_layout pipelineState) as [li|] eqn:Hl;
      [|done].
    destruct (m_renderPassToIndex r !! render_pass pipelineState) as [ri|] eqn:Hr; [|done].
    injection Hrun as <- <-. rewrite back_push_back_size. split; [done|].
    eexists. simpl. done.
Qed.

Lemma run_call_known c r X :
  registers c = Some X -> dependencies_known r c ->
  exists r' i, run_call c r = (r', Some (Ok i)).
Proof.
  intros HX Hknown. destruct c; simpl in HX; try done; simpl.
  - by eexists _, _.
  - unfold RegisterPipelineLayout. simpl in Hknown.
    destruct (at_all_known _ _ Hknown) as [idxs ->]. by eexists _, _.
  - by eexists _, _.
  - unfold RegisterGraphicsPipeline. simpl in Hknown.
    destruct Hknown as [[li ->] [ri ->]]. by eexists _, _.
Qed.

Lemma run_call_indices c r X :
  length (indices_of X (fst (run_call c r))) =
  (length (indices_of X r) + if bool_decide (registers c = Some X) then 1 else 0)%nat.
Proof.
  destruct c; simpl.
  - destruct X; simpl; unfold push_back_size; rewrite ?length_app; simpl; lia.
  - unfold RegisterPipelineLayout.
    destruct (at_all _ _); destruct X; simpl; unfold push_back_size;
      rewrite ?length_app; simpl; lia.
  - destruct X; simpl; unfold push_back_size; rewrite ?length_app; simpl; lia.
  - unfold RegisterGraphicsPipeline.
    destruct (m_pipelineLayoutToIndex r !! pipeline_layout pipelineState),
      (m_renderPassToIndex r !! render_pass pipelineState);
      destruct X; simpl; unfold push_back_size; rewrite ?length_app; simpl; lia.
  - destruct X; simpl; lia.
  - destruct X; simpl; lia.
  - destruct X; simpl; lia.
  - destruct X; simpl; lia.
Qed.

Lemma run_calls_indices calls : forall r X,
  length (indices_of X (run_calls calls r)) =
  (length (indices_of X r) + count_registers X calls)%nat.
Proof.
  induction calls as [|c calls IH]; intros r X.
  - unfold count_registers. simpl. lia.
  - unfold run_calls. simpl. fold (run_calls calls (fst (run_call c r))).
    rewrite IH, run_call_indices. unfold count_registers. simpl.
    destruct (bool_decide (registers c = Some X)); simpl; lia.
Qed.

(** C7: after any sequence of calls on a fresh recorder, a [Register...]
    call of kind [X] that returns yields the number of earlier
    [Register...] calls of that kind (the N-th call returns N-1), appends
    exactly one entry, tagged [X], whose references to earlier objects are the
    indices found in the pointer-to-index tables; it does return when the
    tables know those objects; and the tables hold what the [Set...] calls
    put there. *)
Theorem Register_returns_sequential_indices (pre : list RecorderCall) (c : RecorderCall)
    (X : ResourceType.t) :
  registers c = Some X ->
  let r := run_calls pre empty_record in
  (forall r' i, run_call c r = (r', Some (Ok i)) ->
     i = count_registers X pre /\
     exists e, m_stream r' = m_stream r ++ [e] /\ entry_tag e = X /\
               encodes_dependencies r c e) /\
  (dependencies_known r c -> exists r' i, run_call c r = (r', Some (Ok i))) /\
  (forall index p q,
     m_shaderModuleToIndex (SetShaderModule index p r) !! q =
       (if decide (p = q) then Some index else m_shaderModuleToIndex r !! q) /\
     m_pipelineLayoutToIndex (SetPipelineLayout index p r) !! q =
       (if decide (p = q) then Some index else m_pipelineLayoutToIndex r !! q) /\
     m_renderPassToIndex (SetRenderPass index p r) !! q =
       (if decide (p = q) then Some index else m_renderPassToIndex r !! q) /\
     m_stream (SetShaderModule index p r) = m_stream r /\
     m_stream (SetPipelineLayout index p r) = m_stream r /\
     m_stream (SetRenderPass index p r) = m_stream r).
Proof.
  intros HX r. split_and!.
  - intros r' i Hrun. destruct (run_call_returns c r X r' i HX Hrun) as [-> He].
    split; [|done]. unfold r. rewrite run_calls_indices. by destruct X.
  - by apply (run_call_known c r X).
  - intros index p q. simpl. rewrite !lookup_insert. done.
Qed.

(** ** Resource cache: bulk clears *)

(** C9: [Clear] empties the shader-module, pipeline-layout, descriptor-set,
    descriptor-set-layout, render-pass, graphics-pipeline, compute-pipeline
    and framebuffer maps and leaves the descriptor-pool map as it is: every
    pool cached before is cached afterwards under the same key. *)
Theorem Clear_keeps_descriptor_pools (s : ResourceCacheState) :
  shader_modules (Clear s) = ∅ /\ pipeline_layouts (Clear s) = ∅ /\
  descriptor_sets (Clear s) = ∅ /\ descriptor_set_layouts (Clear s) = ∅ /\
  render_passes (Clear s) = ∅ /\ graphics_pipelines (Clear s) = ∅ /\
  compute_pipelines (Clear s) = ∅ /\ framebuffers (Clear s) = ∅ /\
  descriptor_pools (Clear s) = descriptor_pools s /\
  forall key pool, descriptor_pools s !! key = Some pool ->
                   descriptor_pools (Clear s) !! key = Some pool.
Proof. by repeat split. Qed.

(** ** Resource cache: swapping image views *)

Lemma elem_of_set_insert x l k : k ∈ set_insert x l <-> k = x \/ k ∈ l.
Proof.
  induction l as [|y l IH]; simpl.
  - rewrite list_elem_of_singleton, elem_of_nil. tauto.
  - destruct (x <? y) eqn:Hlt; [by rewrite !elem_of_cons|].
    destruct (x =? y) eqn:Heq.
    + apply Z.eqb_eq in Heq. subst y. rewrite elem_of_cons. tauto.
    + rewrite !elem_of_cons, IH. tauto.
Qed.

Lemma set_insert_sorted x l :
  StronglySorted Z.lt l -> StronglySorted Z.lt (set_insert x l).
Proof.
  induction l as [|y l IH]; intros Hs; simpl.
  - repeat constructor.
  - apply StronglySorted_inv in Hs as [Hs Hy].
    destruct (x <? y) eqn:Hlt.
    + apply Z.ltb_lt in Hlt. constructor; [by constructor|].
      constructor; [done|]. eapply Forall_impl; [exact Hy|]. intros z Hz. simpl in Hz. lia.
    + destruct (x =? y) eqn:Heq; [by constructor|].
      apply Z.ltb_ge in Hlt. apply Z.eqb_neq in Heq.
      constructor; [by apply IH|].
      apply Forall_forall. intros z Hz. apply elem_of_set_insert in Hz as [->|Hz]; [lia|].
      rewrite Forall_forall in Hy. by apply Hy.
Qed.

Lemma sorted_NoDup l : StronglySorted Z.lt l -> NoDup l.
Proof.
  induction l as [|y l IH]; intros Hs; [constructor|].
  apply StronglySorted_inv in Hs as [Hs Hy]. constructor; [|by apply IH].
  intros Hin. rewrite Forall_forall in Hy. specialize (Hy y Hin). lia.
Qed.

Lemma swap_elements_spec oldView newView layout handle b array :
  forall array' writes logs hit,
  swap_elements oldView newView layout handle b array = (array', writes, logs, hit) ->
  array' = map (fun ei => (fst ei, {| sampler := sampler (snd ei);
                                      imageView := swap1 oldView newView (imageView (snd ei));
                                      imageLayout := imageLayout (snd ei) |})) array /\
  (hit = true <-> oldView ∈ map (fun ei => imageView (snd ei)) array) /\
  (forall e info bi, (e, info) ∈ array -> imageView info = oldView ->
     GetLayoutBinding layout b = Some bi ->
     image_write handle b e (descriptorType bi) ∈ writes).
Proof.
  induction array as [|[e0 info0] rest IH]; intros array' writes logs hit Hrun; simpl in Hrun.
  - injection Hrun as <- <- <- <-. split; [done|]. split.
    + split; [done|]. intros Hin. by apply elem_of_nil in Hin.
    + intros e info bi Hin. by apply elem_of_nil in Hin.
  - destruct (swap_elements oldView newView layout handle b rest)
      as [[[rest' ws] ls] h] eqn:Hrest.
    destruct (IH _ _ _ _ eq_refl) as (Hr & Hh & Hw).
    unfold swap1. simpl.
    destruct (decide (imageView info0 = oldView)) as [Heq|Hne].
    + destruct (GetLayoutBinding layout b) as [bi0|] eqn:Hb;
        injection Hrun as <- <- <- <-; (split; [by rewrite Hr|]); split.
      * split; [intros _; rewrite Heq; apply list_elem_of_here|done].
      * intros e info bi Hin Hv [= <-]. apply elem_of_cons in Hin as [[= -> ->]|Hin].
        -- apply list_elem_of_here.
        -- apply list_elem_of_further. by eapply Hw.
      * split; [intros _; rewrite Heq; apply list_elem_of_here|done].
      * intros e info bi Hin Hv. done.
    + injection Hrun as <- <- <- <-. split; [rewrite Hr; by destruct info0|]. split.
      * rewrite Hh. rewrite elem_of_cons. split; [tauto|]. intros [Heq|Hin]; [congruence|done].
      * intros e info bi Hin Hv Hb. apply elem_of_cons in Hin as [[= -> ->]|Hin]; [done|].
        by eapply Hw.
Qed.

Lemma swap_bindings_spec oldView newView layout handle infos :
  forall infos' writes logs hit,
  swap_bindings oldView newView layout handle infos = (infos', writes, logs, hit) ->
  infos' = map_views (swap1 oldView newView) infos /\
  (hit = true <->
   oldView ∈ flat_map (fun ba => map (fun ei => imageView (snd ei)) (snd ba)) infos) /\
  (forall b array e info bi, (b, array) ∈ infos -> (e, info) ∈ array ->
     imageView info = oldView -> GetLayoutBinding layout b = Some bi ->
     image_write handle b e (descriptorType bi) ∈ writes).
Proof.
  induction infos as [|[b0 array0] rest IH]; intros infos' writes logs hit Hrun; simpl in Hrun.
  - injection Hrun as <- <- <- <-. split; [done|]. split.
    + split; [done|]. intros Hin. by apply elem_of_nil in Hin.
    + intros b array e info bi Hin. by apply elem_of_nil in Hin.
  - destruct (swap_elements oldView newView layout handle b0 array0)
      as [[[array' ws] ls] h] eqn:Harr.
    destruct (swap_bindings oldView newView layout handle rest)
      as [[[rest' ws'] ls'] h'] eqn:Hrest.
    injection Hrun as <- <- <- <-.
    destruct (swap_elements_spec _ _ _ _ _ _ _ _ _ _ Harr) as (Ha & Hh & Hw).
    destruct (IH _ _ _ _ eq_refl) as (Hr & Hh' & Hw').
    split; [simpl; by rewrite Ha, Hr|]. split.
    + simpl. rewrite elem_of_app, orb_true_iff, Hh, Hh'. done.
    + intros b array e info bi Hin He Hv Hb. apply elem_of_app.
      apply elem_of_cons in Hin as [[= -> ->]|Hin].
      * left. by eapply Hw.
      * right. by eapply Hw'.
Qed.

Lemma set_imageInfos_id ds : set_imageInfos (m_imageInfos ds) ds = ds.
Proof. by destruct ds. Qed.

Lemma map_views_id (f : Z -> Z) infos :
  (forall v, v ∈ flat_map (fun ba => map (fun ei => imageView (snd ei)) (snd ba)) infos ->
             f v = v) ->
  map_views f infos = infos.
Proof.
  induction infos as [|[b array] rest IH]; intros Hf; simpl; [done|].
  f_equal.
  - f_equal. clear IH. simpl in Hf.
    assert (Ha : forall v, v ∈ map (fun ei => imageView (snd ei)) array -> f v = v).
    { intros v Hv. apply Hf. apply elem_of_app. by left. }
    clear Hf. induction array as [|[e info] array IHa]; simpl; [done|].
    f_equal.
    + f_equal. destruct info as [s v l]. simpl. f_equal. apply Ha. simpl. apply list_elem_of_here.
    + apply IHa. intros v Hv. apply Ha. simpl. by apply list_elem_of_further.
  - apply IH. intros v Hv. apply Hf. simpl. apply elem_of_app. by right.
Qed.

Lemma map_views_compose (f g : Z -> Z) infos :
  map_views g (map_views f infos) = map_views (fun v => g (f v)) infos.
Proof.
  unfold map_views. rewrite map_map. apply map_ext. intros [b array]. simpl.
  f_equal. rewrite map_map. by apply map_ext.
Qed.

Lemma map_views_ext (f g : Z -> Z) infos :
  (forall v, f v = g v) -> map_views f infos = map_views g infos.
Proof.
  intros Hfg. unfold map_views. apply map_ext. intros [b array]. f_equal.
  apply map_ext. intros [e info]. simpl. by rewrite Hfg.
Qed.

Lemma views_map_views (f : Z -> Z) infos :
  flat_map (fun ba => map (fun ei => imageView (snd ei)) (snd ba)) (map_views f infos) =
  map f (flat_map (fun ba => map (fun ei => imageView (snd ei)) (snd ba)) infos).
Proof.
  induction infos as [|[b array] rest IH]; simpl; [done|].
  rewrite map_app, IH. f_equal. rewrite !map_map. done.
Qed.

Lemma swapped_eq oldView newView ds :
  swapped oldView newView ds =
  set_imageInfos (map_views (swap1 oldView newView) (m_imageInfos ds)) ds.
Proof.
  unfold swapped, swap_set.
  destruct (swap_bindings oldView newView (m_setLayout ds) (m_setHandle ds) (m_imageInfos ds))
    as [[[infos' ws] ls] h] eqn:Hrun.
  destruct (swap_bindings_spec _ _ _ _ _ _ _ _ _ Hrun) as (-> & _ & _). done.
Qed.

Lemma swap_set_hit oldView newView ds :
  snd (swap_set oldView newView ds) = true <-> oldView ∈ views_of ds.
Proof.
  unfold swap_set, views_of.
  destruct (swap_bindings oldView newView (m_setLayout ds) (m_setHandle ds) (m_imageInfos ds))
    as [[[infos' ws] ls] h] eqn:Hrun.
  destruct (swap_bindings_spec _ _ _ _ _ _ _ _ _ Hrun) as (_ & Hh & _). done.
Qed.

Lemma swap_set_covers oldView newView ds b array e info bi :
  (b, array) ∈ m_imageInfos ds -> (e, info) ∈ array -> imageView info = oldView ->
  GetLayoutBinding (m_setLayout ds) b = Some bi ->
  image_write (m_setHandle ds) b e (descriptorType bi) ∈
    snd (fst (fst (swap_set oldView newView ds))).
Proof.
  unfold swap_set.
  destruct (swap_bindings oldView newView (m_setLayout ds) (m_setHandle ds) (m_imageInfos ds))
    as [[[infos' ws] ls] h] eqn:Hrun.
  destruct (swap_bindings_spec _ _ _ _ _ _ _ _ _ Hrun) as (_ & _ & Hw). simpl. apply Hw.
Qed.

Lemma swapped_untouched oldView newView ds :
  oldView ∉ views_of ds -> swapped oldView newView ds = ds.
Proof.
  intros Hno. rewrite swapped_eq. rewrite map_views_id; [apply set_imageInfos_id|].
  intros v Hv. unfold swap1. destruct (decide (v = oldView)) as [->|]; [done|done].
Qed.

Lemma views_swapped oldView newView ds :
  views_of (swapped oldView newView ds) = map (swap1 oldView newView) (views_of ds).
Proof. rewrite swapped_eq. unfold views_of. simpl. apply views_map_views. Qed.

Lemma swapped_all_eq oldViews : forall newViews ds,
  swapped_all oldViews newViews ds =
  set_imageInfos (map_views (final_view oldViews newViews) (m_imageInfos ds)) ds.
Proof.
  induction oldViews as [|o olds IH]; intros news ds; simpl.
  - rewrite map_views_id by done. by rewrite set_imageInfos_id.
  - destruct news as [|n news].
    + rewrite map_views_id by done. by rewrite set_imageInfos_id.
    + rewrite IH, swapped_eq. simpl. rewrite map_views_compose. done.
Qed.

Lemma touched_views oldViews : forall newViews ds,
  touched oldViews newViews ds -> exists v, v ∈ views_of ds /\ v ∈ oldViews.
Proof.
  induction oldViews as [|o olds IH]; intros news ds; simpl; [done|].
  destruct news as [|n news]; [done|]. intros [Hhit|Hlater].
  - exists o. split; [done|apply list_elem_of_here].
  - destruct (IH _ _ Hlater) as (v & Hv & Hin).
    rewrite views_swapped in Hv. apply list_elem_of_fmap in Hv as (u & -> & Hu).
    unfold swap1 in Hin. destruct (decide (u = o)) as [->|Hne].
    + exists o. split; [done|apply list_elem_of_here].
    + exists u. split; [done|by apply list_elem_of_further].
Qed.

Lemma views_touched oldViews : forall newViews ds v,
  length oldViews = length newViews -> v ∈ views_of ds -> v ∈ oldViews ->
  touched oldViews newViews ds.
Proof.
  induction oldViews as [|o olds IH]; intros news ds v Hlen Hv Hin; simpl.
  - by apply elem_of_nil in Hin.
  - destruct news as [|n news]; [done|]. injection Hlen as Hlen.
    destruct (decide (v = o)) as [->|Hne]; [by left|]. right.
    apply elem_of_cons in Hin as [->|Hin]; [done|].
    apply (IH news _ v); [done| |done].
    rewrite views_swapped. apply list_elem_of_fmap. exists v. split; [|done].
    unfold swap1. by rewrite decide_False.
Qed.

Lemma swapped_all_untouched oldViews : forall newViews ds,
  (forall v, v ∈ views_of ds -> v ∉ oldViews) -> swapped_all oldViews newViews ds = ds.
Proof.
  induction oldViews as [|o olds IH]; intros news ds Hno; simpl; [done|].
  destruct news as [|n news]; [done|].
  assert (Ho : o ∉ views_of ds).
  { intros Hin. apply (Hno o Hin). apply list_elem_of_here. }
  rewrite swapped_untouched by done. apply IH.
  intros v Hv Hin. apply (Hno v Hv). by apply list_elem_of_further.
Qed.

Lemma fold_visit_match visited : forall ms k,
  k ∈ fold_left visit_match visited ms <->
  k ∈ ms \/ exists r, (k, r) ∈ visited /\ snd r = true.
Proof.
  induction visited as [|[k0 r0] rest IH]; intros ms k; simpl.
  - split; [by left|]. intros [H|(r & Hin & _)]; [done|by apply elem_of_nil in Hin].
  - rewrite IH. unfold visit_match. simpl. split.
    + intros [Hin|(r & Hin & Hr)].
      * destruct (snd r0) eqn:Hr0; [|by left].
        apply elem_of_set_insert in Hin as [->|Hin]; [|by left].
        right. exists r0. split; [apply list_elem_of_here|done].
      * right. exists r. split; [by apply list_elem_of_further|done].
    + intros [Hin|(r & Hin & Hr)].
      * left. destruct (snd r0); [|done]. apply elem_of_set_insert. by right.
      * apply elem_of_cons in Hin as [[= -> ->]|Hin].
        -- left. rewrite Hr. apply elem_of_set_insert. by left.
        -- right. by exists r.
Qed.

Lemma fold_visit_match_sorted visited : forall ms,
  StronglySorted Z.lt ms -> StronglySorted Z.lt (fold_left visit_match visited ms).
Proof.
  induction visited as [|[k0 r0] rest IH]; intros ms Hs; simpl; [done|].
  apply IH. unfold visit_match. simpl. destruct (snd r0); [by apply set_insert_sorted|done].
Qed.

Lemma elem_of_visited oldView newView (sets : gmap Z DescriptorSet) k r :
  (k, r) ∈ map (visit oldView newView) (map_to_list sets) <->
  exists ds, sets !! k = Some ds /\ r = swap_set oldView newView ds.
Proof.
  rewrite list_elem_of_fmap. split.
  - intros ([k' ds] & Heq & Hin). unfold visit in Heq. simpl in Heq.
    injection Heq as -> ->. apply elem_of_map_to_list in Hin. by exists ds.
  - intros (ds & Hk & ->). exists (k, ds). split; [done|]. by apply elem_of_map_to_list.
Qed.

Lemma swap_pass_matches oldView newView st k :
  k ∈ sw_matches (swap_pass oldView newView st) <->
  k ∈ sw_matches st \/ exists ds, sw_sets st !! k = Some ds /\ oldView ∈ views_of ds.
Proof.
  unfold swap_pass. simpl. rewrite fold_visit_match. split.
  - intros [H|(r & Hin & Hr)]; [by left|]. right.
    apply elem_of_visited in Hin as (ds & Hk & ->). exists ds. split; [done|].
    by apply (swap_set_hit oldView newView ds).
  - intros [H|(ds & Hk & Hin)]; [by left|]. right.
    exists (swap_set oldView newView ds). split; [apply elem_of_visited; by exists ds|].
    by apply (swap_set_hit oldView newView ds).
Qed.

Lemma swap_pass_covers oldView newView st k ds b array e info bi :
  sw_sets st !! k = Some ds ->
  (b, array) ∈ m_imageInfos ds -> (e, info) ∈ array -> imageView info = oldView ->
  GetLayoutBinding (m_setLayout ds) b = Some bi ->
  (k, image_write (m_setHandle ds) b e (descriptorType bi)) ∈
    sw_updates (swap_pass oldView newView st).
Proof.
  intros Hk Hb He Hv Hl. unfold swap_pass. simpl. apply elem_of_app. right.
  apply list_elem_of_In, in_flat_map.
  exists (k, swap_set oldView newView ds). split.
  - apply list_elem_of_In, elem_of_visited. by exists ds.
  - apply list_elem_of_In. unfold visit_updates. simpl. apply list_elem_of_fmap.
    eexists. split; [reflexivity|]. by eapply swap_set_covers.
Qed.

Lemma swapped_keeps oldView newView ds :
  m_setLayout (swapped oldView newView ds) = m_setLayout ds /\
  m_setHandle (swapped oldView newView ds) = m_setHandle ds /\
  m_bufferInfos (swapped oldView newView ds) = m_bufferInfos ds.
Proof. by rewrite swapped_eq. Qed.

Lemma swapped_keeps_other_infos oldView newView ds b array e info :
  (b, array) ∈ m_imageInfos ds -> (e, info) ∈ array -> imageView info <> oldView ->
  exists array', (b, array') ∈ m_imageInfos (swapped oldView newView ds) /\ (e, info) ∈ array'.
Proof.
  intros Hb He Hv. rewrite swapped_eq. simpl. unfold map_views.
  eexists. split.
  - apply list_elem_of_fmap. exists (b, array). split; [reflexivity|done].
  - simpl. apply list_elem_of_fmap. exists (e, info). split; [|done].
    simpl. f_equal. destruct info as [s v l]. simpl in *. f_equal.
    unfold swap1. by rewrite decide_False.
Qed.

Lemma swap_views_spec oldViews : forall newViews st,
  length oldViews = length newViews ->
  exists st', swap_views oldViews newViews st = Some st' /\
    sw_sets st' = swapped_all oldViews newViews <$> sw_sets st /\
    (forall k, k ∈ sw_matches st' <->
       k ∈ sw_matches st \/
       exists ds, sw_sets st !! k = Some ds /\ touched oldViews newViews ds) /\
    (StronglySorted Z.lt (sw_matches st) -> StronglySorted Z.lt (sw_matches st')) /\
    (forall kw, kw ∈ sw_updates st -> kw ∈ sw_updates st') /\
    (forall k ds b array e info bi,
       sw_sets st !! k = Some ds ->
       (b, array) ∈ m_imageInfos ds -> (e, info) ∈ array -> imageView info ∈ oldViews ->
       GetLayoutBinding (m_setLayout ds) b = Some bi ->
       (k, image_write (m_setHandle ds) b e (descriptorType bi)) ∈ sw_updates st').
Proof.
  induction oldViews as [|o olds IH]; intros news st Hlen.
  - destruct news; [|done]. exists st. simpl. split; [done|]. split.
    { by rewrite map_fmap_id. }
    split; [intros k; split; [by left|by intros [?|(ds & _ & [])]]|].
    split; [done|]. split; [done|].
    intros k ds b array e info bi _ _ _ Hin. by apply elem_of_nil in Hin.
  - destruct news as [|n news]; [done|]. injection Hlen as Hlen. simpl.
    destruct (IH news (swap_pass o n st) Hlen) as (st' & Hrun & Hsets & Hm & Hs & Hu & Hc).
    exists st'. split; [done|]. split.
    { rewrite Hsets. unfold swap_pass. simpl. by rewrite <- map_fmap_compose. }
    split.
    { intros k. rewrite Hm, swap_pass_matches. unfold swap_pass at 1. simpl.
      rewrite lookup_fmap. split.
      - intros [[H|(ds & Hk & Hin)]|(ds' & Hk & Ht)].
        + by left.
        + right. exists ds. split; [done|by left].
        + destruct (sw_sets st !! k) as [ds|] eqn:Hds; [|done]. simpl in Hk.
          injection Hk as <-. right. exists ds. split; [done|by right].
      - intros [H|(ds & Hk & [Hin|Ht])].
        + by left; left.
        + left. right. by exists ds.
        + right. exists (swapped o n ds). rewrite Hk. done. }
    split.
    { intros Hsorted. apply Hs. unfold swap_pass. simpl. by apply fold_visit_match_sorted. }
    split.
    { intros kw Hin. apply Hu. unfold swap_pass. simpl. apply elem_of_app. by left. }
    intros k ds b array e info bi Hk Hb He Hv Hl.
    destruct (decide (imageView info = o)) as [Heq|Hne].
    + apply Hu. by eapply swap_pass_covers.
    + apply elem_of_cons in Hv as [Hv|Hv]; [done|].
      destruct (swapped_keeps_other_infos o n ds b array e info Hb He Hne)
        as (array' & Hb' & He').
      destruct (swapped_keeps o n ds) as (Hlay & Hh & _).
      rewrite <- Hlay in Hl. rewrite <- Hh.
      apply (Hc k (swapped o n ds) b array' e info bi); try done.
      unfold swap_pass. simpl. by rewrite lookup_fmap, Hk.
Qed.

Lemma emplace_fresh `{Countable K} {V} (k : K) (v : V) (m : gmap K V) :
  m !! k = None -> emplace k v m = <[k:=v]> m.
Proof. intros Hk. unfold emplace. by rewrite Hk. Qed.

Lemma emplace_present `{Countable K} {V} (k j : K) (v : V) (m : gmap K V) :
  is_Some (m !! j) -> emplace k v m !! j = m !! j.
Proof.
  intros Hj. unfold emplace. destruct (m !! k) eqn:Hk; [done|].
  rewrite lookup_insert_ne; [done|]. intros ->. rewrite Hk in Hj. by destruct Hj.
Qed.

Section RekeyProperties.

Variable hash_param :
  DescriptorSetLayout -> BindingMap VkDescriptorBufferInfo ->
  BindingMap VkDescriptorImageInfo -> Z.

Lemma rekey_total matches : forall sets,
  NoDup matches -> (forall k, k ∈ matches -> is_Some (sets !! k)) ->
  exists sets', rekey hash_param matches sets = Some sets'.
Proof.
  induction matches as [|k rest IH]; intros sets Hnd Hdom; simpl; [by eexists|].
  apply NoDup_cons in Hnd as [Hk Hnd].
  destruct (Hdom k) as [ds Hds]; [apply list_elem_of_here|]. rewrite Hds.
  apply IH; [done|]. intros k2 Hk2.
  rewrite emplace_present; rewrite lookup_delete_ne by (by intros ->);
    apply Hdom; by apply list_elem_of_further.
Qed.

Lemma rekey_frame matches : forall sets sets' k ds,
  rekey hash_param matches sets = Some sets' ->
  k ∉ matches -> sets !! k = Some ds -> sets' !! k = Some ds.
Proof.
  induction matches as [|k0 rest IH]; intros sets sets' k ds Hrun Hk Hds; simpl in Hrun.
  - by injection Hrun as <-.
  - destruct (sets !! k0) as [ds0|] eqn:Hds0; [|done].
    apply not_elem_of_cons in Hk as [Hne Hk].
    apply (IH _ _ k ds Hrun Hk).
    rewrite emplace_present; rewrite lookup_delete_ne by done; [done|by eexists].
Qed.

Lemma rekey_fresh matches : forall sets sets',
  NoDup matches -> rekey hash_param matches sets = Some sets' ->
  (forall k, k ∈ matches -> is_Some (sets !! k)) ->
  (forall k ds, k ∈ matches -> sets !! k = Some ds -> sets !! new_key hash_param ds = None) ->
  (forall k1 k2 ds1 ds2, k1 ∈ matches -> k2 ∈ matches -> k1 <> k2 ->
     sets !! k1 = Some ds1 -> sets !! k2 = Some ds2 ->
     new_key hash_param ds1 <> new_key hash_param ds2) ->
  (forall k ds, k ∈ matches -> sets !! k = Some ds ->
     sets' !! new_key hash_param ds = Some ds /\ sets' !! k = None) /\
  (forall k', k' ∉ matches ->
     (forall k ds, k ∈ matches -> sets !! k = Some ds -> new_key hash_param ds <> k') ->
     sets' !! k' = sets !! k').
Proof.
  induction matches as [|k rest IH]; intros sets sets' Hnd Hrun Hdom Hfresh Hdist;
    simpl in Hrun.
  - injection Hrun as <-. split; [|done]. intros k ds Hk. by apply elem_of_nil in Hk.
  - apply NoDup_cons in Hnd as [Hk Hnd].
    destruct (sets !! k) as [ds|] eqn:Hds; [|done].
    assert (Hnk : sets !! new_key hash_param ds = None).
    { apply (Hfresh k ds); [apply list_elem_of_here|done]. }
    assert (Hnkk : new_key hash_param ds <> k) by (intros Heq; congruence).
    rewrite emplace_fresh in Hrun by (by rewrite lookup_delete_ne).
    set (sets1 := <[new_key hash_param ds := ds]> (delete k sets)) in *.
    assert (Hrest : forall k2, k2 ∈ rest -> sets1 !! k2 = sets !! k2).
    { intros k2 Hk2. unfold sets1.
      destruct (Hdom k2) as [ds2 Hds2]; [by apply list_elem_of_further|].
      rewrite lookup_insert_ne by (intros Heq; congruence).
      apply lookup_delete_ne. by intros ->. }
    assert (Hnew : forall k2 ds2, k2 ∈ rest -> sets !! k2 = Some ds2 ->
                     new_key hash_param ds2 <> new_key hash_param ds).
    { intros k2 ds2 Hk2 Hds2. apply (Hdist k2 k ds2 ds); try done.
      - by apply list_elem_of_further.
      - apply list_elem_of_here.
      - by intros ->. }
    destruct (IH sets1 sets' Hnd Hrun) as [IH1 IH2].
    { intros k2 Hk2. rewrite Hrest by done. apply Hdom. by apply list_elem_of_further. }
    { intros k2 ds2 Hk2 Hds2. rewrite Hrest in Hds2 by done. unfold sets1.
      rewrite lookup_insert_ne by (apply not_eq_sym; by eapply Hnew).
      destruct (decide (new_key hash_param ds2 = k)) as [->|Hne];
        [apply lookup_delete_eq|].
      rewrite lookup_delete_ne by done.
      apply (Hfresh k2 ds2); [by apply list_elem_of_further|done]. }
    { intros k1 k2 ds1 ds2 Hk1 Hk2 Hne Hds1 Hds2.
      rewrite Hrest in Hds1, Hds2 by done.
      apply (Hdist k1 k2 ds1 ds2); try done; by apply list_elem_of_further. }
    split.
    + intros k0 ds0 Hk0 Hds0. apply elem_of_cons in Hk0 as [->|Hk0].
      * assert (ds0 = ds) as -> by congruence. split.
        -- rewrite IH2.
           ++ unfold sets1. apply lookup_insert_eq.
           ++ intros Hin. destruct (Hdom (new_key hash_param ds)) as [x Hx];
                [by apply list_elem_of_further|congruence].
           ++ intros k2 ds2 Hk2 Hds2. rewrite Hrest in Hds2 by done. by eapply Hnew.
        -- rewrite IH2.
           ++ unfold sets1. rewrite lookup_insert_ne by done. apply lookup_delete_eq.
           ++ done.
           ++ intros k2 ds2 Hk2 Hds2 Heq. rewrite Hrest in Hds2 by done.
              assert (sets !! new_key hash_param ds2 = None)
                by (apply (Hfresh k2 ds2); [by apply list_elem_of_further|done]).
              congruence.
      * apply IH1; [done|]. by rewrite Hrest.
    + intros k' Hk' Hother. apply not_elem_of_cons in Hk' as [Hne Hk'].
      rewrite IH2; [|done|].
      * unfold sets1. rewrite lookup_insert_ne.
        -- by apply lookup_delete_ne.
        -- apply (Hother k ds); [apply list_elem_of_here|done].
      * intros k2 ds2 Hk2 Hds2. rewrite Hrest in Hds2 by done.
        apply (Hother k2 ds2); [by apply list_elem_of_further|done].
Qed.

End RekeyProperties.

Lemma final_view_fixed oldViews : forall newViews v,
  v ∉ oldViews -> final_view oldViews newViews v = v.
Proof.
  induction oldViews as [|o olds IH]; intros news v Hv; simpl; [done|].
  destruct news as [|n news]; [done|].
  apply not_elem_of_cons in Hv as [Hne Hv]. rewrite decide_False by done. by apply IH.
Qed.

Lemma final_view_swaps oldViews : forall newViews i o n,
  oldViews !! i = Some o -> newViews !! i = Some n ->
  (forall j, (j < i)%nat -> oldViews !! j <> Some o) ->
  (forall j, (i < j)%nat -> oldViews !! j <> Some n) ->
  final_view oldViews newViews o = n.
Proof.
  induction oldViews as [|o0 olds IH]; intros news i o n Ho Hn Hbefore Hafter.
  - by rewrite lookup_nil in Ho.
  - destruct news as [|n0 news]; [by rewrite lookup_nil in Hn|].
    destruct i as [|i]; simpl in Ho, Hn.
    + injection Ho as ->. injection Hn as ->. simpl. rewrite decide_True by done.
      apply final_view_fixed. intros Hin. apply list_elem_of_lookup in Hin as [j Hj].
      apply (Hafter (S j)); [lia|done].
    + simpl. rewrite decide_False.
      * apply (IH news i o n Ho Hn).
        -- intros j Hj. apply (Hbefore (S j)). lia.
        -- intros j Hj. apply (Hafter (S j)). lia.
      * intros ->. by apply (Hbefore 0%nat); [lia|].
Qed.

Lemma flat_map_nil {A B} (f : A -> list B) (l : list A) :
  (forall x, x ∈ l -> f x = []) -> flat_map f l = [].
Proof.
  induction l as [|x l IH]; intros Hall; simpl; [done|].
  rewrite (Hall x) by apply list_elem_of_here. apply IH.
  intros y Hy. apply Hall. by apply list_elem_of_further.
Qed.

Lemma swap_elements_miss oldView newView layout handle b array :
  oldView ∉ map (fun ei => imageView (snd ei)) array ->
  swap_elements oldView newView layout handle b array = (array, [], [], false).
Proof.
  induction array as [|[e info] rest IH]; intros Hmiss; simpl; [done|].
  simpl in Hmiss. apply not_elem_of_cons in Hmiss as [Hne Hrest].
  rewrite (IH Hrest). by rewrite decide_False.
Qed.

Lemma swap_bindings_miss oldView newView layout handle infos :
  oldView ∉ flat_map (fun ba => map (fun ei => imageView (snd ei)) (snd ba)) infos ->
  swap_bindings oldView newView layout handle infos = (infos, [], [], false).
Proof.
  induction infos as [|[b array] rest IH]; intros Hmiss; simpl; [done|].
  simpl in Hmiss. apply not_elem_of_app in Hmiss as [Hhere Hrest].
  by rewrite (swap_elements_miss _ _ _ _ _ _ Hhere), (IH Hrest).
Qed.

Lemma swap_set_miss oldView newView ds :
  oldView ∉ views_of ds -> swap_set oldView newView ds = (ds, [], [], false).
Proof.
  intros Hmiss. unfold swap_set. rewrite swap_bindings_miss by done.
  by rewrite set_imageInfos_id.
Qed.

Lemma swap_pass_miss oldView newView st :
  (forall k ds, sw_sets st !! k = Some ds -> oldView ∉ views_of ds) ->
  swap_pass oldView newView st = st.
Proof.
  intros Hmiss. unfold swap_pass.
  assert (Hvisited : forall kr, kr ∈ map (visit oldView newView) (map_to_list (sw_sets st)) ->
                       visit_updates kr = [] /\ visit_logs kr = [] /\
                       forall ms, visit_match ms kr = ms).
  { intros [k r] Hin. apply elem_of_visited in Hin as (ds & Hk & ->).
    rewrite (swap_set_miss _ _ _ (Hmiss k ds Hk)).
    unfold visit_updates, visit_logs, visit_match. by simpl. }
  destruct st as [sets updates logs matches]. simpl in *. f_equal.
  - apply map_eq. intros k. rewrite lookup_fmap.
    destruct (sets !! k) as [ds|] eqn:Hk; [|done]. simpl. f_equal.
    apply swapped_untouched. by apply (Hmiss k).
  - rewrite (flat_map_nil visit_updates); [by rewrite app_nil_r|].
    intros kr Hkr. by apply Hvisited.
  - rewrite (flat_map_nil visit_logs); [by rewrite app_nil_r|].
    intros kr Hkr. by apply Hvisited.
  - revert Hvisited. generalize (map (visit oldView newView) (map_to_list sets)).
    intros visited Hvisited. revert matches.
    induction visited as [|kr visited IH]; intros matches; simpl; [done|].
    rewrite (proj2 (proj2 (Hvisited kr (list_elem_of_here _ _)))).
    apply IH. intros kr' Hkr'. apply Hvisited. by apply list_elem_of_further.
Qed.

Lemma swap_views_miss oldViews : forall newViews st,
  (length oldViews <= length newViews)%nat ->
  (forall k ds, sw_sets st !! k = Some ds -> forall v, v ∈ views_of ds -> v ∉ oldViews) ->
  swap_views oldViews newViews st = Some st.
Proof.
  induction oldViews as [|o olds IH]; intros newViews st Hlen Hmiss; simpl; [done|].
  destruct newViews as [|n news]; simpl in Hlen; [lia|].
  rewrite swap_pass_miss.
  - apply IH; [lia|]. intros k ds Hk v Hv Hin. apply (Hmiss k ds Hk v Hv).
    by apply list_elem_of_further.
  - intros k ds Hk Hin. apply (Hmiss k ds Hk o Hin). apply list_elem_of_here.
Qed.

(** C2, as the code has it: for view lists of equal length the call
    returns, issues at most one batched update (none when nothing was saved
    for writing), rewrites the views pair after pair, so that a view
    [oldViews[i]] not listed earlier becomes [newViews[i]] when that view is
    not itself listed later as an old view, covers in the one call every
    rewritten binding its layout knows, leaves sets that refer to no old view
    under their key and unchanged, and moves every other set from its old key
    to the key hashed from its layout, buffer infos and rewritten image infos
    when those keys are new to the map and differ from set to set.  When no
    set of the map refers to an old view, nothing is rewritten: the call
    issues no update and no diagnostic and leaves the map as it was. *)
Theorem UpdateDescriptorSets_swaps_and_rekeys
    (hash_param : DescriptorSetLayout -> BindingMap VkDescriptorBufferInfo ->
                  BindingMap VkDescriptorImageInfo -> Z)
    (oldViews newViews : list VkHandle) (sets : gmap Z DescriptorSet) :
  length oldViews = length newViews ->
  exists sets' calls logs,
    UpdateDescriptorSets hash_param oldViews newViews sets = Some (sets', calls, logs) /\
    (calls = [] \/ exists writes, writes <> [] /\ calls = [vkUpdateDescriptorSets writes]) /\
    (forall i o n, oldViews !! i = Some o -> newViews !! i = Some n ->
       (forall j, (j < i)%nat -> oldViews !! j <> Some o) ->
       (forall j, (i < j)%nat -> oldViews !! j <> Some n) ->
       final_view oldViews newViews o = n) /\
    (forall ds,
       swapped_all oldViews newViews ds =
       set_imageInfos (map_views (final_view oldViews newViews) (m_imageInfos ds)) ds) /\
    (forall key ds, sets !! key = Some ds ->
       (forall v, v ∈ views_of ds -> v ∉ oldViews) -> sets' !! key = Some ds) /\
    (forall key ds b array e info bi,
       sets !! key = Some ds -> (b, array) ∈ m_imageInfos ds -> (e, info) ∈ array ->
       imageView info ∈ oldViews -> GetLayoutBinding (m_setLayout ds) b = Some bi ->
       exists writes,
         calls = [vkUpdateDescriptorSets writes] /\
         resolve (swapped_all oldViews newViews ds)
                 (image_write (m_setHandle ds) b e (descriptorType bi)) ∈ writes) /\
    ((forall key ds, sets !! key = Some ds ->
        (exists v, v ∈ views_of ds /\ v ∈ oldViews) ->
        sets !! new_key hash_param (swapped_all oldViews newViews ds) = None) ->
     (forall k1 k2 ds1 ds2, k1 <> k2 -> sets !! k1 = Some ds1 -> sets !! k2 = Some ds2 ->
        (exists v, v ∈ views_of ds1 /\ v ∈ oldViews) ->
        (exists v, v ∈ views_of ds2 /\ v ∈ oldViews) ->
        new_key hash_param (swapped_all oldViews newViews ds1) <>
        new_key hash_param (swapped_all oldViews newViews ds2)) ->
     forall key ds, sets !! key = Some ds ->
       (exists v, v ∈ views_of ds /\ v ∈ oldViews) ->
       sets' !! new_key hash_param (swapped_all oldViews newViews ds) =
         Some (swapped_all oldViews newViews ds) /\
       sets' !! key = None) /\
    ((forall key ds, sets !! key = Some ds -> forall v, v ∈ views_of ds -> v ∉ oldViews) ->
     calls = [] /\ logs = [] /\ sets' = sets).
Proof.
  intros Hlen.
  destruct (swap_views_spec oldViews newViews
              {| sw_sets := sets; sw_updates := []; sw_logs := []; sw_matches := [] |} Hlen)
    as (st & Hrun & Hsets & Hm & Hsorted & _ & Hcover).
  simpl in Hsets, Hm, Hsorted, Hcover.
  assert (Hnd : NoDup (sw_matches st)) by (apply sorted_NoDup, Hsorted; constructor).
  assert (Hmatch : forall k, k ∈ sw_matches st <->
            exists ds, sets !! k = Some ds /\ exists v, v ∈ views_of ds /\ v ∈ oldViews).
  { intros k. rewrite Hm. split.
    - intros [Hin|(ds & Hk & Ht)]; [by apply elem_of_nil in Hin|].
      exists ds. split; [done|]. by eapply touched_views.
    - intros (ds & Hk & v & Hv & Hin). right. exists ds. split; [done|].
      by eapply views_touched. }
  assert (Hdom : forall k, k ∈ sw_matches st -> is_Some (sw_sets st !! k)).
  { intros k Hk. apply Hmatch in Hk as (ds & Hds & _). rewrite Hsets, lookup_fmap, Hds.
    by eexists. }
  destruct (rekey_total hash_param (sw_matches st) (sw_sets st) Hnd Hdom) as [sets' Hrekey].
  unfold UpdateDescriptorSets. rewrite Hrun, Hrekey.
  eexists _, _, _. split; [reflexivity|]. split_and!.
  - destruct (sw_updates st) as [|kw rest]; [by left|]. right.
    eexists. split; [|reflexivity]. done.
  - apply final_view_swaps.
  - apply swapped_all_eq.
  - intros key ds Hk Hno.
    apply (rekey_frame hash_param _ _ _ key ds Hrekey).
    + intros Hin. apply Hmatch in Hin as (ds' & Hk' & v & Hv & Hin).
      assert (ds' = ds) as -> by congruence. by apply (Hno v).
    + rewrite Hsets, lookup_fmap, Hk. simpl. f_equal. by apply swapped_all_untouched.
  - intros key ds b array e info bi Hk Hb He Hv Hl.
    pose proof (Hcover key ds b array e info bi Hk Hb He Hv Hl) as Hin.
    destruct (sw_updates st) as [|kw rest] eqn:Hup; [by apply elem_of_nil in Hin|].
    eexists. split; [reflexivity|].
    apply list_elem_of_fmap.
    exists (key, image_write (m_setHandle ds) b e (descriptorType bi)). split; [|done].
    unfold resolve_in. simpl. by rewrite Hsets, lookup_fmap, Hk.
  - intros Hfresh Hdist key ds Hk Htouched.
    destruct (rekey_fresh hash_param (sw_matches st) (sw_sets st) sets' Hnd Hrekey Hdom)
      as [Hmoved _].
    + intros k ds' Hin Hds'. rewrite Hsets, lookup_fmap in Hds' |- *.
      apply Hmatch in Hin as (ds0 & Hk0 & Ht0). rewrite Hk0 in Hds'. simpl in Hds'.
      injection Hds' as <-. rewrite (Hfresh k ds0 Hk0 Ht0). done.
    + intros k1 k2 ds1 ds2 Hin1 Hin2 Hne Hds1 Hds2. rewrite Hsets, lookup_fmap in Hds1, Hds2.
      apply Hmatch in Hin1 as (d1 & Hk1 & Ht1). apply Hmatch in Hin2 as (d2 & Hk2 & Ht2).
      rewrite Hk1 in Hds1. rewrite Hk2 in Hds2. simpl in Hds1, Hds2.
      injection Hds1 as <-. injection Hds2 as <-. by apply (Hdist k1 k2 d1 d2).
    + apply Hmoved.
      * apply Hmatch. by exists ds.
      * by rewrite Hsets, lookup_fmap, Hk.
  - intros Hmiss.
    pose proof (swap_views_miss oldViews newViews
                  {| sw_sets := sets; sw_updates := []; sw_logs := []; sw_matches := [] |}
                  ltac:(lia) Hmiss) as Hrun'.
    rewrite Hrun in Hrun'. injection Hrun' as Hst. subst st.
    simpl in Hrekey. injection Hrekey as <-. done.
Qed.

(** C2 as stated fails: when no cached set refers to an old view, the call
    issues no device update at all. *)
Lemma UpdateDescriptorSets_no_match_no_call :
  ~ (exists sets' writes logs,
       UpdateDescriptorSets hash_descriptor_set [100] [200] example_sets =
         Some (sets', [vkUpdateDescriptorSets writes], logs)) /\
  option_map (fun r => snd (fst r))
    (UpdateDescriptorSets hash_descriptor_set [100] [200] example_sets) = Some [].
Proof.
  assert (Hrun : option_map (fun r => snd (fst r))
            (UpdateDescriptorSets hash_descriptor_set [100] [200] example_sets) = Some [])
    by (vm_compute; reflexivity).
  split; [|exact Hrun].
  intros (sets' & writes & logs & Heq).
  assert (Hone : option_map (fun r => snd (fst r))
            (UpdateDescriptorSets hash_descriptor_set [100] [200] example_sets) =
            Some [vkUpdateDescriptorSets writes]) by (by rewrite Heq).
  congruence.
Qed.

Lemma UpdateDescriptorSets_swaps_and_rekeys_witness :
  exists sets' calls logs,
    UpdateDescriptorSets hash_descriptor_set [300] [200] example_sets =
      Some (sets', calls, logs) /\
    sets' !! new_key hash_descriptor_set (swapped_all [300] [200] (image_set 31 300)) =
      Some (swapped_all [300] [200] (image_set 31 300)) /\
    sets' !! new_key hash_descriptor_set (image_set 31 300) = None.
Proof.
  destruct (UpdateDescriptorSets_swaps_and_rekeys hash_descriptor_set [300] [200]
              example_sets eq_refl)
    as (sets' & calls & logs & Hrun & _ & _ & _ & _ & _ & Hrekey & _).
  exists sets', calls, logs. split; [exact Hrun|].
  apply Hrekey.
  - intros key ds Hk _. unfold example_sets in Hk.
    apply lookup_singleton_Some in Hk as [<- <-].
    vm_compute. reflexivity.
  - intros k1 k2 ds1 ds2 Hne Hk1 Hk2. unfold example_sets in Hk1, Hk2.
    apply lookup_singleton_Some in Hk1 as [Hk1 _].
    apply lookup_singleton_Some in Hk2 as [Hk2 _].
    exfalso. apply Hne. by rewrite <- Hk1, <- Hk2.
  - apply lookup_singleton_eq.
  - exists 300. split; [|apply list_elem_of_here]. vm_compute. apply list_elem_of_here.
Defined.

Lemma Register_returns_sequential_indices_witness :
  exists r',
    run_call (CallRegisterPipelineLayout [Ptr 8192; Ptr 4096])
             (run_calls example_calls empty_record) = (r', Some (Ok 0%nat)) /\
    m_stream r' =
      m_stream (run_calls example_calls empty_record) ++ [PipelineLayoutEntry [1%nat; 0%nat]].
Proof.
  destruct (Register_returns_sequential_indices example_calls
              (CallRegisterPipelineLayout [Ptr 8192; Ptr 4096])
              ResourceType.PipelineLayout eq_refl) as (Hret & Hknown & _).
  destruct Hknown as (r' & i & Hrun).
  { repeat constructor; eexists; reflexivity. }
  destruct (Hret r' i Hrun) as (Hi & e & He & _ & _).
  exists r'. split.
  - rewrite Hrun, Hi. reflexivity.
  - vm_compute in Hrun. injection Hrun as <- _. reflexivity.
Defined.

(** ** Record and replay *)

Lemma address_of_inj k key1 key2 : address_of k key1 = address_of k key2 -> key1 = key2.
Proof. unfold address_of. intros [= Heq]. lia. Qed.

Lemma kind_of_tag_inj X Y : kind_of_tag X = kind_of_tag Y -> X = Y.
Proof. by destruct X, Y. Qed.

Lemma record_tag_kind X : record_tag (kind_of_tag X) = Some X.
Proof. by destruct X. Qed.

Section ReplayProperties.

Variable hasher : Hasher.
Variable vkCreateDescriptorSetLayout : VkDescriptorSetLayoutCreateInfo -> VkResult * VkHandle.
Variable limits : VkPhysicalDeviceLimits.

Lemma play_app entries entries2 : forall st0 st1,
  play hasher entries st0 = Ok st1 ->
  play hasher (entries ++ entries2) st0 = play hasher entries2 st1.
Proof.
  induction entries as [|e rest IH]; intros st0 st1 Hrun; simpl in *.
  - by injection Hrun as <-.
  - destruct (play_entry hasher e st0) as [st'|err]; simpl in *; [|done]. by apply IH.
Qed.

(** The invariant only looks at the live cache's recorder, pipeline cache and
    recorded kinds. *)
Lemma replay_inv_frame live live' target v :
  replay_inv live target v ->
  m_recorder live' = m_recorder live ->
  m_pipelineCache live' = m_pipelineCache live ->
  (forall X, keys_of (kind_of_tag X) (m_state live') = keys_of (kind_of_tag X) (m_state live)) ->
  replay_inv live' target v.
Proof.
  intros [Hk Hi Hl Hn Hp Hu] Hr Hc Hkeys. split.
  - intros X. by rewrite Hk, Hkeys.
  - rewrite Hr. apply Hi.
  - rewrite Hr. apply Hl.
  - apply Hn.
  - by rewrite Hp, Hc.
  - apply Hu.
Qed.

(** Adding the same key of a recorded kind on both sides, with the index
    the live recorder handed out appended to the replayer's list. *)
Lemma replay_inv_extend X key live target v live' target' v' :
  replay_inv live target v ->
  keys_of (kind_of_tag X) (m_state live') = {[key]} ∪ keys_of (kind_of_tag X) (m_state live) ->
  keys_of (kind_of_tag X) (m_state target') = {[key]} ∪ keys_of (kind_of_tag X) (m_state target) ->
  (forall k, k <> kind_of_tag X -> keys_of k (m_state live') = keys_of k (m_state live)) ->
  (forall k, k <> kind_of_tag X -> keys_of k (m_state target') = keys_of k (m_state target)) ->
  table_of X (m_recorder live') =
    <[address_of (kind_of_tag X) key := length (indices_of X (m_recorder live))]>
      (table_of X (m_recorder live)) ->
  (forall Y, Y <> X -> table_of Y (m_recorder live') = table_of Y (m_recorder live)) ->
  length (indices_of X (m_recorder live')) = S (length (indices_of X (m_recorder live))) ->
  (forall Y, Y <> X -> indices_of Y (m_recorder live') = indices_of Y (m_recorder live)) ->
  replayed_of X v' = replayed_of X v ++ [key] ->
  (forall Y, Y <> X -> replayed_of Y v' = replayed_of Y v) ->
  is_Some (table_of X (m_recorder target') !! address_of (kind_of_tag X) key) ->
  (forall Y p, is_Some (table_of Y (m_recorder target) !! p) ->
               is_Some (table_of Y (m_recorder target') !! p)) ->
  m_pipelineCache live' = m_pipelineCache live ->
  m_pipelineCache target' = m_pipelineCache target ->
  replay_inv live' target' v'.
Proof.
  intros [Hk Hi Hl Hn Hp Hu] HkL HkT HoL HoT Htab Htabo Hlen Hleno Hv Hvo Hnew Hmono HpL HpT.
  split.
  - intros Y. destruct (decide (Y = X)) as [->|Hne].
    + by rewrite HkL, HkT, Hk.
    + rewrite HoL, HoT by (intros Heq; by apply kind_of_tag_inj in Heq). apply Hk.
  - intros Y k i. destruct (decide (Y = X)) as [->|Hne].
    + rewrite Htab, Hv. intros Hlook. apply lookup_insert_Some in Hlook as [[Ha <-]|[Ha Hlook]].
      * apply address_of_inj in Ha as <-. rewrite Hl. apply list_lookup_middle. done.
      * apply lookup_app_l_Some. by apply Hi.
    + rewrite Htabo, Hvo by done. apply Hi.
  - intros Y. destruct (decide (Y = X)) as [->|Hne].
    + rewrite Hlen, Hv, length_app, Hl. simpl. lia.
    + rewrite Hleno, Hvo by done. apply Hl.
  - intros Y i k. destruct (decide (Y = X)) as [->|Hne].
    + rewrite Hv. intros Hlook. apply lookup_app_Some in Hlook as [Hlook|[_ Hlook]].
      * apply Hmono. by eapply Hn.
      * destruct (i - length (replayed_of X v))%nat; simpl in Hlook; [|done].
        by injection Hlook as <-.
    + rewrite Hvo by done. intros Hlook. apply Hmono. by eapply Hn.
  - by rewrite HpT, HpL.
  - intros k Hk0. rewrite HoT; [by apply Hu|]. intros ->. by rewrite record_tag_kind in Hk0.
Qed.

Lemma keys_equal_lookup {A B} (m1 : gmap Z A) (m2 : gmap Z B) key :
  dom m1 = dom m2 -> m2 !! key = None -> m1 !! key = None.
Proof.
  intros Hdom Hk. apply not_elem_of_dom. rewrite Hdom. by apply not_elem_of_dom.
Qed.

Lemma RequestShaderModule_follows stage glslSource preamble processes live live' key target v :
  RequestShaderModule hasher stage glslSource preamble processes live = Ok (live', key) ->
  replay_inv live target v -> replay_follows hasher live live' target v.
Proof.
  intros Hreq Hinv. unfold RequestShaderModule in Hreq.
  destruct (shader_modules (m_state live) !! _) as [x|] eqn:Hlook.
  - injection Hreq as <- <-. by left.
  - simpl in Hreq. injection Hreq as <- <-. right.
    pose proof (inv_keys _ _ _ Hinv ResourceType.ShaderModule) as Hkeys. simpl in Hkeys.
    pose proof (keys_equal_lookup _ _ _ Hkeys Hlook) as Hlook'.
    eexists _, _, _. split; [reflexivity|]. split.
    + simpl. unfold RequestShaderModule. rewrite Hlook'. simpl. reflexivity.
    + apply (replay_inv_extend ResourceType.ShaderModule
               (hash_shader_module hasher stage glslSource "main" preamble processes)
               live target v); simpl; try done.
      * apply dom_insert_L.
      * apply dom_insert_L.
      * intros k Hk. by destruct k.
      * intros k Hk. by destruct k.
      * by rewrite back_push_back_size.
      * intros Y HY. by destruct Y.
      * unfold push_back_size. rewrite length_app. simpl. lia.
      * intros Y HY. by destruct Y.
      * intros Y HY. by destruct Y.
      * rewrite lookup_insert_eq. by eexists.
      * intros Y p Hp. destruct Y; simpl; try done.
        rewrite lookup_insert. case_decide; [by eexists|done].
Qed.

Lemma RequestRenderPass_follows attachments loadStoreInfos subpasses live live' key target v :
  RequestRenderPass hasher attachments loadStoreInfos subpasses live = Ok (live', key) ->
  replay_inv live target v -> replay_follows hasher live live' target v.
Proof.
  intros Hreq Hinv. unfold RequestRenderPass in Hreq.
  destruct (render_passes (m_state live) !! _) as [x|] eqn:Hlook.
  - injection Hreq as <- <-. by left.
  - simpl in Hreq. injection Hreq as <- <-. right.
    pose proof (inv_keys _ _ _ Hinv ResourceType.RenderPass) as Hkeys. simpl in Hkeys.
    pose proof (keys_equal_lookup _ _ _ Hkeys Hlook) as Hlook'.
    assert (Hsub : map (fun s : list Z * list Z =>
                          {| input_attachments := fst s; output_attachments := snd s |})
                     (map (fun item => (input_attachments item, output_attachments item))
                          subpasses) = subpasses).
    { rewrite map_map. rewrite <- (map_id subpasses) at 2. apply map_ext. by intros []. }
    eexists _, _, _. split; [reflexivity|]. split.
    + simpl. rewrite Hsub. unfold RequestRenderPass. rewrite Hlook'. simpl. reflexivity.
    + apply (replay_inv_extend ResourceType.RenderPass
               (hash_render_pass hasher attachments loadStoreInfos subpasses)
               live target v); simpl; try done.
      * apply dom_insert_L.
      * apply dom_insert_L.
      * intros k Hk. by destruct k.
      * intros k Hk. by destruct k.
      * by rewrite back_push_back_size.
      * intros Y HY. by destruct Y.
      * unfold push_back_size. rewrite length_app. simpl. lia.
      * intros Y HY. by destruct Y.
      * intros Y HY. by destruct Y.
      * rewrite lookup_insert_eq. by eexists.
      * intros Y p Hp. destruct Y; simpl; try done.
        rewrite lookup_insert. case_decide; [by eexists|done].
Qed.

Lemma replayed_at_all_resolves (table : gmap ptr nat) (replayed : list Z) keys : forall indices,
  (forall key i, table !! address_of KShaderModule key = Some i -> replayed !! i = Some key) ->
  at_all table (map (address_of KShaderModule) keys) = Ok indices ->
  replayed_at_all replayed indices = Ok keys.
Proof.
  intros indices Hres. revert indices.
  induction keys as [|key keys IH]; intros indices; simpl.
  - by intros [= <-].
  - destruct (table !! address_of KShaderModule key) as [i|] eqn:Hi; [|done].
    destruct (at_all table (map (address_of KShaderModule) keys)) as [rest|e] eqn:Hrest;
      simpl; [|done].
    intros [= <-]. simpl. unfold replayed_at. rewrite (Hres key i Hi). simpl.
    by rewrite (IH rest).
Qed.

Lemma replayed_at_all_members (replayed : list Z) indices : forall keys,
  replayed_at_all replayed indices = Ok keys ->
  Forall (fun key => exists i, replayed !! i = Some key) keys.
Proof.
  induction indices as [|i rest IH]; intros keys; simpl.
  - intros [= <-]. constructor.
  - unfold replayed_at. destruct (replayed !! i) as [key|] eqn:Hi; simpl; [|done].
    destruct (replayed_at_all replayed rest) as [keys'|e]; simpl; [|done].
    intros [= <-]. constructor; [by exists i|by apply IH].
Qed.

Lemma RequestPipelineLayout_follows shaderModules live live' key target v :
  RequestPipelineLayout hasher shaderModules live = Ok (live', key) ->
  replay_inv live target v -> replay_follows hasher live live' target v.
Proof.
  intros Hreq Hinv. unfold RequestPipelineLayout in Hreq.
  destruct (pipeline_layouts (m_state live) !! _) as [x|] eqn:Hlook.
  - injection Hreq as <- <-. by left.
  - unfold RegisterPipelineLayout in Hreq. simpl in Hreq.
    destruct (at_all (m_shaderModuleToIndex (m_recorder live))
                (map (address_of KShaderModule) shaderModules)) as [indices|err] eqn:Hat;
      simpl in Hreq; [|done].
    injection Hreq as <- <-. right.
    pose proof (inv_keys _ _ _ Hinv ResourceType.PipelineLayout) as Hkeys. simpl in Hkeys.
    pose proof (keys_equal_lookup _ _ _ Hkeys Hlook) as Hlook'.
    pose proof (replayed_at_all_resolves _ (replayed_shader_modules v) _ _
                  (inv_index _ _ _ Hinv ResourceType.ShaderModule) Hat) as Hresolve.
    destruct (at_all_known (m_shaderModuleToIndex (m_recorder target))
                (map (address_of KShaderModule) shaderModules)) as [indices' Hat'].
    { apply Forall_forall. intros p Hp. apply list_elem_of_In, in_map_iff in Hp as (k & <- & Hk).
      pose proof (replayed_at_all_members _ _ _ Hresolve) as Hmem.
      rewrite Forall_forall in Hmem. destruct (Hmem k) as [i Hi]; [by apply list_elem_of_In|].
      apply (inv_known _ _ _ Hinv ResourceType.ShaderModule i k Hi). }
    eexists _, _, _. split; [reflexivity|]. split.
    + simpl. rewrite Hresolve. simpl. unfold RequestPipelineLayout. rewrite Hlook'.
      unfold RegisterPipelineLayout. simpl. rewrite Hat'. simpl. reflexivity.
    + apply (replay_inv_extend ResourceType.PipelineLayout
               (hash_pipeline_layout hasher shaderModules) live target v); simpl; try done.
      * apply dom_insert_L.
      * apply dom_insert_L.
      * intros k Hk. by destruct k.
      * intros k Hk. by destruct k.
      * by rewrite back_push_back_size.
      * intros Y HY. by destruct Y.
      * unfold push_back_size. rewrite length_app. simpl. lia.
      * intros Y HY. by destruct Y.
      * intros Y HY. by destruct Y.
      * rewrite lookup_insert_eq. by eexists.
      * intros Y p Hp. destruct Y; simpl; try done.
        rewrite lookup_insert. case_decide; [by eexists|done].
Qed.

Lemma RequestGraphicsPipeline_follows pipelineLayout renderPass data live live' key target v :
  RequestGraphicsPipeline hasher pipelineLayout renderPass data live = Ok (live', key) ->
  replay_inv live target v -> replay_follows hasher live live' target v.
Proof.
  intros Hreq Hinv. unfold RequestGraphicsPipeline in Hreq.
  destruct (graphics_pipelines (m_state live) !! _) as [x|] eqn:Hlook.
  - injection Hreq as <- <-. by left.
  - unfold RegisterGraphicsPipeline in Hreq. simpl in Hreq.
    destruct (m_pipelineLayoutToIndex (m_recorder live) !! address_of KPipelineLayout pipelineLayout)
      as [li|] eqn:Hli; simpl in Hreq; [|done].
    destruct (m_renderPassToIndex (m_recorder live) !! address_of KRenderPass renderPass)
      as [ri|] eqn:Hri; simpl in Hreq; [|done].
    injection Hreq as <- <-. right.
    pose proof (inv_keys _ _ _ Hinv ResourceType.GraphicsPipeline) as Hkeys. simpl in Hkeys.
    pose proof (keys_equal_lookup _ _ _ Hkeys Hlook) as Hlook'.
    pose proof (inv_index _ _ _ Hinv ResourceType.PipelineLayout pipelineLayout li Hli) as Hvl.
    pose proof (inv_index _ _ _ Hinv ResourceType.RenderPass renderPass ri Hri) as Hvr.
    simpl in Hvl, Hvr.
    destruct (inv_known _ _ _ Hinv ResourceType.PipelineLayout li pipelineLayout Hvl) as [li' Hli'].
    destruct (inv_known _ _ _ Hinv ResourceType.RenderPass ri renderPass Hvr) as [ri' Hri'].
    simpl in Hli', Hri'.
    pose proof (inv_pipeline_cache _ _ _ Hinv) as Hpc.
    eexists _, _, _. split; [reflexivity|]. split.
    + simpl. unfold replayed_at. rewrite Hvl, Hvr. simpl.
      unfold RequestGraphicsPipeline. rewrite Hpc, Hlook'.
      unfold RegisterGraphicsPipeline. simpl. rewrite Hli', Hri'. simpl. reflexivity.
    + apply (replay_inv_extend ResourceType.GraphicsPipeline
               (hash_graphics_pipeline hasher (m_pipelineCache live) pipelineLayout renderPass data)
               live target v); simpl; try done.
      * apply dom_insert_L.
      * apply dom_insert_L.
      * intros k Hk. by destruct k.
      * intros k Hk. by destruct k.
      * by rewrite back_push_back_size.
      * intros Y HY. by destruct Y.
      * unfold push_back_size. rewrite length_app. simpl. lia.
      * intros Y HY. by destruct Y.
      * intros Y HY. by destruct Y.
      * rewrite lookup_insert_eq. by eexists.
      * intros Y p Hp. destruct Y; simpl; try done.
        rewrite lookup_insert. case_decide; [by eexists|done].
Qed.

Lemma RequestDescriptorSetLayout_follows setIndex shaderModules setResources
    live live' key target v :
  RequestDescriptorSetLayout hasher vkCreateDescriptorSetLayout setIndex shaderModules
    setResources live = Ok (live', key) ->
  replay_inv live target v -> replay_follows hasher live live' target v.
Proof.
  intros Hreq Hinv. left. unfold RequestDescriptorSetLayout in Hreq.
  destruct (descriptor_set_layouts (m_state live) !! _) as [x|].
  - by injection Hreq as <- <-.
  - destruct (new_DescriptorSetLayout _ _ _ _) as [l|e]; [|done].
    injection Hreq as <- <-. split; [done|].
    apply (replay_inv_frame live); try done. intros X. by destruct X.
Qed.

Lemma RequestComputePipeline_follows pipelineLayout renderPass data live live' key target v :
  RequestComputePipeline hasher pipelineLayout renderPass data live = Ok (live', key) ->
  replay_inv live target v -> replay_follows hasher live live' target v.
Proof.
  intros Hreq Hinv. left. unfold RequestComputePipeline in Hreq.
  destruct (compute_pipelines (m_state live) !! _) as [x|].
  - by injection Hreq as <- <-.
  - injection Hreq as <- <-. split; [done|].
    apply (replay_inv_frame live); try done. intros X. by destruct X.
Qed.

Lemma RequestFramebuffer_follows renderTarget renderPass live live' key target v :
  RequestFramebuffer hasher renderTarget renderPass live = Ok (live', key) ->
  replay_inv live target v -> replay_follows hasher live live' target v.
Proof.
  intros Hreq Hinv. left. unfold RequestFramebuffer in Hreq.
  destruct (framebuffers (m_state live) !! _) as [x|].
  - by injection Hreq as <- <-.
  - injection Hreq as <- <-. split; [done|].
    apply (replay_inv_frame live); try done. intros X. by destruct X.
Qed.

Lemma RequestDescriptorSet_follows descriptorSetLayout bufferInfos imageInfos
    create_answer alloc_answer live live' key target v :
  RequestDescriptorSet hasher limits descriptorSetLayout bufferInfos imageInfos
    create_answer alloc_answer live = Ok (live', key) ->
  replay_inv live target v -> replay_follows hasher live live' target v.
Proof.
  intros Hreq Hinv. left. unfold RequestDescriptorSet in Hreq.
  destruct (descriptor_set_layouts (m_state live) !! descriptorSetLayout) as [layout|]; [|done].
  destruct (descriptor_sets (m_state live) !! _) as [x|].
  - injection Hreq as <- <-. split; [done|].
    apply (replay_inv_frame live); try done. intros X. by destruct X.
  - destruct (_ !! hash_descriptor_pool hasher descriptorSetLayout) as [pool|]; [|done].
    destruct (new_DescriptorSet _ _ _ _ _ _ _) as [[[[resource pool'] calls] log]|]; [|done].
    injection Hreq as <- <-. split; [done|].
    apply (replay_inv_frame live); try done. intros X. by destruct X.
Qed.

Lemma request_follows q live live' key target v :
  request hasher vkCreateDescriptorSetLayout limits q live = Ok (live', key) ->
  replay_inv live target v -> replay_follows hasher live live' target v.
Proof.
  destruct q; simpl.
  - apply RequestShaderModule_follows.
  - apply RequestPipelineLayout_follows.
  - apply RequestDescriptorSetLayout_follows.
  - apply RequestGraphicsPipeline_follows.
  - apply RequestComputePipeline_follows.
  - apply RequestDescriptorSet_follows.
  - apply RequestRenderPass_follows.
  - apply RequestFramebuffer_follows.
Qed.

Lemma run_requests_replay qs : forall live live' target v start,
  run_requests hasher vkCreateDescriptorSetLayout limits qs live = Ok live' ->
  play hasher (m_stream (m_recorder live)) start = Ok (target, v) ->
  replay_inv live target v ->
  exists target' v',
    play hasher (m_stream (m_recorder live')) start = Ok (target', v') /\
    replay_inv live' target' v'.
Proof.
  induction qs as [|q rest IH]; intros live live' target v start Hrun Hplay Hinv; simpl in Hrun.
  - injection Hrun as <-. by exists target, v.
  - destruct (request hasher vkCreateDescriptorSetLayout limits q live) as [[live1 key]|err]
      eqn:Hreq; simpl in Hrun; [|done].
    destruct (request_follows q live live1 key target v Hreq Hinv)
      as [[Hstream Hinv1]|(e & target1 & v1 & Hstream & Hentry & Hinv1)].
    + apply (IH live1 live' target v start Hrun); [by rewrite Hstream|done].
    + apply (IH live1 live' target1 v1 start Hrun); [|done].
      rewrite Hstream, (play_app _ _ _ _ Hplay). unfold play. by rewrite Hentry.
Qed.

Lemma replay_inv_initial data :
  replay_inv new_ResourceCache
    (with_recorder (SetData data (m_recorder new_ResourceCache)) new_ResourceCache)
    empty_replay.
Proof.
  split; simpl.
  - intros X. by destruct X.
  - intros X key i. by destruct X.
  - intros X. by destruct X.
  - intros X i key. by destruct X.
  - done.
  - intros k _. destruct k; apply dom_empty_L.
Qed.

(** C1, as the code has it: replaying the serialized log of a cache built
    by any sequence of requests into a fresh cache succeeds and yields the
    same keys for the four kinds the recorder has a tag for (shader module,
    pipeline layout, render pass, graphics pipeline); the other five kinds
    (descriptor-set layout, descriptor pool, descriptor set, compute pipeline,
    framebuffer) are never recorded and their maps stay empty in the replayed
    cache. *)
Theorem Warmup_reproduces_recorded_kinds (qs : list Request) (live : ResourceCache) :
  run_requests hasher vkCreateDescriptorSetLayout limits qs new_ResourceCache = Ok live ->
  exists warmed,
    Warmup hasher (Serialize live) new_ResourceCache = Ok warmed /\
    (forall k X, record_tag k = Some X ->
       keys_of k (m_state warmed) = keys_of k (m_state live)) /\
    (forall k, record_tag k = None -> keys_of k (m_state warmed) = ∅).
Proof.
  intros Hrun.
  destruct (run_requests_replay qs new_ResourceCache live
              (with_recorder (SetData (Serialize live) (m_recorder new_ResourceCache))
                 new_ResourceCache)
              empty_replay
              (with_recorder (SetData (Serialize live) (m_recorder new_ResourceCache))
                 new_ResourceCache, empty_replay) Hrun eq_refl (replay_inv_initial _))
    as (warmed & v & Hplay & Hinv).
  exists warmed. split.
  - unfold Warmup. cbv zeta.
    change (m_stream (m_recorder (with_recorder (SetData (Serialize live)
              (m_recorder new_ResourceCache)) new_ResourceCache)))
      with (m_stream (m_recorder live)).
    by rewrite Hplay.
  - split.
    + intros k X Hk. assert (k = kind_of_tag X) as -> by (by destruct k, X).
      apply (inv_keys _ _ _ Hinv).
    + apply (inv_unrecorded _ _ _ Hinv).
Qed.

End ReplayProperties.

(** C1 as stated fails for the kinds the recorder has no tag for: after a
    render pass and a framebuffer were requested, replaying the serialized log
    into a fresh cache leaves the framebuffer map empty, while the live cache
    holds one framebuffer key. *)
Lemma Warmup_drops_framebuffers :
  exists warmed,
    Warmup example_hasher (Serialize example_live) new_ResourceCache = Ok warmed /\
    keys_of KFramebuffer (m_state warmed) <> keys_of KFramebuffer (m_state example_live).
Proof.
  destruct (Warmup example_hasher (Serialize example_live) new_ResourceCache) as [warmed|e]
    eqn:Hwarm; [|by vm_compute in Hwarm].
  exists warmed. split; [done|].
  assert (Hempty : keys_of KFramebuffer (m_state warmed) = ∅).
  { assert (Hw : Ok warmed = Warmup example_hasher (Serialize example_live) new_ResourceCache)
      by done.
    vm_compute in Hw. injection Hw as ->. vm_compute. reflexivity. }
  rewrite Hempty. intros Heq.
  assert (Hin : hash_framebuffer example_hasher [640; 480]
                  (hash_render_pass example_hasher [[37; 1]] [[1; 0]] example_subpasses)
                ∈ keys_of KFramebuffer (m_state example_live)).
  { apply elem_of_dom. vm_compute. eauto. }
  rewrite <- Heq in Hin. by apply not_elem_of_empty in Hin.
Qed.

Lemma Warmup_reproduces_recorded_kinds_witness :
  run_requests example_hasher example_driver example_limits example_requests new_ResourceCache
  = Ok example_live /\
  exists warmed,
    Warmup example_hasher (Serialize example_live) new_ResourceCache = Ok warmed /\
    (forall k X, record_tag k = Some X ->
       keys_of k (m_state warmed) = keys_of k (m_state example_live)) /\
    (forall k, record_tag k = None -> keys_of k (m_state warmed) = ∅).
Proof.
  assert (H : run_requests example_hasher example_driver example_limits example_requests
                new_ResourceCache = Ok example_live) by (vm_compute; reflexivity).
  split; [exact H|].
  exact (Warmup_reproduces_recorded_kinds example_hasher example_driver example_limits
           example_requests example_live H).
Defined.

(** ** Locks *)














(** * Further properties of the code *)

(** ** Descriptor set layout: what construction leaves behind *)

Lemma lookup_emplace `{Countable K} {V} (k j : K) (v : V) (m : gmap K V) :
  emplace k v m !! j =
  match m !! j with
  | Some x => Some x
  | None => if decide (k = j) then Some v else None
  end.
Proof.
  unfold emplace. destruct (m !! k) as [y|] eqn:Hk.
  - destruct (m !! j) as [x|] eqn:Hj; [done|].
    destruct (decide (k = j)) as [->|]; [congruence|done].
  - destruct (decide (k = j)) as [->|Hne].
    + by rewrite lookup_insert_eq, Hk.
    + rewrite lookup_insert_ne by done. by destruct (m !! j).
Qed.

Lemma add_resource_Ok resource l l' :
  add_resource resource l = Ok l' ->
  if has_binding_point resource then
    exists lb, binding_of resource = Ok lb /\
      m_handle l' = m_handle l /\ m_setIndex l' = m_setIndex l /\
      m_shaderModules l' = m_shaderModules l /\
      m_bindings l' = m_bindings l ++ [lb] /\
      m_bindingFlags l' = m_bindingFlags l ++ [flag_of resource] /\
      m_bindingsLookup l' = emplace (res_binding resource) lb (m_bindingsLookup l) /\
      m_bindingFlagsLookup l' =
        emplace (res_binding resource) (flag_of resource) (m_bindingFlagsLookup l) /\
      m_resourcesLookup l' =
        emplace (res_name resource) (res_binding resource) (m_resourcesLookup l)
  else l' = l.
Proof.
  unfold add_resource, has_binding_point, binding_of, flag_of.
  destruct (without_binding_point (res_type resource)); simpl.
  - by intros [= <-].
  - destruct (FindDescriptorType _ _) as [t|e]; simpl; [|done].
    intros [= <-]. eexists. split; [done|]. by simpl.
Qed.

Lemma add_resource_Throw resource l e :
  add_resource resource l = Throw e -> res_type resource = All.
Proof.
  unfold add_resource.
  destruct (res_type resource) eqn:Ht; simpl; try done;
    by destruct (is_mode Dynamic resource).
Qed.

Lemma add_resource_All resource l :
  res_type resource = All -> add_resource resource l = Throw NoConversionPossible.
Proof. unfold add_resource. by intros ->. Qed.

Lemma add_resources_Throw_iff rs : forall l,
  (exists e, add_resources rs l = Throw e) <-> exists r, r ∈ rs /\ res_type r = All.
Proof.
  induction rs as [|r rest IH]; intros l; simpl.
  - split; [by intros [e He]|]. intros (r & Hr & _). by apply elem_of_nil in Hr.
  - destruct (add_resource r l) as [l1|e1] eqn:Hadd; simpl.
    + rewrite IH. split.
      * intros (x & Hx & Hall). exists x. split; [by apply list_elem_of_further|done].
      * intros (x & Hx & Hall). apply elem_of_cons in Hx as [->|Hx].
        -- by rewrite (add_resource_All r l Hall) in Hadd.
        -- by exists x.
    + split; [|by eexists]. intros _. exists r. split; [apply list_elem_of_here|].
      by apply (add_resource_Throw r l e1).
Qed.

(** What the loop of the constructor leaves in the vectors and in the three
    lookup tables. *)
Lemma add_resources_Ok rs : forall l l',
  add_resources rs l = Ok l' ->
  m_handle l' = m_handle l /\ m_setIndex l' = m_setIndex l /\
  m_shaderModules l' = m_shaderModules l /\
  (exists bs, m_bindings l' = m_bindings l ++ bs /\
     Forall2 (fun r lb => binding_of r = Ok lb) (List.filter has_binding_point rs) bs) /\
  m_bindingFlags l' = m_bindingFlags l ++ map flag_of (List.filter has_binding_point rs) /\
  (forall b, m_bindingsLookup l' !! b =
     match m_bindingsLookup l !! b with
     | Some x => Some x
     | None => match first_bound b rs with
               | Some r => match binding_of r with Ok lb => Some lb | Throw _ => None end
               | None => None
               end
     end) /\
  (forall b, m_bindingFlagsLookup l' !! b =
     match m_bindingFlagsLookup l !! b with
     | Some x => Some x
     | None => flag_of <$> first_bound b rs
     end) /\
  (forall name, m_resourcesLookup l' !! name =
     match m_resourcesLookup l !! name with
     | Some x => Some x
     | None => res_binding <$> first_named name rs
     end).
Proof.
  induction rs as [|r rest IH]; intros l l' Hadd; simpl in Hadd.
  - injection Hadd as <-. split_and!; try done.
    + exists []. by rewrite app_nil_r.
    + by rewrite app_nil_r.
    + intros b. by destruct (m_bindingsLookup l !! b).
    + intros b. by destruct (m_bindingFlagsLookup l !! b).
    + intros name. by destruct (m_resourcesLookup l !! name).
  - destruct (add_resource r l) as [l1|e1] eqn:Hone; simpl in Hadd; [|done].
    destruct (IH l1 l' Hadd) as (Hh & Hi & Hs & (bs & Hbs & Hall) & Hfl & Hlk & Hflk & Hnm).
    apply add_resource_Ok in Hone. unfold first_bound, first_named. simpl.
    destruct (has_binding_point r) eqn:Hbp; simpl.
    + destruct Hone as (lb & Hlb & Hh1 & Hi1 & Hs1 & Hb1 & Hf1 & Hl1 & Hfl1 & Hn1).
      split_and!; try congruence.
      * exists (lb :: bs). split; [by rewrite Hbs, Hb1, <- app_assoc|by constructor].
      * by rewrite Hfl, Hf1, <- app_assoc.
      * intros b. rewrite Hlk, Hl1, lookup_emplace.
        destruct (m_bindingsLookup l !! b); [done|].
        destruct (decide (res_binding r = b)) as [->|Hne].
        -- by rewrite Z.eqb_refl, Hlb.
        -- by apply Z.eqb_neq in Hne as ->.
      * intros b. rewrite Hflk, Hfl1, lookup_emplace.
        destruct (m_bindingFlagsLookup l !! b); [done|].
        destruct (decide (res_binding r = b)) as [->|Hne].
        -- by rewrite Z.eqb_refl.
        -- by apply Z.eqb_neq in Hne as ->.
      * intros name. rewrite Hnm, Hn1, lookup_emplace.
        destruct (m_resourcesLookup l !! name); [done|].
        destruct (decide (res_name r = name)) as [->|Hne].
        -- by rewrite bool_decide_eq_true_2.
        -- by rewrite bool_decide_eq_false_2.
    + subst l1. split_and!; try done. by exists bs.
Qed.

Lemma ValidateFlags_same_length bindings flags :
  length bindings = length flags -> ValidateFlags bindings flags = true.
Proof.
  intros Hlen. unfold ValidateFlags. destruct flags; [done|]. by rewrite decide_False by lia.
Qed.

Lemma new_DescriptorSetLayout_Ok driver setIndex shaderModules rs l :
  new_DescriptorSetLayout driver setIndex shaderModules rs = Ok l ->
  exists l0 create_info,
    add_resources rs (empty_layout setIndex shaderModules) = Ok l0 /\
    update_after_bind_info rs (m_bindings l0) (m_bindingFlags l0) = Ok create_info /\
    driver create_info = (VK_SUCCESS, m_handle l) /\
    m_setIndex l = m_setIndex l0 /\ m_bindings l = m_bindings l0 /\
    m_bindingFlags l = m_bindingFlags l0 /\ m_bindingsLookup l = m_bindingsLookup l0 /\
    m_bindingFlagsLookup l = m_bindingFlagsLookup l0 /\
    m_resourcesLookup l = m_resourcesLookup l0 /\ m_shaderModules l = m_shaderModules l0.
Proof.
  unfold new_DescriptorSetLayout. intros Hnew.
  destruct (add_resources rs _) as [l0|e] eqn:Hadd; simpl in Hnew; [|done].
  destruct (update_after_bind_info rs _ _) as [ci|e] eqn:Hci; simpl in Hnew; [|done].
  destruct (driver ci) as [r handle] eqn:Hdrv.
  destruct (decide (r <> VK_SUCCESS)) as [|Hr]; [done|]. injection Hnew as <-.
  exists l0, ci. simpl. split_and!; try done.
  rewrite Hdrv. f_equal. by destruct (decide (r = VK_SUCCESS)).
Qed.

(** X1: whatever the resources and the driver's answer, the constructor of
    [DescriptorSetLayout] ends in one of four ways: it returns the layout, it
    throws "No conversion possible", it throws the error on dynamic resources
    beside update-after-bind ones, or it throws the driver's result code, which
    is then not [VK_SUCCESS].  Its "Invalid binding" error is never thrown:
    the loop pushes one flag for every binding it pushes, so [ValidateFlags]
    always finds the two counts equal. *)
Theorem new_DescriptorSetLayout_outcomes
    (driver : VkDescriptorSetLayoutCreateInfo -> VkResult * VkHandle)
    (setIndex : Z) (shaderModules : list VkHandle) (resourceSet : list ShaderResource) :
  (exists l, new_DescriptorSetLayout driver setIndex shaderModules resourceSet = Ok l) \/
  new_DescriptorSetLayout driver setIndex shaderModules resourceSet =
    Throw NoConversionPossible \/
  new_DescriptorSetLayout driver setIndex shaderModules resourceSet =
    Throw DynamicWithUpdateAfterBind \/
  (exists r, r <> VK_SUCCESS /\
     new_DescriptorSetLayout driver setIndex shaderModules resourceSet =
       Throw (VulkanException r)).
Proof.
  unfold new_DescriptorSetLayout.
  destruct (add_resources resourceSet _) as [l0|e] eqn:Hadd; simpl.
  - assert (Hlen : length (m_bindings l0) = length (m_bindingFlags l0)).
    { by apply (add_resources_lengths resourceSet _ l0 Hadd). }
    unfold update_after_bind_info.
    rewrite (ValidateFlags_same_length _ _ Hlen). simpl.
    destruct (existsb (is_mode UpdateAfterBind) resourceSet);
      [destruct (existsb (is_mode Dynamic) resourceSet)|]; simpl;
      try (by right; right; left);
      (destruct (driver _) as [r h]; destruct (decide (r <> VK_SUCCESS));
       [right; right; right; by exists r|left; by eexists]).
  - apply add_resources_throws in Hadd. subst e. by right; left.
Qed.

(** X2: the constructor throws "No conversion possible" exactly when some
    resource of the set has the type [All] (the only type that has a binding
    point and no descriptor type), whatever the modes of the resources and
    the driver's answer. *)
Theorem new_DescriptorSetLayout_no_conversion
    (driver : VkDescriptorSetLayoutCreateInfo -> VkResult * VkHandle)
    (setIndex : Z) (shaderModules : list VkHandle) (resourceSet : list ShaderResource) :
  new_DescriptorSetLayout driver setIndex shaderModules resourceSet = Throw NoConversionPossible
  <-> exists r, r ∈ resourceSet /\ res_type r = All.
Proof.
  rewrite <- (add_resources_Throw_iff resourceSet (empty_layout setIndex shaderModules)).
  unfold new_DescriptorSetLayout.
  destruct (add_resources resourceSet _) as [l0|e] eqn:Hadd; simpl.
  - split; [|by intros [e He]]. intros Hnew. exfalso. revert Hnew.
    unfold update_after_bind_info.
    destruct (existsb (is_mode UpdateAfterBind) resourceSet);
      [destruct (existsb (is_mode Dynamic) resourceSet);
       [|destruct (negb (ValidateFlags _ _))]|]; simpl; try done;
      by destruct (driver _) as [r h]; destruct (decide (r <> VK_SUCCESS)).
  - apply add_resources_throws in Hadd. subst e. split; [by eexists|done].
Qed.

(** X3: in a layout that was constructed, [m_bindings] and [m_bindingFlags]
    hold one element for every resource with a binding point, in the order of
    the resource set and duplicates of a binding number included, while
    [GetLayoutBinding] and [GetLayoutBindingFlag] answer for a binding number
    with the binding and the flag of the first such resource that has it;
    for a number no resource has they answer null and 0. *)
Theorem constructed_layout_lookup
    (driver : VkDescriptorSetLayoutCreateInfo -> VkResult * VkHandle)
    (setIndex : Z) (shaderModules : list VkHandle) (resourceSet : list ShaderResource)
    (l : DescriptorSetLayout) :
  new_DescriptorSetLayout driver setIndex shaderModules resourceSet = Ok l ->
  Forall2 (fun r lb => binding_of r = Ok lb)
          (List.filter has_binding_point resourceSet) (m_bindings l) /\
  m_bindingFlags l = map flag_of (List.filter has_binding_point resourceSet) /\
  forall b,
    match first_bound b resourceSet with
    | Some r =>
        exists lb, binding_of r = Ok lb /\ binding lb = b /\
                   GetLayoutBinding l b = Some lb /\
                   GetLayoutBindingFlag l b = flag_of r
    | None => GetLayoutBinding l b = None /\ GetLayoutBindingFlag l b = 0
    end.
Proof.
  intros Hnew.
  destruct (new_DescriptorSetLayout_Ok _ _ _ _ _ Hnew)
    as (l0 & ci & Hadd & _ & _ & _ & Hb & Hf & Hl & Hfl & _ & _).
  destruct (add_resources_Ok _ _ _ Hadd)
    as (_ & _ & _ & (bs & Hbs & Hall) & Hflags & Hlk & Hflk & _).
  simpl in Hbs, Hflags. split_and!.
  - by rewrite Hb, Hbs.
  - by rewrite Hf, Hflags.
  - intros b. unfold GetLayoutBinding, GetLayoutBindingFlag.
    rewrite Hl, Hfl, Hlk, Hflk. simpl. rewrite !lookup_empty.
    destruct (first_bound b resourceSet) as [r|] eqn:Hfirst; simpl; [|done].
    apply find_some in Hfirst as [Hin Hr].
    apply andb_true_iff in Hr as [Hbp Hrb]. apply Z.eqb_eq in Hrb.
    assert (Hin' : r ∈ List.filter has_binding_point resourceSet).
    { apply list_elem_of_In, filter_In. split; [done|done]. }
    apply list_elem_of_lookup in Hin' as [i Hi].
    destruct (Forall2_lookup_l _ _ _ _ _ Hall Hi) as (lb & _ & Hlb).
    exists lb. rewrite Hlb. split_and!; try done.
    unfold binding_of in Hlb. destruct (FindDescriptorType _ _); simpl in Hlb; [|done].
    injection Hlb as <-. done.
Qed.

(** X4: [GetLayoutBinding] by name, on a constructed layout, finds a binding
    exactly when some resource with a binding point has that name; it then
    returns what the lookup by number returns for the binding number of the
    first such resource, which is the binding of the first resource with that
    number and may come from a resource of another name. *)
Theorem constructed_layout_lookup_by_name
    (driver : VkDescriptorSetLayoutCreateInfo -> VkResult * VkHandle)
    (setIndex : Z) (shaderModules : list VkHandle) (resourceSet : list ShaderResource)
    (l : DescriptorSetLayout) (name : string) :
  new_DescriptorSetLayout driver setIndex shaderModules resourceSet = Ok l ->
  match first_named name resourceSet with
  | Some r =>
      exists r0 lb,
        first_bound (res_binding r) resourceSet = Some r0 /\ binding_of r0 = Ok lb /\
        GetLayoutBindingByName l name = Some lb /\
        GetLayoutBindingByName l name = GetLayoutBinding l (res_binding r)
  | None => GetLayoutBindingByName l name = None
  end.
Proof.
  intros Hnew.
  destruct (new_DescriptorSetLayout_Ok _ _ _ _ _ Hnew)
    as (l0 & ci & Hadd & _ & _ & _ & Hb & Hf & Hl & Hfl & Hn & _).
  destruct (add_resources_Ok _ _ _ Hadd)
    as (_ & _ & _ & (bs & Hbs & Hall) & Hflags & Hlk & Hflk & Hnm).
  unfold GetLayoutBindingByName, GetLayoutBinding. rewrite Hn, Hnm, Hl. simpl.
  rewrite lookup_empty.
  destruct (first_named name resourceSet) as [r|] eqn:Hfirst; simpl; [|done].
  rewrite Hlk. simpl. rewrite lookup_empty.
  apply find_some in Hfirst as [Hin Hr]. apply andb_true_iff in Hr as [Hbp _].
  destruct (first_bound (res_binding r) resourceSet) as [r0|] eqn:Hfb.
  - apply find_some in Hfb as [Hin0 Hr0]. apply andb_true_iff in Hr0 as [Hbp0 _].
    assert (Hin' : r0 ∈ List.filter has_binding_point resourceSet).
    { apply list_elem_of_In, filter_In. by split. }
    apply list_elem_of_lookup in Hin' as [i Hi].
    destruct (Forall2_lookup_l _ _ _ _ _ Hall Hi) as (lb & _ & Hlb).
    exists r0, lb. by rewrite Hlb.
  - exfalso. pose proof (find_none _ _ Hfb r Hin) as Hnone. simpl in Hnone.
    by rewrite Hbp, Z.eqb_refl in Hnone.
Qed.

(** X5: the create-info a successful construction handed to the driver
    carries the bindings in order; the flags structure is chained, with one
    flag per binding, exactly when some resource of the set, skipped or not,
    is in update-after-bind mode, and the update-after-bind pool bit is set
    exactly when such a resource has a binding point. *)
Theorem constructed_layout_create_info
    (driver : VkDescriptorSetLayoutCreateInfo -> VkResult * VkHandle)
    (setIndex : Z) (shaderModules : list VkHandle) (resourceSet : list ShaderResource)
    (l : DescriptorSetLayout) :
  new_DescriptorSetLayout driver setIndex shaderModules resourceSet = Ok l ->
  exists create_info,
    driver create_info = (VK_SUCCESS, m_handle l) /\
    ci_pBindings create_info = m_bindings l /\
    ci_pNext create_info =
      (if existsb (is_mode UpdateAfterBind) resourceSet
       then Some (m_bindingFlags l) else None) /\
    ci_flags create_info =
      (if existsb (fun r => has_binding_point r && is_mode UpdateAfterBind r) resourceSet
       then VK_DESCRIPTOR_SET_LAYOUT_CREATE_UPDATE_AFTER_BIND_POOL_BIT_EXT else 0) /\
    (forall r, r ∈ resourceSet -> res_mode r = UpdateAfterBind ->
       forall r', r' ∈ resourceSet -> res_mode r' <> Dynamic).
Proof.
  intros Hnew.
  destruct (new_DescriptorSetLayout_Ok _ _ _ _ _ Hnew)
    as (l0 & ci & Hadd & Hci & Hdrv & _ & Hb & Hf & _).
  destruct (add_resources_Ok _ _ _ Hadd) as (_ & _ & _ & _ & Hflags & _).
  simpl in Hflags. exists ci. split; [done|].
  assert (Hbit : existsb (Z.eqb VK_DESCRIPTOR_BINDING_UPDATE_AFTER_BIND_BIT_EXT)
                   (m_bindingFlags l0) =
                 existsb (fun r => has_binding_point r && is_mode UpdateAfterBind r) resourceSet).
  { rewrite Hflags. clear. induction resourceSet as [|r rest IH]; [done|]. simpl.
    destruct (has_binding_point r); simpl; [|done]. rewrite IH. f_equal.
    unfold flag_of. by destruct (is_mode UpdateAfterBind r). }
  unfold update_after_bind_info in Hci.
  destruct (existsb (is_mode UpdateAfterBind) resourceSet) eqn:Huab.
  - destruct (existsb (is_mode Dynamic) resourceSet) eqn:Hdyn; [done|].
    destruct (negb (ValidateFlags _ _)); [done|]. injection Hci as <-. simpl.
    rewrite Hb, Hf, Hbit. split_and!; try done.
    intros r Hr Hmode r' Hr' Hmode'.
    assert (existsb (is_mode Dynamic) resourceSet = true); [|congruence].
    apply existsb_is_mode. by exists r'.
  - injection Hci as <-. simpl. rewrite Hb. split_and!; try done.
    + destruct (existsb (fun r => has_binding_point r && is_mode UpdateAfterBind r)
                  resourceSet) eqn:Hex; [|done].
      apply existsb_exists in Hex as (r & Hin & Hr). apply andb_true_iff in Hr as [_ Hr].
      assert (existsb (is_mode UpdateAfterBind) resourceSet = true); [|congruence].
      apply existsb_exists. by exists r.
    + intros r Hr Hmode.
      assert (existsb (is_mode UpdateAfterBind) resourceSet = true); [|congruence].
      apply existsb_is_mode. by exists r.
Qed.

Lemma constructed_layout_lookup_witness :
  new_DescriptorSetLayout (fun _ => (VK_SUCCESS, 9)) 2 [] shadowed_resources = Ok shadowed_layout /\
  Forall2 (fun r lb => binding_of r = Ok lb)
          (List.filter has_binding_point shadowed_resources) (m_bindings shadowed_layout) /\
  m_bindingFlags shadowed_layout =
    map flag_of (List.filter has_binding_point shadowed_resources) /\
  forall b,
    match first_bound b shadowed_resources with
    | Some r =>
        exists lb, binding_of r = Ok lb /\ binding lb = b /\
                   GetLayoutBinding shadowed_layout b = Some lb /\
                   GetLayoutBindingFlag shadowed_layout b = flag_of r
    | None => GetLayoutBinding shadowed_layout b = None /\
              GetLayoutBindingFlag shadowed_layout b = 0
    end.
Proof.
  split; [reflexivity|].
  apply (constructed_layout_lookup (fun _ => (VK_SUCCESS, 9)) 2 [] shadowed_resources).
  reflexivity.
Defined.

Lemma constructed_layout_lookup_by_name_witness :
  new_DescriptorSetLayout (fun _ => (VK_SUCCESS, 9)) 2 [] shadowed_resources = Ok shadowed_layout /\
  match first_named "noise" shadowed_resources with
  | Some r =>
      exists r0 lb,
        first_bound (res_binding r) shadowed_resources = Some r0 /\ binding_of r0 = Ok lb /\
        GetLayoutBindingByName shadowed_layout "noise" = Some lb /\
        GetLayoutBindingByName shadowed_layout "noise" =
          GetLayoutBinding shadowed_layout (res_binding r)
  | None => GetLayoutBindingByName shadowed_layout "noise" = None
  end.
Proof.
  split; [reflexivity|].
  apply (constructed_layout_lookup_by_name (fun _ => (VK_SUCCESS, 9)) 2 [] shadowed_resources).
  reflexivity.
Defined.

Lemma constructed_layout_create_info_witness :
  new_DescriptorSetLayout (fun _ => (VK_SUCCESS, 9)) 2 [] shadowed_resources = Ok shadowed_layout /\
  exists create_info,
    (fun _ : VkDescriptorSetLayoutCreateInfo => (VK_SUCCESS, 9)) create_info =
      (VK_SUCCESS, m_handle shadowed_layout) /\
    ci_pBindings create_info = m_bindings shadowed_layout /\
    ci_pNext create_info =
      (if existsb (is_mode UpdateAfterBind) shadowed_resources
       then Some (m_bindingFlags shadowed_layout) else None) /\
    ci_flags create_info =
      (if existsb (fun r => has_binding_point r && is_mode UpdateAfterBind r) shadowed_resources
       then VK_DESCRIPTOR_SET_LAYOUT_CREATE_UPDATE_AFTER_BIND_POOL_BIT_EXT else 0) /\
    (forall r, r ∈ shadowed_resources -> res_mode r = UpdateAfterBind ->
       forall r', r' ∈ shadowed_resources -> res_mode r' <> Dynamic).
Proof.
  split; [reflexivity|].
  apply (constructed_layout_create_info (fun _ => (VK_SUCCESS, 9)) 2 [] shadowed_resources).
  reflexivity.
Defined.

(** ** Descriptor pool: sizes, reset, failures and the invariant of a run *)

Lemma descriptor_type_code_inj t1 t2 :
  descriptor_type_code t1 = descriptor_type_code t2 -> t1 = t2.
Proof. by destruct t1, t2. Qed.

Lemma u32_add_l a b : u32 (u32 a + b) = u32 (a + b).
Proof. unfold u32. by rewrite Z.add_mod_idemp_l. Qed.

Lemma u32_mul_l a b : u32 (u32 a * b) = u32 (a * b).
Proof. unfold u32. by rewrite Z.mul_mod_idemp_l. Qed.

Lemma lookup_type_below t counts :
  Forall (fun b => descriptor_type_code t < descriptor_type_code b.1) counts ->
  lookup_type t counts = None.
Proof.
  induction 1 as [|[t' c] rest Hlt _ IH]; [done|]. simpl in *.
  destruct (decide (t = t')) as [->|]; [lia|done].
Qed.

Lemma add_type_count_spec t n counts :
  ascending counts ->
  ascending (add_type_count t n counts) /\
  (forall t', lookup_type t' (add_type_count t n counts) =
     if decide (t' = t) then Some (u32 (default 0 (lookup_type t counts) + n))
     else lookup_type t' counts) /\
  (forall x, x ∈ add_type_count t n counts -> x.1 = t \/ x ∈ counts).
Proof.
  induction 1 as [|[t0 c0] rest Hrest IH Hall]; simpl.
  - split_and!.
    + repeat constructor.
    + intros t'. by destruct (decide (t' = t)).
    + intros x Hx. apply list_elem_of_singleton in Hx as ->. by left.
  - destruct IH as (IHs & IHl & IHm).
    destruct (decide (t = t0)) as [->|Hne].
    + split_and!.
      * constructor; [done|]. done.
      * intros t'. simpl. by destruct (decide (t' = t0)).
      * intros x Hx. apply elem_of_cons in Hx as [->|Hx]; [by left|].
        right. by apply list_elem_of_further.
    + destruct (descriptor_type_code t <? descriptor_type_code t0) eqn:Hlt.
      * apply Z.ltb_lt in Hlt. split_and!.
        -- constructor; [by constructor|]. constructor; [done|].
           eapply Forall_impl; [exact Hall|]. simpl. intros x Hx. lia.
        -- intros t'. simpl. destruct (decide (t' = t)) as [->|Hne'].
           ++ rewrite (lookup_type_below t rest); [done|].
              eapply Forall_impl; [exact Hall|]. simpl. intros x Hx. lia.
           ++ done.
        -- intros x Hx. apply elem_of_cons in Hx as [->|Hx]; [by left|by right].
      * apply Z.ltb_ge in Hlt.
        assert (Hlt' : descriptor_type_code t0 < descriptor_type_code t).
        { destruct (Z.eq_dec (descriptor_type_code t0) (descriptor_type_code t)) as [Heq|];
            [|lia]. apply descriptor_type_code_inj in Heq. congruence. }
        split_and!.
        -- constructor; [done|]. apply Forall_forall. intros x Hx.
           destruct (IHm x Hx) as [->|Hx']; [done|].
           rewrite Forall_forall in Hall. by apply Hall.
        -- intros t'. simpl. rewrite IHl.
           destruct (decide (t' = t0)) as [->|]; [by rewrite decide_False|done].
        -- intros x Hx. apply elem_of_cons in Hx as [->|Hx].
           ++ right. apply list_elem_of_here.
           ++ destruct (IHm x Hx) as [?|?]; [by left|]. right. by apply list_elem_of_further.
Qed.

Lemma type_total_snoc t bs b :
  type_total t (bs ++ [b]) =
  type_total t bs + (if decide (descriptorType b = t) then descriptorCount b else 0).
Proof.
  unfold type_total. rewrite List.filter_app, List.map_app, fold_right_app. simpl.
  destruct (decide (descriptorType b = t)) as [Ht|Ht].
  - rewrite bool_decide_eq_true_2 by done. simpl.
    generalize (map descriptorCount
                  (List.filter (fun b0 => bool_decide (descriptorType b0 = t)) bs)).
    intros l. induction l as [|x l IH]; simpl; lia.
  - rewrite bool_decide_eq_false_2 by done. simpl. lia.
Qed.

Lemma count_types_spec bs :
  let counts := fold_left (fun counts b => add_type_count (descriptorType b) (descriptorCount b) counts)
                          bs [] in
  ascending counts /\
  forall t, lookup_type t counts =
    if existsb (fun b => bool_decide (descriptorType b = t)) bs
    then Some (u32 (type_total t bs)) else None.
Proof.
  induction bs as [|b bs IH] using rev_ind; simpl.
  - split; [constructor|done].
  - rewrite fold_left_app. simpl. destruct IH as [Hs Hl].
    destruct (add_type_count_spec (descriptorType b) (descriptorCount b) _ Hs)
      as (Hs' & Hl' & _).
    split; [done|]. intros t. rewrite Hl', existsb_app, type_total_snoc. simpl.
    rewrite orb_false_r.
    destruct (decide (t = descriptorType b)) as [->|Hne].
    + rewrite bool_decide_eq_true_2 by done. rewrite orb_true_r, decide_True by done.
      rewrite Hl. f_equal.
      destruct (existsb _ bs) eqn:Hex; simpl.
      * by rewrite u32_add_l.
      * f_equal. unfold type_total. rewrite (filter_none _ bs); [done|].
        intros x Hx. apply not_true_is_false. intros Htrue.
        assert (existsb (fun b0 => bool_decide (descriptorType b0 = descriptorType b)) bs = true);
          [|congruence].
        apply existsb_exists. exists x. split; [by apply list_elem_of_In|done].
    + rewrite (bool_decide_eq_false_2 (descriptorType b = t)) by done.
      rewrite orb_false_r, decide_False by done. rewrite Hl.
      destruct (existsb _ bs); [|done]. do 2 f_equal. lia.
Qed.

Lemma lookup_type_elem t c counts :
  ascending counts -> (t, c) ∈ counts <-> lookup_type t counts = Some c.
Proof.
  induction 1 as [|[t0 c0] rest Hrest IH Hall]; simpl.
  - split; [intros H; by apply elem_of_nil in H|done].
  - rewrite elem_of_cons. destruct (decide (t = t0)) as [->|Hne].
    + split.
      * intros [[= ->]|Hin]; [done|]. rewrite Forall_forall in Hall.
        specialize (Hall _ Hin). simpl in Hall. lia.
      * intros [= ->]. by left.
    + rewrite <- IH. split; [intros [[= -> ->]|?]; done|by right].
Qed.

(** X6: the constructor of [DescriptorPool] leaves one pool size for every
    descriptor type that occurs among the layout's bindings, in ascending
    order of the type, each counting the descriptors of all bindings of that
    type times the number of sets per pool, in 32-bit arithmetic; the
    capacity is the pool size, and no sub-pool exists yet. *)
Theorem new_DescriptorPool_sizes (layout : DescriptorSetLayout) (poolSize : Z) :
  let p := new_DescriptorPool layout poolSize in
  StronglySorted (fun a b => descriptor_type_code (ps_type a) < descriptor_type_code (ps_type b))
                 (m_poolSizes p) /\
  (forall t,
     (exists s, s ∈ m_poolSizes p /\ ps_type s = t) <->
     (exists b, b ∈ m_bindings layout /\ descriptorType b = t)) /\
  (forall s, s ∈ m_poolSizes p ->
     ps_descriptorCount s = u32 (type_total (ps_type s) (m_bindings layout) * poolSize)) /\
  m_poolMaxSets p = poolSize /\ m_pools p = [] /\ m_setPoolMapping p = ∅.
Proof.
  simpl. destruct (count_types_spec (m_bindings layout)) as [Hs Hl].
  set (counts := fold_left _ (m_bindings layout) []) in *.
  split_and!; try done.
  - clearbody counts. clear Hl. induction Hs as [|x rest Hrest IH Hall]; simpl; [constructor|].
    constructor; [done|]. apply Forall_forall. intros y Hy.
    apply list_elem_of_fmap in Hy as (z & -> & Hz). rewrite Forall_forall in Hall.
    by apply Hall.
  - intros t. split.
    + intros (s & Hin & Ht). apply list_elem_of_fmap in Hin as ([t' c] & -> & Hin).
      simpl in Ht. subst t'. apply (lookup_type_elem _ _ _ Hs) in Hin.
      rewrite Hl in Hin. destruct (existsb _ (m_bindings layout)) eqn:Hex; [|done].
      apply existsb_exists in Hex as (b & Hb & Hbt). apply bool_decide_eq_true in Hbt.
      exists b. split; [by apply list_elem_of_In|done].
    + intros (b & Hb & Hbt).
      assert (Hex : existsb (fun b => bool_decide (descriptorType b = t)) (m_bindings layout)
                    = true).
      { apply existsb_exists. exists b. split; [by apply list_elem_of_In|].
        by apply bool_decide_eq_true. }
      specialize (Hl t). rewrite Hex in Hl. apply (lookup_type_elem _ _ _ Hs) in Hl.
      eexists. split; [apply list_elem_of_fmap; eexists; split; [done|exact Hl]|done].
  - intros s Hin. apply list_elem_of_fmap in Hin as ([t c] & -> & Hin). simpl.
    apply (lookup_type_elem _ _ _ Hs) in Hin. rewrite Hl in Hin.
    destruct (existsb _ (m_bindings layout)); [|done]. injection Hin as <-.
    apply u32_mul_l.
Qed.

Lemma Reset_wf p : pool_wf p -> pool_wf (fst (Reset p)).
Proof.
  intros [Hcap Hlen Hcur Hcnt Hmap]. split; simpl; try done.
  - by rewrite length_map.
  - lia.
  - intros i c Hi. apply list_lookup_fmap_Some in Hi as (c0 & -> & _).
    rewrite live_sets_none; [lia|]. intros h j Hh. by rewrite lookup_empty in Hh.
Qed.

(** X7: [Reset] asks the driver to reset every sub-pool, in the order of
    their creation, keeps the sub-pools, forgets every handle and puts all
    counters and the cursor back to zero; the pool invariant holds
    afterwards, a handle given out before the reset is unknown to
    [FreeDescriptorSet], and when a sub-pool exists the next allocation comes
    from the first one without any pool being created. *)
Theorem Reset_forgets_every_set (p : DescriptorPool) :
  pool_wf p ->
  let p' := fst (Reset p) in
  snd (Reset p) = map vkResetDescriptorPool (m_pools p) /\
  m_pools p' = m_pools p /\ m_setPoolMapping p' = ∅ /\ m_poolIndex p' = 0%nat /\
  m_poolSetsCount p' = replicate (length (m_pools p)) 0 /\
  pool_wf p' /\
  (forall h, FreeDescriptorSet p' h = Some (p', VK_INCOMPLETE, [])) /\
  (forall pool rest create_answer alloc_answer,
     m_pools p = pool :: rest -> fst alloc_answer = VK_SUCCESS ->
     exists p2,
       AllocateDescriptorSet create_answer alloc_answer p' =
         Some (p2, snd alloc_answer,
               [vkAllocateDescriptorSets pool (m_handle (m_descriptorSetLayout p))]) /\
       m_pools p2 = m_pools p /\ m_poolIndex p2 = 0%nat /\
       m_setPoolMapping p2 = {[ snd alloc_answer := 0%nat ]}).
Proof.
  intros Hwf. pose proof (Reset_wf p Hwf) as Hwf'. destruct Hwf as [Hcap Hlen Hcur Hcnt Hmap].
  simpl. split_and!; try done.
  - rewrite <- Hlen. clear. induction (m_poolSetsCount p); simpl; [done|by f_equal].
  - intros pool rest ca aa Hpools Haa.
    destruct (m_poolSetsCount p) as [|c0 counts] eqn:Hcounts;
      [rewrite Hpools in Hlen; done|].
    unfold AllocateDescriptorSet. simpl. rewrite FindAvailablePool_eq. simpl.
    rewrite Hpools. simpl. rewrite decide_True by lia. simpl.
    rewrite decide_False by (intros H; by apply H).
    eexists. split; [done|]. simpl. split_and!; try done.
Qed.

(** X8: when the driver refuses [vkAllocateDescriptorSets], the pool
    returns the null handle and undoes its increment: the handle mapping is
    as before and the invariant still holds, so every counter is again the
    number of live handles of its sub-pool. *)
Theorem AllocateDescriptorSet_failure_leaves_no_trace
    (create_answer alloc_answer : VkResult * VkHandle) (p : DescriptorPool) :
  pool_wf p -> fst create_answer = VK_SUCCESS -> fst alloc_answer <> VK_SUCCESS ->
  exists p' calls,
    AllocateDescriptorSet create_answer alloc_answer p = Some (p', VK_NULL_HANDLE, calls) /\
    m_setPoolMapping p' = m_setPoolMapping p /\
    pool_wf p' /\
    (forall i c, m_poolSetsCount p' !! i = Some c ->
       c = Z.of_nat (live_sets (m_setPoolMapping p) i)).
Proof.
  intros Hwf Hca Haa.
  destruct (AllocateDescriptorSet_wf create_answer alloc_answer p Hwf)
    as (p' & h & calls & Halloc & Hwf' & _ & Hfail).
  { split; [done|]. intros Hs. by destruct Haa. }
  destruct (Hfail Haa) as [-> Hmap]. exists p', calls. split_and!; try done.
  intros i c Hi. rewrite <- Hmap. by apply (wf_count p' Hwf').
Qed.

Lemma FindAvailablePool_full_fail create_answer p : forall k i,
  (length (m_pools p) - i = k)%nat ->
  length (m_poolSetsCount p) = length (m_pools p) ->
  (forall j c, m_poolSetsCount p !! j = Some c -> m_poolMaxSets p <= c) ->
  fst create_answer <> VK_SUCCESS ->
  FindAvailablePool create_answer p i =
    Some (p, 0%nat, [vkCreateDescriptorPool (pool_create_info p)]).
Proof.
  induction k as [|k IH]; intros i Hk Hlen Hfull Hfail; rewrite FindAvailablePool_eq.
  - rewrite decide_True by lia. by rewrite decide_True.
  - rewrite decide_False by lia.
    destruct (lookup_lt_is_Some_2 (m_poolSetsCount p) i) as [c Hc]; [lia|].
    rewrite Hc. rewrite decide_False by (specialize (Hfull i c Hc); lia).
    apply IH; try done. lia.
Qed.

(** X9: what happens when the driver refuses [vkCreateDescriptorPool].
    On a pool without sub-pools the allocation goes on to index the empty
    vectors at 0, which is undefined behaviour.  On a pool whose sub-pools
    are all full the probe falls back to sub-pool 0: the cursor returns to 0,
    the set is requested from the first sub-pool and, when the driver grants
    it, the counter of that sub-pool exceeds the capacity by one. *)
Theorem AllocateDescriptorSet_pool_creation_refused
    (create_answer alloc_answer : VkResult * VkHandle) (p : DescriptorPool) :
  fst create_answer <> VK_SUCCESS ->
  (m_pools p = [] -> AllocateDescriptorSet create_answer alloc_answer p = None) /\
  (forall pool rest,
     m_pools p = pool :: rest -> pool_wf p ->
     (forall j c, m_poolSetsCount p !! j = Some c -> c = m_poolMaxSets p) ->
     exists p' h,
       AllocateDescriptorSet create_answer alloc_answer p =
         Some (p', h,
               [vkCreateDescriptorPool (pool_create_info p);
                vkAllocateDescriptorSets pool (m_handle (m_descriptorSetLayout p))]) /\
       m_poolIndex p' = 0%nat /\ m_pools p' = m_pools p /\
       (fst alloc_answer = VK_SUCCESS ->
          h = snd alloc_answer /\
          m_poolSetsCount p' !! 0%nat = Some (u32 (m_poolMaxSets p + 1))) /\
       (fst alloc_answer <> VK_SUCCESS ->
          h = VK_NULL_HANDLE /\ m_poolSetsCount p' !! 0%nat = Some (m_poolMaxSets p))).
Proof.
  intros Hfail. split.
  - intros Hempty. unfold AllocateDescriptorSet. rewrite FindAvailablePool_eq.
    rewrite Hempty.
    destruct (decide (length (@nil Z) <= m_poolIndex p)%nat) as [_|Hn]; [|simpl in Hn; lia].
    rewrite decide_True by done.
    simpl. rewrite Hempty. by destruct (m_poolSetsCount p !! 0%nat).
  - intros pool rest Hpools [Hcap Hlen Hcur Hcnt Hmap] Hfull.
    unfold AllocateDescriptorSet.
    rewrite (FindAvailablePool_full_fail create_answer p
               (length (m_pools p) - m_poolIndex p)%nat (m_poolIndex p)); try done.
    2:{ intros j c Hc. rewrite (Hfull j c Hc). lia. }
    simpl.
    destruct (m_poolSetsCount p) as [|c0 counts] eqn:Hcounts;
      [rewrite Hpools in Hlen; done|].
    assert (Hc0 : c0 = m_poolMaxSets p) by (by apply (Hfull 0%nat)).
    rewrite Hpools. simpl.
    destruct (decide (fst alloc_answer <> VK_SUCCESS)) as [Hn|Hy].
    + eexists _, _. split; [reflexivity|]. simpl.
      split_and!; [done|done|intros Hs; by destruct Hn|].
      intros _. split; [done|]. f_equal. subst c0.
      unfold u32. rewrite Zminus_mod_idemp_l.
      replace (m_poolMaxSets p + 1 - 1) with (m_poolMaxSets p) by lia.
      apply Z.mod_small. lia.
    + eexists _, _. split; [reflexivity|]. simpl.
      split_and!; [done|done| |intros Hn; by destruct Hy].
      intros _. split; [done|]. by subst c0.
Qed.

Lemma FindAvailablePool_keeps create_answer p : forall k i p1 idx calls,
  (length (m_pools p) - i = k)%nat ->
  FindAvailablePool create_answer p i = Some (p1, idx, calls) ->
  m_poolMaxSets p1 = m_poolMaxSets p /\ m_descriptorSetLayout p1 = m_descriptorSetLayout p /\
  m_poolSizes p1 = m_poolSizes p.
Proof.
  induction k as [|k IH]; intros i p1 idx calls Hk; rewrite FindAvailablePool_eq.
  - rewrite decide_True by lia.
    destruct (decide (fst create_answer <> VK_SUCCESS)); by intros [= <- <- <-].
  - rewrite decide_False by lia.
    destruct (m_poolSetsCount p !! i) as [c|]; [|done].
    destruct (decide (c < m_poolMaxSets p)); [by intros [= <- <- <-]|].
    apply IH. lia.
Qed.

Lemma AllocateDescriptorSet_keeps create_answer alloc_answer p p' h calls :
  AllocateDescriptorSet create_answer alloc_answer p = Some (p', h, calls) ->
  m_poolMaxSets p' = m_poolMaxSets p /\ m_descriptorSetLayout p' = m_descriptorSetLayout p /\
  m_poolSizes p' = m_poolSizes p.
Proof.
  unfold AllocateDescriptorSet.
  destruct (FindAvailablePool create_answer p (m_poolIndex p)) as [[[p1 idx] calls1]|] eqn:Hfind;
    [|done].
  apply (FindAvailablePool_keeps _ _ _ _ _ _ _ eq_refl) in Hfind.
  simpl. destruct (m_poolSetsCount p1 !! idx); [|done]. destruct (m_pools p1 !! idx); [|done].
  destruct (decide (fst alloc_answer <> VK_SUCCESS)); by intros [= <- <- <-].
Qed.

Lemma sum_live_empty l : sum_live ∅ l = 0%nat.
Proof.
  induction l as [|i l IH]; simpl; [done|]. rewrite IH.
  rewrite live_sets_none; [done|]. intros h j Hh. by rewrite lookup_empty in Hh.
Qed.

Lemma sum_live_insert m h i l :
  m !! h = None -> NoDup l ->
  sum_live (<[h:=i]> m) l = (sum_live m l + if decide (i ∈ l) then 1 else 0)%nat.
Proof.
  intros Hh. induction 1 as [|j l Hj Hl IH].
  - destruct (decide (i ∈ [])) as [Hin|_]; [by apply elem_of_nil in Hin|]. simpl. lia.
  - cbn [sum_live fold_right]. fold (sum_live (<[h:=i]> m) l). fold (sum_live m l).
    rewrite IH, live_sets_insert by done.
    destruct (decide (j = i)) as [->|Hne].
    + destruct (decide (i ∈ l)) as [?|_]; [done|].
      destruct (decide (i ∈ i :: l)) as [_|Hn]; [lia|]. destruct Hn. apply list_elem_of_here.
    + destruct (decide (i ∈ l)) as [Hin|Hnin].
      * destruct (decide (i ∈ j :: l)) as [_|Hn]; [lia|].
        destruct Hn. by apply list_elem_of_further.
      * destruct (decide (i ∈ j :: l)) as [Hc|_]; [|lia].
        apply elem_of_cons in Hc as [?|?]; done.
Qed.

Lemma sum_live_size n (m : gmap Z nat) :
  (forall h i, m !! h = Some i -> (i < n)%nat) -> sum_live m (seq 0 n) = size m.
Proof.
  induction m as [|h i m Hh IH] using map_ind; intros Hbound.
  - by rewrite sum_live_empty, map_size_empty.
  - rewrite sum_live_insert by (done || apply NoDup_ListNoDup, seq_NoDup).
    rewrite map_size_insert_None by done. rewrite IH.
    + rewrite decide_True; [lia|]. apply list_elem_of_In, in_seq.
      specialize (Hbound h i (lookup_insert_eq _ _ _)). lia.
    + intros h' i' Hh'. apply (Hbound h'). rewrite lookup_insert_ne; [done|].
      intros <-. congruence.
Qed.

Lemma counters_are_live_sets p :
  pool_wf p ->
  m_poolSetsCount p =
    map (fun i => Z.of_nat (live_sets (m_setPoolMapping p) i)) (seq 0 (length (m_pools p))).
Proof.
  intros [Hcap Hlen Hcur Hcnt Hmap]. apply list_eq. intros i.
  rewrite list_lookup_fmap. rewrite <- Hlen.
  destruct (m_poolSetsCount p !! i) as [c|] eqn:Hc.
  - rewrite (lookup_seq_lt _ _ _ (lookup_lt_Some _ _ _ Hc)). simpl.
    f_equal. by apply Hcnt.
  - rewrite lookup_seq_ge; [done|]. by apply lookup_ge_None.
Qed.

Lemma pool_wf_totals p :
  pool_wf p ->
  fold_right Z.add 0 (m_poolSetsCount p) = Z.of_nat (size (m_setPoolMapping p)) /\
  Z.of_nat (size (m_setPoolMapping p)) <= m_poolMaxSets p * Z.of_nat (length (m_pools p)).
Proof.
  intros Hwf.
  assert (Hsum : fold_right Z.add 0 (m_poolSetsCount p) =
                 Z.of_nat (size (m_setPoolMapping p))).
  { rewrite (counters_are_live_sets p Hwf).
    rewrite <- (sum_live_size (length (m_pools p)) (m_setPoolMapping p) (wf_mapping p Hwf)).
    generalize (seq 0 (length (m_pools p))). intros l.
    induction l as [|i l IH]; simpl; [done|]. rewrite IH. lia. }
  split; [done|]. rewrite <- Hsum, <- (wf_length p Hwf).
  assert (Hall : Forall (fun c => c <= m_poolMaxSets p) (m_poolSetsCount p)).
  { apply Forall_lookup. intros i c Hc. by apply (wf_count p Hwf i c). }
  revert Hall. generalize (m_poolSetsCount p). intros l Hall.
  induction Hall as [|c l Hc Hl IH]; [simpl; lia|].
  cbn [fold_right length]. rewrite Nat2Z.inj_succ. nia.
Qed.

Lemma run_pool_op_wf op p :
  pool_wf p ->
  match op with
  | OpAllocate create_answer alloc_answer => driver_ok p create_answer alloc_answer
  | _ => True
  end ->
  exists p', run_pool_op op p = Some p' /\ pool_wf p' /\
             m_poolMaxSets p' = m_poolMaxSets p /\
             m_descriptorSetLayout p' = m_descriptorSetLayout p.
Proof.
  intros Hwf Hok. destruct op as [ca aa|h|]; simpl.
  - destruct (AllocateDescriptorSet_wf ca aa p Hwf Hok) as (p' & h & calls & Halloc & Hwf' & _).
    rewrite Halloc. exists p'. split; [done|]. split; [done|].
    by destruct (AllocateDescriptorSet_keeps _ _ _ _ _ _ Halloc) as (? & ? & _).
  - destruct (m_setPoolMapping p !! h) as [i|] eqn:Hh.
    + destruct (FreeDescriptorSet_wf p h i Hwf Hh) as (pool & c & _ & _ & _ & Hfree & Hwf').
      rewrite Hfree. eexists. split; [done|]. by split.
    + unfold FreeDescriptorSet. rewrite Hh. by exists p.
  - eexists. split; [done|]. split; [by apply Reset_wf|done].
Qed.

Lemma run_pool_ops_wf ops : forall p,
  pool_wf p -> driver_ok_along ops p ->
  exists p', run_pool_ops ops p = Some p' /\ pool_wf p' /\
             m_poolMaxSets p' = m_poolMaxSets p /\
             m_descriptorSetLayout p' = m_descriptorSetLayout p.
Proof.
  induction ops as [|op rest IH]; intros p Hwf Hok; simpl.
  - by exists p.
  - destruct Hok as [Hop Hrest].
    destruct (run_pool_op_wf op p Hwf Hop) as (p1 & Hrun & Hwf1 & Hmax1 & Hlay1).
    rewrite Hrun. destruct (IH p1 Hwf1 (Hrest p1 Hrun)) as (p' & Hrun' & Hwf' & Hmax' & Hlay').
    exists p'. split_and!; try done; congruence.
Qed.

(** X10: on a pool created with a capacity of at least one set, every
    sequence of allocations, frees and resets runs without reading a vector
    out of range, as long as the driver creates the sub-pools it is asked for
    and never grants a handle that is still live.  Afterwards every counter
    is the number of live handles of its sub-pool and at most the capacity,
    the counters add up to the number of live handles, and that number is at
    most the capacity times the number of sub-pools. *)
Theorem pool_bookkeeping_invariant (layout : DescriptorSetLayout) (capacity : Z)
    (ops : list PoolOp) :
  0 < capacity < 2 ^ 32 ->
  driver_ok_along ops (new_DescriptorPool layout capacity) ->
  exists p,
    run_pool_ops ops (new_DescriptorPool layout capacity) = Some p /\
    pool_wf p /\
    fold_right Z.add 0 (m_poolSetsCount p) = Z.of_nat (size (m_setPoolMapping p)) /\
    Z.of_nat (size (m_setPoolMapping p)) <= capacity * Z.of_nat (length (m_pools p)).
Proof.
  intros Hcap Hok.
  destruct (run_pool_ops_wf ops _ (new_DescriptorPool_wf layout capacity Hcap) Hok)
    as (p & Hrun & Hwf & Hmax & _).
  exists p. split; [done|]. split; [done|].
  destruct (pool_wf_totals p Hwf) as [Hsum Hbound]. split; [done|].
  by rewrite Hmax in Hbound.
Qed.

Lemma example_pool_full_wf : pool_wf example_pool_full.
Proof.
  apply (allocate_seq_reaches_wf example_answers example_pool).
  - apply new_DescriptorPool_wf. lia.
  - repeat constructor.
  - apply NoDup_cons. split; [|apply NoDup_singleton].
    intros H. by apply list_elem_of_singleton in H.
  - intros a Ha. reflexivity.
  - reflexivity.
Qed.

Lemma Reset_forgets_every_set_witness :
  pool_wf example_pool_grown /\
  snd (Reset example_pool_grown) = map vkResetDescriptorPool (m_pools example_pool_grown) /\
  m_setPoolMapping (fst (Reset example_pool_grown)) = ∅ /\
  pool_wf (fst (Reset example_pool_grown)).
Proof.
  split; [exact example_pool_grown_wf|].
  destruct (Reset_forgets_every_set example_pool_grown example_pool_grown_wf)
    as (Hcalls & _ & Hmap & _ & _ & Hwf & _).
  split; [exact Hcalls|]. split; [exact Hmap|exact Hwf].
Defined.

Lemma AllocateDescriptorSet_failure_leaves_no_trace_witness :
  pool_wf example_pool_grown /\
  exists p' calls,
    AllocateDescriptorSet (VK_SUCCESS, 103) (VK_ERROR (-1), 0) example_pool_grown =
      Some (p', VK_NULL_HANDLE, calls) /\
    m_setPoolMapping p' = m_setPoolMapping example_pool_grown /\
    pool_wf p' /\
    (forall i c, m_poolSetsCount p' !! i = Some c ->
       c = Z.of_nat (live_sets (m_setPoolMapping example_pool_grown) i)).
Proof.
  split; [exact example_pool_grown_wf|].
  apply (AllocateDescriptorSet_failure_leaves_no_trace (VK_SUCCESS, 103) (VK_ERROR (-1), 0)
           example_pool_grown example_pool_grown_wf); [reflexivity|discriminate].
Defined.

Lemma AllocateDescriptorSet_pool_creation_refused_witness :
  AllocateDescriptorSet (VK_ERROR (-2), 0) (VK_SUCCESS, 13) example_pool = None /\
  exists p' h,
    AllocateDescriptorSet (VK_ERROR (-2), 0) (VK_SUCCESS, 13) example_pool_full =
      Some (p', h,
            [vkCreateDescriptorPool (pool_create_info example_pool_full);
             vkAllocateDescriptorSets 101 (m_handle (m_descriptorSetLayout example_pool_full))]) /\
    m_poolIndex p' = 0%nat /\ m_pools p' = m_pools example_pool_full /\
    (fst (VK_SUCCESS, 13) = VK_SUCCESS ->
       h = 13 /\
       m_poolSetsCount p' !! 0%nat = Some (u32 (m_poolMaxSets example_pool_full + 1))) /\
    (fst (VK_SUCCESS, 13) <> VK_SUCCESS ->
       h = VK_NULL_HANDLE /\
       m_poolSetsCount p' !! 0%nat = Some (m_poolMaxSets example_pool_full)).
Proof.
  split.
  - apply (AllocateDescriptorSet_pool_creation_refused (VK_ERROR (-2), 0) (VK_SUCCESS, 13)
             example_pool); [discriminate|reflexivity].
  - apply (proj2 (AllocateDescriptorSet_pool_creation_refused (VK_ERROR (-2), 0) (VK_SUCCESS, 13)
                    example_pool_full ltac:(discriminate)) 101 []);
      [reflexivity|exact example_pool_full_wf|].
    intros j c Hc. destruct j as [|j]; [by injection Hc as <-|done].
Defined.

Lemma pool_bookkeeping_invariant_witness :
  exists p,
    run_pool_ops example_ops (new_DescriptorPool array_layout 2) = Some p /\
    pool_wf p /\
    fold_right Z.add 0 (m_poolSetsCount p) = Z.of_nat (size (m_setPoolMapping p)) /\
    Z.of_nat (size (m_setPoolMapping p)) <= 2 * Z.of_nat (length (m_pools p)).
Proof.
  apply (pool_bookkeeping_invariant array_layout 2 example_ops); [lia|].
  unfold example_ops.
  repeat (split;
          [first [exact I | split; [reflexivity | intros _; reflexivity]]
          |intros p' Hp'; vm_compute in Hp'; injection Hp' as <-]).
  exact I.
Defined.

(** ** Descriptor set: preparation, reset and update *)

Lemma prepare_buffer_elements_writes limits setIndex handle b bi elems :
  snd (fst (prepare_buffer_elements limits setIndex handle b bi elems)) =
    map (fun ei => buffer_write handle b (fst ei) (descriptorType bi)) elems /\
  map fst (fst (fst (prepare_buffer_elements limits setIndex handle b bi elems))) = map fst elems.
Proof.
  induction elems as [|[e info] rest [IHw IHk]]; simpl; [done|].
  destruct (clip_range limits setIndex b (descriptorType bi) (range info)) as [r log].
  destruct (prepare_buffer_elements limits setIndex handle b bi rest) as [[rest' writes] logs].
  simpl in *. by rewrite IHw, IHk.
Qed.

Lemma prepare_buffers_writes limits layout handle infos :
  snd (fst (prepare_buffers limits layout handle infos)) = buffer_writes_of layout handle infos /\
  map fst (fst (fst (prepare_buffers limits layout handle infos))) = map fst infos.
Proof.
  induction infos as [|[b elems] rest [IHw IHk]]; simpl; [done|].
  destruct (prepare_buffers limits layout handle rest) as [[rest' writes'] logs'].
  simpl in *. destruct (GetLayoutBinding layout b) as [bi|] eqn:Hbi.
  - pose proof (prepare_buffer_elements_writes limits (m_setIndex layout) handle b bi elems)
      as [Hw _].
    destruct (prepare_buffer_elements limits (m_setIndex layout) handle b bi elems)
      as [[elems' writes] logs].
    simpl in *. by rewrite Hw, IHw, IHk.
  - simpl. by rewrite IHw, IHk.
Qed.

Lemma prepare_images_writes layout handle infos :
  fst (prepare_images layout handle infos) = image_writes_of layout handle infos.
Proof.
  induction infos as [|[b elems] rest IH]; simpl; [done|].
  destruct (prepare_images layout handle rest) as [writes' logs']. simpl in *.
  destruct (GetLayoutBinding layout b); simpl; by rewrite IH.
Qed.

Lemma Prepare_fresh limits ds :
  m_writeDescriptorSets ds = [] ->
  let ds' := fst (Prepare limits ds) in
  m_writeDescriptorSets ds' =
    buffer_writes_of (m_setLayout ds) (m_setHandle ds) (m_bufferInfos ds) ++
    image_writes_of (m_setLayout ds) (m_setHandle ds) (m_imageInfos ds) /\
  m_setLayout ds' = m_setLayout ds /\ m_setHandle ds' = m_setHandle ds /\
  m_imageInfos ds' = m_imageInfos ds /\ m_updatedBindings ds' = m_updatedBindings ds /\
  m_bufferInfos ds' =
    fst (fst (prepare_buffers limits (m_setLayout ds) (m_setHandle ds) (m_bufferInfos ds))).
Proof.
  intros Hfresh. unfold Prepare. rewrite Hfresh.
  pose proof (prepare_buffers_writes limits (m_setLayout ds) (m_setHandle ds) (m_bufferInfos ds))
    as [Hb _].
  pose proof (prepare_images_writes (m_setLayout ds) (m_setHandle ds) (m_imageInfos ds)) as Hi.
  destruct (prepare_buffers _ _ _ _) as [[infos' bw] bl].
  destruct (prepare_images _ _ _) as [iw il]. simpl in *. by rewrite Hb, Hi.
Qed.

(** X11: on a set without write entries, [Prepare] pushes exactly one write
    per array element of every buffer binding and then of every image binding
    that the layout knows, in the order of the maps; each write is addressed
    to the set's handle, counts one descriptor, carries the descriptor type
    of the layout's binding and points at the element it was made for.
    Bindings the layout does not know contribute no write. *)
Theorem Prepare_writes_one_per_element (limits : VkPhysicalDeviceLimits) (ds : DescriptorSet) :
  m_writeDescriptorSets ds = [] ->
  let ds' := fst (Prepare limits ds) in
  m_writeDescriptorSets ds' =
    buffer_writes_of (m_setLayout ds) (m_setHandle ds) (m_bufferInfos ds) ++
    image_writes_of (m_setLayout ds) (m_setHandle ds) (m_imageInfos ds) /\
  forall w, w ∈ m_writeDescriptorSets ds' ->
    dstSet w = m_setHandle ds /\ writeDescriptorCount w = 1 /\
    (exists bi, GetLayoutBinding (m_setLayout ds) (dstBinding w) = Some bi /\
                writeDescriptorType w = descriptorType bi) /\
    ((exists elems info, (dstBinding w, elems) ∈ m_bufferInfos ds /\
                         (dstArrayElement w, info) ∈ elems /\
                         pInfo w = BufferInfoRef (dstBinding w) (dstArrayElement w)) \/
     (exists elems info, (dstBinding w, elems) ∈ m_imageInfos ds /\
                         (dstArrayElement w, info) ∈ elems /\
                         pInfo w = ImageInfoRef (dstBinding w) (dstArrayElement w))).
Proof.
  intros Hfresh. destruct (Prepare_fresh limits ds Hfresh) as (Hw & _). simpl in *.
  split; [done|]. intros w Hin. rewrite Hw in Hin. apply elem_of_app in Hin as [Hin|Hin].
  - unfold buffer_writes_of in Hin. apply list_elem_of_In, in_flat_map in Hin
      as ([b elems] & Hba & Hin). simpl in Hin.
    destruct (GetLayoutBinding (m_setLayout ds) b) as [bi|] eqn:Hbi; [|done].
    apply in_map_iff in Hin as ([e info] & <- & Hei). simpl.
    split_and!; try done; [by exists bi|]. left. exists elems, info.
    split_and!; [by apply list_elem_of_In|by apply list_elem_of_In|done].
  - unfold image_writes_of in Hin. apply list_elem_of_In, in_flat_map in Hin
      as ([b elems] & Hba & Hin). simpl in Hin.
    destruct (GetLayoutBinding (m_setLayout ds) b) as [bi|] eqn:Hbi; [|done].
    apply in_map_iff in Hin as ([e info] & <- & Hei). simpl.
    split_and!; try done; [by exists bi|]. right. exists elems, info.
    split_and!; [by apply list_elem_of_In|by apply list_elem_of_In|done].
Qed.

Lemma clip_range_idempotent limits setIndex b t r :
  fst (clip_range limits setIndex b t (fst (clip_range limits setIndex b t r))) =
  fst (clip_range limits setIndex b t r).
Proof.
  unfold clip_range.
  destruct t; simpl;
    repeat (match goal with
            | |- context [?x <? ?y] => destruct (Z.ltb_spec x y); simpl
            end);
    simpl in *; try done; lia.
Qed.

Lemma prepare_buffer_elements_again limits setIndex handle b bi elems :
  fst (fst (prepare_buffer_elements limits setIndex handle b bi
              (fst (fst (prepare_buffer_elements limits setIndex handle b bi elems))))) =
  fst (fst (prepare_buffer_elements limits setIndex handle b bi elems)).
Proof.
  induction elems as [|[e info] rest IH]; simpl; [done|].
  pose proof (clip_range_idempotent limits setIndex b (descriptorType bi) (range info)) as Hclip.
  destruct (clip_range limits setIndex b (descriptorType bi) (range info)) as [r log].
  destruct (prepare_buffer_elements limits setIndex handle b bi rest) as [[rest' writes] logs].
  simpl in *.
  destruct (clip_range limits setIndex b (descriptorType bi) r) as [r' log'].
  destruct (prepare_buffer_elements limits setIndex handle b bi rest') as [[rest'' writes'] logs'].
  simpl in *. by rewrite Hclip, IH.
Qed.

Lemma prepare_buffers_again limits layout handle infos :
  fst (fst (prepare_buffers limits layout handle
              (fst (fst (prepare_buffers limits layout handle infos))))) =
  fst (fst (prepare_buffers limits layout handle infos)).
Proof.
  induction infos as [|[b elems] rest IH]; simpl; [done|].
  destruct (prepare_buffers limits layout handle rest) as [[rest' writes'] logs'].
  simpl in *.
  destruct (GetLayoutBinding layout b) as [bi|] eqn:Hbi.
  - pose proof (prepare_buffer_elements_again limits (m_setIndex layout) handle b bi elems)
      as Hagain.
    destruct (prepare_buffer_elements limits (m_setIndex layout) handle b bi elems)
      as [[elems' writes] logs].
    simpl in *. rewrite Hbi.
    destruct (prepare_buffer_elements limits (m_setIndex layout) handle b bi elems')
      as [[elems'' writes''] logs''].
    destruct (prepare_buffers limits layout handle rest') as [[rest'' writes3] logs3].
    simpl in *. by rewrite Hagain, IH.
  - simpl. rewrite Hbi.
    destruct (prepare_buffers limits layout handle rest') as [[rest'' writes3] logs3].
    simpl in *. by rewrite IH.
Qed.

Lemma buffer_writes_of_keys layout handle (infos infos' : BindingMap VkDescriptorBufferInfo) :
  Forall2 (fun ba ba' => fst ba = fst ba' /\ map fst (snd ba) = map fst (snd ba')) infos infos' ->
  buffer_writes_of layout handle infos = buffer_writes_of layout handle infos'.
Proof.
  induction 1 as [|[b elems] [b' elems'] rest rest' [Hb He] _ IH]; simpl; [done|].
  simpl in *. subst b'. rewrite IH. f_equal.
  destruct (GetLayoutBinding layout b); [|done].
  revert elems' He. induction elems as [|[e i] elems IHe]; intros [|[e' i'] elems'] He;
    simpl in *; try done.
  injection He as -> He. f_equal. by apply IHe.
Qed.

Lemma prepare_buffers_keys limits layout handle infos :
  Forall2 (fun ba ba' => fst ba = fst ba' /\ map fst (snd ba) = map fst (snd ba'))
          (fst (fst (prepare_buffers limits layout handle infos))) infos.
Proof.
  induction infos as [|[b elems] rest IH]; simpl; [constructor|].
  destruct (prepare_buffers limits layout handle rest) as [[rest' writes'] logs'].
  simpl in *. destruct (GetLayoutBinding layout b) as [bi|].
  - pose proof (prepare_buffer_elements_writes limits (m_setIndex layout) handle b bi elems)
      as [_ Hk].
    destruct (prepare_buffer_elements limits (m_setIndex layout) handle b bi elems)
      as [[elems' writes] logs].
    simpl in *. by constructor.
  - simpl. by constructor.
Qed.

(** X12: [Prepare] is idempotent on the set: a second call leaves the
    buffer infos (whose ranges the first call clipped), the image infos, the
    write entries and the recorded hashes exactly as the first call left
    them, whether it returns early with the already-prepared warning or, the
    first call having pushed nothing, runs the loops again. *)
Theorem Prepare_twice_same_set (limits : VkPhysicalDeviceLimits) (ds : DescriptorSet) :
  fst (Prepare limits (fst (Prepare limits ds))) = fst (Prepare limits ds) /\
  (m_writeDescriptorSets (fst (Prepare limits ds)) <> [] ->
   snd (Prepare limits (fst (Prepare limits ds))) = [LOGW_AlreadyPrepared]).
Proof.
  split.
  - destruct (m_writeDescriptorSets ds) as [|w ws] eqn:Hws.
    + destruct (Prepare_fresh limits ds Hws) as (Hw & Hl & Hh & Hi & Hu & Hb).
      simpl in *.
      destruct (m_writeDescriptorSets (fst (Prepare limits ds))) as [|w1 ws1] eqn:Hws1.
      * destruct (Prepare_fresh limits (fst (Prepare limits ds)) Hws1)
          as (Hw2 & Hl2 & Hh2 & Hi2 & Hu2 & Hb2).
        simpl in *.
        destruct (fst (Prepare limits (fst (Prepare limits ds)))) as [l2 b2 i2 h2 w2 u2].
        destruct (fst (Prepare limits ds)) as [l1 b1 i1 h1 w1 u1]. simpl in *.
        subst. f_equal.
        -- apply prepare_buffers_again.
        -- rewrite Hw. f_equal. apply buffer_writes_of_keys, prepare_buffers_keys.
      * unfold Prepare at 1. by rewrite Hws1.
    + unfold Prepare. rewrite Hws. simpl. by rewrite Hws.
  - intros Hne. unfold Prepare at 1.
    by destruct (m_writeDescriptorSets (fst (Prepare limits ds))).
Qed.

Lemma Prepare_writes_one_per_element_witness :
  m_writeDescriptorSets single_element_set = [] /\
  m_writeDescriptorSets (fst (Prepare example_limits single_element_set)) =
    [buffer_write 23 0 0 VK_DESCRIPTOR_TYPE_UNIFORM_BUFFER;
     buffer_write 23 2 0 VK_DESCRIPTOR_TYPE_UNIFORM_BUFFER;
     image_write 23 1 0 VK_DESCRIPTOR_TYPE_COMBINED_IMAGE_SAMPLER].
Proof.
  split; [reflexivity|].
  exact (proj1 (Prepare_writes_one_per_element example_limits single_element_set eq_refl)).
Defined.

Lemma stale_writes_all hash_write ds :
  m_updatedBindings ds = ∅ -> stale_writes hash_write [] ds = m_writeDescriptorSets ds.
Proof.
  intros Hnone. unfold stale_writes. rewrite Hnone.
  generalize (m_writeDescriptorSets ds). intros ws.
  induction ws as [|w ws IH]; [done|]. cbn [List.filter].
  assert (candidate [] w && needs_update ∅ (dstBinding w) (hash_write (resolve ds w)) = true)
    as -> by (unfold needs_update; by rewrite lookup_empty).
  by rewrite IH.
Qed.

(** X13: [Reset] of a descriptor set replaces both binding maps when at
    least one of the new maps is not empty (so new buffer infos alone drop
    the image infos), keeps both and logs a warning when both are empty, and
    in either case forgets the recorded hashes and prepares the set anew, with
    its handle and layout unchanged.  The next [Update] of all bindings then
    sends every write of the set in one call, or makes no call when the set
    has no write. *)
Theorem ResetDescriptorSet_prepares_anew (hash_write : WriteData -> Z)
    (limits : VkPhysicalDeviceLimits)
    (newBufferInfos : BindingMap VkDescriptorBufferInfo)
    (newImageInfos : BindingMap VkDescriptorImageInfo) (ds : DescriptorSet) :
  let ds' := fst (ResetDescriptorSet limits newBufferInfos newImageInfos ds) in
  let log := snd (ResetDescriptorSet limits newBufferInfos newImageInfos ds) in
  (newBufferInfos <> [] \/ newImageInfos <> [] ->
     ds' = fst (Prepare limits (cleared_set newBufferInfos newImageInfos ds)) /\
     m_imageInfos ds' = newImageInfos /\
     log = snd (Prepare limits (cleared_set newBufferInfos newImageInfos ds))) /\
  (newBufferInfos = [] /\ newImageInfos = [] ->
     ds' = fst (Prepare limits (cleared_set (m_bufferInfos ds) (m_imageInfos ds) ds)) /\
     m_imageInfos ds' = m_imageInfos ds /\
     log = LOGW_ResetWithoutInfos ::
           snd (Prepare limits (cleared_set (m_bufferInfos ds) (m_imageInfos ds) ds))) /\
  m_updatedBindings ds' = ∅ /\ m_setHandle ds' = m_setHandle ds /\
  m_setLayout ds' = m_setLayout ds /\
  snd (Update hash_write [] ds') =
    match m_writeDescriptorSets ds' with
    | [] => []
    | writes => [vkUpdateDescriptorSets (map (resolve ds') writes)]
    end.
Proof.
  assert (Hcases : exists bufferInfos imageInfos pre,
            ResetDescriptorSet limits newBufferInfos newImageInfos ds =
              (fst (Prepare limits (cleared_set bufferInfos imageInfos ds)),
               pre ++ snd (Prepare limits (cleared_set bufferInfos imageInfos ds))) /\
            ((newBufferInfos <> [] \/ newImageInfos <> []) /\
             bufferInfos = newBufferInfos /\ imageInfos = newImageInfos /\ pre = [] \/
             (newBufferInfos = [] /\ newImageInfos = []) /\
             bufferInfos = m_bufferInfos ds /\ imageInfos = m_imageInfos ds /\
             pre = [LOGW_ResetWithoutInfos])).
  { destruct newBufferInfos as [|b bs] eqn:Hnb, newImageInfos as [|i is_] eqn:Hni.
    - exists (m_bufferInfos ds), (m_imageInfos ds), [LOGW_ResetWithoutInfos]. split.
      + unfold ResetDescriptorSet, cleared_set. simpl. by destruct (Prepare _ _).
      + right. by split_and!.
    - exists [], (i :: is_), []. split.
      + unfold ResetDescriptorSet, cleared_set. simpl. by destruct (Prepare _ _).
      + left. split_and!; try done. by right.
    - exists (b :: bs), [], []. split.
      + unfold ResetDescriptorSet, cleared_set. simpl. by destruct (Prepare _ _).
      + left. split_and!; try done. by left.
    - exists (b :: bs), (i :: is_), []. split.
      + unfold ResetDescriptorSet, cleared_set. simpl. by destruct (Prepare _ _).
      + left. split_and!; try done. by left. }
  destruct Hcases as (bufferInfos & imageInfos & pre & Hreset & Hcase).
  simpl. rewrite Hreset. simpl.
  destruct (Prepare_fresh limits (cleared_set bufferInfos imageInfos ds) eq_refl)
    as (Hw & Hl & Hh & Hi & Hu & Hb).
  simpl in *. split_and!; try done.
  - intros Hnew. destruct Hcase as [(_ & -> & -> & ->)|([-> ->] & _)];
      [by rewrite Hi|by destruct Hnew].
  - intros [-> ->]. destruct Hcase as [([?|?] & _)|(_ & -> & -> & ->)]; try done.
  - pose proof (Update_sends hash_write []
                  (fst (Prepare limits (cleared_set bufferInfos imageInfos ds)))) as Hsend.
    rewrite stale_writes_all in Hsend by done. exact Hsend.
Qed.

Lemma elem_of_stale_writes hash_write bindingsToUpdate ds w :
  w ∈ stale_writes hash_write bindingsToUpdate ds <->
  w ∈ m_writeDescriptorSets ds /\
  (bindingsToUpdate = [] \/ dstBinding w ∈ bindingsToUpdate) /\
  m_updatedBindings ds !! dstBinding w <> Some (hash_write (resolve ds w)).
Proof.
  unfold stale_writes. rewrite list_elem_of_In, filter_In, <- list_elem_of_In.
  rewrite andb_true_iff.
  assert (Hcand : candidate bindingsToUpdate w = true <->
                  bindingsToUpdate = [] \/ dstBinding w ∈ bindingsToUpdate).
  { unfold candidate, in_bindings. destruct bindingsToUpdate as [|b bs]; [by split; [left|]|].
    rewrite existsb_exists. split.
    - intros (x & Hx & Heq). apply Z.eqb_eq in Heq. subst x. right. by apply list_elem_of_In.
    - intros [?|Hin]; [done|]. exists (dstBinding w). split; [by apply list_elem_of_In|].
      apply Z.eqb_refl. }
  rewrite Hcand.
  assert (Hstale : needs_update (m_updatedBindings ds) (dstBinding w)
                     (hash_write (resolve ds w)) = true <->
                   m_updatedBindings ds !! dstBinding w <> Some (hash_write (resolve ds w))).
  { rewrite <- not_false_iff_true. by rewrite needs_update_false. }
  by rewrite Hstale.
Qed.

(** X14: [Update] sends, in one call and in the order of the write list,
    exactly the writes that are candidates (all of them for an empty subset,
    otherwise those whose binding number is in the subset) and whose hash is
    not the one on record for their binding; it makes no call when there is no
    such write.  Afterwards the hash on record for a binding is that of the
    last write sent for it, and is unchanged for every binding no write was
    sent for, in particular for every binding outside a non-empty subset. *)
Theorem Update_sends_stale_candidates (hash_write : WriteData -> Z)
    (bindingsToUpdate : list Z) (ds : DescriptorSet) :
  let ds' := fst (Update hash_write bindingsToUpdate ds) in
  let sent := stale_writes hash_write bindingsToUpdate ds in
  snd (Update hash_write bindingsToUpdate ds) =
    match sent with
    | [] => []
    | _ => [vkUpdateDescriptorSets (map (resolve ds) sent)]
    end /\
  (forall w, w ∈ sent <->
     w ∈ m_writeDescriptorSets ds /\
     (bindingsToUpdate = [] \/ dstBinding w ∈ bindingsToUpdate) /\
     m_updatedBindings ds !! dstBinding w <> Some (hash_write (resolve ds w))) /\
  (forall b, m_updatedBindings ds' !! b =
     match last (List.filter (fun w => dstBinding w =? b) sent) with
     | Some w => Some (hash_write (resolve ds w))
     | None => m_updatedBindings ds !! b
     end) /\
  (forall b, bindingsToUpdate <> [] -> b ∉ bindingsToUpdate ->
     m_updatedBindings ds' !! b = m_updatedBindings ds !! b) /\
  m_writeDescriptorSets ds' = m_writeDescriptorSets ds /\
  m_bufferInfos ds' = m_bufferInfos ds /\ m_imageInfos ds' = m_imageInfos ds.
Proof.
  cbv zeta. split_and!.
  - rewrite Update_sends. by destruct (stale_writes hash_write bindingsToUpdate ds).
  - apply elem_of_stale_writes.
  - apply Update_records.
  - intros b Hne Hb. rewrite Update_records.
    rewrite (filter_none (fun w => dstBinding w =? b)); [done|].
    intros w Hw. apply elem_of_stale_writes in Hw as (_ & [?|Hin] & _); [done|].
    apply Z.eqb_neq. intros <-. done.
  - apply (Update_frame hash_write bindingsToUpdate ds).
  - apply (Update_frame hash_write bindingsToUpdate ds).
  - apply (Update_frame hash_write bindingsToUpdate ds).
Qed.

Lemma buffer_writes_of_bindings layout handle (infos : BindingMap VkDescriptorBufferInfo) :
  Forall (fun ba => (length (snd ba) <= 1)%nat) infos ->
  sublist (map dstBinding (buffer_writes_of layout handle infos)) (map fst infos).
Proof.
  induction 1 as [|[b elems] rest Hlen _ IH]; simpl; [constructor|].
  destruct (GetLayoutBinding layout b) as [bi|]; [|by apply sublist_cons].
  destruct elems as [|[e info] [|x elems]]; simpl in *; [by apply sublist_cons| |lia].
  by apply sublist_skip.
Qed.

Lemma image_writes_of_bindings layout handle (infos : BindingMap VkDescriptorImageInfo) :
  Forall (fun ba => (length (snd ba) <= 1)%nat) infos ->
  sublist (map dstBinding (image_writes_of layout handle infos)) (map fst infos).
Proof.
  induction 1 as [|[b elems] rest Hlen _ IH]; simpl; [constructor|].
  destruct (GetLayoutBinding layout b) as [bi|]; [|by apply sublist_cons].
  destruct elems as [|[e info] [|x elems]]; simpl in *; [by apply sublist_cons| |lia].
  by apply sublist_skip.
Qed.

(** X15: for a set whose binding numbers are distinct across the buffer and
    the image map and whose bindings have at most one array element each,
    [Prepare] leaves at most one write per binding number, and of two
    [Update] calls in a row on the prepared set, nothing having changed in
    between, the second makes no device call. *)
Theorem Update_twice_single_elements (hash_write : WriteData -> Z)
    (limits : VkPhysicalDeviceLimits) (ds : DescriptorSet) :
  m_writeDescriptorSets ds = [] ->
  NoDup (map fst (m_bufferInfos ds) ++ map fst (m_imageInfos ds)) ->
  Forall (fun ba => (length (snd ba) <= 1)%nat) (m_bufferInfos ds) ->
  Forall (fun ba => (length (snd ba) <= 1)%nat) (m_imageInfos ds) ->
  let prepared := fst (Prepare limits ds) in
  NoDup (map dstBinding (m_writeDescriptorSets prepared)) /\
  snd (Update hash_write [] (fst (Update hash_write [] prepared))) = [].
Proof.
  intros Hfresh Hkeys Hb Hi. simpl.
  assert (Hnodup : NoDup (map dstBinding (m_writeDescriptorSets (fst (Prepare limits ds))))).
  { destruct (Prepare_fresh limits ds Hfresh) as (Hw & _). simpl in Hw. rewrite Hw.
    rewrite List.map_app. eapply sublist_NoDup; [exact Hkeys|].
    apply sublist_app; [by apply buffer_writes_of_bindings|by apply image_writes_of_bindings]. }
  split; [done|]. by apply Update_twice_one_entry_per_binding.
Qed.

Lemma Prepare_writes_fresh_handle limits ds :
  m_writeDescriptorSets ds = [] ->
  forall w, w ∈ m_writeDescriptorSets (fst (Prepare limits ds)) -> dstSet w = m_setHandle ds.
Proof.
  intros Hfresh w Hin. destruct (Prepare_fresh limits ds Hfresh) as (Hw & _). simpl in Hw.
  rewrite Hw in Hin. apply elem_of_app in Hin as [Hin|Hin];
    apply list_elem_of_In, in_flat_map in Hin as ([b elems] & _ & Hin); simpl in Hin;
    destruct (GetLayoutBinding (m_setLayout ds) b); try done;
    by apply in_map_iff in Hin as (ei & <- & _).
Qed.

(** X16: the constructor of [DescriptorSet] prepares the set with whatever
    handle the pool returns.  When the driver grants the allocation the
    handle is the driver's and the pool maps it to the sub-pool of its
    cursor; when the driver refuses, the set is prepared all the same, with
    the null handle as destination of every write, and the pool's mapping is
    as before. *)
Theorem new_DescriptorSet_takes_pool_handle (limits : VkPhysicalDeviceLimits)
    (create_answer alloc_answer : VkResult * VkHandle)
    (layout : DescriptorSetLayout) (pool : DescriptorPool)
    (bufferInfos : BindingMap VkDescriptorBufferInfo)
    (imageInfos : BindingMap VkDescriptorImageInfo) :
  pool_wf pool -> driver_ok pool create_answer alloc_answer ->
  exists ds pool' calls log,
    new_DescriptorSet limits create_answer alloc_answer layout pool bufferInfos imageInfos =
      Some (ds, pool', calls, log) /\
    pool_wf pool' /\
    m_setLayout ds = layout /\ m_updatedBindings ds = ∅ /\
    m_writeDescriptorSets ds =
      buffer_writes_of layout (m_setHandle ds) bufferInfos ++
      image_writes_of layout (m_setHandle ds) imageInfos /\
    (fst alloc_answer = VK_SUCCESS ->
       m_setHandle ds = snd alloc_answer /\
       m_setPoolMapping pool' = <[snd alloc_answer := m_poolIndex pool']> (m_setPoolMapping pool)) /\
    (fst alloc_answer <> VK_SUCCESS ->
       m_setHandle ds = VK_NULL_HANDLE /\
       (forall w, w ∈ m_writeDescriptorSets ds -> dstSet w = VK_NULL_HANDLE) /\
       m_setPoolMapping pool' = m_setPoolMapping pool).
Proof.
  intros Hwf Hok.
  destruct (AllocateDescriptorSet_wf create_answer alloc_answer pool Hwf Hok)
    as (pool' & h & calls & Halloc & Hwf' & Hsucc & Hfail).
  unfold new_DescriptorSet. rewrite Halloc.
  set (fresh := {| m_setLayout := layout; m_bufferInfos := bufferInfos;
                   m_imageInfos := imageInfos; m_setHandle := h;
                   m_writeDescriptorSets := []; m_updatedBindings := ∅ |}).
  destruct (Prepare_fresh limits fresh eq_refl) as (Hw & Hl & Hh & _ & Hu & _).
  pose proof (Prepare_writes_fresh_handle limits fresh eq_refl) as Hdst.
  destruct (Prepare limits fresh) as [ds log] eqn:Hprep. simpl in *.
  exists ds, pool', calls, log. split; [done|]. rewrite Hh. split_and!; try done.
  - intros Hs. destruct (Hsucc Hs) as [-> Hmap]. by rewrite Hmap.
  - intros Hf. destruct (Hfail Hf) as [-> Hmap]. by split_and!.
Qed.

Lemma Update_twice_single_elements_witness :
  m_writeDescriptorSets single_element_set = [] /\
  NoDup (map dstBinding
           (m_writeDescriptorSets (fst (Prepare example_limits single_element_set)))) /\
  snd (Update hash_WriteData []
         (fst (Update hash_WriteData [] (fst (Prepare example_limits single_element_set))))) = [].
Proof.
  split; [reflexivity|].
  apply (Update_twice_single_elements hash_WriteData example_limits single_element_set).
  - reflexivity.
  - simpl.
    repeat (apply NoDup_cons_2;
            [intros H; repeat (apply elem_of_cons in H as [H|H]; [discriminate H|]);
             by apply elem_of_nil in H|]).
    apply NoDup_nil_2.
  - repeat constructor; simpl; lia.
  - repeat constructor; simpl; lia.
Defined.

Lemma new_DescriptorSet_takes_pool_handle_witness :
  pool_wf example_pool_grown /\
  driver_ok example_pool_grown (VK_SUCCESS, 103) (VK_ERROR (-1), 0) /\
  exists ds pool' calls log,
    new_DescriptorSet example_limits (VK_SUCCESS, 103) (VK_ERROR (-1), 0) array_layout
      example_pool_grown (m_bufferInfos oversized_set) [] = Some (ds, pool', calls, log) /\
    m_setHandle ds = VK_NULL_HANDLE /\
    (forall w, w ∈ m_writeDescriptorSets ds -> dstSet w = VK_NULL_HANDLE).
Proof.
  assert (Hok : driver_ok example_pool_grown (VK_SUCCESS, 103) (VK_ERROR (-1), 0)).
  { split; [reflexivity|]. intros Hs. discriminate Hs. }
  split; [exact example_pool_grown_wf|]. split; [exact Hok|].
  destruct (new_DescriptorSet_takes_pool_handle example_limits (VK_SUCCESS, 103)
              (VK_ERROR (-1), 0) array_layout example_pool_grown (m_bufferInfos oversized_set) []
              example_pool_grown_wf Hok)
    as (ds & pool' & calls & log & Hnew & _ & _ & _ & _ & _ & Hfail).
  exists ds, pool', calls, log. split; [exact Hnew|].
  destruct (Hfail ltac:(discriminate)) as (Hh & Hw & _). split; [exact Hh|exact Hw].
Defined.

(** ** Render frame: bindings to update, per-thread updates, clearing *)

Lemma existsb_eqb_elem (k : Z) (l : list Z) : existsb (Z.eqb k) l = bool_decide (k ∈ l).
Proof.
  destruct (decide (k ∈ l)) as [Hin|Hnin].
  - rewrite bool_decide_eq_true_2 by done. apply existsb_exists.
    exists k. split; [by apply list_elem_of_In|apply Z.eqb_refl].
  - rewrite bool_decide_eq_false_2 by done. apply not_true_is_false. intros Hex.
    apply existsb_exists in Hex as (x & Hx & Heq). apply Z.eqb_eq in Heq. subst x.
    by apply Hnin, list_elem_of_In.
Qed.

Lemma aggregateBindingToUpdate_exact layout keys : forall collected,
  NoDup keys ->
  aggregateBindingToUpdate layout keys collected =
    collected ++
    List.filter (fun b => updated_before_bind layout b && negb (bool_decide (b ∈ collected))) keys.
Proof.
  unfold aggregateBindingToUpdate.
  induction keys as [|k keys IH]; intros collected Hkeys; simpl; [by rewrite app_nil_r|].
  apply NoDup_cons in Hkeys as [Hk Hkeys]. fold (updated_before_bind layout k).
  rewrite existsb_eqb_elem.
  destruct (updated_before_bind layout k && negb (bool_decide (k ∈ collected))) eqn:Hc.
  - rewrite IH by done. rewrite <- app_assoc. simpl. do 2 f_equal.
    apply List.filter_ext_in. intros b Hb. f_equal. f_equal.
    apply bool_decide_ext. rewrite elem_of_app, list_elem_of_singleton.
    split; [intros [? | ->]; [done|]|by left]. by apply list_elem_of_In in Hb.
  - by apply IH.
Qed.

Lemma aggregateBindingToUpdate_spec layout keys : forall collected,
  NoDup collected ->
  NoDup (aggregateBindingToUpdate layout keys collected) /\
  (forall b, b ∈ aggregateBindingToUpdate layout keys collected <->
     b ∈ collected \/ (b ∈ keys /\ updated_before_bind layout b = true)).
Proof.
  unfold aggregateBindingToUpdate.
  induction keys as [|k keys IH]; intros collected Hnd; simpl.
  - split; [done|]. intros b. split; [by left|].
    intros [?|[Hin _]]; [done|by apply elem_of_nil in Hin].
  - fold (updated_before_bind layout k). rewrite existsb_eqb_elem.
    destruct (updated_before_bind layout k) eqn:Hflag; simpl.
    + destruct (decide (k ∈ collected)) as [Hin|Hk].
      * rewrite bool_decide_eq_true_2 by done. simpl.
        destruct (IH collected Hnd) as (IH1 & IH2). split; [done|].
        intros b. rewrite IH2, elem_of_cons. split; [tauto|].
        intros [?|[[-> | ?] ?]]; tauto.
      * rewrite bool_decide_eq_false_2 by done. simpl.
        assert (Hnd' : NoDup (collected ++ [k])).
        { apply NoDup_app. split; [done|]. split; [|apply NoDup_singleton].
          intros x Hx Hxk. apply list_elem_of_singleton in Hxk. by subst x. }
        destruct (IH (collected ++ [k]) Hnd') as (IH1 & IH2). split; [done|].
        intros b. rewrite IH2, elem_of_app, list_elem_of_singleton, elem_of_cons.
        split; [intros [[? | ->]|[? ?]]; tauto|]. intros [?|[[-> | ?] ?]]; tauto.
    + destruct (IH collected Hnd) as (IH1 & IH2). split; [done|].
      intros b. rewrite IH2, elem_of_cons. split; [tauto|].
      intros [?|[[-> | ?] Hb]]; [tauto|congruence|tauto].
Qed.

(** X17: [CollectBindingsToUpdate] returns, without repetition, exactly the
    binding numbers that are keys of the buffer map or of the image map and
    whose flag in the layout lacks the update-after-bind bit, so a binding the
    layout does not know, whose flag reads 0, is collected too.  With the keys
    of each map distinct, as in a [std::map], the result lists the buffer
    bindings first, in key order, then the image bindings that are not buffer
    bindings. *)
Theorem CollectBindingsToUpdate_spec (layout : DescriptorSetLayout)
    (bufferInfos : BindingMap VkDescriptorBufferInfo)
    (imageInfos : BindingMap VkDescriptorImageInfo) :
  NoDup (CollectBindingsToUpdate layout bufferInfos imageInfos) /\
  (forall b, b ∈ CollectBindingsToUpdate layout bufferInfos imageInfos <->
     (b ∈ map fst bufferInfos \/ b ∈ map fst imageInfos) /\
     Z.land (GetLayoutBindingFlag layout b) VK_DESCRIPTOR_BINDING_UPDATE_AFTER_BIND_BIT_EXT = 0) /\
  (forall b, m_bindingFlagsLookup layout !! b = None ->
     b ∈ map fst bufferInfos \/ b ∈ map fst imageInfos ->
     b ∈ CollectBindingsToUpdate layout bufferInfos imageInfos) /\
  (NoDup (map fst bufferInfos) -> NoDup (map fst imageInfos) ->
   CollectBindingsToUpdate layout bufferInfos imageInfos =
     List.filter (updated_before_bind layout) (map fst bufferInfos) ++
     List.filter (fun b => updated_before_bind layout b &&
                           negb (bool_decide (b ∈ map fst bufferInfos)))
                 (map fst imageInfos)).
Proof.
  unfold CollectBindingsToUpdate.
  destruct (aggregateBindingToUpdate_spec layout (map fst bufferInfos) [] (NoDup_nil_2))
    as (Hb1 & Hb2).
  destruct (aggregateBindingToUpdate_spec layout (map fst imageInfos) _ Hb1) as (Hi1 & Hi2).
  assert (Hmem : forall b,
            b ∈ aggregateBindingToUpdate layout (map fst imageInfos)
                  (aggregateBindingToUpdate layout (map fst bufferInfos) []) <->
            (b ∈ map fst bufferInfos \/ b ∈ map fst imageInfos) /\
            Z.land (GetLayoutBindingFlag layout b)
                   VK_DESCRIPTOR_BINDING_UPDATE_AFTER_BIND_BIT_EXT = 0).
  { intros b. rewrite Hi2, Hb2. unfold updated_before_bind. rewrite Z.eqb_eq.
    split; [intros [[H|[? ?]]|[? ?]]; [by apply elem_of_nil in H|tauto|tauto]|].
    intros [[?|?] ?]; tauto. }
  split; [done|]. split; [done|]. split.
  - intros b Hflag Hin. apply Hmem. split; [done|].
    unfold GetLayoutBindingFlag. by rewrite Hflag.
  - intros Hkb Hki. rewrite (aggregateBindingToUpdate_exact layout (map fst imageInfos)) by done.
    rewrite (aggregateBindingToUpdate_exact layout (map fst bufferInfos)) by done.
    cbn [app].
    assert (Hfirst : List.filter (fun b => updated_before_bind layout b &&
                                           negb (bool_decide (b ∈ @nil Z)))
                                 (map fst bufferInfos) =
                     List.filter (updated_before_bind layout) (map fst bufferInfos)).
    { apply List.filter_ext. intros b. rewrite bool_decide_eq_false_2 by apply not_elem_of_nil.
      apply andb_true_r. }
    rewrite Hfirst. f_equal. apply List.filter_ext. intros b.
    destruct (updated_before_bind layout b) eqn:Hflag; simpl; [|done]. f_equal.
    apply bool_decide_ext. rewrite list_elem_of_In, filter_In, <- list_elem_of_In. tauto.
Qed.

Lemma CollectBindingsToUpdate_members layout
    (bufferInfos : BindingMap VkDescriptorBufferInfo)
    (imageInfos : BindingMap VkDescriptorImageInfo) b :
  b ∈ CollectBindingsToUpdate layout bufferInfos imageInfos <->
  (b ∈ map fst bufferInfos \/ b ∈ map fst imageInfos) /\
  Z.land (GetLayoutBindingFlag layout b) VK_DESCRIPTOR_BINDING_UPDATE_AFTER_BIND_BIT_EXT = 0.
Proof.
  unfold CollectBindingsToUpdate.
  destruct (aggregateBindingToUpdate_spec layout (map fst bufferInfos) [] (NoDup_nil_2))
    as (Hb1 & Hb2).
  destruct (aggregateBindingToUpdate_spec layout (map fst imageInfos) _ Hb1) as (Hi1 & Hi2).
  rewrite Hi2, Hb2. unfold updated_before_bind. rewrite Z.eqb_eq.
  split; [intros [[H|[? ?]]|[? ?]]; [by apply elem_of_nil in H|tauto|tauto]|].
  intros [[?|?] ?]; tauto.
Qed.

Lemma constructed_layout_flag driver setIndex shaderModules rs l b :
  new_DescriptorSetLayout driver setIndex shaderModules rs = Ok l ->
  GetLayoutBindingFlag l b =
    match first_bound b rs with Some r => flag_of r | None => 0 end.
Proof.
  intros Hnew.
  destruct (new_DescriptorSetLayout_Ok _ _ _ _ _ Hnew)
    as (l0 & ci & Hadd & _ & _ & _ & _ & _ & _ & Hfl & _).
  destruct (add_resources_Ok _ _ _ Hadd) as (_ & _ & _ & _ & _ & _ & Hflk & _).
  unfold GetLayoutBindingFlag. rewrite Hfl, Hflk. simpl. rewrite lookup_empty.
  by destruct (first_bound b rs).
Qed.

(** X18: for a layout that was constructed from a resource set,
    [CollectBindingsToUpdate] collects a key of the binding maps exactly when
    the first resource with a binding point and that binding number is not in
    update-after-bind mode, or when no such resource exists. *)
Theorem CollectBindingsToUpdate_of_constructed_layout
    (driver : VkDescriptorSetLayoutCreateInfo -> VkResult * VkHandle)
    (setIndex : Z) (shaderModules : list VkHandle) (resourceSet : list ShaderResource)
    (l : DescriptorSetLayout)
    (bufferInfos : BindingMap VkDescriptorBufferInfo)
    (imageInfos : BindingMap VkDescriptorImageInfo) (b : Z) :
  new_DescriptorSetLayout driver setIndex shaderModules resourceSet = Ok l ->
  b ∈ CollectBindingsToUpdate l bufferInfos imageInfos <->
  (b ∈ map fst bufferInfos \/ b ∈ map fst imageInfos) /\
  match first_bound b resourceSet with
  | Some r => res_mode r <> UpdateAfterBind
  | None => True
  end.
Proof.
  intros Hnew.
  destruct (CollectBindingsToUpdate_members l bufferInfos imageInfos b) as [H1 H2].
  rewrite (constructed_layout_flag _ _ _ _ _ b Hnew) in H1, H2.
  assert (Hflag : Z.land (match first_bound b resourceSet with
                          | Some r => flag_of r
                          | None => 0
                          end) VK_DESCRIPTOR_BINDING_UPDATE_AFTER_BIND_BIT_EXT = 0 <->
                  match first_bound b resourceSet with
                  | Some r => res_mode r <> UpdateAfterBind
                  | None => True
                  end).
  { destruct (first_bound b resourceSet) as [r|]; [|done].
    unfold flag_of, is_mode. destruct (decide (res_mode r = UpdateAfterBind)) as [Hm|Hm].
    - rewrite bool_decide_eq_true_2 by done. split; [by intros H|done].
    - by rewrite bool_decide_eq_false_2. }
  split.
  - intros Hin. destruct (H1 Hin) as [Hk Hf]. split; [done|]. by apply Hflag.
  - intros [Hk Hm]. apply H2. split; [done|]. by apply Hflag.
Qed.

Lemma CollectBindingsToUpdate_of_constructed_layout_witness :
  new_DescriptorSetLayout (fun _ => (VK_SUCCESS, 12)) 1 [] bindless_resources = Ok bindless_layout /\
  (3 ∈ CollectBindingsToUpdate bindless_layout [(4, [])] [(3, [])] <->
   (3 ∈ map fst [(4, @nil (Z * VkDescriptorBufferInfo))] \/
    3 ∈ map fst [(3, @nil (Z * VkDescriptorImageInfo))]) /\
   match first_bound 3 bindless_resources with
   | Some r => res_mode r <> UpdateAfterBind
   | None => True
   end).
Proof.
  split; [reflexivity|].
  apply (CollectBindingsToUpdate_of_constructed_layout (fun _ => (VK_SUCCESS, 12)) 1 []
           bindless_resources).
  reflexivity.
Defined.

Lemma Update_at_most_one_call hash_write bindingsToUpdate ds :
  (length (snd (Update hash_write bindingsToUpdate ds)) <= 1)%nat.
Proof.
  rewrite Update_sends. destruct (stale_writes hash_write bindingsToUpdate ds); simpl; lia.
Qed.

Lemma flat_map_length_le {A B} (f : A -> list B) (l : list A) :
  (forall x, (length (f x) <= 1)%nat) -> (length (flat_map f l) <= length l)%nat.
Proof.
  intros Hone. induction l as [|x l IH]; simpl; [done|].
  rewrite length_app. specialize (Hone x). lia.
Qed.

(** X19: [RenderFrame::UpdateDescriptorSets] on a thread index within the
    vector updates every set of that thread's table in place, under its key,
    leaves the tables of the other threads and all pools alone, and makes at
    most one device call per set; when every set of the table has at most one
    write per binding number, a second call right after makes no device call
    at all.  A thread index past the end indexes the vector out of range. *)
Theorem RenderFrame_UpdateDescriptorSets_spec (hash_write : WriteData -> Z)
    (threadIndex : nat) (f : RenderFrame) :
  (m_descriptorSets f !! threadIndex = None ->
   RenderFrame_UpdateDescriptorSets hash_write threadIndex f = None) /\
  (forall table, m_descriptorSets f !! threadIndex = Some table ->
   exists f' calls,
     RenderFrame_UpdateDescriptorSets hash_write threadIndex f = Some (f', calls) /\
     m_descriptorPools f' = m_descriptorPools f /\
     length (m_descriptorSets f') = length (m_descriptorSets f) /\
     (forall t, t <> threadIndex -> m_descriptorSets f' !! t = m_descriptorSets f !! t) /\
     m_descriptorSets f' !! threadIndex =
       Some ((fun ds => fst (Update hash_write [] ds)) <$> table) /\
     (forall k, is_Some (((fun ds => fst (Update hash_write [] ds)) <$> table) !! k) <->
                is_Some (table !! k)) /\
     (length calls <= size table)%nat /\
     ((forall k ds, table !! k = Some ds ->
         NoDup (map dstBinding (m_writeDescriptorSets ds))) ->
      exists f'', RenderFrame_UpdateDescriptorSets hash_write threadIndex f' = Some (f'', []))).
Proof.
  unfold RenderFrame_UpdateDescriptorSets. split; [by intros ->|].
  intros table Htable. rewrite Htable. eexists _, _. split; [done|].
  cbn [m_threadCount m_descriptorPools m_descriptorSets m_descriptorManagementStrategy].
  assert (Hlt : (threadIndex < length (m_descriptorSets f))%nat)
    by (by eapply lookup_lt_Some).
  split_and!; try done.
  - by rewrite length_insert.
  - intros t Ht. by rewrite list_lookup_insert_ne.
  - by rewrite list_lookup_insert_eq.
  - intros k. rewrite lookup_fmap. by rewrite fmap_is_Some.
  - rewrite <- (length_map_to_list table). apply flat_map_length_le.
    intros kv. apply Update_at_most_one_call.
  - intros Hnodup. rewrite list_lookup_insert_eq by done. eexists. f_equal. f_equal.
    apply flat_map_nil. intros [k ds'] Hin. cbn [snd].
    apply elem_of_map_to_list in Hin. rewrite lookup_fmap in Hin.
    destruct (table !! k) as [ds|] eqn:Hk; [|done]. injection Hin as <-.
    apply Update_twice_one_entry_per_binding. by apply (Hnodup k).
Qed.

Lemma Reset_calls_spec p c :
  c ∈ snd (Reset p) <-> exists pool, pool ∈ m_pools p /\ c = vkResetDescriptorPool pool.
Proof.
  simpl. rewrite list_elem_of_fmap. split; intros (pool & H1 & H2); exists pool; by split.
Qed.

(** X20: [RenderFrame::ClearDescriptors] empties the set table of every
    thread and resets every pool of every thread, under its key: the pool
    tables keep their keys and sub-pools, every pool forgets its handles and
    has its cursor at zero, and pools that satisfied the pool invariant still
    do.  The driver is asked to reset exactly the sub-pools of the pools of
    the frame, and a following [UpdateDescriptorSets] on any thread of the
    frame finds nothing to update. *)
Theorem ClearDescriptors_spec (hash_write : WriteData -> Z) (f : RenderFrame) :
  let f' := fst (ClearDescriptors f) in
  m_descriptorSets f' = replicate (length (m_descriptorSets f)) ∅ /\
  length (m_descriptorPools f') = length (m_descriptorPools f) /\
  (forall t pools, m_descriptorPools f !! t = Some pools ->
     m_descriptorPools f' !! t = Some ((fun pool => fst (Reset pool)) <$> pools) /\
     forall k pool, pools !! k = Some pool ->
       exists pool', ((fun pool => fst (Reset pool)) <$> pools) !! k = Some pool' /\
         m_pools pool' = m_pools pool /\ m_setPoolMapping pool' = ∅ /\
         m_poolIndex pool' = 0%nat /\ (pool_wf pool -> pool_wf pool')) /\
  (forall c, c ∈ snd (ClearDescriptors f) <->
     exists t pools k pool handle,
       m_descriptorPools f !! t = Some pools /\ pools !! k = Some pool /\
       handle ∈ m_pools pool /\ c = vkResetDescriptorPool handle) /\
  (forall t, (t < length (m_descriptorSets f))%nat ->
     RenderFrame_UpdateDescriptorSets hash_write t f' = Some (f', [])).
Proof.
  simpl. split_and!.
  - induction (m_descriptorSets f) as [|x l IH]; simpl; [done|by f_equal].
  - by rewrite length_map.
  - intros t pools Ht. split.
    + by rewrite list_lookup_fmap, Ht.
    + intros k pool Hk. exists (fst (Reset pool)). split; [by rewrite lookup_fmap, Hk|].
      simpl. split_and!; try done. apply Reset_wf.
  - intros c. rewrite list_elem_of_In, in_flat_map. split.
    + intros (pools & Hpools & Hc). apply in_flat_map in Hc as ([k pool] & Hkp & Hc).
      apply list_elem_of_In, list_elem_of_lookup in Hpools as [t Ht].
      apply list_elem_of_In, elem_of_map_to_list in Hkp.
      apply list_elem_of_In, Reset_calls_spec in Hc as (handle & Hh & ->).
      by exists t, pools, k, pool, handle.
    + intros (t & pools & k & pool & handle & Ht & Hk & Hh & ->).
      exists pools. split; [apply list_elem_of_In; by eapply list_elem_of_lookup_2|].
      apply in_flat_map. exists (k, pool). split.
      * by apply list_elem_of_In, elem_of_map_to_list.
      * apply list_elem_of_In, Reset_calls_spec. by exists handle.
  - intros t Ht. unfold RenderFrame_UpdateDescriptorSets. simpl.
    rewrite list_lookup_fmap.
    destruct (lookup_lt_is_Some_2 _ _ Ht) as [table Htable]. rewrite Htable. simpl.
    rewrite fmap_empty, map_to_list_empty. simpl. do 2 f_equal.
    f_equal. apply list_insert_id. by rewrite list_lookup_fmap, Htable.
Qed.

(** ** Resource record: the stream against the index vectors *)

Lemma count_tag_app X l1 l2 : count_tag X (l1 ++ l2) = (count_tag X l1 + count_tag X l2)%nat.
Proof. unfold count_tag. by rewrite List.filter_app, length_app. Qed.

Lemma count_tag_snoc X l e :
  count_tag X (l ++ [e]) = (count_tag X l + if decide (entry_tag e = X) then 1 else 0)%nat.
Proof.
  rewrite count_tag_app. f_equal. unfold count_tag. simpl.
  destruct (decide (entry_tag e = X)).
  - by rewrite bool_decide_eq_true_2.
  - by rewrite bool_decide_eq_false_2.
Qed.

Lemma run_call_stream c r :
  m_stream (fst (run_call c r)) =
  m_stream r ++ match entry_of r c with Some e => [e] | None => [] end.
Proof.
  destruct c; simpl; try done; try (by rewrite app_nil_r).
  - unfold RegisterPipelineLayout.
    destruct (at_all (m_shaderModuleToIndex r) _); simpl; [done|by rewrite app_nil_r].
  - unfold RegisterGraphicsPipeline.
    destruct (m_pipelineLayoutToIndex r !! _);
      [destruct (m_renderPassToIndex r !! _)|];
      simpl; try done; by rewrite app_nil_r.
Qed.

Lemma entry_of_tag r c e : entry_of r c = Some e -> registers c = Some (entry_tag e).
Proof.
  destruct c; simpl; try done.
  - by intros [= <-].
  - destruct (at_all _ _); [|done]. by intros [= <-].
  - by intros [= <-].
  - destruct (m_pipelineLayoutToIndex r !! _); [|done].
    destruct (m_renderPassToIndex r !! _); [|done]. by intros [= <-].
Qed.

Lemma entry_of_thrown r c X :
  registers c = Some X ->
  (entry_of r c = None <-> snd (run_call c r) = Some (Throw OutOfRange)).
Proof.
  destruct c; simpl; try done; intros _.
  - unfold RegisterPipelineLayout.
    destruct (at_all (m_shaderModuleToIndex r) _) as [idxs|[]]; simpl; by split.
  - unfold RegisterGraphicsPipeline.
    destruct (m_pipelineLayoutToIndex r !! _);
      [destruct (m_renderPassToIndex r !! _)|]; simpl; by split.
Qed.

Lemma entry_of_known r c X :
  registers c = Some X -> dependencies_known r c -> is_Some (entry_of r c).
Proof.
  destruct c; simpl; try done; intros _ Hknown.
  - destruct (at_all_known _ _ Hknown) as [idxs ->]. done.
  - destruct Hknown as [[li ->] [ri ->]]. done.
Qed.

Lemma entry_of_never_thrown r c :
  registers c = Some ResourceType.ShaderModule \/ registers c = Some ResourceType.RenderPass ->
  is_Some (entry_of r c).
Proof. destruct c; simpl; intros [H|H]; try done. Qed.

(** The gap between the index vector and the entries of a kind never
    closes. *)
Lemma run_call_gap c r X :
  (length (indices_of X r) + count_tag X (m_stream (fst (run_call c r))) <=
   length (indices_of X (fst (run_call c r))) + count_tag X (m_stream r))%nat /\
  (registers c = Some X -> entry_of r c = None ->
   (length (indices_of X r) + count_tag X (m_stream (fst (run_call c r))) <
    length (indices_of X (fst (run_call c r))) + count_tag X (m_stream r))%nat) /\
  (is_Some (entry_of r c) \/ registers c = None ->
   (length (indices_of X r) + count_tag X (m_stream (fst (run_call c r))) =
    length (indices_of X (fst (run_call c r))) + count_tag X (m_stream r))%nat).
Proof.
  rewrite run_call_indices, run_call_stream.
  destruct (entry_of r c) as [e|] eqn:He.
  - rewrite count_tag_snoc. rewrite (entry_of_tag r c e He).
    destruct (decide (entry_tag e = X)) as [->|Hne].
    + rewrite bool_decide_eq_true_2 by done. split_and!; [lia|done|lia].
    + rewrite bool_decide_eq_false_2 by congruence. split_and!; [lia|done|lia].
  - rewrite app_nil_r. split_and!.
    + destruct (bool_decide _); lia.
    + intros -> _. rewrite bool_decide_eq_true_2 by done. lia.
    + intros [[? ?] | ->]; [done|]. rewrite bool_decide_eq_false_2 by done. lia.
Qed.

Lemma run_calls_app calls1 calls2 r :
  run_calls (calls1 ++ calls2) r = run_calls calls2 (run_calls calls1 r).
Proof. unfold run_calls. by rewrite fold_left_app. Qed.

Lemma run_calls_gap calls : forall r X,
  (length (indices_of X r) + count_tag X (m_stream (run_calls calls r)) <=
   length (indices_of X (run_calls calls r)) + count_tag X (m_stream r))%nat.
Proof.
  induction calls as [|c rest IH]; intros r X; simpl; [done|].
  change (fold_left _ rest ?x) with (run_calls rest x).
  pose proof (IH (fst (run_call c r)) X). pose proof (proj1 (run_call_gap c r X)). lia.
Qed.

Lemma run_calls_prefix calls : forall r, m_stream r `prefix_of` m_stream (run_calls calls r).
Proof.
  induction calls as [|c rest IH]; intros r; simpl; [done|].
  change (fold_left _ rest ?x) with (run_calls rest x).
  etrans; [|apply IH]. rewrite run_call_stream. by apply prefix_app_r.
Qed.

Lemma run_calls_no_gap calls : forall r X,
  Forall (fun c => registers c = None \/ registers c = Some ResourceType.ShaderModule \/
                   registers c = Some ResourceType.RenderPass \/ registers c <> Some X) calls \/
  well_used calls r ->
  (length (indices_of X r) + count_tag X (m_stream (run_calls calls r)) =
   length (indices_of X (run_calls calls r)) + count_tag X (m_stream r))%nat.
Proof.
  induction calls as [|c rest IH]; intros r X Hok; simpl; [done|].
  change (fold_left _ rest ?x) with (run_calls rest x).
  assert (Hrest : Forall (fun c => registers c = None \/
                                   registers c = Some ResourceType.ShaderModule \/
                                   registers c = Some ResourceType.RenderPass \/
                                   registers c <> Some X) rest \/
                  well_used rest (fst (run_call c r))).
  { destruct Hok as [Hall|(_ & _ & Hw)]; [left; by inversion Hall|by right]. }
  specialize (IH (fst (run_call c r)) X Hrest).
  assert (Hstep : (length (indices_of X r) + count_tag X (m_stream (fst (run_call c r))) =
                   length (indices_of X (fst (run_call c r))) + count_tag X (m_stream r))%nat).
  { destruct (registers c) as [Y|] eqn:HY.
    - destruct (entry_of r c) as [e|] eqn:He.
      + apply run_call_gap. left. by rewrite He.
      + destruct Hok as [Hall|(Hknown & _)].
        * inversion Hall as [|? ? Hc _]; subst.
          destruct Hc as [Hc|[Hc|[Hc|Hc]]].
          -- congruence.
          -- destruct (entry_of_never_thrown r c) as [? ?]; [left; congruence|congruence].
          -- destruct (entry_of_never_thrown r c) as [? ?]; [right; congruence|congruence].
          -- rewrite run_call_indices, run_call_stream, He, app_nil_r.
             rewrite bool_decide_eq_false_2 by congruence. lia.
        * destruct (entry_of_known r c Y HY Hknown) as [? ?]. congruence.
    - apply run_call_gap. by right. }
  lia.
Qed.

Lemma run_calls_no_throw calls : forall r X,
  (forall pre c post, calls = pre ++ c :: post ->
     snd (run_call c (run_calls pre r)) <> Some (Throw OutOfRange)) ->
  (length (indices_of X r) + count_tag X (m_stream (run_calls calls r)) =
   length (indices_of X (run_calls calls r)) + count_tag X (m_stream r))%nat.
Proof.
  induction calls as [|c rest IH]; intros r X Hno; simpl; [done|].
  change (fold_left _ rest ?x) with (run_calls rest x).
  assert (Hrest : forall pre c' post, rest = pre ++ c' :: post ->
            snd (run_call c' (run_calls pre (fst (run_call c r)))) <> Some (Throw OutOfRange)).
  { intros pre c' post ->. exact (Hno (c :: pre) c' post eq_refl). }
  specialize (IH (fst (run_call c r)) X Hrest).
  assert (Hstep : (length (indices_of X r) + count_tag X (m_stream (fst (run_call c r))) =
                   length (indices_of X (fst (run_call c r))) + count_tag X (m_stream r))%nat).
  { apply (proj2 (proj2 (run_call_gap c r X))).
    destruct (registers c) as [Y|] eqn:HY; [left|by right].
    destruct (entry_of r c) as [e|] eqn:He; [by eexists|].
    exfalso. apply (Hno [] c rest eq_refl). by apply (entry_of_thrown r c Y HY). }
  lia.
Qed.

(** X21: the recorder's stream only grows: what a sequence of calls has
    written stays a prefix of the stream whatever calls follow.  For every
    kind the index vector is at least as long as the number of entries of
    that kind in the stream; the two are equal for shader modules and render
    passes, whose registration cannot throw, and for every kind as long as no
    registration has thrown, as is the case when every registration names
    known objects.  A registration that throws takes its index all the same,
    so from then on the indices of its kind run ahead of the entries in the
    stream. *)
Theorem recorder_stream_and_indices (calls : list RecorderCall) :
  let r := run_calls calls empty_record in
  (forall pre post, calls = pre ++ post ->
     m_stream (run_calls pre empty_record) `prefix_of` m_stream r) /\
  (forall X, (count_tag X (m_stream r) <= length (indices_of X r))%nat) /\
  count_tag ResourceType.ShaderModule (m_stream r) = length (m_shaderModuleIndices r) /\
  count_tag ResourceType.RenderPass (m_stream r) = length (m_renderPassIndices r) /\
  (well_used calls empty_record ->
     forall X, count_tag X (m_stream r) = length (indices_of X r)) /\
  ((forall pre c post, calls = pre ++ c :: post ->
      snd (run_call c (run_calls pre empty_record)) <> Some (Throw OutOfRange)) ->
   forall X, count_tag X (m_stream r) = length (indices_of X r)) /\
  (forall pre c post X,
     calls = pre ++ c :: post -> registers c = Some X ->
     snd (run_call c (run_calls pre empty_record)) = Some (Throw OutOfRange) ->
     (count_tag X (m_stream r) < length (indices_of X r))%nat).
Proof.
  cbv zeta. split_and!.
  - intros pre post ->. rewrite run_calls_app. apply run_calls_prefix.
  - intros X. pose proof (run_calls_gap calls empty_record X) as H.
    replace (count_tag X (m_stream empty_record)) with 0%nat in H by done.
    replace (length (indices_of X empty_record)) with 0%nat in H by (by destruct X). lia.
  - assert (H : (length (indices_of ResourceType.ShaderModule empty_record) +
                 count_tag ResourceType.ShaderModule (m_stream (run_calls calls empty_record)) =
                 length (indices_of ResourceType.ShaderModule (run_calls calls empty_record)) +
                 count_tag ResourceType.ShaderModule (m_stream empty_record))%nat).
    { apply run_calls_no_gap. left. apply Forall_forall. intros c _.
      destruct (registers c) as [[]|]; auto; right; right; right; done. }
    change (count_tag _ (m_stream empty_record)) with 0%nat in H.
    change (length (indices_of _ empty_record)) with 0%nat in H. simpl in H. lia.
  - assert (H : (length (indices_of ResourceType.RenderPass empty_record) +
                 count_tag ResourceType.RenderPass (m_stream (run_calls calls empty_record)) =
                 length (indices_of ResourceType.RenderPass (run_calls calls empty_record)) +
                 count_tag ResourceType.RenderPass (m_stream empty_record))%nat).
    { apply run_calls_no_gap. left. apply Forall_forall. intros c _.
      destruct (registers c) as [[]|]; auto; right; right; right; done. }
    change (count_tag _ (m_stream empty_record)) with 0%nat in H.
    change (length (indices_of _ empty_record)) with 0%nat in H. simpl in H. lia.
  - intros Hw X. pose proof (run_calls_no_gap calls empty_record X (or_intror Hw)) as H.
    replace (count_tag X (m_stream empty_record)) with 0%nat in H by done.
    replace (length (indices_of X empty_record)) with 0%nat in H by (by destruct X). lia.
  - intros Hno X. pose proof (run_calls_no_throw calls empty_record X Hno) as H.
    replace (count_tag X (m_stream empty_record)) with 0%nat in H by done.
    replace (length (indices_of X empty_record)) with 0%nat in H by (by destruct X). lia.
  - intros pre c post X -> HX Hthrow. rewrite run_calls_app. simpl.
    change (fold_left _ post ?x) with (run_calls post x).
    set (r0 := run_calls pre empty_record) in *.
    pose proof (run_calls_gap pre empty_record X) as Hpre. fold r0 in Hpre.
    replace (count_tag X (m_stream empty_record)) with 0%nat in Hpre by done.
    replace (length (indices_of X empty_record)) with 0%nat in Hpre by (by destruct X).
    apply (entry_of_thrown r0 c X HX) in Hthrow.
    pose proof (proj1 (proj2 (run_call_gap c r0 X)) HX Hthrow) as Hc.
    pose proof (run_calls_gap post (fst (run_call c r0)) X) as Hpost. lia.
Qed.

Lemma record_inv_empty : record_inv empty_record.
Proof.
  split; simpl; try done;
    try (intros p i H; by rewrite lookup_empty in H); try (intros X; by destruct X).
Qed.

Lemma run_call_tables c r :
  let r' := fst (run_call c r) in
  m_shaderModuleToIndex r' =
    match c with
    | CallSetShaderModule index p => <[p := index]> (m_shaderModuleToIndex r)
    | _ => m_shaderModuleToIndex r
    end /\
  m_pipelineLayoutToIndex r' =
    match c with
    | CallSetPipelineLayout index p => <[p := index]> (m_pipelineLayoutToIndex r)
    | _ => m_pipelineLayoutToIndex r
    end /\
  m_renderPassToIndex r' =
    match c with
    | CallSetRenderPass index p => <[p := index]> (m_renderPassToIndex r)
    | _ => m_renderPassToIndex r
    end.
Proof.
  destruct c; simpl; try done.
  - unfold RegisterPipelineLayout. by destruct (at_all _ _).
  - unfold RegisterGraphicsPipeline.
    by destruct (m_pipelineLayoutToIndex r !! _); [destruct (m_renderPassToIndex r !! _)|].
Qed.

Lemma entry_of_refers_back r c e :
  record_inv r -> entry_of r c = Some e -> refers_back (m_stream r) e.
Proof.
  intros Hinv. destruct c; simpl; try done.
  - by intros [= <-].
  - destruct (at_all (m_shaderModuleToIndex r) _) as [idxs|] eqn:Hat; [|done].
    intros [= <-]. simpl. apply at_all_Ok in Hat.
    rewrite (inv_counts r Hinv ResourceType.ShaderModule). simpl.
    induction Hat as [|p i ps idxs Hp _ IH]; constructor; [|done].
    by apply (inv_shader_table r Hinv p).
  - by intros [= <-].
  - destruct (m_pipelineLayoutToIndex r !! _) as [li|] eqn:Hl; [|done].
    destruct (m_renderPassToIndex r !! _) as [ri|] eqn:Hr; [|done].
    intros [= <-]. simpl.
    rewrite (inv_counts r Hinv ResourceType.PipelineLayout),
            (inv_counts r Hinv ResourceType.RenderPass). simpl.
    split; [by eapply (inv_layout_table r Hinv)|by eapply (inv_pass_table r Hinv)].
Qed.

Lemma run_call_inv c r :
  record_inv r -> dependencies_known r c -> set_in_range r c ->
  record_inv (fst (run_call c r)).
Proof.
  intros Hinv Hknown Hrange.
  destruct (run_call_tables c r) as (Hsm & Hpl & Hrp). cbv zeta in *.
  pose proof (run_call_stream c r) as Hstream.
  assert (Hgrow : forall X, (length (indices_of X r) <=
                             length (indices_of X (fst (run_call c r))))%nat).
  { intros X. rewrite run_call_indices. lia. }
  assert (Hentry : registers c = None \/ is_Some (entry_of r c)).
  { destruct (registers c) as [Y|] eqn:HY; [right|by left].
    by apply (entry_of_known r c Y). }
  split.
  - intros p i. rewrite Hsm. specialize (Hgrow ResourceType.ShaderModule). simpl in Hgrow.
    destruct c; simpl in *; try (intros H; apply (inv_shader_table r Hinv) in H; lia).
    intros H. apply lookup_insert_Some in H as [[_ <-]|[_ H]]; [done|].
    by apply (inv_shader_table r Hinv) in H.
  - intros p i. rewrite Hpl. specialize (Hgrow ResourceType.PipelineLayout). simpl in Hgrow.
    destruct c; simpl in *; try (intros H; apply (inv_layout_table r Hinv) in H; lia).
    intros H. apply lookup_insert_Some in H as [[_ <-]|[_ H]]; [done|].
    by apply (inv_layout_table r Hinv) in H.
  - intros p i. rewrite Hrp. specialize (Hgrow ResourceType.RenderPass). simpl in Hgrow.
    destruct c; simpl in *; try (intros H; apply (inv_pass_table r Hinv) in H; lia).
    intros H. apply lookup_insert_Some in H as [[_ <-]|[_ H]]; [done|].
    by apply (inv_pass_table r Hinv) in H.
  - intros X. pose proof (proj2 (proj2 (run_call_gap c r X))) as Hgap.
    rewrite (inv_counts r Hinv X) in Hgap.
    assert (is_Some (entry_of r c) \/ registers c = None) as Hcase by tauto.
    specialize (Hgap Hcase). lia.
  - intros i e. rewrite Hstream.
    destruct (entry_of r c) as [e0|] eqn:He0; [|rewrite app_nil_r; apply (inv_refs r Hinv)].
    intros Hi. destruct (decide (i < length (m_stream r))%nat) as [Hlt|Hge].
    + rewrite lookup_app_l in Hi by done. rewrite take_app_le by lia.
      by apply (inv_refs r Hinv).
    + rewrite lookup_app_r in Hi by lia.
      destruct (i - length (m_stream r))%nat as [|n] eqn:Hn; [|done].
      injection Hi as <-. assert (i = length (m_stream r)) as -> by lia.
      rewrite take_app_length. by apply (entry_of_refers_back r c).
Qed.

Lemma run_calls_inv calls : forall r,
  record_inv r -> well_used calls r -> record_inv (run_calls calls r).
Proof.
  induction calls as [|c rest IH]; intros r Hinv Hw; simpl; [done|].
  change (fold_left _ rest ?x) with (run_calls rest x).
  destruct Hw as (Hknown & Hrange & Hrest). apply IH; [|done]. by apply run_call_inv.
Qed.

(** X22: in the stream of a recorder on which every composite registration
    named objects known to the tables and every [Set...] call passed an index
    that had been returned, all references point backwards: a pipeline-layout
    entry names shader modules by indices below the number of shader-module
    entries before it, and a graphics-pipeline entry names its layout and its
    render pass by indices below the numbers of pipeline-layout and
    render-pass entries before it. *)
Theorem recorded_references_point_back (calls : list RecorderCall) (i : nat) (e : Entry) :
  well_used calls empty_record ->
  m_stream (run_calls calls empty_record) !! i = Some e ->
  refers_back (take i (m_stream (run_calls calls empty_record))) e.
Proof.
  intros Hw. apply (inv_refs _ (run_calls_inv calls empty_record record_inv_empty Hw)).
Qed.

Lemma recorded_references_point_back_witness :
  well_used example_recording empty_record /\
  m_stream (run_calls example_recording empty_record) !! 4%nat =
    Some (GraphicsPipelineEntry 0 0 (state_data example_pipeline_state)) /\
  refers_back (take 4 (m_stream (run_calls example_recording empty_record)))
    (GraphicsPipelineEntry 0 0 (state_data example_pipeline_state)).
Proof.
  assert (Hw : well_used example_recording empty_record).
  { unfold example_recording, example_calls. simpl.
    repeat (split; [first [exact I | simpl; lia
                          | repeat constructor; vm_compute; eauto
                          | split; vm_compute; eauto]|]).
    exact I. }
  split; [exact Hw|]. split; [reflexivity|].
  exact (recorded_references_point_back example_recording 4
           (GraphicsPipelineEntry 0 0 (state_data example_pipeline_state)) Hw eq_refl).
Defined.

(** ** Resource cache: [UpdateDescriptorSets] at the edges *)

Lemma swap_views_take oldViews : forall newViews st,
  (length oldViews <= length newViews)%nat ->
  swap_views oldViews newViews st = swap_views oldViews (take (length oldViews) newViews) st.
Proof.
  induction oldViews as [|o olds IH]; intros newViews st Hlen; simpl; [done|].
  destruct newViews as [|n news]; simpl in *; [lia|]. apply IH. lia.
Qed.

Lemma swap_views_short oldViews : forall newViews st,
  (length newViews < length oldViews)%nat -> swap_views oldViews newViews st = None.
Proof.
  induction oldViews as [|o olds IH]; intros newViews st Hlen; simpl in *; [lia|].
  destruct newViews as [|n news]; [done|]. simpl in Hlen. apply IH. lia.
Qed.

(** X23: [UpdateDescriptorSets] of the cache at the edges of its input.
    With no old view it does nothing.  With more old views than new views the
    loop reads [newViews] past its end, which is undefined behaviour.  New
    views beyond the number of old views are never read.  When no cached set
    refers to any of the old views the map of sets is left exactly as it
    was and neither a device call nor a diagnostic is made. *)
Theorem UpdateDescriptorSets_edges
    (hash_param : DescriptorSetLayout -> BindingMap VkDescriptorBufferInfo ->
                  BindingMap VkDescriptorImageInfo -> Z)
    (oldViews newViews : list VkHandle) (sets : gmap Z DescriptorSet) :
  UpdateDescriptorSets hash_param [] newViews sets = Some (sets, [], []) /\
  ((length newViews < length oldViews)%nat ->
   UpdateDescriptorSets hash_param oldViews newViews sets = None) /\
  ((length oldViews <= length newViews)%nat ->
   UpdateDescriptorSets hash_param oldViews newViews sets =
   UpdateDescriptorSets hash_param oldViews (take (length oldViews) newViews) sets) /\
  ((length oldViews <= length newViews)%nat ->
   (forall k ds, sets !! k = Some ds -> forall v, v ∈ views_of ds -> v ∉ oldViews) ->
   UpdateDescriptorSets hash_param oldViews newViews sets = Some (sets, [], [])).
Proof.
  unfold UpdateDescriptorSets. split_and!.
  - done.
  - intros Hlen. by rewrite swap_views_short.
  - intros Hlen. by rewrite <- swap_views_take.
  - intros Hlen Hmiss. by rewrite swap_views_miss.
Qed.

(** ** Descriptor pool: more on the probe and on freeing *)

(** X24: the probe of [FindAvailablePool] never goes back: when every
    sub-pool from the search index on is full, a new sub-pool is created,
    with the driver's handle and a counter of zero, whether or not a sub-pool
    before the search index has room. *)
Theorem FindAvailablePool_never_goes_back (create_answer : VkResult * VkHandle)
    (p : DescriptorPool) (searchIndex : nat) :
  fst create_answer = VK_SUCCESS ->
  length (m_poolSetsCount p) = length (m_pools p) ->
  (searchIndex <= length (m_pools p))%nat ->
  (forall j c, (searchIndex <= j)%nat -> m_poolSetsCount p !! j = Some c ->
               m_poolMaxSets p <= c) ->
  FindAvailablePool create_answer p searchIndex =
    Some (set_pools (m_pools p ++ [snd create_answer]) (m_poolSetsCount p ++ [0]) p,
          length (m_pools p),
          [vkCreateDescriptorPool (pool_create_info p)]).
Proof.
  intros Hca Hlen Hidx Hfull.
  destruct (FindAvailablePool_spec create_answer p searchIndex Hca Hlen Hidx)
    as (idx & Hle & _ & [(c & Hc & Hlt & _)|[-> Hfind]]).
  - specialize (Hfull idx c Hle Hc). lia.
  - done.
Qed.

(** X25: a handle can be freed once: after [FreeDescriptorSet] has freed a
    handle the pool knew, a second call with the same handle returns
    [VK_INCOMPLETE], issues no driver call and changes nothing. *)
Theorem FreeDescriptorSet_twice (p : DescriptorPool) (h : VkHandle) (i : nat) :
  pool_wf p -> m_setPoolMapping p !! h = Some i ->
  exists p1 pool,
    FreeDescriptorSet p h = Some (p1, VK_SUCCESS, [vkFreeDescriptorSets pool h]) /\
    m_pools p !! i = Some pool /\ pool_wf p1 /\
    FreeDescriptorSet p1 h = Some (p1, VK_INCOMPLETE, []).
Proof.
  intros Hwf Hh.
  destruct (FreeDescriptorSet_wf p h i Hwf Hh) as (pool & c & Hpool & _ & _ & Hfree & Hwf1).
  eexists _, pool. split; [exact Hfree|]. split; [done|]. split; [done|].
  unfold FreeDescriptorSet at 1. simpl. by rewrite lookup_delete_eq.
Qed.

(** X26: allocating a set and freeing it again brings the bookkeeping
    back: the handle mapping is the one before the allocation, the pool
    invariant holds, so every counter is the number of live handles of its
    sub-pool as before, and the cursor stands at the sub-pool the set came
    from.  A sub-pool created for the allocation stays. *)
Theorem allocate_then_free (create_answer alloc_answer : VkResult * VkHandle)
    (p : DescriptorPool) :
  pool_wf p -> driver_ok p create_answer alloc_answer -> fst alloc_answer = VK_SUCCESS ->
  exists p1 calls p2 pool,
    AllocateDescriptorSet create_answer alloc_answer p = Some (p1, snd alloc_answer, calls) /\
    FreeDescriptorSet p1 (snd alloc_answer) =
      Some (p2, VK_SUCCESS, [vkFreeDescriptorSets pool (snd alloc_answer)]) /\
    m_pools p1 !! m_poolIndex p1 = Some pool /\
    m_setPoolMapping p2 = m_setPoolMapping p /\
    m_pools p2 = m_pools p1 /\ m_poolIndex p2 = m_poolIndex p1 /\
    pool_wf p2 /\
    (forall j c, m_poolSetsCount p2 !! j = Some c ->
       c = Z.of_nat (live_sets (m_setPoolMapping p) j)).
Proof.
  intros Hwf Hok Hs.
  destruct (AllocateDescriptorSet_wf create_answer alloc_answer p Hwf Hok)
    as (p1 & h & calls & Halloc & Hwf1 & Hsucc & _).
  destruct (Hsucc Hs) as [-> Hmap1].
  assert (Hh : m_setPoolMapping p1 !! snd alloc_answer = Some (m_poolIndex p1)).
  { rewrite Hmap1. apply lookup_insert_eq. }
  destruct (FreeDescriptorSet_wf p1 _ _ Hwf1 Hh) as (pool & c & Hpool & _ & _ & Hfree & Hwf2).
  eexists p1, calls, _, pool. split; [done|]. split; [exact Hfree|]. split; [done|].
  assert (Hmap2 : delete (snd alloc_answer) (m_setPoolMapping p1) = m_setPoolMapping p).
  { rewrite Hmap1. apply delete_insert_id. destruct Hok as [_ Hfresh]. by apply Hfresh. }
  simpl. split_and!; try done.
  intros j cj Hj. rewrite <- Hmap2. by apply (wf_count _ Hwf2 j cj).
Qed.

(** ** Resource cache: the last loop of [UpdateDescriptorSets] *)

(** X27: what the last loop of [UpdateDescriptorSets] does with one matched
    set.  When the key of its present contents is its old key, the set stays
    where it was.  When that key is free, the set moves there.  When another
    set already lives under that key, [emplace] inserts nothing and the
    matched set, already erased under its old key, is gone from the map. *)
Theorem rekey_one_set
    (hash_param : DescriptorSetLayout -> BindingMap VkDescriptorBufferInfo ->
                  BindingMap VkDescriptorImageInfo -> Z)
    (sets : gmap Z DescriptorSet) (key : Z) (ds : DescriptorSet) :
  sets !! key = Some ds ->
  exists sets',
    rekey hash_param [key] sets = Some sets' /\
    (new_key hash_param ds = key -> sets' = sets) /\
    (new_key hash_param ds <> key -> sets !! new_key hash_param ds = None ->
       sets' = <[new_key hash_param ds := ds]> (delete key sets)) /\
    (new_key hash_param ds <> key -> is_Some (sets !! new_key hash_param ds) ->
       sets' = delete key sets /\ sets' !! key = None /\
       size sets' = pred (size sets)).
Proof.
  intros Hkey. simpl. rewrite Hkey. eexists. split; [done|]. unfold emplace. split_and!.
  - intros ->. rewrite lookup_delete_eq. rewrite insert_delete_eq. by apply insert_id.
  - intros Hne Hfree. by rewrite lookup_delete_ne, Hfree.
  - intros Hne [other Hother]. rewrite lookup_delete_ne, Hother by done.
    split; [done|]. split; [apply lookup_delete_eq|]. by apply map_size_delete_Some.
Qed.

Lemma FindAvailablePool_never_goes_back_witness :
  m_poolSetsCount example_pool_fragmented = [1; 2] /\
  FindAvailablePool (VK_SUCCESS, 104) example_pool_fragmented 1 =
    Some (set_pools (m_pools example_pool_fragmented ++ [104])
            (m_poolSetsCount example_pool_fragmented ++ [0]) example_pool_fragmented,
          length (m_pools example_pool_fragmented),
          [vkCreateDescriptorPool (pool_create_info example_pool_fragmented)]).
Proof.
  split; [reflexivity|].
  apply (FindAvailablePool_never_goes_back (VK_SUCCESS, 104) example_pool_fragmented 1).
  - reflexivity.
  - reflexivity.
  - apply (proj1 (Nat.leb_le 1 _)). reflexivity.
  - intros j c Hj Hc.
    change (m_poolMaxSets example_pool_fragmented) with 2.
    change (m_poolSetsCount example_pool_fragmented) with [1; 2] in Hc.
    destruct j as [|[|j]]; [lia| |discriminate Hc].
    injection Hc as <-. lia.
Defined.

Lemma FreeDescriptorSet_twice_witness :
  pool_wf example_pool_grown /\ m_setPoolMapping example_pool_grown !! 11 = Some 0%nat /\
  exists p1 pool,
    FreeDescriptorSet example_pool_grown 11 =
      Some (p1, VK_SUCCESS, [vkFreeDescriptorSets pool 11]) /\
    m_pools example_pool_grown !! 0%nat = Some pool /\ pool_wf p1 /\
    FreeDescriptorSet p1 11 = Some (p1, VK_INCOMPLETE, []).
Proof.
  split; [exact example_pool_grown_wf|]. split; [reflexivity|].
  exact (FreeDescriptorSet_twice example_pool_grown 11 0 example_pool_grown_wf eq_refl).
Defined.

Lemma allocate_then_free_witness :
  pool_wf example_pool_grown /\
  driver_ok example_pool_grown (VK_SUCCESS, 103) (VK_SUCCESS, 14) /\
  exists p1 calls p2 pool,
    AllocateDescriptorSet (VK_SUCCESS, 103) (VK_SUCCESS, 14) example_pool_grown =
      Some (p1, 14, calls) /\
    FreeDescriptorSet p1 14 = Some (p2, VK_SUCCESS, [vkFreeDescriptorSets pool 14]) /\
    m_setPoolMapping p2 = m_setPoolMapping example_pool_grown.
Proof.
  assert (Hok : driver_ok example_pool_grown (VK_SUCCESS, 103) (VK_SUCCESS, 14)).
  { split; [reflexivity|]. intros _. reflexivity. }
  split; [exact example_pool_grown_wf|]. split; [exact Hok|].
  destruct (allocate_then_free (VK_SUCCESS, 103) (VK_SUCCESS, 14) example_pool_grown
              example_pool_grown_wf Hok eq_refl)
    as (p1 & calls & p2 & pool & Halloc & Hfree & _ & Hmap & _).
  exists p1, calls, p2, pool. split; [exact Halloc|]. split; [exact Hfree|exact Hmap].
Defined.

Lemma rekey_one_set_witness :
  example_sets !! new_key hash_descriptor_set (image_set 31 300) = Some (image_set 31 300) /\
  exists sets',
    rekey hash_descriptor_set [new_key hash_descriptor_set (image_set 31 300)] example_sets =
      Some sets' /\
    (new_key hash_descriptor_set (image_set 31 300) =
       new_key hash_descriptor_set (image_set 31 300) -> sets' = example_sets).
Proof.
  assert (Hkey : example_sets !! new_key hash_descriptor_set (image_set 31 300) =
                 Some (image_set 31 300)).
  { unfold example_sets. apply lookup_singleton_eq. }
  split; [exact Hkey|].
  destruct (rekey_one_set hash_descriptor_set example_sets _ _ Hkey)
    as (sets' & Hrekey & Hsame & _).
  exists sets'. split; [exact Hrekey|exact Hsame].
Defined.
